(* ===== verification/_CoqProject ===== *)
-Q . S2P
Prelude.v
LinkLib.v
Sample.v
DedupCache.v
Tunnel.v
UdpTunnel.v
UdpTunnelSpec.v
PeerTracker.v
TunnelGateway.v
TunnelGatewaySpec.v
SharedRing.v
ShmTunnel.v
ShmTunnelSpec.v
GatewayCalls.v
Site.v
Network.v
Machine.v
Context.v
Arguments.v
Approvals.v
Controller.v
Program.v
LinkExtender.v
Console.v
