(* ===== verification/Prelude.v ===== *)
(** * Ableton Link Extender: a verification development

    This library models the C++ program "Ableton Link Extender" and proves what
    its parts promise.  The program joins Ableton Link sessions of separate
    networks: on each network interface a gateway listens to the Link peers,
    passes their messages to a tunnel, and represents the peers of the other
    sites by sockets of its own (surrogates); the tunnel carries the messages to
    the other sites over UDP, or to other processes of the same machine through
    shared memory.

    ** The parts and where they are modelled

    Paths are relative to [src/include/ableton/extender/] unless given in full.
    A C++ member function is a definition of the same name; a class is a record
    whose fields have the names of its members.

    - [Prelude.v]: outcomes of C++ code (a value, an exception, undefined
      behaviour), the state monad [M] with its reasoning rules ([wp]), integers
      of a machine width, byte buffers, and the tactics and lemmas that all files
      share.
    - [LinkLib.v]: what the program uses of asio, the operating system and the
      Ableton Link library (a git submodule that is not part of the sources),
      as the classes [Asio] and [Link] of operations and classes of laws that
      state their documented behaviour.  [Sample.v]: an executable instance of
      all of them, on which the witnesses run.
    - [DedupCache.v]: [DedupCache.hpp], the filter of recently forwarded
      messages.
    - [Tunnel.v]: [Tunnel.hpp], the wire format, the filter in front of
      forwarding and the list of gateways.  [GatewayOps] is the interface that
      the tunnels use, [GatewayLaws] what they expect of it; [TunnelOps] is the
      virtual interface of [Tunnel], [TunnelLaws] what the gateways expect of it.
    - [UdpTunnel.v] and [UdpTunnelSpec.v]: [UdpTunnel.hpp].  The first file has
      the operations and their effects, the second the transition system of a
      tunnel in its environment and the theorems.
    - [PeerTracker.v]: the class [PeerTracker] of [TunnelGateway.hpp].
    - [TunnelGateway.v] and [TunnelGatewaySpec.v]: the rest of
      [TunnelGateway.hpp], divided in the same way.  It is an instance of
      [GatewayOps] and satisfies [GatewayLaws].
    - [SharedRing.v], [ShmTunnel.v] and [ShmTunnelSpec.v]: [ShmTunnel.hpp], the
      ring buffers, the tunnel's operations, and one client among others.
    - [GatewayCalls.v]: a tunnel and its gateways calling each other, as
      [Controller.hpp] connects them, for any instance of [TunnelOps].  [Site.v]
      has the instance of the UDP tunnel and puts it over its gateways;
      [Network.v] lets sites exchange the datagrams they send, over a network
      that may lose, repeat and reorder them.  [Machine.v] has the instance of
      the shared-memory tunnel, and the processes of one machine that share one
      memory.
    - [Context.v]: [src/include/ableton/platforms/asio/Context.hpp], the IO
      thread and the sockets.
    - [Arguments.v], [Approvals.v] and [Console.v]: [src/source/main.cpp], the
      command line, the questions about unknown peers with their timers and keys,
      and the terminal with [main] as a whole.
    - [Program.v]: the UDP tunnel together with these questions and their answers.
    - [Controller.v]: [Controller.hpp], the peer counts, the callbacks, the
      choice of the tunnel and the shutdown.
    - [LinkExtender.v]: [src/include/LinkExtender.hpp], which forwards to the
      controller, and the callbacks that [main.cpp] registers with it.

    ** State and operations

    An operation on an object is a computation [M S A]: it takes the object's
    state and gives a [result] and the next state.  What an object calls outside
    of itself is recorded in its state in order: the datagrams a socket is asked
    to send, the calls on the tunnel, the reports to an observer, the jobs posted
    to the IO context.  What such a call answers comes from the environment: the
    sockets of a UDP tunnel play an arbitrary script of successes and exceptions,
    a gateway's sockets may fail to open or to send in any way.  Time is an
    argument of the operations that read a clock.

    Concurrency appears as events.  The IO thread runs one job or callback at a
    time, so a job is one step; the calls that other threads make are steps of
    their own, and a reachable state is one that any sequence of steps leads to.
    A critical section under a mutex is one step; what a thread does after it
    has released the mutex is another: the threads that have taken a question
    from the queue of [Approvals.v] and have yet to call [accept] or [reject]
    are part of the state.  The other processes of a shared-memory tunnel may
    replace the shared memory between any two steps, within what the protocol
    lets them do, also between two turns of the loop in [ShmTunnel::listen]; the
    constructor and the destructor of [ShmTunnel] are one step each.  While
    [main.cpp] registers its callbacks the IO thread already runs: [start] in
    [LinkExtender.v] takes what it does between the statements as arguments.
    What other threads write between two pieces of the main thread's output is a
    script in [Console.v].  The shutdown in [Controller.v] is a step relation of
    two threads whose steps are smaller, because there the order of the accesses
    matters; [Context.v] has the steps of the IO thread, with the asynchronous
    operations that complete at any time.

    ** The theorems

    - Safety: [udp_tunnel_safe], [gateway_safe], [shm_tunnel_safe],
      [pending_peers_answered], and for the compositions [site_safe],
      [network_safe] and [machine_safe] show, for every reachable state and every
      event that can happen, that the handler returns: no exception escapes, no
      iterator dangles, no array is left, and the invariant of the component holds
      again.  [machine_refines] shows that the clients of a machine do what a
      single client assumes of the others.
    - Integrity: in a network of sites everything on the wire is a well-formed
      message ([wire_well_typed]), and what a site hands to its gateways is what
      a gateway of the sender has forwarded ([network_integrity]).
    - What messages do: [peer_state_crosses] follows a message from one site to
      the multicast at another, [shared_peer_state_crosses] from one shared-memory
      client to another; [messages_delivered], [forward_sends],
      [replies_return], [peer_state_forwarded], [discovery_emerges],
      [ping_pong_returns], [goodbye_forwarded], [own_messages_ignored] and
      [shm_messages_delivered] are its stages and its companions.
    - Connections and timeouts: [handshake_converges],
      [connected_only_by_hello], [only_connected_senders_delivered],
      [maintenance_pass], [udp_tunnel_alive], [rejected_not_asked_again],
      [removePeer_routes], [local_nodes_expire], [remote_nodes_expire],
      [silent_node_expires].
    - Refinement of abstract data: [isDuplicate_refines_lru] (a least recently
      used association list), [tracker_refines_map] (a map of deadlines),
      [ring_refines_queue] (a bounded queue), [shm_listen_handles] (a fold over
      the waiting messages); [isDuplicate_unbounded] compares the filter with a
      table without bound.
    - Formats: [encapsulate_decapsulate], [encapsulate_outcomes],
      [args_roundtrip], and [display_aligned] for the status line.
    - The program around it: [stranger_answered] follows an unknown peer from its
      first HELLO over the user's key to the connection or the rejection;
      [peer_counts_current] and [status_current] say when the program displays
      the current numbers, [main_session] describes a run of [main] from its
      arguments to its exit ([main_outcomes] its exit code alone);
      [approvals_in_order] and [unanswered_rejected] (every question is decided
      once), [destroy_runs_all] (closing the IO context),
      [shutdown_safe_unless_reposting], [shm_join].

    Where the code does not do what it means to, the theorem says what it does
    ([removePeer_routes], [encapsulate_outcomes], [shm_join], the last two parts
    of [shutdown_safe_unless_reposting], [status_current]) or an example shows it
    (the modules [UdpFindings] and [ShmFindings], [decapsulate_size_unchecked],
    [port_truncated], [timers_out_of_order], [decided_after_destructor],
    [asked_after_destructor], [early_peers_not_displayed]).

    ** Bounds and fuel

    The loop in [ShmTunnel::listen] is bounded by nothing in the code: other
    processes may push as fast as the client pops.  [shm_tunnel_safe] therefore
    speaks of its turns ([listen_turn]): each that does not end the call leaves
    less to do.  [listen_fuel] (200) bounds the turns of a call that nobody
    interferes with ([ShmTunnel.listen]): a ring holds at most 99 messages, and
    the answers that a client leaves in its own ring, if a message names the
    client itself as its source, are at most one for every two turns
    ([work_bound]); [undisturbed_listen] relates such a call to its turns, and
    [shm_listen_handles] shows that it returns.  [drain] is called with one more than the length of the
    queue, and [approvals_in_order] contains that it finishes.  The thread of
    [Context.v] is a step relation; [destroy_runs_all] bounds its steps.  All
    other recursion is structural.  Integers that wrap in the code wrap in the model
    (the size field of 16 bits, ports, the FNV-1a hash and the ids of 64 bits);
    theorems whose statements depend on it bound the operands.

    ** Hypotheses on messages

    A received datagram has a size field that stays inside the buffer
    ([size_in_buffer]), and a forwarded message leaves room for the header
    ([message_room], [room]): the code checks neither, see
    [decapsulate_size_unchecked] and [encapsulate_outcomes].  Between the sites
    of [Network.v] and the clients of [Machine.v] the first is a theorem; the
    second is left, for what Link programs multicast on the local networks.

    ** Not modelled

    - The Ableton Link library, asio and Boost.Interprocess: the operations used
      are parameters.  The parsers of Link messages, for example, are arbitrary
      functions with the outcomes that their documentation gives.
    - Log output, the text of the approval prompts and the lines that
      [UdpTunnel] prints: they have no effect on the rest.  [Console.v] has the
      output of the main thread, with an arbitrary text of the others in between.
    - The interleaving of the constructors and destructors of [ShmTunnel] in
      different processes: each is one step of [Machine.v], which takes the count
      of clients to be changed by one process at a time.  Nothing in the code
      ensures that; [numbers_shared] shows two constructors in between each other.
    - Lifetimes of shared pointers and of callbacks, except where the shutdown
      depends on them; memory exhaustion; data races on the members that the
      code shares without a lock (a gateway's [is_running] is not atomic).
    - The type alias in [ExtenderConfig.hpp], the Wireshark dissector and the
      tests. *)

#[export] Set Warnings "-clear-no-such-hyp".
From stdpp Require Export base tactics list list_numbers numbers option gmap strings.
From Stdlib Require Export Strings.Byte.

Open Scope Z_scope.

(** ** Control outcomes of the C++ code *)

(** The exception types the code throws or catches.  [RangeError] and
    [SystemError] derive from [std::runtime_error]; [InvalidArgument] and
    [OutOfRange] derive from [std::logic_error]. *)
Inductive cpp_exn :=
  | RuntimeError
  | RangeError
  | SystemError
  | UdpSendException
  | BadCast
  | InvalidArgument
  | OutOfRange.

(** [catch (const std::runtime_error&)] *)
Definition is_runtime_error (e : cpp_exn) : bool :=
  match e with
  | RuntimeError | RangeError | SystemError | UdpSendException => true
  | BadCast | InvalidArgument | OutOfRange => false
  end.

(** The kinds of undefined behaviour the code can run into. *)
Inductive ub_kind :=
  | OutOfBounds        (* read or write outside an array or vector *)
  | DanglingIterator   (* use of an iterator or pointer to a dead element *)
  | EmptyBack          (* back()/front() of an empty container *)
  | EmptyOptional      (* dereference of a disengaged optional *)
  | NullPointer.

(** A run of C++ code returns, throws, or has undefined behaviour. *)
Inductive result (A : Type) :=
  | Ret (a : A)
  | Throw (e : cpp_exn)
  | Undef (u : ub_kind).
Arguments Ret {A} a.
Arguments Throw {A} e.
Arguments Undef {A} u.

#[global] Instance cpp_exn_eq_dec : EqDecision cpp_exn.
Proof. solve_decision. Defined.
#[global] Instance ub_kind_eq_dec : EqDecision ub_kind.
Proof. solve_decision. Defined.
#[global] Instance result_eq_dec `{EqDecision A} : EqDecision (result A).
Proof. solve_decision. Defined.

#[global] Instance result_ret : MRet result := @Ret.
#[global] Instance result_bind : MBind result := λ A B f m,
  match m with Ret a => f a | Throw e => Throw e | Undef u => Undef u end.

(** ** Stateful code

    [M S A] is code over the state [S].  The state survives a throw, as the
    writes made before a [throw] do in C++. *)
Definition M (S A : Type) : Type := S → result A * S.

#[global] Instance M_ret S : MRet (M S) := λ A a s, (Ret a, s).
#[global] Instance M_bind S : MBind (M S) := λ A B f m s,
  match m s with
  | (Ret a, s') => f a s'
  | (Throw e, s') => (Throw e, s')
  | (Undef u, s') => (Undef u, s')
  end.

Definition gets {S A} (f : S → A) : M S A := λ s, (Ret (f s), s).
Definition modify {S} (f : S → S) : M S unit := λ s, (Ret tt, f s).
Definition throw {S A} (e : cpp_exn) : M S A := λ s, (Throw e, s).
Definition undefined {S A} (u : ub_kind) : M S A := λ s, (Undef u, s).
Definition skip {S} : M S unit := mret tt.

(** A pure outcome inside stateful code. *)
Definition lift {S A} (r : result A) : M S A := λ s, (r, s).

(** [try { m } catch (...)]: the handler runs on the exceptions [p] selects. *)
Definition try_catch {S A} (p : cpp_exn → bool) (m : M S A)
    (h : cpp_exn → M S A) : M S A := λ s,
  match m s with
  | (Throw e, s') => if p e then h e s' else (Throw e, s')
  | rs => rs
  end.

(** Code over a part [T] of the state [S]. *)
Definition zoom {S T A} (get : S → T) (set : T → S → S) (m : M T A) : M S A := λ s,
  let '(r, t) := m (get s) in (r, set t s).

(** [for (auto& x : xs) f(x);] *)
Fixpoint for_each {S A} (xs : list A) (f : A → M S unit) : M S unit :=
  match xs with
  | [] => skip
  | x :: xs => f x ≫= λ _, for_each xs f
  end.

(** Weakest precondition: the code has no undefined behaviour, [Q] holds
    where it returns and [E] where it throws. *)
Definition wp {S A} (m : M S A) (s : S) (Q : A → S → Prop)
    (E : cpp_exn → S → Prop) : Prop :=
  match m s with
  | (Ret a, s') => Q a s'
  | (Throw e, s') => E e s'
  | (Undef _, _) => False
  end.

(** [wp m s Q no_throw]: the code returns normally. *)
Definition no_throw {S} (_ : cpp_exn) (_ : S) : Prop := False.


Section wp_rules.
Context {S : Type}.

Lemma wp_ret {A} (a : A) (s : S) (Q : A → S → Prop) E : Q a s → wp (mret a) s Q E.
Proof. done. Qed.

Lemma wp_bind {A B} (m : M S A) (f : A → M S B) (s : S) (Q : B → S → Prop) E :
  wp m s (λ a s', wp (f a) s' Q E) E → wp (m ≫= f) s Q E.
Proof. unfold wp, mbind, M_bind. by destruct (m s) as [[]]. Qed.

Lemma wp_bind_inv {A B} (m : M S A) (f : A → M S B) (s : S) (Q : B → S → Prop) E :
  wp (m ≫= f) s Q E → wp m s (λ a s', wp (f a) s' Q E) E.
Proof. unfold wp, mbind, M_bind. by destruct (m s) as [[]]. Qed.

Lemma wp_gets {A} (f : S → A) (s : S) (Q : A → S → Prop) E :
  Q (f s) s → wp (gets f) s Q E.
Proof. done. Qed.

Lemma wp_modify (f : S → S) (s : S) (Q : unit → S → Prop) E :
  Q tt (f s) → wp (modify f) s Q E.
Proof. done. Qed.

Lemma wp_skip (s : S) (Q : unit → S → Prop) E : Q tt s → wp skip s Q E.
Proof. done. Qed.

Lemma wp_mono {A} (m : M S A) (s : S) (Q Q' : A → S → Prop) (E E' : cpp_exn → S → Prop) :
  wp m s Q E → (∀ a s', Q a s' → Q' a s') → (∀ e s', E e s' → E' e s') →
  wp m s Q' E'.
Proof. unfold wp. destruct (m s) as [[] ?]; naive_solver. Qed.

Lemma wp_try_catch {A} (p : cpp_exn → bool) (m : M S A) h (s : S) (Q : A → S → Prop) (E : cpp_exn → S → Prop) :
  wp m s Q (λ e s', if p e then wp (h e) s' Q E else E e s') →
  wp (try_catch p m h) s Q E.
Proof.
  unfold wp, try_catch. destruct (m s) as [[a|e|u] s']; try done.
  by destruct (p e).
Qed.

Lemma wp_zoom {T A} (get : S → T) (set : T → S → S) (m : M T A) (s : S)
    (Q : A → S → Prop) (E : cpp_exn → S → Prop) :
  wp m (get s) (λ a t, Q a (set t s)) (λ e t, E e (set t s)) →
  wp (zoom get set m) s Q E.
Proof. unfold wp, zoom. by destruct (m (get s)) as [[] t]. Qed.

(** The loop rule: an invariant indexed by the elements still to visit. *)
Lemma wp_for_each {A} (xs : list A) (f : A → M S unit) (s : S)
    (I : list A → S → Prop) E :
  (∀ x xs' s', I (x :: xs') s' → wp (f x) s' (λ _ s'', I xs' s'') E) →
  I xs s → wp (for_each xs f) s (λ _ s', I [] s') E.
Proof.
  intros Hstep. revert s. induction xs as [|x xs IH]; intros s HI; simpl; [done|].
  apply wp_bind. eapply wp_mono; [by apply Hstep| |done].
  intros [] s'. apply IH.
Qed.

Lemma wp_no_throw {A} (m : M S A) (s : S) (Q Q' : A → S → Prop) E :
  wp m s Q no_throw → (∀ a s', Q a s' → Q' a s') → wp m s Q' E.
Proof. intros H HQ. eapply wp_mono; [done|done|by intros e s' []]. Qed.

Lemma for_each_app {A} (xs ys : list A) (f : A → M S unit) (s : S) :
  for_each (xs ++ ys) f s = (for_each xs f ≫= λ _, for_each ys f) s.
Proof.
  revert s. induction xs as [|x xs IH]; intros s; [done|]. simpl.
  unfold mbind, M_bind in *. destruct (f x s) as [[] ?]; [apply IH|done|done].
Qed.

(** From a weakest precondition to the run itself. *)
Lemma returns_run {A} (m : M S A) (s : S) (Q : A → S → Prop) :
  wp m s Q no_throw → ∃ a s', m s = (Ret a, s') ∧ Q a s'.
Proof. unfold wp. destruct (m s) as [[] ?]; [eauto|intros []|done]. Qed.

Lemma wp_run {A} (m : M S A) (s : S) (a : A) (s' : S) (Q : A → S → Prop) E :
  m s = (Ret a, s') → Q a s' → wp m s Q E.
Proof. unfold wp. by intros ->. Qed.

(** Evaluating a run: its outcome determines the pair. *)
Lemma run_outcome {A} (m : M S A) (s : S) (r : result A) :
  (m s).1 = r → m s = (r, (m s).2).
Proof. intros <-. by destruct (m s). Qed.
End wp_rules.

(** ** Frame reasoning

    [respects R m]: whatever the outcome of [m], the state before and after are
    related by [R].  For a preorder [R] this composes, so a property of the
    state that every primitive write keeps is kept by the whole program. *)
Definition respects {S A} (R : S → S → Prop) (m : M S A) : Prop := ∀ s, R s (m s).2.

Section respects_rules.
Context {S : Type} (R : S → S → Prop) {PR : PreOrder R}.

Lemma respects_ret {A} (a : A) : respects R (mret a).
Proof. intros s. reflexivity. Qed.
Lemma respects_gets {A} (f : S → A) : respects R (gets f).
Proof. intros s. reflexivity. Qed.
Lemma respects_lift {A} (r : result A) : respects R (lift r).
Proof. intros s. reflexivity. Qed.
Lemma respects_undefined {A} u : respects R (undefined (A:=A) u).
Proof. intros s. reflexivity. Qed.
Lemma respects_throw {A} e : respects R (throw (A:=A) e).
Proof. intros s. reflexivity. Qed.
Lemma respects_modify (f : S → S) : (∀ s, R s (f s)) → respects R (modify f).
Proof. intros Hf s. apply Hf. Qed.
Lemma respects_bind {A B} (m : M S A) (f : A → M S B) :
  respects R m → (∀ a, respects R (f a)) → respects R (m ≫= f).
Proof.
  intros Hm Hf s. specialize (Hm s). unfold mbind, M_bind.
  destruct (m s) as [[a|e|u] s']; simpl in *; [|done|done]. etrans; [done|apply Hf].
Qed.
Lemma respects_try_catch {A} (p : cpp_exn → bool) (m : M S A) h :
  respects R m → (∀ e, respects R (h e)) → respects R (try_catch p m h).
Proof.
  intros Hm Hh s. specialize (Hm s). unfold try_catch.
  destruct (m s) as [[a|e|u] s']; simpl in *; try done.
  destruct (p e); [|done]. etrans; [done|apply Hh].
Qed.
Lemma respects_zoom {T A} (get : S → T) (set : T → S → S) (m : M T A) :
  (∀ s t, R s (set t s)) → respects R (zoom get set m).
Proof. intros Hs s. unfold zoom. destruct (m (get s)) as [r t]. apply Hs. Qed.
Lemma respects_for_each {A} (xs : list A) (f : A → M S unit) :
  (∀ x, respects R (f x)) → respects R (for_each xs f).
Proof.
  intros Hf. induction xs as [|x xs IH]; simpl; [apply respects_ret|].
  by apply respects_bind.
Qed.
End respects_rules.

(** [respects_steps] walks over the structure of a program and leaves the
    primitive writes. *)
Ltac respects_step :=
  lazymatch goal with
  | |- respects _ (mbind _ _) => apply respects_bind; [apply _| |intros ?]
  | |- respects _ (mret _) => apply respects_ret; apply _
  | |- respects _ skip => apply respects_ret; apply _
  | |- respects _ (gets _) => apply respects_gets; apply _
  | |- respects _ (lift _) => apply respects_lift; apply _
  | |- respects _ (undefined _) => apply respects_undefined; apply _
  | |- respects _ (throw _) => apply respects_throw; apply _
  | |- respects _ (modify _) => apply respects_modify
  | |- respects _ (try_catch _ _ _) => apply respects_try_catch; [apply _| |intros ?]
  | |- respects _ (zoom _ _ _) => apply respects_zoom
  | |- respects _ (for_each _ _) => apply respects_for_each; [apply _|intros ?]
  | |- respects _ (match ?x with _ => _ end) => destruct x
  | |- respects _ ((match ?x with _ => _ end) _) => destruct x
  end.
Ltac respects_steps := repeat (respects_step; cbn beta iota).

(** [wp_step] applies the rule of the head construct. *)
Ltac wp_step :=
  lazymatch goal with
  | |- wp (mbind _ _) _ _ _ => apply wp_bind
  | |- wp (mret _) _ _ _ => apply wp_ret
  | |- wp (gets _) _ _ _ => apply wp_gets
  | |- wp (modify _) _ _ _ => apply wp_modify
  | |- wp skip _ _ _ => apply wp_skip
  | |- wp (try_catch _ _ _) _ _ _ => apply wp_try_catch
  | |- wp (zoom _ _ _) _ _ _ => apply wp_zoom
  end.
Ltac wp_steps := repeat (wp_step; cbn beta).

(** ** Fixed-size byte buffers: [std::array<uint8_t, N>] *)

(** Writing [bs] at offset [off]: undefined when it leaves the array. *)
Definition write_at (buf : list byte) (off : nat) (bs : list byte) : result (list byte) :=
  if decide (off + length bs ≤ length buf)%nat
  then Ret (take off buf ++ bs ++ drop (off + length bs) buf)
  else Undef OutOfBounds.

(** A cursor: a buffer and the offset of the next write. *)
Definition put_bytes (bs : list byte) (it : list byte * nat) : result (list byte * nat) :=
  buf ← write_at it.1 it.2 bs; mret (buf, it.2 + length bs)%nat.

Definition zero_buffer (n : nat) : list byte := replicate n Byte.x00.

(** A buffer of size [n] that starts with [pre] and is zero beyond. *)
Definition filled (n : nat) (pre : list byte) : list byte :=
  pre ++ zero_buffer (n - length pre).

Lemma length_filled n pre : (length pre ≤ n)%nat → length (filled n pre) = n.
Proof. intros. unfold filled, zero_buffer. rewrite length_app, length_replicate. lia. Qed.

Lemma write_at_filled n pre bs :
  (length pre + length bs ≤ n)%nat →
  write_at (filled n pre) (length pre) bs = Ret (filled n (pre ++ bs)).
Proof.
  intros Hn. unfold write_at. rewrite length_filled by lia. rewrite decide_True by lia.
  f_equal. unfold filled, zero_buffer. rewrite take_app_length, drop_app_add.
  rewrite drop_replicate, length_app, <-app_assoc. do 3 f_equal. lia.
Qed.

Lemma write_at_overflow buf off bs :
  (length buf < off + length bs)%nat → write_at buf off bs = Undef OutOfBounds.
Proof. intros. unfold write_at. by rewrite decide_False by lia. Qed.

Lemma put_bytes_filled n pre bs :
  (length pre + length bs ≤ n)%nat →
  put_bytes bs (filled n pre, length pre) = Ret (filled n (pre ++ bs), length (pre ++ bs)).
Proof.
  intros Hn. unfold put_bytes. simpl. rewrite write_at_filled by done.
  simpl. by rewrite length_app.
Qed.

Lemma put_bytes_overflow n pre bs :
  (length pre ≤ n < length pre + length bs)%nat →
  put_bytes bs (filled n pre, length pre) = Undef OutOfBounds.
Proof.
  intros Hn. unfold put_bytes. simpl. rewrite write_at_overflow; [done|].
  rewrite length_filled; lia.
Qed.

(** ** Machine integers *)

Definition wrap (w : Z) (x : Z) : Z := x mod 2 ^ w.
Abbreviation to_uint16 := (wrap 16).
Abbreviation to_uint64 := (wrap 64).

Definition byte_to_Z (b : byte) : Z := Z.of_N (Byte.to_N b).

(** ** Time: [std::chrono] durations and time points, in nanoseconds *)
Definition seconds (n : Z) : Z := n * 1000000000.
Definition milliseconds (n : Z) : Z := n * 1000000.

#[global] Instance byte_eq_dec : EqDecision byte := Byte.byte_eq_dec.
#[global] Program Instance byte_countable : Countable byte :=
  inj_countable Byte.to_N Byte.of_N Byte.of_to_N.

(** ** List lemmas *)

Section lists.
Context {A : Type}.
Implicit Types (l : list A) (x : A).

Lemma filter_true (P : A → Prop) `{!∀ x, Decision (P x)} l :
  Forall P l → filter P l = l.
Proof. induction 1; [done|]. rewrite filter_cons_True; congruence. Qed.

Lemma filter_false (P : A → Prop) `{!∀ x, Decision (P x)} l :
  Forall (λ x, ¬ P x) l → filter P l = [].
Proof. induction 1; [done|]. by rewrite filter_cons_False. Qed.

Lemma fmap_id_Forall (f : A → A) l : Forall (λ x, f x = x) l → f <$> l = l.
Proof. induction 1; csimpl; congruence. Qed.
End lists.

(** Association lists, most recent binding first. *)
Section assoc.
Context {K : Type} `{EqDecision K} {V : Type}.
Implicit Types (l : list (K * V)) (k : K).

Definition assoc k l : option V := snd <$> head (filter (λ p, p.1 = k) l).
Definition assoc_remove k l : list (K * V) := filter (λ p, p.1 ≠ k) l.

Lemma assoc_None k l : assoc k l = None ↔ k ∉ l.*1.
Proof.
  unfold assoc. rewrite fmap_None, head_None. induction l as [|[k' v] l IH]; csimpl.
  { split; [intros _ Hin; inv Hin|done]. }
  destruct (decide (k' = k)) as [->|Hne].
  - rewrite filter_cons_True by done. rewrite not_elem_of_cons. simpl. split; [done|]. by intros [].
  - rewrite filter_cons_False by done. rewrite IH, not_elem_of_cons. simpl.
    split; [|by intros []]. intros ?. split; congruence.
Qed.

Lemma assoc_cons k k' v l :
  assoc k ((k', v) :: l) = if decide (k' = k) then Some v else assoc k l.
Proof.
  unfold assoc. rewrite filter_cons. simpl. by destruct (decide (k' = k)).
Qed.

Lemma assoc_Some_elem k v l : assoc k l = Some v → (k, v) ∈ l.
Proof.
  induction l as [|[k' v'] l IH]; [done|]. rewrite assoc_cons.
  destruct (decide (k' = k)); set_solver.
Qed.

Lemma elem_assoc_Some k v l : NoDup l.*1 → (k, v) ∈ l → assoc k l = Some v.
Proof.
  induction l as [|[k' v'] l IH]; csimpl; intros Hnd Hin; [by inv Hin|].
  apply NoDup_cons in Hnd as [Hk Hnd]. rewrite assoc_cons.
  apply elem_of_cons in Hin as [[= -> ->]|Hin]; [by rewrite decide_True|].
  rewrite decide_False; [by apply IH|]. intros ->. apply Hk.
  apply list_elem_of_fmap. by exists (k, v).
Qed.

Lemma assoc_remove_ne k k' l : k ≠ k' → assoc k (assoc_remove k' l) = assoc k l.
Proof.
  intros Hne. unfold assoc_remove. induction l as [|[k'' v] l IH]; [done|].
  rewrite filter_cons, (assoc_cons k k''). simpl.
  destruct (decide (k'' ≠ k')) as [Hk|Hk].
  - rewrite assoc_cons. by rewrite IH.
  - apply dec_stable in Hk as ->. by rewrite IH, decide_False by done.
Qed.

Lemma assoc_remove_keys k l : (assoc_remove k l).*1 = filter (.≠ k) l.*1.
Proof.
  unfold assoc_remove. induction l as [|[k' v] l IH]; csimpl; [done|].
  rewrite !filter_cons; simpl. destruct (decide (k' ≠ k)); csimpl; congruence.
Qed.
End assoc.

(** [l] is made of [l1] and [l2], each in its order. *)
Inductive interleaved {A} : list A → list A → list A → Prop :=
  | interleaved_nil : interleaved [] [] []
  | interleaved_first x l1 l2 l : interleaved l1 l2 l → interleaved (x :: l1) l2 (x :: l)
  | interleaved_second x l1 l2 l : interleaved l1 l2 l → interleaved l1 (x :: l2) (x :: l).

Lemma interleaved_app {A} (k1 k2 k l1 l2 l : list A) :
  interleaved k1 k2 k → interleaved l1 l2 l → interleaved (k1 ++ l1) (k2 ++ l2) (k ++ l).
Proof. intros Hk Hl. by induction Hk; simpl; [|constructor..]. Qed.

Lemma interleaved_right {A} (l : list A) : interleaved [] l l.
Proof. induction l; by constructor. Qed.

Lemma interleaved_left {A} (l : list A) : interleaved l [] l.
Proof. induction l; by constructor. Qed.

(** ** Evaluation of closed goals *)

(** An equation whose right-hand side is the value of its left-hand side. *)
Ltac evaluate :=
  try match goal with |- ?G => lazymatch G with @eq _ _ _ => fail | _ => hnf end end;
  match goal with |- @eq ?T _ ?v => vm_cast_no_check (@eq_refl T v) end.
(** A decidable proposition that evaluates to true. *)
Ltac decide_now := apply (bool_decide_unpack _); vm_cast_no_check I.

Create HintDb ale discriminated.
