(* ===== verification/LinkLib.v ===== *)
(** * The code the extender calls but does not contain

    The Ableton Link library (a git submodule), asio and the operating
    system are not part of the repository.  This file names what the extender
    uses of them as two type classes of operations, [Asio] and [Link], and
    states the documented behaviour the theorems rely on as separate classes
    of laws.  [Sample.v] instantiates all of them. *)

From S2P Require Import Prelude.

(** ** Byte streams: [ableton::discovery::toNetworkByteStream] and
    [Deserialize<T>::fromNetworkByteStream] *)

Class NetworkByteStream (A : Type) := {
  toNetworkByteStream : A → list byte;
  fromNetworkByteStream : list byte → result (A * list byte);
  sizeInByteStream : A → nat;
}.

(** A type serialised to a fixed number of bytes.  Reading from a stream that
    is too short throws [std::range_error]. *)
Class FixedSizeStream (A : Type) `{NetworkByteStream A} (valid : A → Prop) (size : nat) : Prop := {
  stream_size a : sizeInByteStream a = size;
  stream_length a : length (toNetworkByteStream a) = size;
  stream_roundtrip a rest :
    valid a → fromNetworkByteStream (toNetworkByteStream a ++ rest) = Ret (a, rest);
  stream_total bs :
    (size ≤ length bs)%nat →
    ∃ a, valid a ∧ fromNetworkByteStream bs = Ret (a, drop size bs);
  stream_short bs :
    (length bs < size)%nat → fromNetworkByteStream bs = Throw RangeError;
}.

(** ** asio: addresses and UDP endpoints *)

Class Asio := {
  Address : Type;
  Address_eq_dec :: EqDecision Address;
  UdpEndpoint : Type;
  UdpEndpoint_eq_dec :: EqDecision UdpEndpoint;
  UdpEndpoint_countable :: Countable UdpEndpoint;
  default_endpoint : UdpEndpoint;                 (* UdpEndpoint{} *)
  make_endpoint : Address → Z → UdpEndpoint;      (* UdpEndpoint{addr, port} *)
  address : UdpEndpoint → Address;
  port : UdpEndpoint → Z;
  is_v4 : Address → bool;
  is_v6 : Address → bool;
  is_loopback : Address → bool;
  any_v4 : Address;                               (* address_v4::any() *)
  any_v6 : Address;
  to_v6 : Address → result Address;               (* throws on an IPv4 address *)
  scope_id : Address → Z;
  with_scope_id : Z → Address → Address;
  address_to_string : Address → string;
  Network : Type;
  make_network_v4 : Address → Z → Network;
  is_subnet_of : Network → Network → bool;
  make_address : string → option Address;         (* None: the error code is set *)
  resolve : string → string → option (list UdpEndpoint);
}.

(** An endpoint is its address and its 16-bit port; the textual form of an
    address determines the address; every address is IPv4 or IPv6, and an IPv6
    address converts to itself. *)
Class AsioLaws `{Asio} : Prop := {
  endpoint_ext e1 e2 : address e1 = address e2 → port e1 = port e2 → e1 = e2;
  port_range e : 0 ≤ port e < 2 ^ 16;
  address_to_string_inj : Inj (=) (=) address_to_string;
  is_v6_not_v4 a : is_v6 a = negb (is_v4 a);
  to_v6_outcome a : to_v6 a = if is_v4 a then Throw BadCast else Ret a;
}.

(** ** Ableton Link: node identifiers, messages and peer states *)

Class Link `{Asio} := {
  NodeId : Type;
  NodeId_eq_dec :: EqDecision NodeId;
  NodeId_countable :: Countable NodeId;
  NodeId_zero : NodeId;                           (* NodeId{} *)
  NodeId_random : nat → NodeId;                   (* the n-th NodeId::random() *)
  kMaxMessageSize : nat;                          (* discovery::v1::kMaxMessageSize *)
  stream_uint8 :: NetworkByteStream byte;
  stream_uint16 :: NetworkByteStream Z;
  stream_NodeId :: NetworkByteStream NodeId;

  (* discovery::v1 messages *)
  StateHeader : Type;
  sh_messageType : StateHeader → byte;
  sh_ttl : StateHeader → byte;
  sh_ident : StateHeader → NodeId;
  parseMessageHeader : list byte → result (StateHeader * list byte);
  kAlive : byte;
  kResponse : byte;
  kByeBye : byte;
  PeerState : Type;
  ps_ident : PeerState → NodeId;
  ps_endpoint : PeerState → UdpEndpoint;
  fromPayload : NodeId → list byte → result PeerState;

  (* link::v1 measurement messages *)
  MeasurementHeader : Type;
  mh_messageType : MeasurementHeader → byte;
  parseMeasurementHeader : list byte → result (MeasurementHeader * list byte);
  kPing : byte;

  (* measurement endpoint payload entries *)
  payloadEntryHeaderSize : nat;
  measurementEndpointV4Size : UdpEndpoint → nat;
  measurementEndpointV6Size : UdpEndpoint → nat;
  measurementPayload : UdpEndpoint → list byte;   (* makePayload(V4{ep}) + makePayload(V6{ep}) *)
  measurementPayloadSize : UdpEndpoint → nat;     (* its sizeInByteStream *)

  multicastEndpointV4 : UdpEndpoint;
  multicastEndpointV6 : Z → UdpEndpoint;
}.

Abbreviation valid_uint16 := (λ z : Z, 0 ≤ z < 2 ^ 16).

(** The three serialised types have fixed sizes, and a message buffer holds
    the largest tunnel header with room for eight more bytes. *)
Class LinkLaws `{Link} (node_size : nat) : Prop := {
  laws_uint8 :: FixedSizeStream byte (λ _, True) 1;
  laws_uint16 :: FixedSizeStream Z valid_uint16 2;
  laws_NodeId :: FixedSizeStream NodeId (λ _, True) node_size;
  kMax_header : (3 + node_size + node_size + 8 ≤ kMaxMessageSize)%nat;
  kMax_uint16 : Z.of_nat kMaxMessageSize < 2 ^ 16;
}.

(** Message types are pairwise distinct. *)
Class MessageTypeLaws `{Link} : Prop := {
  kAlive_kByeBye : kAlive ≠ kByeBye;
  kResponse_kByeBye : kResponse ≠ kByeBye;
}.

(** The bytes of a measurement endpoint entry. *)
Definition entry_size `{Link} (e : UdpEndpoint) : nat :=
  payloadEntryHeaderSize + measurementEndpointV4Size e + measurementEndpointV6Size e.

(** What the gateway relies on of Link messages and constants.  Headers are
    parsed without exceptions (a short or foreign message gives a default
    header); a peer state parses or a [std::runtime_error] is thrown; in a
    message that announces a peer state there is room for the measurement endpoint
    entry of that state; a payload takes no more bytes than its size in a byte
    stream says, which counts the headers of entries that are left out; the IPv4
    multicast group is an IPv4 endpoint. *)
Class ParseLaws `{Link} : Prop := {
  parseMessageHeader_total bs : ∃ h rest, parseMessageHeader bs = Ret (h, rest);
  parseMeasurementHeader_total bs : ∃ h rest, parseMeasurementHeader bs = Ret (h, rest);
  fromPayload_outcome id bs :
    (∃ st, fromPayload id bs = Ret st ∧ ps_ident st = id) ∨
    (∃ e, fromPayload id bs = Throw e ∧ is_runtime_error e = true);
  fromPayload_entry bs h rest id st :
    parseMessageHeader bs = Ret (h, rest) →
    sh_messageType h = kAlive ∨ sh_messageType h = kResponse →
    fromPayload id rest = Ret st →
    (entry_size (ps_endpoint st) ≤ length bs)%nat;
  measurementPayload_size e : (length (measurementPayload e) ≤ measurementPayloadSize e)%nat;
  multicastEndpointV4_is_v4 : is_v4 (address multicastEndpointV4) = true;
}.
