(* ===== verification/Sample.v ===== *)
(** * A concrete instance of the external code

    A small executable implementation of the interfaces of [LinkLib.v]: one
    byte per node identifier, addresses as integers, ports as bytes,
    big-endian 16-bit integers and a 64-byte message buffer.  It satisfies
    every law class, so no theorem that assumes the laws is vacuous, and it
    evaluates, so the witnesses of the theorems compute. *)

From stdpp Require Import pretty.
From S2P Require Import Prelude LinkLib.

Module Sample.

(** ** Byte streams *)

Definition byte_of_Z (z : Z) : byte :=
  default Byte.x00 (Byte.of_N (Z.to_N (z mod 256))).

#[export] Instance stream_byte : NetworkByteStream byte := {|
  toNetworkByteStream b := [b];
  fromNetworkByteStream bs :=
    match bs with b :: bs => Ret (b, bs) | [] => Throw RangeError end;
  sizeInByteStream _ := 1%nat;
|}.

#[export] Instance stream_Z16 : NetworkByteStream Z := {|
  toNetworkByteStream z := [byte_of_Z (z / 256); byte_of_Z z];
  fromNetworkByteStream bs :=
    match bs with
    | b1 :: b2 :: bs => Ret (256 * byte_to_Z b1 + byte_to_Z b2, bs)
    | _ => Throw RangeError
    end;
  sizeInByteStream _ := 2%nat;
|}.

(** ** Addresses and endpoints; addresses from 256 on stand for IPv6 *)

Definition known_addresses : list (string * Z) := [("10", 10); ("20", 20); ("300", 300)].
Definition known_hosts : list (string * Z) := [("studio", 30)].

#[export] Instance asio : Asio := {|
  Address := Z;
  UdpEndpoint := Z * byte;
  default_endpoint := (0, Byte.x00);
  make_endpoint a p := (a, byte_of_Z p);
  address e := e.1;
  port e := byte_to_Z e.2;
  is_v4 a := bool_decide (a < 256);
  is_v6 a := negb (bool_decide (a < 256));
  is_loopback a := bool_decide (a = 127);
  any_v4 := 0;
  any_v6 := 256;
  to_v6 a := if decide (a < 256) then Throw BadCast else Ret a;
  scope_id a := 0;
  with_scope_id s a := a;
  address_to_string := pretty;
  Network := Z * Z;
  make_network_v4 a n := (a, n);
  is_subnet_of n1 n2 := bool_decide (n1.1 / 16 = n2.1 / 16);
  make_address s := assoc s known_addresses;
  resolve h p := (λ a, [(a, Byte.x09)]) <$> assoc h known_hosts;
|}.

(** ** Link messages: type, ttl and ident bytes, then the payload; a state
    payload ends in a four-byte measurement endpoint entry *)

#[export] Instance link : Link := {|
  NodeId := byte;
  NodeId_zero := Byte.x00;
  NodeId_random n := byte_of_Z (200 + Z.of_nat n);
  kMaxMessageSize := 64%nat;
  StateHeader := byte * byte * byte;
  sh_messageType h := h.1.1;
  sh_ttl h := h.1.2;
  sh_ident h := h.2;
  parseMessageHeader bs :=
    match bs with
    | ty :: ttl :: id :: bs => Ret ((ty, ttl, id), bs)
    | _ => Ret ((Byte.x00, Byte.x00, Byte.x00), bs)
    end;
  kAlive := Byte.x01;
  kResponse := Byte.x02;
  kByeBye := Byte.x03;
  PeerState := byte * (Z * byte);
  ps_ident := fst;
  ps_endpoint := snd;
  fromPayload id bs :=
    match drop (length bs - 4) bs with
    | [_; _; a; p] => Ret (id, (byte_to_Z a, p))
    | _ => Throw RangeError
    end;
  MeasurementHeader := byte;
  mh_messageType := id;
  parseMeasurementHeader bs :=
    match bs with ty :: bs => Ret (ty, bs) | [] => Ret (Byte.x00, []) end;
  kPing := Byte.x01;
  payloadEntryHeaderSize := 2%nat;
  measurementEndpointV4Size _ := 2%nat;
  measurementEndpointV6Size _ := 0%nat;
  measurementPayload e := [Byte.x6d; Byte.x65; byte_of_Z e.1; e.2];
  measurementPayloadSize _ := 6%nat;
  multicastEndpointV4 := (224, Byte.x14);
  multicastEndpointV6 _ := (300, Byte.x14);
|}.

(** ** The laws hold *)

Lemma byte_to_Z_range b : 0 ≤ byte_to_Z b < 256.
Proof.
  unfold byte_to_Z. pose proof (Byte.to_N_bounded b). lia.
Qed.

Lemma byte_to_Z_of_Z z : byte_to_Z (byte_of_Z z) = z mod 256.
Proof.
  pose proof (Z.mod_pos_bound z 256 eq_refl). unfold byte_to_Z, byte_of_Z.
  destruct (Byte.of_N _) as [b|] eqn:Hb; simpl.
  - apply Byte.to_of_N in Hb. rewrite Hb. lia.
  - apply Byte.of_N_None_iff in Hb. lia.
Qed.

Lemma byte_to_Z_inj b1 b2 : byte_to_Z b1 = byte_to_Z b2 → b1 = b2.
Proof.
  unfold byte_to_Z. intros Heq. assert (Byte.to_N b1 = Byte.to_N b2) as HN by lia.
  apply (f_equal Byte.of_N) in HN. rewrite !Byte.of_to_N in HN. congruence.
Qed.

#[export] Instance asio_laws : AsioLaws.
Proof.
  split.
  - intros [a1 p1] [a2 p2]; simpl. intros -> ->%byte_to_Z_inj. done.
  - intros [a p]; simpl. pose proof (byte_to_Z_range p). lia.
  - apply pretty_Z_inj.
  - done.
  - intros a. simpl. rewrite bool_decide_decide. by destruct (decide (a < 256)).
Qed.

#[export] Instance link_laws : LinkLaws 1.
Proof.
  split; [| | |simpl; lia|simpl; lia].
  - split; try done; intros [|b bs]; simpl; try lia; intros _; eauto.
  - split; try done.
    + intros a rest Ha. simpl. f_equal. f_equal. rewrite !byte_to_Z_of_Z.
      rewrite (Z.mod_small (a / 256)); [|split; [apply Z.div_pos|apply Z.div_lt_upper_bound]; lia].
      symmetry. apply Z.div_mod. lia.
    + intros [|b1 [|b2 bs]]; simpl; try lia. intros _. eexists. split; [|done].
      pose proof (byte_to_Z_range b1). pose proof (byte_to_Z_range b2). lia.
    + intros [|b1 [|b2 bs]]; simpl; intros; [done|done|lia].
  - split; try done; intros [|b bs]; simpl; try lia; intros _; eauto.
Qed.

#[export] Instance message_type_laws : MessageTypeLaws.
Proof. by split. Qed.

#[export] Instance parse_laws : ParseLaws.
Proof.
  split.
  - intros [|b1 [|b2 [|b3 bs]]]; simpl; eauto.
  - intros [|b bs]; simpl; eauto.
  - intros id bs. simpl.
    destruct (drop _ bs) as [|b1 [|b2 [|b3 [|b4 [|b5 l]]]]]; eauto 10.
  - intros bs h rest id st Hh _. simpl. unfold entry_size. simpl.
    assert (length rest ≤ length bs)%nat as Hlen.
    { destruct bs as [|b1 [|b2 [|b3 bs]]]; simpl in Hh; injection Hh as <- <-; simpl; lia. }
    destruct (drop (length rest - 4) rest) as [|b1 [|b2 [|b3 [|b4 [|b5 l]]]]] eqn:Hd; try done.
    intros _. apply (f_equal length) in Hd. rewrite length_drop in Hd. simpl in Hd. lia.
  - intros e. simpl. lia.
  - done.
Qed.

End Sample.
