(* ===== verification/DedupCache.v ===== *)
(** * DedupCache.hpp: the bounded LRU of recently forwarded messages

    [std::list<Entry>] is a list of nodes, each with the identity its
    iterators keep through [splice]; [mIndex] maps a key to the identity of
    its node.  The file proves that the cache implements a least-recently-used
    association list and, over whole runs, when a message is suppressed. *)

From S2P Require Import Prelude LinkLib Sample.

(** [std::tuple<uint8_t, NodeId, uint64_t>] *)
Abbreviation Key := (byte * NodeId * Z)%type.
(** A [std::list<Entry>::iterator]: the identity of a list node. *)
Abbreviation iterator := nat.
(** A query [(type, from_node, payload, now)] to the cache. *)
Abbreviation query := (byte * NodeId * list byte * Z)%type.
Abbreviation lru := (list (Key * Z)).

Section definitions.
Context {AS : Asio} {LK : Link}.

Record Entry := mkEntry { key : Key; timestamp : Z }.

Record DedupCache := mkDedupCache {
  mCapacity : nat;
  mWindow : Z;
  mEntries : list (iterator * Entry);
  mIndex : gmap Key iterator;
  next_node : iterator;                    (* the identity of the next node allocated *)
}.

Definition kDedupWindow : Z := milliseconds 50.
Definition kDedupCacheCapacity : nat := 256.

Definition new_DedupCache (capacity : nat) (window : Z) : DedupCache :=
  mkDedupCache capacity window [] ∅ 0%nat.

Definition kOffset : Z := 14695981039346656037.
Definition kPrime : Z := 1099511628211.

Definition fnv1a64 (bytes : list byte) : Z :=
  foldl (λ h b, to_uint64 (Z.lxor h (byte_to_Z b) * kPrime)) kOffset bytes.

(** [*it]: the entry of the node, if the node is still in the list. *)
Definition deref (it : iterator) (l : list (iterator * Entry)) : option Entry :=
  snd <$> head (filter (λ n, n.1 = it) l).

(** [mEntries.splice(mEntries.begin(), mEntries, it)] *)
Definition splice_front (it : iterator) (l : list (iterator * Entry)) :
    list (iterator * Entry) :=
  filter (λ n, n.1 = it) l ++ filter (λ n, n.1 ≠ it) l.

(** [it->timestamp = now] *)
Definition set_timestamp (it : iterator) (now : Z) (l : list (iterator * Entry)) :
    list (iterator * Entry) :=
  (λ n, if decide (n.1 = it) then (n.1, mkEntry (key n.2) now) else n) <$> l.

Definition upd_mEntries f (c : DedupCache) : DedupCache :=
  mkDedupCache (mCapacity c) (mWindow c) (f (mEntries c)) (mIndex c) (next_node c).
Definition upd_mIndex f (c : DedupCache) : DedupCache :=
  mkDedupCache (mCapacity c) (mWindow c) (mEntries c) (f (mIndex c)) (next_node c).

(** [mEntries.pop_back()] after erasing the last key from the index. *)
Definition evict_back : M DedupCache unit :=
  es ← gets mEntries;
  match last es with
  | None => undefined EmptyBack
  | Some (_, e) =>
      modify (upd_mIndex (delete (key e)));;
      modify (upd_mEntries (λ l, take (length l - 1) l))
  end.

(** [mEntries.push_front(e)], returning [mEntries.begin()]. *)
Definition push_front (e : Entry) : M DedupCache iterator :=
  it ← gets next_node;
  modify (λ c, mkDedupCache (mCapacity c) (mWindow c) ((it, e) :: mEntries c)
                 (mIndex c) (S it));;
  mret it.

Definition isDuplicate (type : byte) (from_node : NodeId) (bytes : list byte) (now : Z) :
    M DedupCache bool :=
  let k : Key := (type, from_node, fnv1a64 bytes) in
  index ← gets mIndex;
  match index !! k with
  | Some it =>
      es ← gets mEntries;
      match deref it es with
      | None => undefined DanglingIterator
      | Some e =>
          window ← gets mWindow;
          let fresh := bool_decide (now - timestamp e < window) in
          modify (upd_mEntries (splice_front it));;
          if fresh : bool then mret true
          else modify (upd_mEntries (set_timestamp it now));; mret false
      end
  | None =>
      full ← gets (λ c, bool_decide (mCapacity c ≤ length (mEntries c))%nat);
      (if full : bool then evict_back else skip);;
      it ← push_front (mkEntry k now);
      modify (upd_mIndex <[k := it]>);;
      mret false
  end.

Definition query_key (q : query) : Key :=
  let '(ty, n, bs, _) := q in (ty, n, fnv1a64 bs).
Definition query_time (q : query) : Z := q.2.
Definition ask (q : query) : M DedupCache bool :=
  let '(ty, n, bs, now) := q in isDuplicate ty n bs now.
Fixpoint ask_all (qs : list query) : M DedupCache (list bool) :=
  match qs with
  | [] => mret []
  | q :: qs => v ← ask q; vs ← ask_all qs; mret (v :: vs)
  end.
End definitions.

(** ** The abstract cache: a least-recently-used association list *)

Section specification.
Context {AS : Asio} {LK : Link}.

(** One query on an LRU of capacity [cap] and window [w]. *)
Definition lru_ask (cap : nat) (w : Z) (k : Key) (now : Z) (l : lru) : bool * lru :=
  match assoc k l with
  | Some ts =>
      if bool_decide (now - ts < w) then (true, (k, ts) :: assoc_remove k l)
      else (false, (k, now) :: assoc_remove k l)
  | None => (false, (k, now) :: take (cap - 1) l)
  end.

Fixpoint lru_ask_all (cap : nat) (w : Z) (qs : list query) (l : lru) : list bool * lru :=
  match qs with
  | [] => ([], l)
  | q :: qs =>
      let '(v, l') := lru_ask cap w (query_key q) (query_time q) l in
      let '(vs, l'') := lru_ask_all cap w qs l' in
      (v :: vs, l'')
  end.

(** The cache without a capacity: the time each key was last let through. *)
Definition anchors_ask (w : Z) (k : Key) (now : Z) (m : gmap Key Z) : bool * gmap Key Z :=
  match m !! k with
  | Some ts => if bool_decide (now - ts < w) then (true, m) else (false, <[k := now]> m)
  | None => (false, <[k := now]> m)
  end.
Fixpoint anchors_ask_all (w : Z) (qs : list query) (m : gmap Key Z) : list bool :=
  match qs with
  | [] => []
  | q :: qs =>
      let '(v, m') := anchors_ask w (query_key q) (query_time q) m in
      v :: anchors_ask_all w qs m'
  end.
End specification.

Section proofs.
Context {AS : Asio} {LK : Link}.
Implicit Types (c : DedupCache) (k : Key) (it : iterator) (e : Entry).

Definition entry_pair (e : Entry) : Key * Z := (key e, timestamp e).
Definition abs c : list (Key * Z) := (λ n, entry_pair n.2) <$> mEntries c.

Record wf c : Prop := {
  wf_nodes : NoDup (mEntries c).*1;
  wf_fresh : Forall (λ n, n.1 < next_node c)%nat (mEntries c);
  wf_keys : NoDup (abs c).*1;
  wf_index k it :
    mIndex c !! k = Some it ↔ ∃ e, (it, e) ∈ mEntries c ∧ key e = k;
  wf_length : (length (mEntries c) ≤ mCapacity c)%nat;
  wf_capacity : (0 < mCapacity c)%nat;
}.

Lemma new_wf capacity window : (0 < capacity)%nat → wf (new_DedupCache capacity window).
Proof.
  intros. split; simpl; try done; try constructor; try lia.
  - by rewrite lookup_empty.
  - intros (e & Hin & _). inv Hin.
Qed.

Lemma abs_keys c : (abs c).*1 = (λ n, key n.2) <$> mEntries c.
Proof. unfold abs. by rewrite <-list_fmap_compose. Qed.

Lemma wf_index_assoc c k : wf c → mIndex c !! k = None ↔ assoc k (abs c) = None.
Proof.
  intros Hwf. rewrite assoc_None, abs_keys, list_elem_of_fmap, eq_None_not_Some.
  unfold is_Some. setoid_rewrite (wf_index _ Hwf). split.
  - intros Hn ([it e] & -> & Hin). apply Hn. by exists it, e.
  - intros Hn (it & e & Hin & <-). apply Hn. by exists (it, e).
Qed.

(** A node of a well-formed cache differs from all others in identity and
    key. *)
Lemma wf_split c it e l1 l2 :
  wf c → mEntries c = l1 ++ (it, e) :: l2 →
  Forall (λ n, n.1 ≠ it ∧ key n.2 ≠ key e) (l1 ++ l2).
Proof.
  intros Hwf Hes.
  pose proof (wf_nodes _ Hwf) as Hn. pose proof (wf_keys _ Hwf) as Hk.
  rewrite abs_keys in Hk. rewrite Hes in Hn, Hk.
  rewrite fmap_app, fmap_cons, <-Permutation_middle, <-fmap_app in Hn.
  rewrite fmap_app, fmap_cons, <-Permutation_middle, <-fmap_app in Hk.
  apply NoDup_cons in Hn as [Hn _]. apply NoDup_cons in Hk as [Hk _].
  rewrite Forall_forall. intros n Hin. split; intros Heq.
  - apply Hn, list_elem_of_fmap. by exists n.
  - apply Hk, list_elem_of_fmap. by exists n.
Qed.

(** The list operations of the code, on a list split around a node. *)
Lemma split_filter it e l1 l2 :
  Forall (λ n, n.1 ≠ it ∧ key n.2 ≠ key e) (l1 ++ l2) →
  filter (λ n, n.1 = it) (l1 ++ (it, e) :: l2) = [(it, e)] ∧
  filter (λ n, n.1 ≠ it) (l1 ++ (it, e) :: l2) = l1 ++ l2.
Proof.
  rewrite Forall_app. intros [H1 H2]. split.
  - rewrite filter_app, filter_cons_True by done.
    rewrite !filter_false; [done|..]; (eapply Forall_impl; [done|by intros ? []]).
  - rewrite filter_app, filter_cons_False by (intros Hn; by apply Hn).
    rewrite !filter_true; [done|..]; (eapply Forall_impl; [done|by intros ? []]).
Qed.

Lemma deref_split it e l1 l2 :
  Forall (λ n, n.1 ≠ it ∧ key n.2 ≠ key e) (l1 ++ l2) →
  deref it (l1 ++ (it, e) :: l2) = Some e.
Proof. intros Hl. unfold deref. by rewrite (proj1 (split_filter _ _ _ _ Hl)). Qed.

Lemma splice_front_split it e l1 l2 :
  Forall (λ n, n.1 ≠ it ∧ key n.2 ≠ key e) (l1 ++ l2) →
  splice_front it (l1 ++ (it, e) :: l2) = (it, e) :: l1 ++ l2.
Proof.
  intros Hl. unfold splice_front. destruct (split_filter _ _ _ _ Hl) as [-> ->]. done.
Qed.

Lemma set_timestamp_head it e l now :
  Forall (λ n, n.1 ≠ it ∧ key n.2 ≠ key e) l →
  set_timestamp it now ((it, e) :: l) = (it, mkEntry (key e) now) :: l.
Proof.
  intros Hl. unfold set_timestamp. csimpl. rewrite decide_True by done. f_equal.
  apply fmap_id_Forall. eapply Forall_impl; [done|].
  intros n [Hn _]. by rewrite decide_False.
Qed.

(** Moving a node to the front, whatever timestamp it gets, keeps the cache
    well formed. *)
Lemma wf_refresh c it e l1 l2 ts :
  wf c → mEntries c = l1 ++ (it, e) :: l2 →
  wf (upd_mEntries (λ _, (it, mkEntry (key e) ts) :: l1 ++ l2) c).
Proof.
  intros Hwf Hes.
  assert (Hperm : mEntries c ≡ₚ (it, e) :: l1 ++ l2).
  { rewrite Hes. symmetry. apply Permutation_middle. }
  destruct Hwf as [Hn Hf Hk Hi Hl Hc]. rewrite abs_keys in Hk.
  rewrite Hperm in Hn, Hf, Hk, Hl. split; rewrite ?abs_keys; simpl in *; try done.
  { by inv Hf; constructor. }
  intros k it'. rewrite Hi. setoid_rewrite Hperm.
  split; intros (e' & Hin & <-); apply elem_of_cons in Hin as [[= -> ->]|Hin];
    eexists; rewrite elem_of_cons; eauto.
Qed.

Lemma abs_remove c it e l1 l2 :
  mEntries c = l1 ++ (it, e) :: l2 →
  Forall (λ n, n.1 ≠ it ∧ key n.2 ≠ key e) (l1 ++ l2) →
  assoc_remove (key e) (abs c) = (λ n, entry_pair n.2) <$> l1 ++ l2.
Proof.
  intros Hes Hl. unfold abs, assoc_remove. rewrite Hes, fmap_app, fmap_cons, filter_app.
  rewrite filter_cons_False by (intros Hn; by apply Hn).
  rewrite <-filter_app, <-fmap_app.
  apply filter_true. rewrite Forall_fmap. eapply Forall_impl; [done|by intros ? []].
Qed.

(** Dropping the last node and its index entry. *)
Lemma wf_pop c it e l :
  wf c → mEntries c = l ++ [(it, e)] →
  wf (upd_mEntries (λ _, l) (upd_mIndex (delete (key e)) c)).
Proof.
  intros Hwf Hes. pose proof (wf_split _ _ _ _ _ Hwf Hes) as Hne.
  rewrite app_nil_r, Forall_forall in Hne.
  destruct Hwf as [Hn Hf Hk Hi Hl Hc]. rewrite abs_keys in Hk.
  rewrite Hes in Hn, Hf, Hk, Hl. rewrite fmap_app in Hn. rewrite fmap_app in Hk.
  apply NoDup_app in Hn as (Hn & _). apply NoDup_app in Hk as (Hk & _).
  rewrite length_app in Hl. apply Forall_app in Hf as [Hf _].
  split; rewrite ?abs_keys; simpl in *; try done; [|lia].
  intros k it'. rewrite lookup_delete_Some, Hi. setoid_rewrite Hes.
  setoid_rewrite elem_of_app. setoid_rewrite list_elem_of_singleton. split.
  - intros (Hk' & e' & [Hin|[= -> ->]] & Heq); [by exists e'|done].
  - intros (e' & Hin & <-). destruct (Hne _ Hin) as [_ Hk']. split; [by apply not_eq_sym|eauto].
Qed.

(** A full cache loses its last entry and nothing else. *)
Lemma evict_back_run c :
  wf c → (mCapacity c ≤ length (mEntries c))%nat →
  ∃ c', evict_back c = (Ret tt, c') ∧ wf c' ∧
    abs c' = take (mCapacity c - 1) (abs c) ∧
    (length (mEntries c') < mCapacity c)%nat ∧
    mCapacity c' = mCapacity c ∧ mWindow c' = mWindow c ∧
    (∀ k, mIndex c !! k = None → mIndex c' !! k = None).
Proof.
  intros Hwf Hfull. pose proof (wf_length _ Hwf). pose proof (wf_capacity _ Hwf).
  destruct (last (mEntries c)) as [[it e]|] eqn:Hlast;
    [|apply last_None in Hlast; rewrite Hlast in *; simpl in *; lia].
  apply last_Some in Hlast as [l Hes].
  assert (length (mEntries c) = S (length l)) by (rewrite Hes, length_app; simpl; lia).
  exists (upd_mEntries (λ _, l) (upd_mIndex (delete (key e)) c)). split_and!; try done.
  - unfold evict_back, mbind, M_bind, gets, modify. rewrite Hes, last_snoc.
    unfold upd_mEntries; simpl. rewrite Hes.
    by replace (length _ - 1)%nat with (length l)
      by (rewrite length_app; simpl; lia); rewrite take_app_length.
  - by apply wf_pop with it.
  - unfold abs; simpl. rewrite Hes, <-fmap_take.
    by rewrite take_app_length' by lia.
  - simpl. lia.
  - intros k Hk. simpl. by rewrite lookup_delete_None; right.
Qed.

(** Pushing a node with a fresh key. *)
Lemma wf_push c k ts :
  wf c → mIndex c !! k = None → (length (mEntries c) < mCapacity c)%nat →
  wf (mkDedupCache (mCapacity c) (mWindow c) ((next_node c, mkEntry k ts) :: mEntries c)
        (<[k := next_node c]> (mIndex c)) (S (next_node c))).
Proof.
  intros Hwf Hk Hlt. pose proof (proj1 (wf_index_assoc _ _ Hwf) Hk) as Hka.
  apply assoc_None in Hka. destruct Hwf as [Hn Hf Hks Hi Hl Hc].
  rewrite Forall_forall in Hf.
  split; unfold abs in *; csimpl in *; try done.
  - apply NoDup_cons. split; [|done]. intros ([it e] & Heq & Hin)%list_elem_of_fmap.
    apply Hf in Hin. simpl in *. lia.
  - constructor; [simpl; lia|]. apply Forall_forall. intros n Hin. apply Hf in Hin. lia.
  - by apply NoDup_cons.
  - intros k' it. setoid_rewrite elem_of_cons. rewrite lookup_insert_Some, Hi. split.
    + intros [[-> <-]|[Hne (e & Hin & <-)]]; eauto.
    + intros (e & [[= -> ->]|Hin] & <-); [by left|right]. split; [|eauto].
      intros ->. apply Hka. apply list_elem_of_fmap. exists (entry_pair e). split; [done|].
      apply list_elem_of_fmap. by exists (it, e).
Qed.

(** The two branches of a query, as runs on the cache. *)
Lemma isDuplicate_hit ty n bs now c it :
  wf c → mIndex c !! (ty, n, fnv1a64 bs) = Some it →
  ∃ ts, assoc (ty, n, fnv1a64 bs) (abs c) = Some ts ∧
  ∃ c', isDuplicate ty n bs now c = (Ret (bool_decide (now - ts < mWindow c)), c') ∧
    wf c' ∧ mCapacity c' = mCapacity c ∧ mWindow c' = mWindow c ∧
    abs c' = (ty, n, fnv1a64 bs,
              if bool_decide (now - ts < mWindow c) then ts else now)
              :: assoc_remove (ty, n, fnv1a64 bs) (abs c).
Proof.
  intros Hwf Hit. set (k := (ty, n, fnv1a64 bs)) in *.
  destruct (proj1 (wf_index _ Hwf k it) Hit) as (e & Hin & Hk).
  apply list_elem_of_split in Hin as (l1 & l2 & Hes).
  pose proof (wf_split _ _ _ _ _ Hwf Hes) as Hne.
  exists (timestamp e). split.
  { apply elem_assoc_Some; [apply Hwf|]. unfold abs. rewrite Hes, fmap_app, fmap_cons.
    rewrite elem_of_app, elem_of_cons. unfold entry_pair at 2. simpl. rewrite Hk. auto. }
  exists (upd_mEntries (λ _, (it, mkEntry (key e) (if bool_decide (now - timestamp e < mWindow c)
                                    then timestamp e else now)) :: l1 ++ l2) c).
  split_and!; try done.
  - unfold isDuplicate, mbind, M_bind, gets, modify. fold k. rewrite Hit, Hes.
    rewrite deref_split by done. unfold upd_mEntries; simpl.
    case_bool_decide; simpl; rewrite Hes, splice_front_split by done; [by destruct e|].
    rewrite set_timestamp_head by done. done.
  - by apply wf_refresh.
  - rewrite <-Hk, (abs_remove _ _ _ _ _ Hes Hne). done.
Qed.

Lemma isDuplicate_miss ty n bs now c :
  wf c → mIndex c !! (ty, n, fnv1a64 bs) = None →
  ∃ c', isDuplicate ty n bs now c = (Ret false, c') ∧
    wf c' ∧ mCapacity c' = mCapacity c ∧ mWindow c' = mWindow c ∧
    abs c' = (ty, n, fnv1a64 bs, now) :: take (mCapacity c - 1) (abs c).
Proof.
  intros Hwf Hk. set (k := (ty, n, fnv1a64 bs)) in *.
  assert (∃ c1, (if bool_decide (mCapacity c ≤ length (mEntries c))%nat
                 then evict_back else skip) c = (Ret tt, c1) ∧ wf c1 ∧
            abs c1 = take (mCapacity c - 1) (abs c) ∧
            (length (mEntries c1) < mCapacity c)%nat ∧
            mCapacity c1 = mCapacity c ∧ mWindow c1 = mWindow c ∧
            mIndex c1 !! k = None) as (c1 & Hrun & Hwf1 & Habs1 & Hlt & Hc1 & Hw1 & Hk1).
  { case_bool_decide as Hfull.
    - destruct (evict_back_run c Hwf Hfull) as (c1 & ? & ? & ? & ? & ? & ? & Hsub).
      exists c1. split_and!; auto.
    - exists c. split_and!; try done; [|lia]. unfold abs.
      rewrite take_ge; [done|]. rewrite length_fmap. lia. }
  eexists. split; [|split_and!].
  - unfold isDuplicate. unfold mbind at 1, M_bind at 1, gets at 1. fold k. rewrite Hk.
    unfold mbind at 1, M_bind at 1, gets at 1. unfold mbind at 1, M_bind at 1.
    rewrite Hrun. reflexivity.
  - rewrite <-Hc1 in Hlt. apply (wf_push _ _ now Hwf1 Hk1 Hlt).
  - done.
  - done.
  - unfold abs in *; csimpl. by rewrite Habs1.
Qed.

(** The cache of the code implements the abstract LRU. *)
Lemma isDuplicate_lru ty n bs now c :
  wf c →
  ∃ c', isDuplicate ty n bs now c =
      (Ret (lru_ask (mCapacity c) (mWindow c) (ty, n, fnv1a64 bs) now (abs c)).1, c') ∧
    wf c' ∧ mCapacity c' = mCapacity c ∧ mWindow c' = mWindow c ∧
    abs c' = (lru_ask (mCapacity c) (mWindow c) (ty, n, fnv1a64 bs) now (abs c)).2.
Proof.
  intros Hwf. unfold lru_ask.
  destruct (mIndex c !! (ty, n, fnv1a64 bs)) as [it|] eqn:Hk.
  - destruct (isDuplicate_hit ty n bs now c it Hwf Hk)
      as (ts & -> & c' & Hr & ? & ? & ? & Ha).
    exists c'. rewrite Hr, Ha. by case_bool_decide.
  - destruct (isDuplicate_miss ty n bs now c Hwf Hk) as (c' & Hr & ? & ? & ? & Ha).
    exists c'. apply (wf_index_assoc _ _ Hwf) in Hk. by rewrite Hr, Ha, Hk.
Qed.

Lemma ask_lru q c :
  wf c →
  ∃ c', ask q c =
      (Ret (lru_ask (mCapacity c) (mWindow c) (query_key q) (query_time q) (abs c)).1, c') ∧
    wf c' ∧ mCapacity c' = mCapacity c ∧ mWindow c' = mWindow c ∧
    abs c' = (lru_ask (mCapacity c) (mWindow c) (query_key q) (query_time q) (abs c)).2.
Proof. destruct q as [[[ty n] bs] now]. apply isDuplicate_lru. Qed.

Lemma ask_all_lru qs c :
  wf c →
  ∃ c', ask_all qs c = (Ret (lru_ask_all (mCapacity c) (mWindow c) qs (abs c)).1, c') ∧
    wf c' ∧ abs c' = (lru_ask_all (mCapacity c) (mWindow c) qs (abs c)).2.
Proof.
  revert c. induction qs as [|q qs IH]; intros c Hwf; simpl; [by exists c|].
  destruct (ask_lru q c Hwf) as (c1 & Hr1 & Hwf1 & Hcap & Hw & Ha1).
  destruct (lru_ask _ _ _ _ _) as [v l']; simpl in *.
  destruct (IH c1 Hwf1) as (c2 & Hr2 & Hwf2 & Ha2).
  rewrite Hcap, Hw, Ha1 in *.
  destruct (lru_ask_all _ _ _ l') as [vs l'']; simpl in *.
  exists c2. split_and!; try done. unfold mbind, M_bind. by rewrite Hr1, Hr2.
Qed.

Lemma fnv1a64_range bs : 0 ≤ fnv1a64 bs < 2 ^ 64.
Proof.
  unfold fnv1a64. destruct bs as [|b bs _] using rev_ind; [done|].
  rewrite foldl_app. simpl. apply Z.mod_pos_bound. lia.
Qed.

(** *** Abstract runs *)

(** What one query does to the recorded passes: a suppressed key was
    recorded within the window, and a fresh record is the query itself. *)
Lemma lru_ask_sound cap w k now l v l' :
  lru_ask cap w k now l = (v, l') →
  (v = true → ∃ ts, (k, ts) ∈ l ∧ now - ts < w) ∧
  (∀ p, p ∈ l' → p ∈ l ∨ v = false ∧ p = (k, now)).
Proof.
  unfold lru_ask. destruct (assoc k l) as [ts|] eqn:Hk.
  - apply assoc_Some_elem in Hk.
    assert (∀ p, p ∈ assoc_remove k l → p ∈ l) as Hrem.
    { intros p. unfold assoc_remove. rewrite list_elem_of_filter. tauto. }
    case_bool_decide; intros [= <- <-]; split; try done; eauto; intros p;
      rewrite elem_of_cons; intros [->|?]; auto.
  - intros [= <- <-]. split; [done|]. intros p. rewrite elem_of_cons.
    intros [->|Hin]; [by right|left].
    apply elem_of_take in Hin as (i & Hi & _). by eapply list_elem_of_lookup_2.
Qed.

Lemma lru_run_sound cap w qs l (h : lru) i q :
  (∀ p, p ∈ l → p ∈ h) →
  (lru_ask_all cap w qs l).1 !! i = Some true → qs !! i = Some q →
  (∃ ts, (query_key q, ts) ∈ h ∧ query_time q - ts < w) ∨
  (∃ j q', (j < i)%nat ∧ qs !! j = Some q' ∧
     (lru_ask_all cap w qs l).1 !! j = Some false ∧
     query_key q' = query_key q ∧ query_time q - query_time q' < w).
Proof.
  revert l h i. induction qs as [|q0 qs IH]; intros l h i Hlh; simpl; [done|].
  destruct (lru_ask cap w (query_key q0) (query_time q0) l) as [v l'] eqn:Hask.
  destruct (lru_ask_sound _ _ _ _ _ _ _ Hask) as [Hv Hl'].
  destruct (lru_ask_all cap w qs l') as [vs l''] eqn:Hrun; simpl.
  destruct i as [|i]; simpl.
  { intros [= ->] [= ->]. left. destruct Hv as (ts & ? & ?); eauto. }
  intros Hi Hq.
  set (h' := if v then h else (query_key q0, query_time q0) :: h).
  destruct (IH l' h' i) as [(ts & Hin & Hw)|(j & q' & ? & ? & Hj & ? & ?)]; try done.
  - intros p Hp. unfold h'. destruct (Hl' p Hp) as [Hpl|[-> ->]];
      [|by apply elem_of_cons; left].
    destruct v; [by apply Hlh|apply elem_of_cons; right; by apply Hlh].
  - by rewrite Hrun.
  - unfold h' in Hin. destruct v; [left; by exists ts|].
    apply elem_of_cons in Hin as [[= Hk ->]|Hin]; [|left; by exists ts].
    right. exists 0%nat, q0. simpl. split_and!; try done; lia.
  - right. exists (S j), q'. rewrite Hrun in Hj. split_and!; try done; lia.
Qed.

(** One query on the LRU and on the unbounded anchors, while the keys in
    play fit the capacity. *)
Definition simulates (K : gset Key) (l : lru) (m : gmap Key Z) : Prop :=
  NoDup l.*1 ∧ (∀ k, k ∈ l.*1 → k ∈ K) ∧ (∀ k, assoc k l = m !! k).

Lemma keys_in_set_length (K : gset Key) (l : list Key) :
  NoDup l → (∀ k, k ∈ l → k ∈ K) → (length l ≤ size K)%nat.
Proof.
  intros Hnd Hin. rewrite <-(size_list_to_set (C:=gset Key)) by done.
  apply subseteq_size. intros k. rewrite elem_of_list_to_set. apply Hin.
Qed.

Lemma lru_ask_simulates (K : gset Key) cap w k now l m :
  (size K ≤ cap)%nat → k ∈ K → simulates K l m →
  (lru_ask cap w k now l).1 = (anchors_ask w k now m).1 ∧
  simulates K (lru_ask cap w k now l).2 (anchors_ask w k now m).2.
Proof.
  intros Hcap Hk (Hnd & Hin & Hm). unfold lru_ask, anchors_ask. rewrite <-Hm.
  assert (Hcons : ∀ ts, simulates K ((k, ts) :: assoc_remove k l) (<[k := ts]> m)).
  { intros ts. unfold simulates. csimpl. rewrite assoc_remove_keys. split_and!.
    - apply NoDup_cons. split; [rewrite list_elem_of_filter; by intros []|].
      by apply NoDup_filter.
    - intros k'. rewrite elem_of_cons, list_elem_of_filter. intros [->|[_ ?]]; auto.
    - intros k'. rewrite assoc_cons, lookup_insert. case_decide; [done|].
      rewrite assoc_remove_ne by done. apply Hm. }
  destruct (assoc k l) as [ts|] eqn:Hkl.
  - case_bool_decide; simpl; (split; [done|]); [|apply Hcons].
    rewrite <-(insert_id m k ts) by (by rewrite <-Hm). apply Hcons.
  - split; [done|]. simpl. apply assoc_None in Hkl as Hkl'.
    assert (NoDup (k :: l.*1)) as Hnd' by (by apply NoDup_cons).
    assert (length l ≤ cap - 1)%nat.
    { apply keys_in_set_length with (K:=K) in Hnd'; [|set_solver].
      simpl in Hnd'. rewrite length_fmap in Hnd'. lia. }
    rewrite take_ge by done. unfold simulates. csimpl. split_and!; [done|set_solver|].
    intros k'. rewrite assoc_cons, lookup_insert. case_decide; [done|apply Hm].
Qed.

Lemma lru_run_simulates (K : gset Key) cap w qs l m :
  (size K ≤ cap)%nat → (∀ q, q ∈ qs → query_key q ∈ K) → simulates K l m →
  (lru_ask_all cap w qs l).1 = anchors_ask_all w qs m.
Proof.
  intros Hcap. revert l m. induction qs as [|q qs IH]; intros l m Hqs Hsim; simpl; [done|].
  destruct (lru_ask_simulates K cap w (query_key q) (query_time q) l m) as [Hv Hs];
    [done|apply Hqs; set_solver|done|].
  destruct (lru_ask _ _ _ _ _) as [v l'], (anchors_ask _ _ _ _) as [v' m']; simpl in *.
  specialize (IH l' m' (λ q' Hq', Hqs q' (list_elem_of_further _ _ _ Hq')) Hs).
  destruct (lru_ask_all _ _ _ _); simpl in *. congruence.
Qed.

(** The retention guarantee of an LRU: a key survives queries for fewer than
    [cap] other keys. *)
Lemma lru_ask_retains (K : gset Key) cap w k ts k' now l1 l2 :
  (size K < cap)%nat → k' ∈ K → k ∉ K →
  NoDup (l1 ++ (k, ts) :: l2).*1 → (∀ k0, k0 ∈ l1.*1 → k0 ∈ K) →
  ∃ l1' l2', (lru_ask cap w k' now (l1 ++ (k, ts) :: l2)).2 = l1' ++ (k, ts) :: l2' ∧
    NoDup (l1' ++ (k, ts) :: l2').*1 ∧ (∀ k0, k0 ∈ l1'.*1 → k0 ∈ K).
Proof.
  intros Hcap Hk' Hk Hnd Hl1. assert (k ≠ k') as Hne by set_solver.
  set (l := l1 ++ (k, ts) :: l2) in *. unfold lru_ask.
  assert (Hcons : ∀ t, ∃ l1' l2', (k', t) :: assoc_remove k' l = l1' ++ (k, ts) :: l2' ∧
    NoDup (l1' ++ (k, ts) :: l2').*1 ∧ (∀ k0, k0 ∈ l1'.*1 → k0 ∈ K)).
  { intros t. exists ((k', t) :: assoc_remove k' l1), (assoc_remove k' l2).
    assert (Heq : (k', t) :: assoc_remove k' l =
                  ((k', t) :: assoc_remove k' l1) ++ (k, ts) :: assoc_remove k' l2).
    { unfold l, assoc_remove. by rewrite filter_app, filter_cons_True. }
    rewrite <-Heq. split_and!; [done| |].
    - csimpl. rewrite assoc_remove_keys. apply NoDup_cons.
      split; [rewrite list_elem_of_filter; by intros []|by apply NoDup_filter].
    - intros k0. csimpl. rewrite assoc_remove_keys, elem_of_cons, list_elem_of_filter.
      intros [->|[_ ?]]; auto. }
  destruct (assoc k' l) as [t|] eqn:Hl; [by case_bool_decide; apply Hcons|].
  apply assoc_None in Hl. simpl.
  assert (length l1 < cap - 1)%nat.
  { assert (NoDup (k' :: l1.*1)) as Hnd1.
    { unfold l in *. rewrite fmap_app in Hnd, Hl. apply NoDup_app in Hnd as (? & _).
      apply NoDup_cons. set_solver. }
    apply keys_in_set_length with (K:=K) in Hnd1; [|set_solver].
    simpl in Hnd1. rewrite length_fmap in Hnd1. lia. }
  exists ((k', now) :: l1), (take (cap - 1 - length l1 - 1) l2).
  assert (Heq : take (cap - 1) l = l1 ++ (k, ts) :: take (cap - 1 - length l1 - 1) l2).
  { unfold l. rewrite take_app, take_ge by lia.
    destruct (cap - 1 - length l1)%nat eqn:E; [lia|]. simpl. by rewrite Nat.sub_0_r. }
  rewrite Heq. split_and!; [done| |set_solver].
  change (NoDup (k' :: (l1 ++ (k, ts) :: take (cap - 1 - length l1 - 1) l2).*1)).
  rewrite <-Heq. assert (Hsub : (take (cap - 1) l).*1 `sublist_of` l.*1).
  { rewrite fmap_take. apply sublist_take. }
  apply NoDup_cons. split; [|by eapply sublist_NoDup].
  intros Hin. apply Hl. by eapply elem_of_sublist.
Qed.
End proofs.

(** ** Theorems *)

Section theorems.
Context {AS : Asio} {LK : Link}.

(** C39: every run of queries on a well-formed cache returns (no dangling
    list iterator, no [back()] of an empty list), the cache stays well formed
    (unique nodes, index and list agree, at most [mCapacity] entries), and
    verdicts and contents are those of the abstract least-recently-used
    association list. *)
Theorem isDuplicate_refines_lru (c : DedupCache) (qs : list query) :
  wf c →
  ∃ c', ask_all qs c = (Ret (lru_ask_all (mCapacity c) (mWindow c) qs (abs c)).1, c') ∧
    wf c' ∧ abs c' = (lru_ask_all (mCapacity c) (mWindow c) qs (abs c)).2.
Proof. apply ask_all_lru. Qed.

(** A message is only suppressed when a message with the same type,
    sender and payload hash was let through less than [window] earlier in
    the same run. *)
Theorem isDuplicate_sound (capacity : nat) (window : Z) (qs : list query)
    (vs : list bool) (c' : DedupCache) (i : nat) (q : query) :
  (0 < capacity)%nat →
  ask_all qs (new_DedupCache capacity window) = (Ret vs, c') →
  qs !! i = Some q → vs !! i = Some true →
  ∃ j q', (j < i)%nat ∧ qs !! j = Some q' ∧ vs !! j = Some false ∧
    query_key q' = query_key q ∧ query_time q - query_time q' < window.
Proof.
  intros Hcap Hrun Hq Hv.
  destruct (ask_all_lru qs _ (new_wf capacity window Hcap)) as (c1 & Hr & _).
  rewrite Hr in Hrun. injection Hrun as <- <-.
  destruct (lru_run_sound _ _ _ _ [] i q (λ p Hp, Hp) Hv Hq) as [(ts & Hin & _)|Hsound];
    [inv Hin|done].
Qed.

(** C40: while the queries of a run use no more distinct keys than the
    capacity, eviction is invisible: the verdicts are those of an unbounded
    table that remembers when each key was last let through. *)
Theorem isDuplicate_unbounded (capacity : nat) (window : Z) (qs : list query) :
  (0 < capacity)%nat →
  (size (list_to_set (query_key <$> qs) : gset Key) ≤ capacity)%nat →
  ∃ c', ask_all qs (new_DedupCache capacity window) =
    (Ret (anchors_ask_all window qs ∅), c').
Proof.
  intros Hcap Hsize.
  destruct (ask_all_lru qs _ (new_wf capacity window Hcap)) as (c1 & Hr & _).
  exists c1. rewrite Hr. do 2 f_equal. simpl.
  apply (lru_run_simulates (list_to_set (query_key <$> qs))); [done| |].
  - intros q Hq. apply elem_of_list_to_set, list_elem_of_fmap. by exists q.
  - split_and!; [constructor|intros k Hk; inv Hk|intros k; by rewrite lookup_empty].
Qed.

(** Retention.  Once a query has been answered, and while queries for
    fewer than [mCapacity] other keys follow, its key stays in the cache: a
    repetition less than a window after the recorded pass is suppressed. *)
Theorem isDuplicate_retains (c : DedupCache) (qs : list query) (k : Key) (ts : Z)
    (l : lru) (ty : byte) (n : NodeId) (bs : list byte) (now : Z) (vs : list bool)
    (c1 : DedupCache) :
  wf c → abs c = (k, ts) :: l →
  k = (ty, n, fnv1a64 bs) →
  k ∉ query_key <$> qs →
  (size (list_to_set (query_key <$> qs) : gset Key) < mCapacity c)%nat →
  now - ts < mWindow c →
  ask_all qs c = (Ret vs, c1) →
  ∃ c2, isDuplicate ty n bs now c1 = (Ret true, c2).
Proof.
  intros Hwf Habs Hkey Hk Hsize Hnow Hrun.
  set (K := list_to_set (query_key <$> qs) : gset Key) in *.
  assert (HkK : k ∉ K) by (unfold K; by rewrite elem_of_list_to_set).
  assert (HK : ∀ q, q ∈ qs → query_key q ∈ K).
  { intros q Hq. apply elem_of_list_to_set, list_elem_of_fmap. by exists q. }
  assert (∃ l1 l2, abs c = l1 ++ (k, ts) :: l2 ∧ (∀ k0, k0 ∈ l1.*1 → k0 ∈ K))
    as (l1 & l2 & Hl & Hl1).
  { exists [], l. split; [done|]. intros k0 Hk0. inv Hk0. }
  clear Habs Hk. clearbody K. revert c vs l1 l2 Hwf Hl Hl1 Hsize Hnow Hrun.
  induction qs as [|q qs IH]; intros c vs l1 l2 Hwf Hl Hl1 Hsize Hnow Hrun; simpl in Hrun.
  - injection Hrun as _ <-.
    destruct (isDuplicate_lru ty n bs now c Hwf) as (c2 & Hr & _). exists c2.
    rewrite Hr. unfold lru_ask. rewrite <-Hkey.
    rewrite (elem_assoc_Some k ts); [by rewrite bool_decide_true|apply Hwf|].
    rewrite Hl. apply elem_of_app. right. apply elem_of_cons. by left.
  - unfold mbind, M_bind in Hrun.
    destruct (ask_lru q c Hwf) as (c' & Hr & Hwf' & Hcap & Hw & Ha).
    rewrite Hr in Hrun.
    destruct (lru_ask_retains K (mCapacity c) (mWindow c) k ts (query_key q) (query_time q) l1 l2)
      as (l1' & l2' & Heq & _ & Hin); try done; [apply HK; set_solver|rewrite <-Hl; apply Hwf|].
    destruct (ask_all qs c') as [[vs'|?|?] c3] eqn:Hrest; try done.
    injection Hrun as _ <-.
    eapply (IH (λ q' Hq', HK q' (list_elem_of_further _ _ _ Hq')) c' vs' l1' l2');
      try done; [by rewrite Ha, Hl|by rewrite Hcap|by rewrite Hw].
Qed.
End theorems.

Module DedupWitnesses.
Import Sample.

Definition q1 : query := (Byte.x62, Byte.x07, [Byte.x01; Byte.x02], milliseconds 0).
Definition q2 : query := (Byte.x62, Byte.x08, [Byte.x01; Byte.x02], milliseconds 10).
Definition q3 : query := (Byte.x62, Byte.x07, [Byte.x01; Byte.x02], milliseconds 20).
Definition cache0 : DedupCache := new_DedupCache kDedupCacheCapacity kDedupWindow.

Lemma isDuplicate_refines_lru_witness :
  ∃ c', ask_all [q1; q2; q3] cache0 = (Ret [false; false; true], c') ∧ wf c'.
Proof.
  destruct (isDuplicate_refines_lru cache0 [q1; q2; q3]) as (c' & Hrun & Hwf & _).
  - apply new_wf. unfold kDedupCacheCapacity. lia.
  - exists c'. split; [rewrite Hrun; f_equal; evaluate|exact Hwf].
Defined.

Lemma isDuplicate_sound_witness :
  ∃ j q', (j < 2)%nat ∧ [q1; q2; q3] !! j = Some q' ∧
    [false; false; true] !! j = Some false ∧
    query_key q' = query_key q3 ∧ query_time q3 - query_time q' < kDedupWindow.
Proof.
  apply (isDuplicate_sound kDedupCacheCapacity kDedupWindow [q1; q2; q3]
           [false; false; true] (ask_all [q1; q2; q3] cache0).2 2 q3).
  - unfold kDedupCacheCapacity. lia.
  - apply run_outcome. evaluate.
  - reflexivity.
  - reflexivity.
Defined.

Lemma isDuplicate_unbounded_witness :
  ∃ c', ask_all [q1; q2; q3] cache0 = (Ret [false; false; true], c').
Proof.
  destruct (isDuplicate_unbounded kDedupCacheCapacity kDedupWindow [q1; q2; q3])
    as [c' Hrun].
  - unfold kDedupCacheCapacity. lia.
  - decide_now.
  - exists c'. unfold cache0. rewrite Hrun. f_equal; evaluate.
Defined.

Lemma isDuplicate_retains_witness :
  ∃ c2, isDuplicate Byte.x62 Byte.x07 [Byte.x01; Byte.x02] (milliseconds 20)
          (ask_all [q2] (ask q1 cache0).2).2 = (Ret true, c2).
Proof.
  apply (isDuplicate_retains (ask q1 cache0).2 [q2] (query_key q1) 0 []
           Byte.x62 Byte.x07 [Byte.x01; Byte.x02] (milliseconds 20) [false]).
  - destruct (ask_lru q1 cache0) as (c1 & Hr & Hwf & _).
    + apply new_wf. unfold kDedupCacheCapacity. lia.
    + rewrite Hr. exact Hwf.
  - evaluate.
  - evaluate.
  - decide_now.
  - decide_now.
  - evaluate.
  - apply run_outcome. evaluate.
Defined.

(** The published FNV-1a test vector for "a". *)
Example fnv1a64_a : fnv1a64 [Byte.x61] = 0xaf63dc4c8601ec8c.
Proof. evaluate. Qed.
End DedupWitnesses.
