(* ===== verification/Tunnel.v ===== *)
(** * Tunnel.hpp: the base class of both tunnels

    The wire format ([encapsulate], [decapsulate]), the duplicate filter in
    front of it ([shouldForward]), the list of gateways and the delivery of a
    received message to all of them ([forward_locally]).  The gateways are
    used through the interface [GatewayOps], which [TunnelGatewaySpec.v]
    implements; they use a tunnel through [TunnelOps], which [Site.v] and
    [Machine.v] implement. *)

From S2P Require Import Prelude LinkLib Sample DedupCache.

(** [enum TunnelMessageType : uint8_t].  A value read from the wire may be
    none of the enumerators; [UNNAMED] holds such values. *)
Inductive TunnelMessageType :=
  | TUNNEL_HELLO
  | TUNNEL_BYE
  | TUNNEL_KEEPALIVE
  | BROADCAST
  | UNICAST
  | BYEBYE
  | MEASUREMENT_PING
  | MEASUREMENT_PONG
  | UNNAMED (b : byte).

#[global] Instance TunnelMessageType_eq_dec : EqDecision TunnelMessageType.
Proof. solve_decision. Defined.

(** [static_cast<uint8_t>(type)] *)
Definition underlying (t : TunnelMessageType) : byte :=
  match t with
  | TUNNEL_HELLO => "i"
  | TUNNEL_BYE => "y"
  | TUNNEL_KEEPALIVE => "k"
  | BROADCAST => "b"
  | UNICAST => "u"
  | BYEBYE => "z"
  | MEASUREMENT_PING => "m"
  | MEASUREMENT_PONG => "r"
  | UNNAMED b => b
  end%byte.

(** [static_cast<TunnelMessageType>(b)] *)
Definition cast_type (b : byte) : TunnelMessageType :=
  match b with
  | "i" => TUNNEL_HELLO
  | "y" => TUNNEL_BYE
  | "k" => TUNNEL_KEEPALIVE
  | "b" => BROADCAST
  | "u" => UNICAST
  | "z" => BYEBYE
  | "m" => MEASUREMENT_PING
  | "r" => MEASUREMENT_PONG
  | b => UNNAMED b
  end%byte.

Definition named (t : TunnelMessageType) : bool :=
  match t with UNNAMED _ => false | _ => true end.

Section definitions.
Context {AS : Asio} {LK : Link}.

(** [std::array<uint8_t, kMaxMessageSize>] *)
Abbreviation MessageBuffer := (list byte).

Record MessageContext := mkContext {
  ctx_from_node : NodeId;
  ctx_type : TunnelMessageType;
  ctx_to_node : option NodeId;
  ctx_size : Z;
}.

(** The message types whose header carries a target node. *)
Definition has_to_node (t : TunnelMessageType) : bool :=
  match t with
  | UNICAST | MEASUREMENT_PING | MEASUREMENT_PONG => true
  | _ => false
  end.

Definition encapsulate (context : MessageContext) (message : list byte) :
    result (option MessageBuffer) :=
  let msg := zero_buffer kMaxMessageSize in
  it ← put_bytes (toNetworkByteStream (underlying (ctx_type context))) (msg, 0%nat);
  it ← put_bytes (toNetworkByteStream (ctx_from_node context)) it;
  let finish it :=
    let message_size := to_uint16 (Z.of_nat (length message)) in
    it ← put_bytes (toNetworkByteStream message_size) it;
    it ← put_bytes message it;
    mret (Some it.1) in
  if has_to_node (ctx_type context) then
    match ctx_to_node context with
    | Some n => it ← put_bytes (toNetworkByteStream n) it; finish it
    | None => mret None
    end
  else finish it.

Definition decapsulate (msg : MessageBuffer) :
    result (option (MessageContext * MessageBuffer)) :=
  '(ty, it) ← fromNetworkByteStream (A:=byte) msg;
  '(from, it) ← fromNetworkByteStream (A:=NodeId) it;
  '(to, it) ← (match cast_type ty with
               | TUNNEL_HELLO | TUNNEL_BYE | TUNNEL_KEEPALIVE | BROADCAST | BYEBYE =>
                   mret (None, it)
               | MEASUREMENT_PING | MEASUREMENT_PONG | UNICAST =>
                   '(n, it) ← fromNetworkByteStream (A:=NodeId) it; mret (Some n, it)
               | UNNAMED _ => mret (None, it)
               end : result (option NodeId * list byte));
  '(message_size, it) ← fromNetworkByteStream (A:=Z) it;
  let context := mkContext from (cast_type ty) to message_size in
  if decide (it = []) then mret None
  else
    original_link_msg ← write_at (zero_buffer kMaxMessageSize) 0 it;
    mret (Some (context, original_link_msg)).

(** [DedupCache] decides for the message types that gateways may see twice. *)
Definition shouldForward (messageType : TunnelMessageType) (from_node_id : NodeId)
    (message : list byte) (now : Z) : M DedupCache bool :=
  match messageType with
  | BROADCAST | UNICAST | BYEBYE =>
      dup ← isDuplicate (underlying messageType) from_node_id message now;
      mret (negb dup)
  | _ => mret true
  end.

(** *** Gateways *)

(** [std::shared_ptr<Gateway>]: an identity that [==] compares. *)
Abbreviation GatewayPtr := nat.

(** What a tunnel calls on its gateways, over the world [W] they live in.  A
    received message is a buffer shared by all gateways, which may write past
    its first [size] bytes. *)
Class GatewayOps (W : Type) := {
  forwardMessageLocally : GatewayPtr → TunnelMessageType → NodeId →
    MessageBuffer → Z → option NodeId → M W MessageBuffer;
  gateway_stop_listening : GatewayPtr → M W unit;
}.

(** What a tunnel relies on: for a message that lies inside its buffer and
    names a target when its type needs one, a gateway returns normally, keeps
    the invariant [I] of the world, and leaves the message itself alone. *)
Class GatewayLaws (W : Type) `{!GatewayOps W} (I : W → Prop) : Prop := {
  forwardMessageLocally_returns g ty from buf (n : nat) to w :
    I w → length buf = kMaxMessageSize → (n ≤ length buf)%nat →
    (has_to_node ty = true → is_Some to) →
    wp (forwardMessageLocally g ty from buf (Z.of_nat n) to) w
      (λ buf' w', I w' ∧ length buf' = length buf ∧ take n buf' = take n buf) no_throw;
  gateway_stop_listening_returns g w :
    I w → wp (gateway_stop_listening g) w (λ _ w', I w') no_throw;
}.

(** The data members of the base class. *)
Record TunnelBase := mkTunnelBase {
  gateways : list GatewayPtr;
  mDedupCache : DedupCache;
}.

Definition new_TunnelBase : TunnelBase :=
  mkTunnelBase [] (new_DedupCache kDedupCacheCapacity kDedupWindow).
Definition upd_gateways f (t : TunnelBase) : TunnelBase :=
  mkTunnelBase (f (gateways t)) (mDedupCache t).
Definition set_mDedupCache c (t : TunnelBase) : TunnelBase :=
  mkTunnelBase (gateways t) c.

Definition addGateway (g : GatewayPtr) : M TunnelBase unit :=
  gs ← gets gateways;
  if decide (g ∈ gs) then skip else modify (upd_gateways (λ gs, gs ++ [g])).

(** [gateways.erase(it)] removes the first occurrence. *)
Fixpoint erase_first (g : GatewayPtr) (gs : list GatewayPtr) : list GatewayPtr :=
  match gs with
  | [] => []
  | g' :: gs => if decide (g' = g) then gs else g' :: erase_first g gs
  end.

Definition removeGateway (g : GatewayPtr) : M TunnelBase unit :=
  gs ← gets gateways;
  if decide (g ∈ gs) then modify (upd_gateways (erase_first g)) else skip.

Fixpoint forward_locally {W} `{!GatewayOps W} (gs : list GatewayPtr)
    (messageType : TunnelMessageType) (from_node_id : NodeId)
    (message : MessageBuffer) (msize : Z) (to_node_id : option NodeId) : M W MessageBuffer :=
  match gs with
  | [] => mret message
  | g :: gs =>
      message' ← forwardMessageLocally g messageType from_node_id message msize to_node_id;
      forward_locally gs messageType from_node_id message' msize to_node_id
  end.
End definitions.
Arguments GatewayOps {AS LK} W.
Arguments GatewayLaws {AS LK} W {_} I.

(** ** The wire format *)

Section wire.
Context {AS : Asio} {LK : Link} {node_size : nat} {LW : LinkLaws node_size}.

Lemma cast_underlying t : named t = true → cast_type (underlying t) = t.
Proof. by destruct t. Qed.
Lemma underlying_cast b : underlying (cast_type b) = b.
Proof. by destruct b. Qed.

Definition header_size (t : TunnelMessageType) : nat :=
  1 + node_size + (if has_to_node t then node_size else 0) + 2.

#[local] Arguments header_size : simpl never.

(** The bytes [encapsulate] writes before the message. *)
Definition header (context : MessageContext) (len : nat) : list byte :=
  toNetworkByteStream (underlying (ctx_type context)) ++
  toNetworkByteStream (ctx_from_node context) ++
  (if has_to_node (ctx_type context)
   then from_option toNetworkByteStream [] (ctx_to_node context) else []) ++
  toNetworkByteStream (to_uint16 (Z.of_nat len)).

(** A context as it can be put on the wire: a target node exactly for the
    types that carry one. *)
Definition well_addressed (context : MessageContext) : Prop :=
  if has_to_node (ctx_type context) then is_Some (ctx_to_node context)
  else ctx_to_node context = None.

Definition length_uint8 := stream_length (A:=byte).
Definition length_uint16 := stream_length (A:=Z).
Definition length_NodeId := stream_length (A:=NodeId).

Lemma header_size_bound t : (header_size t < kMaxMessageSize)%nat.
Proof. pose proof (kMax_header). unfold header_size. destruct (has_to_node t); lia. Qed.

Lemma length_header context len :
  (has_to_node (ctx_type context) = true → is_Some (ctx_to_node context)) →
  length (header context len) = header_size (ctx_type context).
Proof.
  intros Hto. unfold header, header_size. rewrite !length_app.
  rewrite length_uint8, length_uint16, length_NodeId.
  destruct (has_to_node _); simpl; [|lia].
  destruct Hto as [n ->]; [done|]. simpl. rewrite length_NodeId. lia.
Qed.

Lemma zero_buffer_filled n : zero_buffer n = filled n [].
Proof. unfold filled. simpl. by rewrite Nat.sub_0_r. Qed.

Lemma length_header_parts context :
  length (toNetworkByteStream (underlying (ctx_type context))) = 1%nat ∧
  length (toNetworkByteStream (ctx_from_node context)) = node_size ∧
  (∀ n : NodeId, length (toNetworkByteStream n) = node_size) ∧
  (∀ z : Z, length (toNetworkByteStream z) = 2%nat).
Proof. split_and!; intros; apply stream_length. Qed.

(** The part of [encapsulate] after the target node. *)
Lemma encapsulate_finish pre message :
  (length pre + 2 ≤ kMaxMessageSize)%nat →
  (it ← put_bytes (toNetworkByteStream (to_uint16 (Z.of_nat (length message))))
          (filled kMaxMessageSize pre, length pre);
   it ← put_bytes message it; mret (Some it.1)) =
  if decide (length pre + 2 + length message ≤ kMaxMessageSize)%nat
  then Ret (Some (filled kMaxMessageSize
         (pre ++ toNetworkByteStream (to_uint16 (Z.of_nat (length message))) ++ message)))
  else Undef OutOfBounds.
Proof.
  intros Hpre. rewrite put_bytes_filled by (rewrite length_uint16; lia). simpl.
  case_decide.
  - rewrite put_bytes_filled by (rewrite length_app, length_uint16; lia).
    simpl. by rewrite <-app_assoc.
  - by rewrite put_bytes_overflow by (rewrite length_app, length_uint16; lia).
Qed.

(** All outcomes of [encapsulate]. *)
Lemma encapsulate_run context message :
  encapsulate context message =
    if has_to_node (ctx_type context) && bool_decide (ctx_to_node context = None)
    then Ret None
    else if decide (header_size (ctx_type context) + length message ≤ kMaxMessageSize)%nat
    then Ret (Some (filled kMaxMessageSize (header context (length message) ++ message)))
    else Undef OutOfBounds.
Proof.
  pose proof (header_size_bound (ctx_type context)) as Hb.
  destruct (length_header_parts context) as (H1 & H2 & H3 & H4).
  unfold encapsulate, header, header_size in *. rewrite zero_buffer_filled.
  change 0%nat with (length (@nil byte)).
  rewrite put_bytes_filled by (simpl; lia). simpl.
  rewrite put_bytes_filled by (destruct (has_to_node _); lia). simpl.
  destruct (has_to_node (ctx_type context)) eqn:Hty; simpl.
  - destruct (ctx_to_node context) as [n|]; simpl; [|done].
    rewrite put_bytes_filled by (rewrite length_app, !H3; lia). simpl.
    rewrite encapsulate_finish by (rewrite !length_app, !H3; lia).
    rewrite !length_app, H1, !H3, <-!app_assoc.
    do 2 case_decide; try lia; done.
  - rewrite encapsulate_finish by (rewrite length_app; lia).
    rewrite !length_app, H1, H3, <-!app_assoc. simpl.
    do 2 case_decide; try lia; done.
Qed.

Definition roundtrip_uint8 b rest := stream_roundtrip (A:=byte) b rest I.
Definition roundtrip_NodeId (n : NodeId) rest := stream_roundtrip (A:=NodeId) n rest I.
Definition roundtrip_uint16 := stream_roundtrip (A:=Z).

Lemma filled_app n pre bs :
  filled n (pre ++ bs) = pre ++ filled (n - length pre) bs.
Proof.
  unfold filled. rewrite length_app, <-app_assoc. do 3 f_equal. lia.
Qed.

Lemma write_at_zero n bs :
  (length bs ≤ n)%nat → write_at (zero_buffer n) 0 bs = Ret (filled n bs).
Proof.
  intros Hn. rewrite zero_buffer_filled. change 0%nat with (length (@nil byte)).
  rewrite write_at_filled by done. done.
Qed.

Lemma filled_filled n k bs : (k ≤ n)%nat → (length bs ≤ k)%nat →
  filled n (filled k bs) = filled n bs.
Proof.
  intros Hk Hb. unfold filled, zero_buffer. rewrite <-app_assoc, <-replicate_add.
  rewrite length_app, length_replicate. do 2 f_equal. lia.
Qed.

(** Reading back the fields [encapsulate] wrote. *)
Lemma decapsulate_header context message :
  named (ctx_type context) = true → well_addressed context →
  (header_size (ctx_type context) + length message ≤ kMaxMessageSize)%nat →
  decapsulate (filled kMaxMessageSize (header context (length message) ++ message)) =
  Ret (Some (mkContext (ctx_from_node context) (ctx_type context) (ctx_to_node context)
               (Z.of_nat (length message)),
             filled kMaxMessageSize message)).
Proof.
  intros Hnamed Hto Hfit. pose proof (header_size_bound (ctx_type context)) as Hb.
  unfold well_addressed in Hto.
  assert (to_uint16 (Z.of_nat (length message)) = Z.of_nat (length message)) as Hlen.
  { apply Z.mod_small. pose proof kMax_uint16. lia. }
  rewrite filled_app, length_header by (intros Hty; by rewrite Hty in Hto).
  assert (Hrest : ∀ to', (if decide (filled (kMaxMessageSize - header_size (ctx_type context))
                                       message = []) then mret None
    else
      original_link_msg ← write_at (zero_buffer kMaxMessageSize) 0
                   (filled (kMaxMessageSize - header_size (ctx_type context)) message);
      mret (Some (mkContext (ctx_from_node context) (ctx_type context) to'
                    (Z.of_nat (length message)), original_link_msg))) =
    Ret (Some (mkContext (ctx_from_node context) (ctx_type context) to'
                    (Z.of_nat (length message)),
               filled kMaxMessageSize message))).
  { intros to'.
    assert (length (filled (kMaxMessageSize - header_size (ctx_type context)) message) =
            kMaxMessageSize - header_size (ctx_type context))%nat as Hl
      by (apply length_filled; lia).
    rewrite write_at_zero by lia. rewrite filled_filled by lia.
    case_decide as Hnil; [rewrite Hnil in Hl; simpl in Hl; lia|done]. }
  unfold header, decapsulate. rewrite Hlen, <-!app_assoc.
  rewrite roundtrip_uint8. cbn [mbind result_bind mret result_ret]. rewrite roundtrip_NodeId.
  cbn [mbind result_bind mret result_ret]. rewrite cast_underlying by done.
  destruct (ctx_type context) eqn:Hty; cbn in Hto |- *; try done;
    match type of Hto with is_Some _ => destruct Hto as [n Hto] | _ => idtac end;
    rewrite Hto; cbn -[Z.pow];
    rewrite ?roundtrip_NodeId; cbn [mbind result_bind mret result_ret];
    rewrite roundtrip_uint16 by (pose proof kMax_uint16; lia);
    cbn [mbind result_bind mret result_ret]; apply Hrest.
Qed.

Lemma read_uint8 bs : (1 ≤ length bs)%nat →
  ∃ b, fromNetworkByteStream (A:=byte) bs = Ret (b, drop 1 bs).
Proof. intros H. destruct (stream_total (A:=byte) bs H) as (b & _ & Hb). eauto. Qed.
Lemma read_uint16 bs : (2 ≤ length bs)%nat →
  ∃ z, 0 ≤ z < 2 ^ 16 ∧ fromNetworkByteStream (A:=Z) bs = Ret (z, drop 2 bs).
Proof. intros H. destruct (stream_total (A:=Z) bs H) as (z & Hz & Hb). eauto. Qed.
Lemma read_NodeId bs : (node_size ≤ length bs)%nat →
  ∃ n, fromNetworkByteStream (A:=NodeId) bs = Ret (n, drop node_size bs).
Proof. intros H. destruct (stream_total (A:=NodeId) bs H) as (n & _ & Hb). eauto. Qed.

(** The tail of [decapsulate]: the size field, then a non-empty rest. *)
Lemma decapsulate_tail (from : NodeId) ty (to : option NodeId) it :
  (2 < length it ≤ kMaxMessageSize)%nat →
  ∃ z, 0 ≤ z < 2 ^ 16 ∧
    ('(message_size, it) ← fromNetworkByteStream (A:=Z) it;
     let context := mkContext from ty to message_size in
     if decide (it = []) then mret None
     else
       original_link_msg ← write_at (zero_buffer kMaxMessageSize) 0 it;
       mret (Some (context, original_link_msg))) =
    Ret (Some (mkContext from ty to z, filled kMaxMessageSize (drop 2 it))).
Proof.
  intros Hit. destruct (read_uint16 it) as (z & Hz & Hr); [lia|]. exists z. split; [done|].
  rewrite Hr. cbn [mbind result_bind].
  assert (length (drop 2 it) = length it - 2)%nat as Hl by apply length_drop.
  rewrite decide_False by (intros Hnil; rewrite Hnil in Hl; simpl in Hl; lia).
  by rewrite write_at_zero by lia.
Qed.

Lemma decapsulate_run msg :
  length msg = kMaxMessageSize →
  ∃ context, decapsulate msg =
      Ret (Some (context, filled kMaxMessageSize (drop (header_size (ctx_type context)) msg))) ∧
    0 ≤ ctx_size context < 2 ^ 16 ∧ well_addressed context.
Proof.
  intros Hlen. pose proof kMax_header as Hmax. unfold decapsulate, header_size, well_addressed.
  destruct (read_uint8 msg) as [b Hb]; [lia|]. rewrite Hb. cbn [mbind result_bind].
  destruct (read_NodeId (drop 1 msg)) as [from Hf]; [rewrite length_drop; lia|].
  rewrite Hf. cbn [mbind result_bind]. rewrite drop_drop.
  set (it := drop (1 + node_size) msg).
  assert (length it = kMaxMessageSize - (1 + node_size))%nat as Hit
    by (unfold it; rewrite length_drop; lia).
  destruct (read_NodeId it) as [to Hto]; [lia|].
  assert (length (drop node_size it) = length it - node_size)%nat as Hit' by apply length_drop.
  destruct (decapsulate_tail from (cast_type b) None it) as (z & Hz & Hr); [lia|].
  destruct (decapsulate_tail from (cast_type b) (Some to) (drop node_size it))
    as (z' & Hz' & Hr'); [lia|].
  destruct (has_to_node (cast_type b)) eqn:Hty.
  - exists (mkContext from (cast_type b) (Some to) z'). simpl. rewrite Hty.
    split; [|by split; [|eexists]].
    replace (drop _ msg) with (drop 2 (drop node_size it))
      by (unfold it; rewrite !drop_drop; f_equal; lia).
    rewrite <-Hr', Hto. by destruct (cast_type b).
  - exists (mkContext from (cast_type b) None z). simpl. rewrite Hty.
    split; [|done].
    replace (drop _ msg) with (drop 2 it)
      by (unfold it; rewrite !drop_drop; f_equal; lia).
    rewrite <-Hr. by destruct (cast_type b).
Qed.
End wire.

(** ** The duplicate filter and the gateways *)

Section base.
Context {AS : Asio} {LK : Link}.

Lemma shouldForward_wp ty from msg now (c : DedupCache) :
  wf c → wp (shouldForward ty from msg now) c (λ _ c', wf c') no_throw.
Proof.
  intros Hwf. unfold shouldForward.
  destruct (isDuplicate_lru (underlying ty) from msg now c Hwf) as (c' & Hr & Hwf' & _).
  destruct ty; unfold wp, mbind, M_bind; rewrite ?Hr; done.
Qed.

Lemma addGateway_run g t :
  addGateway g t =
    (Ret tt, if decide (g ∈ gateways t) then t else upd_gateways (λ gs, gs ++ [g]) t).
Proof. unfold addGateway, mbind, M_bind, gets. by case_decide. Qed.

Lemma erase_first_not_in g gs : g ∉ gs → erase_first g gs = gs.
Proof.
  induction gs as [|g' gs IH]; [done|]. rewrite not_elem_of_cons. intros [Hne Hin].
  simpl. rewrite decide_False by done. f_equal. auto.
Qed.

Lemma removeGateway_run g t :
  removeGateway g t = (Ret tt, upd_gateways (erase_first g) t).
Proof.
  unfold removeGateway, mbind, M_bind, gets. case_decide; [done|].
  unfold upd_gateways. rewrite erase_first_not_in by done. by destruct t.
Qed.

Lemma erase_first_elem g g' gs :
  NoDup gs → g' ∈ erase_first g gs ↔ g' ∈ gs ∧ g' ≠ g.
Proof.
  induction gs as [|g0 gs IH]; intros Hnd; simpl.
  { split; [intros Hin; inv Hin|intros [Hin _]; inv Hin]. }
  apply NoDup_cons in Hnd as [Hg0 Hnd]. rewrite elem_of_cons. case_decide as Heq.
  - subst. split; [intros Hin; split; [by right|by intros ->]|by intros [[->|?] ?]].
  - rewrite elem_of_cons, IH by done. split; [|tauto].
    intros [->|[? ?]]; split; auto.
Qed.

Lemma erase_first_NoDup g gs : NoDup gs → NoDup (erase_first g gs).
Proof.
  induction gs as [|g0 gs IH]; intros Hnd; simpl; [done|].
  pose proof (erase_first_elem g g0 gs) as Hel.
  apply NoDup_cons in Hnd as [Hg0 Hnd]. case_decide; [done|].
  apply NoDup_cons. split; [|auto]. rewrite Hel by done. tauto.
Qed.

(** Under the gateway laws, delivery to all gateways returns. *)
Lemma forward_locally_returns {W} `{!GatewayOps W} (I : W → Prop) `{!GatewayLaws W I}
    gs ty from buf (n : nat) to w :
  I w → length buf = kMaxMessageSize → (n ≤ length buf)%nat →
  (has_to_node ty = true → is_Some to) →
  wp (forward_locally gs ty from buf (Z.of_nat n) to) w
    (λ buf' w', I w' ∧ length buf' = length buf ∧ take n buf' = take n buf) no_throw.
Proof.
  revert buf w. induction gs as [|g gs IH]; intros buf w HI Hbuf Hn Hto; simpl; [done|].
  apply wp_bind. eapply wp_mono; [by apply forwardMessageLocally_returns| |done].
  intros buf' w' (HI' & Hlen & Htake). eapply wp_mono; [apply IH; [done|congruence|lia|done]|..|done].
  simpl. intros buf'' w'' (? & ? & ?). split_and!; congruence.
Qed.
End base.

(** ** Theorems *)

Section theorems.
Context {AS : Asio} {LK : Link} {node_size : nat} {LW : LinkLaws node_size}.

(** C38: [encapsulate] has exactly three outcomes.  Without a target node for
    a type that needs one it returns nothing.  When the header and the message
    fit the buffer it returns the header, the message and zeros.  When they do
    not fit it writes past the end of the array: there is no check. *)
Theorem encapsulate_outcomes (context : MessageContext) (message : list byte) :
  encapsulate context message =
    if has_to_node (ctx_type context) && bool_decide (ctx_to_node context = None)
    then Ret None
    else if decide (header_size (node_size:=node_size) (ctx_type context) +
                    length message ≤ kMaxMessageSize)%nat
    then Ret (Some (filled kMaxMessageSize (header context (length message) ++ message)))
    else Undef OutOfBounds.
Proof. apply encapsulate_run. Qed.

(** [decapsulate] accepts every full buffer: it never throws or leaves
    the buffer, and always returns a context that names a target node exactly
    for the types that carry one, with the rest of the bytes as message. *)
Theorem decapsulate_total (msg : list byte) :
  length msg = kMaxMessageSize →
  ∃ context, decapsulate msg = Ret (Some (context,
      filled kMaxMessageSize (drop (header_size (node_size:=node_size) (ctx_type context)) msg))) ∧
    0 ≤ ctx_size context < 2 ^ 16 ∧ well_addressed context.
Proof. apply decapsulate_run. Qed.

(** C37: a context and message that [encapsulate] accepts come back from
    [decapsulate] of the buffer it produced, with the size of the message. *)
Theorem encapsulate_decapsulate (context : MessageContext) (message : list byte)
    (buf : list byte) :
  named (ctx_type context) = true → well_addressed context →
  encapsulate context message = Ret (Some buf) →
  decapsulate buf =
    Ret (Some (mkContext (ctx_from_node context) (ctx_type context) (ctx_to_node context)
                 (Z.of_nat (length message)),
               filled kMaxMessageSize message)).
Proof.
  intros Hnamed Hto. rewrite encapsulate_run. case_match; [done|]. case_decide; [|done].
  intros [= <-]. by apply decapsulate_header.
Qed.
End theorems.

Section gateway_theorems.
Context {AS : Asio} {LK : Link}.

(** The registered gateways form a set: [addGateway] and [removeGateway]
    keep the list duplicate-free, adding registers exactly the gateway given,
    removing unregisters exactly that one, and neither touches the cache. *)
Theorem gateways_registered (t : TunnelBase) (g : nat) :
  NoDup (gateways t) →
  ∃ t1 t2, addGateway g t = (Ret tt, t1) ∧ removeGateway g t = (Ret tt, t2) ∧
    NoDup (gateways t1) ∧ NoDup (gateways t2) ∧
    (∀ g', g' ∈ gateways t1 ↔ g' = g ∨ g' ∈ gateways t) ∧
    (∀ g', g' ∈ gateways t2 ↔ g' ≠ g ∧ g' ∈ gateways t) ∧
    mDedupCache t1 = mDedupCache t ∧ mDedupCache t2 = mDedupCache t.
Proof.
  intros Hnd. rewrite addGateway_run, removeGateway_run. eexists _, _.
  split; [done|]. split; [done|]. split_and!.
  - case_decide; [done|]. simpl. apply NoDup_app. split_and!; [done|set_solver|].
    apply NoDup_singleton.
  - by apply erase_first_NoDup.
  - intros g'. case_decide; simpl; set_solver.
  - intros g'. simpl. rewrite erase_first_elem by done. tauto.
  - by case_decide.
  - done.
Qed.
End gateway_theorems.

Module Recorder.
Import Sample.

(** Gateways that record what they are given. *)
Definition recorded : Type :=
  list (nat * TunnelMessageType * NodeId * list byte * Z * option NodeId).
#[export] Instance recorder : GatewayOps recorded := {|
  forwardMessageLocally g ty from buf size to :=
    (modify (λ w, w ++ [(g, ty, from, take (Z.to_nat size) buf, size, to)]);; mret buf);
  gateway_stop_listening g := skip;
|}.
#[export] Instance recorder_laws : GatewayLaws recorded (λ _, True).
Proof. by split. Qed.
End Recorder.

(** ** What a gateway expects of its tunnel

    [TunnelOps] is the virtual interface of the class [Tunnel], with access to
    the members of the base class and to the world of the gateways; [listen] is
    only called by the tunnels themselves.  [TunnelLaws] is what the gateways
    rely on: [forward] and [addGateway] return, for every message that a gateway
    may hand over, keep the tunnel's invariant [J], and do not call back. *)

Class TunnelOps {AS : Asio} {LK : Link} (T W : Type) := {
  tunnel_base : T → TunnelBase;
  set_tunnel_base : TunnelBase → T → T;
  tunnel_world : T → W;
  set_tunnel_world : W → T → T;
  tunnel_forward : TunnelMessageType → NodeId → list byte → option NodeId → Z → M T unit;
  tunnel_stop_listening : M T unit;
}.

Section interface.
Context {AS : Asio} {LK : Link} {node_size : nat} {LW : LinkLaws node_size}.

(** The types of the messages that gateways exchange. *)
Definition carries_message (ty : TunnelMessageType) : bool :=
  match ty with
  | BROADCAST | UNICAST | BYEBYE | MEASUREMENT_PING | MEASUREMENT_PONG => true
  | _ => false
  end.

(** The wire carries a target for the types that have one. *)
Definition wire_target (ty : TunnelMessageType) (to : option NodeId) : option NodeId :=
  if has_to_node ty then to else None.

Lemma header_target ty from to size len :
  header (mkContext from ty (wire_target ty to) size) len = header (mkContext from ty to size) len.
Proof. unfold header, wire_target. simpl. by destruct (has_to_node ty). Qed.

Lemma encapsulate_target ty from to (message : list byte) :
  encapsulate (mkContext from ty (wire_target ty to) 0) message =
    encapsulate (mkContext from ty to 0) message.
Proof.
  rewrite !(encapsulate_run (node_size:=node_size)), header_target. unfold wire_target. simpl.
  by destruct (has_to_node ty).
Qed.

Lemma wire_target_addressed ty from to size :
  (has_to_node ty = true → is_Some to) → well_addressed (mkContext from ty (wire_target ty to) size).
Proof. intros Hto. unfold well_addressed, wire_target. simpl. destruct (has_to_node ty); auto. Qed.

(** A message of a type for messages, with a target where the type has one,
    that fits a datagram. *)
Definition forwardable (ty : TunnelMessageType) (message : list byte) (to : option NodeId) : Prop :=
  carries_message ty = true ∧ (has_to_node ty = true → is_Some to) ∧
  (header_size (node_size:=node_size) ty + length message ≤ kMaxMessageSize)%nat.

Lemma carries_named ty : carries_message ty = true → named ty = true.
Proof. by destruct ty. Qed.

Class TunnelLaws (T W : Type) {TO : TunnelOps T W} (I : W → Prop) (J : T → Prop) : Prop := {
  tunnel_world_ok t : J t → I (tunnel_world t);
  set_tunnel_world_ok w t : J t → I w → J (set_tunnel_world w t);
  tunnel_world_set w t : tunnel_world (set_tunnel_world w t) = w;
  tunnel_addGateway_returns g t :
    J t → wp (zoom tunnel_base set_tunnel_base (addGateway g)) t
            (λ _ t', J t' ∧ tunnel_world t' = tunnel_world t) no_throw;
  tunnel_forward_returns ty from message to now t :
    J t → forwardable ty message to →
    wp (tunnel_forward ty from message to now) t
      (λ _ t', J t' ∧ tunnel_world t' = tunnel_world t) no_throw;
}.
End interface.

Module TunnelWitnesses.
Import Sample.

Definition hello : MessageContext := mkContext Byte.x07 UNICAST (Some Byte.x09) 0.

(** A message of 61 bytes does not fit the 64-byte buffer behind its header. *)
Lemma encapsulate_outcomes_witness :
  encapsulate (mkContext Byte.x07 BROADCAST None 0) (zero_buffer 61) = Undef OutOfBounds.
Proof. rewrite (encapsulate_outcomes (node_size:=1)). evaluate. Defined.

Lemma decapsulate_total_witness :
  ∃ context, decapsulate (zero_buffer 64) = Ret (Some (context,
    filled kMaxMessageSize (drop (header_size (node_size:=1) (ctx_type context))
                              (zero_buffer 64)))).
Proof.
  destruct (decapsulate_total (zero_buffer 64)) as (context & Hr & _); [reflexivity|].
  exists context. exact Hr.
Defined.

Lemma encapsulate_decapsulate_witness :
  decapsulate (filled 64 [Byte.x75; Byte.x07; Byte.x09; Byte.x00; Byte.x02; Byte.xaa; Byte.xbb])
  = Ret (Some (mkContext Byte.x07 UNICAST (Some Byte.x09) 2, filled 64 [Byte.xaa; Byte.xbb])).
Proof.
  apply (encapsulate_decapsulate hello [Byte.xaa; Byte.xbb]).
  - reflexivity.
  - exists Byte.x09. reflexivity.
  - evaluate.
Defined.

Lemma gateways_registered_witness :
  ∃ t1 t2, addGateway 5 new_TunnelBase = (Ret tt, t1) ∧
           removeGateway 5 new_TunnelBase = (Ret tt, t2).
Proof.
  destruct (gateways_registered new_TunnelBase 5) as (t1 & t2 & H1 & H2 & _).
  - constructor.
  - exists t1, t2. split; [exact H1|exact H2].
Defined.

(** The size field of a datagram is not checked against the buffer. *)
Lemma decapsulate_size_unchecked :
  decapsulate (filled 64 [Byte.x62; Byte.x07; Byte.xff; Byte.xff]) =
    Ret (Some (mkContext Byte.x07 BROADCAST None 65535, filled 64 [])).
Proof. evaluate. Qed.
End TunnelWitnesses.
