(* ===== verification/UdpTunnel.v ===== *)
(** * UdpTunnel.hpp: the tunnel between sites

    The peer table and its connection states, the control messages, routing
    of outgoing messages, dispatch of received datagrams, the maintenance
    timer and the approval of unknown peers.  The callbacks that the IO context
    runs (posted jobs, datagrams, the timer) and the calls that other threads
    and gateways make are the events of a transition system. *)

From S2P Require Import Prelude LinkLib Sample DedupCache Tunnel.

(** ** Data *)

Inductive PeerConnectionState := DISCONNECTED | CONNECTING | CONNECTED.

#[global] Instance PeerConnectionState_eq_dec : EqDecision PeerConnectionState.
Proof. solve_decision. Defined.

(** [kMaintenanceInterval] and [kKeepaliveTimeout] *)
Definition kMaintenanceInterval : Z := seconds 5.
Definition kKeepaliveTimeout : Z := seconds 15.

(** What a client of the unknown-peer callback does with a peer. *)
Inductive PeerDecision := Accept | Reject.

Section data.
Context {AS : Asio} {LK : Link}.

Record PeerEntry := mkPeer {
  endpoint : UdpEndpoint;
  state : PeerConnectionState;
  last_seen : Z;
}.
Definition set_state s (p : PeerEntry) : PeerEntry := mkPeer (endpoint p) s (last_seen p).
Definition set_last_seen n (p : PeerEntry) : PeerEntry := mkPeer (endpoint p) (state p) n.

(** Work posted with [mIo->async]. *)
Inductive Job :=
  | JobListen
  | JobMaintenance
  | JobAddPeer (ep : UdpEndpoint)
  | JobRemovePeer (ep : UdpEndpoint)
  | JobAccept (from : UdpEndpoint)
  | JobReject (from : UdpEndpoint).
#[global] Instance Job_eq_dec : EqDecision Job.
Proof. solve_decision. Defined.

(** The bound socket: every call of [send] with its data and destination, the
    outcomes the system will give the next calls ([None] and an exhausted
    script are success), and whether a receive handler is installed. *)
Record UdpSocket := mkSocket {
  send_calls : list (list byte * UdpEndpoint);
  send_script : list (option cpp_exn);
  receiving : bool;
}.

Definition socket_send (data : list byte) (to : UdpEndpoint) : M UdpSocket unit :=
  script ← gets send_script;
  modify (λ s, mkSocket (send_calls s ++ [(data, to)]) (tail (send_script s)) (receiving s));;
  match head script with
  | Some (Some e) => throw e
  | _ => skip
  end.
Definition set_receiving b (s : UdpSocket) : UdpSocket :=
  mkSocket (send_calls s) (send_script s) b.
End data.

Section definitions.
Context {AS : Asio} {LK : Link} {W : Type} {GW : GatewayOps W}.

Record UdpTunnel := mkUdpTunnel {
  base : TunnelBase;
  world : W;                                    (* the gateways' state *)
  mSocket : UdpSocket;
  mMaintenanceTimer : option Z;                 (* when an armed timer expires *)
  is_running : bool;
  mPeers : list PeerEntry;
  remoteNodeIdToPeerIdx : gmap NodeId nat;
  mEndpointToPeerIdx : gmap UdpEndpoint nat;
  mPendingPeers : gset UdpEndpoint;
  mRejectedPeers : gset UdpEndpoint;
  mUnknownPeerCallback : UdpEndpoint → list PeerDecision;  (* decisions made inside the call *)
  posted : list Job;                            (* mIo's queue *)
  callback_calls : list UdpEndpoint;            (* the calls of the callback so far *)
}.

Definition upd_base f (t : UdpTunnel) : UdpTunnel :=
  mkUdpTunnel (f (base t)) (world t) (mSocket t) (mMaintenanceTimer t) (is_running t)
    (mPeers t) (remoteNodeIdToPeerIdx t) (mEndpointToPeerIdx t) (mPendingPeers t)
    (mRejectedPeers t) (mUnknownPeerCallback t) (posted t) (callback_calls t).
Definition upd_world f (t : UdpTunnel) : UdpTunnel :=
  mkUdpTunnel (base t) (f (world t)) (mSocket t) (mMaintenanceTimer t) (is_running t)
    (mPeers t) (remoteNodeIdToPeerIdx t) (mEndpointToPeerIdx t) (mPendingPeers t)
    (mRejectedPeers t) (mUnknownPeerCallback t) (posted t) (callback_calls t).
Definition upd_mSocket f (t : UdpTunnel) : UdpTunnel :=
  mkUdpTunnel (base t) (world t) (f (mSocket t)) (mMaintenanceTimer t) (is_running t)
    (mPeers t) (remoteNodeIdToPeerIdx t) (mEndpointToPeerIdx t) (mPendingPeers t)
    (mRejectedPeers t) (mUnknownPeerCallback t) (posted t) (callback_calls t).
Definition upd_mMaintenanceTimer f (t : UdpTunnel) : UdpTunnel :=
  mkUdpTunnel (base t) (world t) (mSocket t) (f (mMaintenanceTimer t)) (is_running t)
    (mPeers t) (remoteNodeIdToPeerIdx t) (mEndpointToPeerIdx t) (mPendingPeers t)
    (mRejectedPeers t) (mUnknownPeerCallback t) (posted t) (callback_calls t).
Definition upd_is_running f (t : UdpTunnel) : UdpTunnel :=
  mkUdpTunnel (base t) (world t) (mSocket t) (mMaintenanceTimer t) (f (is_running t))
    (mPeers t) (remoteNodeIdToPeerIdx t) (mEndpointToPeerIdx t) (mPendingPeers t)
    (mRejectedPeers t) (mUnknownPeerCallback t) (posted t) (callback_calls t).
Definition upd_mPeers f (t : UdpTunnel) : UdpTunnel :=
  mkUdpTunnel (base t) (world t) (mSocket t) (mMaintenanceTimer t) (is_running t)
    (f (mPeers t)) (remoteNodeIdToPeerIdx t) (mEndpointToPeerIdx t) (mPendingPeers t)
    (mRejectedPeers t) (mUnknownPeerCallback t) (posted t) (callback_calls t).
Definition upd_remoteNodeIdToPeerIdx f (t : UdpTunnel) : UdpTunnel :=
  mkUdpTunnel (base t) (world t) (mSocket t) (mMaintenanceTimer t) (is_running t)
    (mPeers t) (f (remoteNodeIdToPeerIdx t)) (mEndpointToPeerIdx t) (mPendingPeers t)
    (mRejectedPeers t) (mUnknownPeerCallback t) (posted t) (callback_calls t).
Definition upd_mEndpointToPeerIdx f (t : UdpTunnel) : UdpTunnel :=
  mkUdpTunnel (base t) (world t) (mSocket t) (mMaintenanceTimer t) (is_running t)
    (mPeers t) (remoteNodeIdToPeerIdx t) (f (mEndpointToPeerIdx t)) (mPendingPeers t)
    (mRejectedPeers t) (mUnknownPeerCallback t) (posted t) (callback_calls t).
Definition upd_mPendingPeers f (t : UdpTunnel) : UdpTunnel :=
  mkUdpTunnel (base t) (world t) (mSocket t) (mMaintenanceTimer t) (is_running t)
    (mPeers t) (remoteNodeIdToPeerIdx t) (mEndpointToPeerIdx t) (f (mPendingPeers t))
    (mRejectedPeers t) (mUnknownPeerCallback t) (posted t) (callback_calls t).
Definition upd_mRejectedPeers f (t : UdpTunnel) : UdpTunnel :=
  mkUdpTunnel (base t) (world t) (mSocket t) (mMaintenanceTimer t) (is_running t)
    (mPeers t) (remoteNodeIdToPeerIdx t) (mEndpointToPeerIdx t) (mPendingPeers t)
    (f (mRejectedPeers t)) (mUnknownPeerCallback t) (posted t) (callback_calls t).
Definition upd_mUnknownPeerCallback f (t : UdpTunnel) : UdpTunnel :=
  mkUdpTunnel (base t) (world t) (mSocket t) (mMaintenanceTimer t) (is_running t)
    (mPeers t) (remoteNodeIdToPeerIdx t) (mEndpointToPeerIdx t) (mPendingPeers t)
    (mRejectedPeers t) (f (mUnknownPeerCallback t)) (posted t) (callback_calls t).
Definition upd_posted f (t : UdpTunnel) : UdpTunnel :=
  mkUdpTunnel (base t) (world t) (mSocket t) (mMaintenanceTimer t) (is_running t)
    (mPeers t) (remoteNodeIdToPeerIdx t) (mEndpointToPeerIdx t) (mPendingPeers t)
    (mRejectedPeers t) (mUnknownPeerCallback t) (f (posted t)) (callback_calls t).
Definition upd_callback_calls f (t : UdpTunnel) : UdpTunnel :=
  mkUdpTunnel (base t) (world t) (mSocket t) (mMaintenanceTimer t) (is_running t)
    (mPeers t) (remoteNodeIdToPeerIdx t) (mEndpointToPeerIdx t) (mPendingPeers t)
    (mRejectedPeers t) (mUnknownPeerCallback t) (posted t) (f (callback_calls t)).

(** [mIo->async(job)] *)
Definition async (j : Job) : M UdpTunnel unit := modify (upd_posted (λ q, q ++ [j])).

(** [mPeers[i]] and writes through the reference. *)
Definition peer_at (i : nat) : M UdpTunnel PeerEntry :=
  ps ← gets mPeers;
  match ps !! i with Some p => mret p | None => undefined OutOfBounds end.
Definition write_peer (i : nat) (f : PeerEntry → PeerEntry) : M UdpTunnel unit :=
  modify (upd_mPeers (alter f i)).

(** *** Send helpers *)

Definition encapsulatedSize (type : TunnelMessageType) (payloadSize : nat) : nat :=
  let hasToNode := match type with
                   | UNICAST | MEASUREMENT_PING | MEASUREMENT_PONG => true
                   | _ => false
                   end in
  sizeInByteStream Byte.x00 + sizeInByteStream NodeId_zero +
  (if hasToNode : bool then sizeInByteStream NodeId_zero else 0) +
  sizeInByteStream 0%Z + payloadSize.

(** [mSocket.send(msg.data(), bytes, to)] reads [bytes] bytes of the buffer. *)
Definition sendRaw (msg : list byte) (bytes : nat) (to : UdpEndpoint) : M UdpTunnel unit :=
  try_catch (λ _, true)
    (if decide (bytes ≤ length msg)%nat
     then zoom mSocket (λ s, upd_mSocket (λ _, s)) (socket_send (take bytes msg) to)
     else undefined OutOfBounds)
    (λ _, skip).

Definition sendControlMessage (type : TunnelMessageType) (to : UdpEndpoint) :
    M UdpTunnel unit :=
  msg ← lift (encapsulate (mkContext NodeId_zero type None 0) []);
  match msg with
  | Some msg => sendRaw msg (encapsulatedSize type 0) to
  | None => skip
  end.

Definition sendHello := sendControlMessage TUNNEL_HELLO.
Definition sendKeepalive := sendControlMessage TUNNEL_KEEPALIVE.
Definition sendBye := sendControlMessage TUNNEL_BYE.

(** *** Forwarding to the wire *)

Definition sendToPeerOf (to : NodeId) (msg : list byte) (sendSize : nat) :
    M UdpTunnel unit :=
  m ← gets remoteNodeIdToPeerIdx;
  ps ← gets mPeers;
  match m !! to with
  | Some i =>
      match ps !! i with
      | Some p =>
          if decide (state p = CONNECTED) then sendRaw msg sendSize (endpoint p) else skip
      | None => skip                             (* it->second < mPeers.size() fails *)
      end
  | None => skip
  end.

Definition forward (messageType : TunnelMessageType) (from_node_id : NodeId)
    (message : list byte) (to_node_id : option NodeId) (now : Z) : M UdpTunnel unit :=
  fwd ← zoom (λ t, mDedupCache (base t)) (λ c, upd_base (set_mDedupCache c))
          (shouldForward messageType from_node_id message now);
  if negb fwd then skip else
  optional_msg ← lift (encapsulate (mkContext from_node_id messageType to_node_id 0) message);
  match optional_msg with
  | None => skip
  | Some msg =>
      let sendSize := encapsulatedSize messageType (length message) in
      match messageType with
      | UNICAST | MEASUREMENT_PING =>
          match to_node_id with
          | None => skip
          | Some to => sendToPeerOf to msg sendSize
          end
      | _ =>
          ps ← gets mPeers;
          for_each ps (λ p,
            if decide (state p = CONNECTED) then sendRaw msg sendSize (endpoint p) else skip)
      end
  end.

(** *** Helpers of the receive path *)

Definition erasePeerNodeIds (peerIdx : nat) : M UdpTunnel unit :=
  modify (upd_remoteNodeIdToPeerIdx (filter (λ kv, kv.2 ≠ peerIdx))).

Definition index_of (ps : list PeerEntry) : gmap UdpEndpoint nat :=
  foldl (λ m ip, <[endpoint ip.2 := ip.1]> m) ∅ (imap pair ps).
Definition rebuildEndpointIndex : M UdpTunnel unit :=
  ps ← gets mPeers; modify (upd_mEndpointToPeerIdx (λ _, index_of ps)).

(** [mPeers.push_back({ep, DISCONNECTED, {}}); mEndpointToPeerIdx[ep] = size - 1] *)
Definition push_peer (ep : UdpEndpoint) : M UdpTunnel unit :=
  modify (upd_mPeers (λ ps, ps ++ [mkPeer ep DISCONNECTED 0]));;
  ps ← gets mPeers;
  modify (upd_mEndpointToPeerIdx <[ep := (length ps - 1)%nat]>).

(** [acceptFn] and [rejectFn]: they post the work that decides. *)
Definition decide_peer (d : PeerDecision) (from : UdpEndpoint) : M UdpTunnel unit :=
  async (match d with Accept => JobAccept from | Reject => JobReject from end).

Definition handleUnknownPeer (from : UdpEndpoint) : M UdpTunnel unit :=
  rejected ← gets mRejectedPeers;
  pending ← gets mPendingPeers;
  if decide (from ∈ rejected) then skip
  else if decide (from ∈ pending) then skip
  else
    modify (upd_mPendingPeers (λ s, {[from]} ∪ s));;
    callback ← gets mUnknownPeerCallback;
    modify (upd_callback_calls (λ l, l ++ [from]));;
    for_each (callback from) (λ d, decide_peer d from).

(** The bodies of [acceptFn], [rejectFn], [addPeer] and [removePeer]. *)
Definition accept_job (from : UdpEndpoint) : M UdpTunnel unit :=
  modify (upd_mPendingPeers (λ s, s ∖ {[from]}));;
  idx ← gets mEndpointToPeerIdx;
  if decide (idx !! from = None) then push_peer from;; sendHello from else skip.

Definition reject_job (from : UdpEndpoint) : M UdpTunnel unit :=
  modify (upd_mPendingPeers (λ s, s ∖ {[from]}));;
  modify (upd_mRejectedPeers (λ s, {[from]} ∪ s)).

Definition addPeer_job (ep : UdpEndpoint) : M UdpTunnel unit :=
  idx ← gets mEndpointToPeerIdx;
  if decide (idx !! ep = None) then push_peer ep;; sendHello ep else skip.

Definition removePeer_job (ep : UdpEndpoint) : M UdpTunnel unit :=
  index ← gets mEndpointToPeerIdx;
  match index !! ep with
  | None => skip
  | Some idx =>
      sendBye ep;;
      erasePeerNodeIds idx;;
      modify (upd_mEndpointToPeerIdx (delete ep));;
      ps ← gets mPeers;
      (if decide (idx < length ps)%nat
       then modify (upd_mPeers (delete idx)) else undefined OutOfBounds);;
      rebuildEndpointIndex
  end.

Definition addPeer (ep : UdpEndpoint) : M UdpTunnel unit := async (JobAddPeer ep).
Definition removePeer (ep : UdpEndpoint) : M UdpTunnel unit := async (JobRemovePeer ep).
Definition setUnknownPeerCallback cb : M UdpTunnel unit :=
  modify (upd_mUnknownPeerCallback (λ _, cb)).

(** *** Receive dispatch *)

Definition deliver (context : MessageContext) (payload : list byte) : M UdpTunnel unit :=
  gs ← gets (λ t, gateways (base t));
  zoom world (λ w, upd_world (λ _, w))
    (forward_locally gs (ctx_type context) (ctx_from_node context) payload
       (ctx_size context) (ctx_to_node context));;
  skip.

(** The guard of the forwarding cases: a known, connected sender. *)
Definition connected_index (from : UdpEndpoint) : M UdpTunnel (option nat) :=
  index ← gets mEndpointToPeerIdx;
  match index !! from with
  | None => mret None
  | Some i => p ← peer_at i; mret (if decide (state p = CONNECTED) then Some i else None)
  end.

(** The cases of the switch. *)
Definition handleHello (from : UdpEndpoint) (now : Z) : M UdpTunnel unit :=
  index ← gets mEndpointToPeerIdx;
  match index !! from with
  | None => handleUnknownPeer from
  | Some i =>
      p ← peer_at i;
      let wasConnected := bool_decide (state p = CONNECTED) in
      write_peer i (set_state CONNECTED);;
      write_peer i (set_last_seen now);;
      if wasConnected then skip else sendHello from
  end.

Definition handleKeepalive (from : UdpEndpoint) (now : Z) : M UdpTunnel unit :=
  index ← gets mEndpointToPeerIdx;
  match index !! from with
  | None => skip
  | Some i =>
      p ← peer_at i;
      if decide (state p = CONNECTED) then write_peer i (set_last_seen now) else skip
  end.

Definition handleBye (from : UdpEndpoint) : M UdpTunnel unit :=
  index ← gets mEndpointToPeerIdx;
  match index !! from with
  | None => skip
  | Some i => peer_at i;; write_peer i (set_state DISCONNECTED);; erasePeerNodeIds i
  end.

Definition handleReceive (from : UdpEndpoint) (buf : list byte) (now : Z) :
    M UdpTunnel unit :=
  result ← lift (decapsulate buf);
  match result with
  | None => skip
  | Some (context, payload_buf) =>
      match ctx_type context with
      | TUNNEL_HELLO => handleHello from now
      | TUNNEL_KEEPALIVE => handleKeepalive from now
      | TUNNEL_BYE => handleBye from
      | BYEBYE =>
          i ← connected_index from;
          match i with
          | None => skip
          | Some _ =>
              modify (upd_remoteNodeIdToPeerIdx (delete (ctx_from_node context)));;
              deliver context payload_buf
          end
      | _ =>
          i ← connected_index from;
          match i with
          | None => skip
          | Some i =>
              (* emplace keeps the first mapping *)
              modify (upd_remoteNodeIdToPeerIdx (λ m,
                match m !! ctx_from_node context with
                | Some _ => m
                | None => <[ctx_from_node context := i]> m
                end));;
              deliver context payload_buf
          end
      end
  end.

(** *** Maintenance *)

Definition maintain_peer (now : Z) (i : nat) : M UdpTunnel unit :=
  p ← peer_at i;
  match state p with
  | CONNECTED =>
      if decide (kKeepaliveTimeout < now - last_seen p) then
        write_peer i (set_state DISCONNECTED);; erasePeerNodeIds i
      else sendKeepalive (endpoint p)
  | DISCONNECTED | CONNECTING =>
      write_peer i (set_state CONNECTING);; sendHello (endpoint p)
  end.

Definition runMaintenance (now : Z) : M UdpTunnel unit :=
  running ← gets is_running;
  if negb running then skip else
  n ← gets (λ t, length (mPeers t));
  for_each (seq 0 n) (maintain_peer now);;
  modify (upd_mMaintenanceTimer (λ _, Some (now + kMaintenanceInterval))).

(** The handler of [mMaintenanceTimer.async_wait]; [ec] is set when the wait
    was cancelled. *)
Definition onMaintenanceTimer (ec : bool) (now : Z) : M UdpTunnel unit :=
  (if ec then skip else modify (upd_mMaintenanceTimer (λ _, None)));;   (* the wait is over *)
  running ← gets is_running;
  if negb ec && running then runMaintenance now else skip.

(** *** Life cycle *)

Definition new_UdpTunnel (w : W) (script : list (option cpp_exn))
    (initial_peers : list UdpEndpoint) : UdpTunnel :=
  let ps := (λ ep, mkPeer ep DISCONNECTED 0) <$> initial_peers in
  mkUdpTunnel new_TunnelBase w (mkSocket [] script false) None true
    ps ∅ (index_of ps) ∅ ∅ (λ _, [Reject]) [JobListen; JobMaintenance] [].

Definition listen : M UdpTunnel unit := modify (upd_mSocket (set_receiving true)).

(** The receive handler: the datagram is copied into a zeroed buffer. *)
Definition onDatagram (from : UdpEndpoint) (bytes : list byte) (now : Z) :
    M UdpTunnel unit :=
  modify (upd_mSocket (set_receiving false));;
  buf ← lift (write_at (zero_buffer kMaxMessageSize) 0 bytes);
  handleReceive from buf now;;
  running ← gets is_running;
  if running : bool then listen else skip.

Definition stop_listening : M UdpTunnel unit :=
  modify (upd_is_running (λ _, false));;
  modify (upd_mMaintenanceTimer (λ _, None));;
  ps ← gets mPeers;
  for_each ps (λ p, if decide (state p = CONNECTED) then sendBye (endpoint p) else skip);;
  gs ← gets (λ t, gateways (base t));
  for_each gs (λ g, zoom world (λ w, upd_world (λ _, w)) (gateway_stop_listening g));;
  modify (upd_base (upd_gateways (λ _, [])));;
  modify (upd_mPendingPeers (λ _, ∅));;
  modify (upd_mRejectedPeers (λ _, ∅));;
  modify (upd_remoteNodeIdToPeerIdx (λ _, ∅));;
  modify (upd_mEndpointToPeerIdx (λ _, ∅)).

Definition run_job (j : Job) (now : Z) : M UdpTunnel unit :=
  match j with
  | JobListen => listen
  | JobMaintenance => runMaintenance now
  | JobAddPeer ep => addPeer_job ep
  | JobRemovePeer ep => removePeer_job ep
  | JobAccept from => accept_job from
  | JobReject from => reject_job from
  end.

(** The IO thread takes the next posted job. *)
Definition run_next (now : Z) : M UdpTunnel unit :=
  q ← gets posted;
  match q with
  | [] => skip
  | j :: q => modify (upd_posted (λ _, q));; run_job j now
  end.
End definitions.
Arguments UdpTunnel {AS LK} W.

(** ** What the operations do *)

Section runs.
Context {AS : Asio} {LK : Link} {node_size : nat} {LW : LinkLaws node_size}.
Context {W : Type} {GW : GatewayOps W}.
Implicit Types (t : UdpTunnel W) (p : PeerEntry).

Lemma encapsulatedSize_header ty n :
  encapsulatedSize ty n = (header_size (node_size:=node_size) ty + n)%nat.
Proof.
  unfold encapsulatedSize, header_size.
  rewrite (stream_size (A:=byte)), !(stream_size (A:=NodeId)), (stream_size (A:=Z)).
  destruct ty; simpl; lia.
Qed.

(** A call of [send]: recorded, and the script advances. *)
Definition record_send (data : list byte) (to : UdpEndpoint) (s : UdpSocket) : UdpSocket :=
  mkSocket (send_calls s ++ [(data, to)]) (tail (send_script s)) (receiving s).
Definition record_sends (data : list byte) (tos : list UdpEndpoint) (s : UdpSocket) :
    UdpSocket := foldl (λ s to, record_send data to s) s tos.

Lemma record_sends_calls data tos s :
  send_calls (record_sends data tos s) = send_calls s ++ ((λ to, (data, to)) <$> tos).
Proof.
  unfold record_sends. revert s. induction tos as [|to tos IH]; intros s; csimpl.
  - by rewrite app_nil_r.
  - rewrite IH. simpl. by rewrite <-app_assoc.
Qed.

Lemma record_sends_receiving data tos s :
  receiving (record_sends data tos s) = receiving s.
Proof. unfold record_sends. revert s. induction tos; intros s; simpl; by rewrite ?IHtos. Qed.

(** Whatever the system answers, [sendRaw] returns: it makes one call. *)
Lemma sendRaw_run msg bytes to t :
  (bytes ≤ length msg)%nat →
  sendRaw msg bytes to t = (Ret tt, upd_mSocket (record_send (take bytes msg) to) t).
Proof.
  intros Hb. unfold sendRaw, try_catch. rewrite decide_True by done.
  unfold zoom, socket_send, mbind, M_bind, gets, modify, throw, skip. simpl.
  by destruct (head (send_script (mSocket t))) as [[e|]|].
Qed.

Lemma for_each_sends msg bytes ps t :
  (bytes ≤ length msg)%nat →
  for_each ps (λ p, if decide (state p = CONNECTED) then sendRaw msg bytes (endpoint p)
                    else skip) t =
  (Ret tt, upd_mSocket (record_sends (take bytes msg)
             (endpoint <$> filter (λ p, state p = CONNECTED) ps)) t).
Proof.
  intros Hb. revert t. induction ps as [|p ps IH]; intros t; simpl; [by destruct t|].
  rewrite filter_cons. unfold mbind, M_bind. case_decide.
  - rewrite sendRaw_run by done. by rewrite IH.
  - unfold skip at 1, mret, M_ret. by rewrite IH.
Qed.

(** The datagram of a message: header and message. *)
Definition datagram (ty : TunnelMessageType) (from : NodeId) (to : option NodeId)
    (message : list byte) : list byte :=
  header (mkContext from ty to 0) (length message) ++ message.

Lemma take_encapsulated (context : MessageContext) message :
  (has_to_node (ctx_type context) = true → is_Some (ctx_to_node context)) →
  take (encapsulatedSize (ctx_type context) (length message))
    (filled kMaxMessageSize (header context (length message) ++ message)) =
  header context (length message) ++ message.
Proof.
  intros Hto. rewrite encapsulatedSize_header. unfold filled.
  rewrite <-(length_header context (length message) Hto), <-length_app.
  apply take_app_length.
Qed.

Definition control_datagram (ty : TunnelMessageType) : list byte :=
  datagram ty NodeId_zero None [].

Lemma sendControlMessage_run ty to t :
  has_to_node ty = false →
  sendControlMessage ty to t = (Ret tt, upd_mSocket (record_send (control_datagram ty) to) t).
Proof.
  intros Hty. unfold sendControlMessage, mbind, M_bind, lift.
  rewrite encapsulate_run. cbn [ctx_type]. rewrite Hty. cbn [andb].
  pose proof (header_size_bound ty). rewrite decide_True by (rewrite Nat.add_0_r; lia).
  rewrite sendRaw_run.
  - do 3 f_equal. apply (take_encapsulated (mkContext NodeId_zero ty None 0) []).
    simpl. by rewrite Hty.
  - rewrite encapsulatedSize_header. rewrite length_filled; [lia|].
    rewrite app_nil_r, length_header by (cbn; by rewrite Hty). cbn [ctx_type]. lia.
Qed.

(** The peers a message goes to. *)
Definition forward_targets (ty : TunnelMessageType) (to : option NodeId) t :
    list UdpEndpoint :=
  match ty with
  | UNICAST | MEASUREMENT_PING =>
      match to ≫= λ n, remoteNodeIdToPeerIdx t !! n ≫= λ i, mPeers t !! i with
      | Some p => if decide (state p = CONNECTED) then [endpoint p] else []
      | None => []
      end
  | _ => endpoint <$> filter (λ p, state p = CONNECTED) (mPeers t)
  end.

Lemma sendToPeerOf_run to msg bytes t :
  (bytes ≤ length msg)%nat →
  sendToPeerOf to msg bytes t =
    (Ret tt, upd_mSocket (record_sends (take bytes msg)
               (forward_targets UNICAST (Some to) t)) t).
Proof.
  intros Hb. unfold sendToPeerOf, forward_targets, mbind, M_bind, gets. simpl.
  destruct (remoteNodeIdToPeerIdx t !! to) as [i|]; simpl; [|by destruct t].
  destruct (mPeers t !! i) as [p|]; [|by destruct t].
  case_decide; [by rewrite sendRaw_run|by destruct t].
Qed.

(** Every run of [forward] on a message that fits a datagram. *)
Lemma forward_run ty from message to now t b c' :
  shouldForward ty from message now (mDedupCache (base t)) = (Ret b, c') →
  (header_size (node_size:=node_size) ty + length message ≤ kMaxMessageSize)%nat →
  forward ty from message to now t =
    (Ret tt,
     if b && negb (has_to_node ty && bool_decide (to = None))
     then upd_mSocket (record_sends (datagram ty from to message) (forward_targets ty to t))
            (upd_base (set_mDedupCache c') t)
     else upd_base (set_mDedupCache c') t).
Proof.
  intros Hsf Hfit. unfold forward. unfold mbind at 1, M_bind at 1, zoom at 1.
  rewrite Hsf. destruct b; [|done]. cbn [negb andb].
  unfold mbind at 1, M_bind at 1, lift. rewrite encapsulate_run. cbn [ctx_type ctx_to_node].
  destruct (has_to_node ty && bool_decide (to = None)) eqn:Hto; [done|].
  rewrite decide_True by done. cbn [negb].
  set (msg := filled _ _).
  assert (length msg = kMaxMessageSize ∧
      take (encapsulatedSize ty (length message)) msg = datagram ty from to message) as [Hl Htk].
  { assert (has_to_node ty = true → is_Some to) as His.
    { intros Hty. rewrite Hty in Hto. simpl in Hto. destruct to; [by eexists|done]. }
    split; [|by apply (take_encapsulated (mkContext from ty to 0))].
    apply length_filled. rewrite length_app, length_header by done. done. }
  assert (encapsulatedSize ty (length message) ≤ length msg)%nat as Hsize
    by (rewrite encapsulatedSize_header; lia).
  rewrite <-Htk. clearbody msg.
  assert (∀ ps, for_each ps (λ p, if decide (state p = CONNECTED) then
       sendRaw msg (encapsulatedSize ty (length message)) (endpoint p) else skip)
       (upd_base (set_mDedupCache c') t) = _) as Hall by (intros ps; by apply for_each_sends).
  destruct ty; try done; destruct to as [n|]; try done;
    try (unfold mbind, M_bind, gets; by rewrite Hall);
    rewrite sendToPeerOf_run by done; done.
Qed.
End runs.

(** ** The transition system *)

Section events.
Context {AS : Asio} {LK : Link} {W : Type} {GW : GatewayOps W}.

(** What can happen to a tunnel: the IO thread runs a posted job, receives a
    datagram or a timer expiry; gateways forward messages; other threads add
    and remove peers and decide about unknown ones; the gateways' own state
    moves; the tunnel is stopped. *)
Inductive Event :=
  | EvRunNext (now : Z)
  | EvDatagram (from : UdpEndpoint) (bytes : list byte) (now : Z)
  | EvTimer (ec : bool) (now : Z)
  | EvForward (ty : TunnelMessageType) (from : NodeId) (message : list byte)
      (to : option NodeId) (now : Z)
  | EvAddPeer (ep : UdpEndpoint)
  | EvRemovePeer (ep : UdpEndpoint)
  | EvSetCallback (cb : UdpEndpoint → list PeerDecision)
  | EvDecide (d : PeerDecision) (ep : UdpEndpoint)
  | EvAddGateway (g : nat)
  | EvWorld (w : W)
  | EvStop.

Definition handle_event (e : Event) : M (UdpTunnel W) unit :=
  match e with
  | EvRunNext now => run_next now
  | EvDatagram from bytes now => onDatagram from bytes now
  | EvTimer ec now => onMaintenanceTimer ec now
  | EvForward ty from message to now => forward ty from message to now
  | EvAddPeer ep => addPeer ep
  | EvRemovePeer ep => removePeer ep
  | EvSetCallback cb => setUnknownPeerCallback cb
  | EvDecide d ep => decide_peer d ep
  | EvAddGateway g => zoom base (λ b, upd_base (λ _, b)) (addGateway g)
  | EvWorld w => modify (upd_world (λ _, w))
  | EvStop => stop_listening
  end.

(** A datagram whose size field stays inside the message buffer. *)
Definition size_in_buffer (bytes : list byte) : Prop :=
  ∀ context buf, decapsulate (filled kMaxMessageSize bytes) = Ret (Some (context, buf)) →
    ctx_size context ≤ Z.of_nat kMaxMessageSize.

Context {node_size : nat} {LW : LinkLaws node_size} (I : W → Prop).

(** When an event can happen, and the sizes the code does not check. *)
Definition event_ok (e : Event) (t : UdpTunnel W) : Prop :=
  match e with
  | EvDatagram _ bytes _ =>
      receiving (mSocket t) = true ∧ (length bytes ≤ kMaxMessageSize)%nat ∧
      size_in_buffer bytes
  | EvTimer ec _ => ec = true ∨ is_Some (mMaintenanceTimer t)
  | EvForward ty _ message _ _ =>
      (header_size (node_size:=node_size) ty + length message ≤ kMaxMessageSize)%nat
  | EvDecide _ ep => ep ∈ callback_calls t
  | EvWorld w => I w
  | _ => True
  end.

Inductive reachable : UdpTunnel W → Prop :=
  | reachable_new w script peers : I w → reachable (new_UdpTunnel w script peers)
  | reachable_step t e t' :
      reachable t → event_ok e t → handle_event e t = (Ret tt, t') → reachable t'.

(** Every entry of the endpoint index names a peer with that endpoint. *)
Definition index_ok (t : UdpTunnel W) : Prop :=
  ∀ ep i, mEndpointToPeerIdx t !! ep = Some i → (endpoint <$> mPeers t) !! i = Some ep.

Record inv (t : UdpTunnel W) : Prop := {
  inv_cache : wf (mDedupCache (base t));
  inv_world : I (world t);
  inv_index : index_ok t;
}.
End events.
Arguments Event {AS LK} W.

Section invariant.
Context {AS : Asio} {LK : Link} {node_size : nat} {LW : LinkLaws node_size}.
Context {W : Type} {GW : GatewayOps W} (I : W → Prop) {GL : GatewayLaws W I}.
Implicit Types (t : UdpTunnel W) (p : PeerEntry).

Abbreviation keeps m := (∀ t, inv I t → wp m t (λ _ t', inv I t') no_throw).

Lemma endpoints_alter f i (ps : list PeerEntry) :
  (∀ p, endpoint (f p) = endpoint p) → endpoint <$> alter f i ps = endpoint <$> ps.
Proof.
  intros Hf. apply list_eq. intros j. rewrite !list_lookup_fmap, list_lookup_alter.
  case_decide; [|done]. subst. destruct (ps !! j); simpl; by rewrite ?Hf.
Qed.

Lemma index_of_snoc ps p :
  index_of (ps ++ [p]) = <[endpoint p := length ps]> (index_of ps).
Proof. unfold index_of. rewrite imap_app, foldl_app. simpl. by rewrite Nat.add_0_r. Qed.

Lemma index_of_lookup ps ep i :
  index_of ps !! ep = Some i → (endpoint <$> ps) !! i = Some ep.
Proof.
  induction ps as [|p ps IH] using rev_ind.
  { unfold index_of. simpl. by rewrite lookup_empty. }
  rewrite index_of_snoc, fmap_app, lookup_insert_Some.
  intros [[<- <-]|[Hne Hi]]; [|by apply lookup_app_l_Some, IH].
  rewrite lookup_app_r, length_fmap, Nat.sub_diag by (by rewrite length_fmap). done.
Qed.

Lemma index_of_total ps p : p ∈ ps → is_Some (index_of ps !! endpoint p).
Proof.
  induction ps as [|p' ps IH] using rev_ind; intros Hin; [by inv Hin|].
  rewrite index_of_snoc, lookup_insert. case_decide; [by eexists|].
  apply IH. apply elem_of_app in Hin as [Hin| ->%list_elem_of_singleton]; done.
Qed.

(** The parts of the state the invariant is about. *)
Lemma inv_core t t' :
  base t' = base t → world t' = world t →
  endpoint <$> mPeers t' = endpoint <$> mPeers t →
  mEndpointToPeerIdx t' = mEndpointToPeerIdx t → inv I t → inv I t'.
Proof.
  intros Hb Hw Hp Hi [Hc HI Hx]. split; [by rewrite Hb|by rewrite Hw|].
  unfold index_ok. by rewrite Hp, Hi.
Qed.

Lemma inv_upd_mSocket f t : inv I t → inv I (upd_mSocket f t).
Proof. by apply inv_core. Qed.
Lemma inv_upd_remote f t : inv I t → inv I (upd_remoteNodeIdToPeerIdx f t).
Proof. by apply inv_core. Qed.
Lemma inv_upd_posted f t : inv I t → inv I (upd_posted f t).
Proof. by apply inv_core. Qed.
Lemma inv_upd_pending f t : inv I t → inv I (upd_mPendingPeers f t).
Proof. by apply inv_core. Qed.
Lemma inv_upd_rejected f t : inv I t → inv I (upd_mRejectedPeers f t).
Proof. by apply inv_core. Qed.
Lemma inv_upd_callback_calls f t : inv I t → inv I (upd_callback_calls f t).
Proof. by apply inv_core. Qed.
Lemma inv_upd_timer f t : inv I t → inv I (upd_mMaintenanceTimer f t).
Proof. by apply inv_core. Qed.
Lemma inv_upd_running f t : inv I t → inv I (upd_is_running f t).
Proof. by apply inv_core. Qed.
Lemma inv_upd_callback f t : inv I t → inv I (upd_mUnknownPeerCallback f t).
Proof. by apply inv_core. Qed.
Lemma inv_upd_gateways f t : inv I t → inv I (upd_base (upd_gateways f) t).
Proof. intros [Hc HI Hx]. by split. Qed.
Lemma inv_write_peer i f t :
  (∀ p, endpoint (f p) = endpoint p) → inv I t → inv I (upd_mPeers (alter f i) t).
Proof. intros Hf. apply inv_core; try done. by apply endpoints_alter. Qed.
Lemma inv_upd_world w t : I w → inv I t → inv I (upd_world (λ _, w) t).
Proof. intros Hw [Hc HI Hx]. by split. Qed.
Lemma inv_cache_upd c t : wf c → inv I t → inv I (upd_base (set_mDedupCache c) t).
Proof. intros Hw [Hc HI Hx]. by split. Qed.
Lemma inv_no_index t : inv I t → inv I (upd_mEndpointToPeerIdx (λ _, ∅) t).
Proof. intros [Hc HI Hx]. split; [done|done|]. intros ep i. simpl. by rewrite lookup_empty. Qed.
End invariant.

#[export] Hint Resolve inv_upd_mSocket inv_upd_remote inv_upd_posted inv_upd_pending
  inv_upd_rejected inv_upd_callback_calls inv_upd_timer inv_upd_running inv_upd_callback
  inv_upd_gateways inv_upd_world inv_cache_upd inv_no_index : ale.

Section preservation.
Context {AS : Asio} {LK : Link} {node_size : nat} {LW : LinkLaws node_size}.
Context {W : Type} {GW : GatewayOps W} (I : W → Prop) {GL : GatewayLaws W I}.
Implicit Types (t : UdpTunnel W) (p : PeerEntry).

(** [m] returns from states that satisfy the invariant and keeps it. *)
Definition preserves {A} (m : M (UdpTunnel W) A) : Prop :=
  ∀ t, inv I t → wp m t (λ _ t', inv I t') no_throw.

Lemma preserves_bind {A B} (m : M (UdpTunnel W) A) (f : A → M (UdpTunnel W) B) :
  preserves m → (∀ a, preserves (f a)) → preserves (m ≫= f).
Proof.
  intros Hm Hf t Ht. apply wp_bind. eapply wp_mono; [by apply Hm| |done].
  intros a t' Ht'. by apply Hf.
Qed.
Lemma preserves_skip : preserves skip.
Proof. by intros t Ht. Qed.
Lemma preserves_ret {A} (a : A) : preserves (mret a).
Proof. by intros t Ht. Qed.
Lemma preserves_gets {A} (f : UdpTunnel W → A) : preserves (gets f).
Proof. by intros t Ht. Qed.
Lemma preserves_modify f : (∀ t, inv I t → inv I (f t)) → preserves (modify f).
Proof. intros Hf t Ht. by apply Hf. Qed.
Lemma preserves_for_each {A} (xs : list A) f :
  (∀ x, preserves (f x)) → preserves (for_each xs f).
Proof.
  intros Hf t Ht. apply (wp_for_each xs f t (λ _ t', inv I t') no_throw); [|done].
  intros x _ t' Ht'. by apply Hf.
Qed.

Lemma preserves_sendControl ty to :
  has_to_node ty = false → preserves (sendControlMessage ty to).
Proof.
  intros Hty t Ht. eapply wp_run; [by apply sendControlMessage_run|].
  by apply inv_upd_mSocket.
Qed.

Lemma preserves_push_peer ep : preserves (push_peer ep).
Proof.
  intros t [Hc HI Hx]. apply (wp_run _ _ tt (upd_mEndpointToPeerIdx
    <[ep := length (mPeers t)]> (upd_mPeers (λ ps, ps ++ [mkPeer ep DISCONNECTED 0]) t))).
  { unfold push_peer, mbind, M_bind, gets, modify. simpl. rewrite length_app. simpl.
    by replace (length (mPeers t) + 1 - 1)%nat with (length (mPeers t)) by lia. }
  split; [done..|]. intros ep' i. simpl. rewrite lookup_insert_Some, fmap_app.
  intros [[<- <-]|[_ Hi]]; [|by apply lookup_app_l_Some, Hx].
  rewrite lookup_app_r, length_fmap, Nat.sub_diag by (by rewrite length_fmap). done.
Qed.

(** The index names an existing peer. *)
Lemma index_peer t ep i :
  inv I t → mEndpointToPeerIdx t !! ep = Some i →
  ∃ p, mPeers t !! i = Some p ∧ endpoint p = ep.
Proof.
  intros Ht Hi. apply (inv_index I _ Ht) in Hi. rewrite list_lookup_fmap in Hi.
  destruct (mPeers t !! i) as [p|]; simplify_eq/=. eauto.
Qed.

Lemma wp_peer_at t i p (Q : PeerEntry → UdpTunnel W → Prop) E :
  mPeers t !! i = Some p → Q p t → wp (peer_at i) t Q E.
Proof. intros Hp HQ. eapply wp_run; [|done]. unfold peer_at, mbind, M_bind, gets. by rewrite Hp. Qed.

Lemma preserves_write_peer i f :
  (∀ p, endpoint (f p) = endpoint p) → preserves (write_peer i f).
Proof. intros Hf. apply preserves_modify. intros t. by apply inv_write_peer. Qed.

Lemma preserves_handleUnknownPeer from : preserves (handleUnknownPeer from).
Proof.
  unfold handleUnknownPeer. apply preserves_bind; [apply preserves_gets|intros rejected].
  apply preserves_bind; [apply preserves_gets|intros pending].
  do 2 (case_decide; [apply preserves_skip|]).
  repeat (apply preserves_bind; [first [apply preserves_gets|apply preserves_modify; eauto with ale]|intros ?]).
  apply preserves_for_each. intros d. apply preserves_modify. eauto with ale.
Qed.

Lemma preserves_deliver context payload :
  length payload = kMaxMessageSize → 0 ≤ ctx_size context ≤ Z.of_nat kMaxMessageSize →
  well_addressed context → preserves (deliver context payload).
Proof.
  intros Hlen Hsize Hto t Ht. unfold deliver. wp_steps.
  rewrite <-(Z2Nat.id (ctx_size context)) by lia.
  eapply wp_mono; [apply (forward_locally_returns I)|..].
  - apply Ht.
  - done.
  - lia.
  - unfold well_addressed in Hto. intros Hty. by rewrite Hty in Hto.
  - intros buf w (Hw & _). apply wp_skip. by apply inv_upd_world.
  - done.
Qed.

Lemma wp_connected_index t from (Q : option nat → UdpTunnel W → Prop) :
  inv I t →
  (∀ i p, mEndpointToPeerIdx t !! from = Some i → mPeers t !! i = Some p →
     endpoint p = from → state p = CONNECTED → Q (Some i) t) →
  ((∀ i p, mEndpointToPeerIdx t !! from = Some i → mPeers t !! i = Some p →
     state p ≠ CONNECTED) → Q None t) →
  wp (connected_index from) t Q no_throw.
Proof.
  intros Ht Hsome Hnone. unfold connected_index. wp_steps.
  destruct (mEndpointToPeerIdx t !! from) as [i|] eqn:Hi; [|by wp_steps; apply Hnone].
  destruct (index_peer t from i Ht Hi) as (p & Hp & Hep).
  wp_steps. apply (wp_peer_at t i p); [done|]. wp_steps. case_decide; [by eauto|].
  apply Hnone. naive_solver.
Qed.

Lemma preserves_handleHello from now : preserves (handleHello from now).
Proof.
  intros t Ht. unfold handleHello. wp_steps.
  destruct (mEndpointToPeerIdx t !! from) as [i|] eqn:Hi;
    [|by apply preserves_handleUnknownPeer].
  destruct (index_peer t from i Ht Hi) as (p & Hp & _).
  wp_steps. apply (wp_peer_at t i p); [done|].
  apply preserves_bind; [by apply preserves_write_peer|intros _|done].
  apply preserves_bind; [by apply preserves_write_peer|intros _].
  case_bool_decide; [apply preserves_skip|by apply preserves_sendControl].
Qed.

Lemma preserves_handleKeepalive from now : preserves (handleKeepalive from now).
Proof.
  intros t Ht. unfold handleKeepalive. wp_steps.
  destruct (mEndpointToPeerIdx t !! from) as [i|] eqn:Hi; [|done].
  destruct (index_peer t from i Ht Hi) as (p & Hp & _).
  wp_steps. apply (wp_peer_at t i p); [done|].
  case_decide; [by apply preserves_write_peer|done].
Qed.

Lemma preserves_handleBye from : preserves (handleBye from).
Proof.
  intros t Ht. unfold handleBye. wp_steps.
  destruct (mEndpointToPeerIdx t !! from) as [i|] eqn:Hi; [|done].
  destruct (index_peer t from i Ht Hi) as (p & Hp & _).
  wp_steps. apply (wp_peer_at t i p); [done|].
  apply preserves_bind; [by apply preserves_write_peer|intros _|done].
  apply preserves_modify. eauto with ale.
Qed.

(** A buffer whose size field stays inside it. *)
Lemma preserves_handleReceive from buf now :
  length buf = kMaxMessageSize →
  (∀ context payload, decapsulate buf = Ret (Some (context, payload)) →
     ctx_size context ≤ Z.of_nat kMaxMessageSize) →
  preserves (handleReceive from buf now).
Proof.
  intros Hlen Hsize t Ht. unfold handleReceive. apply wp_bind.
  destruct (decapsulate_run buf Hlen) as (context & Hr & [Hz _] & Hto).
  specialize (Hsize _ _ Hr). unfold lift. unfold wp at 1. rewrite Hr.
  assert (Hdel : preserves (deliver context
    (filled kMaxMessageSize (drop (header_size (node_size:=node_size) (ctx_type context)) buf)))).
  { apply preserves_deliver; [|done|done]. apply length_filled.
    rewrite length_drop. lia. }
  assert (Hfwd : ∀ f, preserves (i ← connected_index from;
    match i with
    | None => skip
    | Some i => modify (upd_remoteNodeIdToPeerIdx (f i));; deliver context
       (filled kMaxMessageSize (drop (header_size (node_size:=node_size) (ctx_type context)) buf))
    end)).
  { intros f t0 Ht0. wp_steps. apply wp_connected_index; [done|..].
    - intros i p _ _ _ _. wp_steps. apply Hdel. by apply inv_upd_remote.
    - intros _. by apply wp_skip. }
  destruct (ctx_type context); try (by apply Hfwd).
  - by apply preserves_handleHello.
  - by apply preserves_handleBye.
  - by apply preserves_handleKeepalive.
Qed.

Lemma preserves_forward ty from message to now :
  (header_size (node_size:=node_size) ty + length message ≤ kMaxMessageSize)%nat →
  preserves (forward ty from message to now).
Proof.
  intros Hfit t Ht.
  destruct (returns_run _ _ _ (shouldForward_wp ty from message now _ (inv_cache I _ Ht)))
    as (b & c' & Hr & Hwf).
  eapply wp_run; [by apply forward_run|].
  case_match; eauto with ale.
Qed.

Lemma preserves_listen : preserves listen.
Proof. apply preserves_modify. eauto with ale. Qed.

Lemma preserves_accept_job from : preserves (accept_job from).
Proof.
  unfold accept_job. apply preserves_bind; [apply preserves_modify; eauto with ale|intros _].
  apply preserves_bind; [apply preserves_gets|intros idx]. case_decide; [|apply preserves_skip].
  apply preserves_bind; [apply preserves_push_peer|intros _]. by apply preserves_sendControl.
Qed.

Lemma preserves_addPeer_job ep : preserves (addPeer_job ep).
Proof.
  unfold addPeer_job. apply preserves_bind; [apply preserves_gets|intros idx].
  case_decide; [|apply preserves_skip].
  apply preserves_bind; [apply preserves_push_peer|intros _]. by apply preserves_sendControl.
Qed.

Lemma preserves_reject_job from : preserves (reject_job from).
Proof.
  apply preserves_bind; [|intros _]; apply preserves_modify; eauto with ale.
Qed.

Lemma inv_reindex ps t : inv I t →
  inv I (upd_mEndpointToPeerIdx (λ _, index_of ps) (upd_mPeers (λ _, ps) t)).
Proof.
  intros [Hc HI _]. split; [done..|]. intros ep i Hi. by apply index_of_lookup in Hi.
Qed.

Lemma removePeer_job_run ep i t :
  inv I t → mEndpointToPeerIdx t !! ep = Some i →
  removePeer_job ep t = (Ret tt,
    let ps := delete i (mPeers t) in
    upd_mEndpointToPeerIdx (λ _, index_of ps) (upd_mPeers (λ _, ps)
      (upd_remoteNodeIdToPeerIdx (filter (λ kv, kv.2 ≠ i))
        (upd_mSocket (record_send (control_datagram TUNNEL_BYE) ep) t)))).
Proof.
  intros Ht Hi. destruct (index_peer t ep i Ht Hi) as (p & Hp & _).
  apply lookup_lt_Some in Hp as Hlt.
  unfold removePeer_job. unfold mbind at 1, M_bind at 1, gets at 1. rewrite Hi.
  unfold mbind at 1, M_bind at 1. unfold sendBye. rewrite sendControlMessage_run by done.
  unfold mbind, M_bind, gets, modify, erasePeerNodeIds, rebuildEndpointIndex. simpl.
  by rewrite decide_True by done.
Qed.

Lemma preserves_removePeer_job ep : preserves (removePeer_job ep).
Proof.
  intros t Ht. destruct (mEndpointToPeerIdx t !! ep) as [i|] eqn:Hi.
  - eapply wp_run; [by apply removePeer_job_run|]. apply inv_reindex; eauto with ale.
  - eapply wp_run; [unfold removePeer_job, mbind, M_bind, gets; by rewrite Hi|done].
Qed.
End preservation.

(** ** Maintenance as a function of the peer table *)

Section maintenance.
Context {AS : Asio} {LK : Link} {node_size : nat} {LW : LinkLaws node_size}.
Context {W : Type} {GW : GatewayOps W}.
Implicit Types (t : UdpTunnel W) (p : PeerEntry) (ps : list PeerEntry).

(** A connected peer that has been silent for more than the timeout. *)
Definition expired (now : Z) p : bool :=
  bool_decide (state p = CONNECTED) && bool_decide (kKeepaliveTimeout < now - last_seen p).

Definition maintained (now : Z) p : PeerEntry :=
  match state p with
  | CONNECTED => if expired now p then set_state DISCONNECTED p else p
  | DISCONNECTED | CONNECTING => set_state CONNECTING p
  end.

Definition maintenance_sends (now : Z) p : list (list byte * UdpEndpoint) :=
  match state p with
  | CONNECTED =>
      if expired now p then [] else [(control_datagram TUNNEL_KEEPALIVE, endpoint p)]
  | DISCONNECTED | CONNECTING => [(control_datagram TUNNEL_HELLO, endpoint p)]
  end.

Definition expired_at (now : Z) ps (i : nat) : bool := from_option (expired now) false (ps !! i).

Definition record_all (l : list (list byte * UdpEndpoint)) (s : UdpSocket) : UdpSocket :=
  foldl (λ s d, record_send d.1 d.2 s) s l.

Lemma record_all_receiving l s : receiving (record_all l s) = receiving s.
Proof. unfold record_all. revert s. induction l as [|d l IH]; intros s; [done|]. simpl. by rewrite IH. Qed.

Lemma record_all_calls l s : send_calls (record_all l s) = send_calls s ++ l.
Proof.
  unfold record_all. revert s. induction l as [|[d to] l IH]; intros s; simpl.
  - by rewrite app_nil_r.
  - rewrite IH. simpl. by rewrite <-app_assoc.
Qed.

(** The three parts of the state a maintenance pass writes. *)
Definition table_update (fp : list PeerEntry → list PeerEntry) (fs : UdpSocket → UdpSocket)
    (fr : gmap NodeId nat → gmap NodeId nat) t : UdpTunnel W :=
  mkUdpTunnel (base t) (world t) (fs (mSocket t)) (mMaintenanceTimer t) (is_running t)
    (fp (mPeers t)) (fr (remoteNodeIdToPeerIdx t)) (mEndpointToPeerIdx t) (mPendingPeers t)
    (mRejectedPeers t) (mUnknownPeerCallback t) (posted t) (callback_calls t).

Lemma table_update_compose fp fs fr gp gs gr t :
  table_update fp fs fr (table_update gp gs gr t) =
  table_update (λ x, fp (gp x)) (λ x, fs (gs x)) (λ x, fr (gr x)) t.
Proof. done. Qed.

Lemma table_update_ext fp fs fr gp gs gr t :
  fp (mPeers t) = gp (mPeers t) → fs (mSocket t) = gs (mSocket t) →
  fr (remoteNodeIdToPeerIdx t) = gr (remoteNodeIdToPeerIdx t) →
  table_update fp fs fr t = table_update gp gs gr t.
Proof. unfold table_update. by intros -> -> ->. Qed.

Lemma maintain_peer_run now i p t :
  mPeers t !! i = Some p →
  maintain_peer now i t =
    (Ret tt, table_update (alter (maintained now) i) (record_all (maintenance_sends now p))
      (λ m, if expired now p then filter (λ kv, kv.2 ≠ i) m else m) t).
Proof.
  intros Hp. unfold maintain_peer. unfold mbind at 1, M_bind at 1, peer_at, mbind, M_bind, gets.
  rewrite Hp. unfold mret, M_ret.
  assert (∀ f q, mPeers t !! i = Some q → f q = q → alter f i (mPeers t) = mPeers t) as Hid.
  { intros f q Hq Hf. apply list_eq. intros j. rewrite list_lookup_alter. case_decide; [|done].
    subst. rewrite Hq. simpl. by rewrite Hf. }
  assert (∀ f g, f p = g p → alter f i (mPeers t) = alter g i (mPeers t)) as Hext.
  { intros f g Hfg. apply list_eq. intros j. rewrite !list_lookup_alter. case_decide; [|done].
    subst. rewrite Hp. simpl. by rewrite Hfg. }
  unfold maintenance_sends.
  destruct (state p) eqn:Hs; simpl.
  - assert (expired now p = false) as -> by (unfold expired; by rewrite Hs).
    unfold sendHello. rewrite sendControlMessage_run by done.
    unfold write_peer, modify, upd_mPeers, table_update; simpl.
    rewrite (Hext (set_state CONNECTING) (maintained now)); [done|].
    unfold maintained. by rewrite Hs.
  - assert (expired now p = false) as -> by (unfold expired; by rewrite Hs).
    unfold sendHello. rewrite sendControlMessage_run by done.
    unfold write_peer, modify, upd_mPeers, table_update; simpl.
    rewrite (Hext (set_state CONNECTING) (maintained now)); [done|].
    unfold maintained. by rewrite Hs.
  - case_decide as Hd.
    + assert (expired now p = true) as He
        by (unfold expired; by rewrite Hs, !bool_decide_true by done).
      rewrite He. unfold erasePeerNodeIds, write_peer, modify, upd_mPeers, table_update; simpl.
      rewrite (Hext (set_state DISCONNECTED) (maintained now)); [done|].
      unfold maintained. by rewrite Hs, He.
    + assert (expired now p = false) as He
        by (unfold expired; by rewrite bool_decide_true, bool_decide_false by done).
      rewrite He. unfold sendKeepalive. rewrite sendControlMessage_run by done.
      unfold table_update; simpl. rewrite (Hid (maintained now) p); [by destruct t|done|].
      unfold maintained. by rewrite Hs, He.
Qed.

(** The table after the first [k] peers have been visited. *)
Definition maintained_upto (now : Z) (k : nat) t : UdpTunnel W :=
  table_update (λ ps, (maintained now <$> take k ps) ++ drop k ps)
    (record_all (take k (mPeers t) ≫= maintenance_sends now))
    (filter (λ kv, expired_at now (take k (mPeers t)) kv.2 = false)) t.

Lemma expired_at_take_S now ps k p i :
  ps !! k = Some p →
  expired_at now (take (S k) ps) i =
    (if decide (i = k) then expired now p else expired_at now (take k ps) i).
Proof.
  intros Hp. unfold expired_at. rewrite !lookup_take.
  destruct (decide (i = k)) as [->|Hne].
  - rewrite decide_True by lia. by rewrite Hp.
  - repeat case_decide; done || lia.
Qed.

Lemma maintained_table_S now k p ps :
  ps !! k = Some p →
  alter (maintained now) k ((maintained now <$> take k ps) ++ drop k ps) =
  (maintained now <$> take (S k) ps) ++ drop (S k) ps.
Proof.
  intros Hp. apply lookup_lt_Some in Hp as Hlt.
  assert (length (maintained now <$> take k ps) = k) as Hlen
    by (rewrite length_fmap, length_take; lia).
  rewrite (take_S_r _ _ _ Hp), fmap_app. rewrite (drop_S _ p k) by done.
  rewrite <-Hlen at 1. rewrite alter_app_r_alt by lia.
  rewrite Nat.sub_diag. simpl. by rewrite <-app_assoc.
Qed.

Lemma maintained_routes_S now k p ps (m : gmap NodeId nat) :
  ps !! k = Some p →
  (if expired now p then filter (λ kv, kv.2 ≠ k)
       (filter (λ kv, expired_at now (take k ps) kv.2 = false) m)
   else filter (λ kv, expired_at now (take k ps) kv.2 = false) m) =
  filter (λ kv, expired_at now (take (S k) ps) kv.2 = false) m.
Proof.
  intros Hp. destruct (expired now p) eqn:He.
  - rewrite map_filter_filter. apply map_filter_ext. intros n' i _. simpl.
    rewrite (expired_at_take_S now _ k p) by done. case_decide as Hd; [|tauto].
    split; [by intros []|by rewrite He].
  - apply map_filter_ext. intros n' i Hi. simpl.
    rewrite (expired_at_take_S now _ k p) by done. case_decide as Hd; [|tauto].
    subst. rewrite He. split; [done|]. intros _. unfold expired_at.
    rewrite lookup_take_ge by lia. done.
Qed.

Lemma maintained_upto_S now k p t :
  mPeers t !! k = Some p →
  maintain_peer now k (maintained_upto now k t) = (Ret tt, maintained_upto now (S k) t).
Proof.
  intros Hp. apply lookup_lt_Some in Hp as Hlt.
  assert (length (maintained now <$> take k (mPeers t)) = k) as Hlen
    by (rewrite length_fmap, length_take; lia).
  rewrite (maintain_peer_run now k p).
  2:{ simpl. rewrite lookup_app_r, Hlen, Nat.sub_diag by lia.
      by rewrite lookup_drop, Nat.add_0_r. }
  f_equal. unfold maintained_upto. rewrite table_update_compose.
  apply table_update_ext.
  - by apply (maintained_table_S _ _ p).
  - rewrite (take_S_r _ _ _ Hp), bind_app. csimpl. rewrite app_nil_r.
    unfold record_all. by rewrite foldl_app.
  - by apply maintained_routes_S.
Qed.

Lemma maintain_loop now k t :
  (k ≤ length (mPeers t))%nat →
  for_each (seq 0 k) (maintain_peer now) t = (Ret tt, maintained_upto now k t).
Proof.
  induction k as [|k IH]; intros Hk.
  - unfold maintained_upto, table_update. simpl. unfold skip, mret, M_ret. f_equal.
    rewrite (map_filter_id _ (remoteNodeIdToPeerIdx t)) by done. by destruct t.
  - rewrite seq_S, for_each_app. simpl. unfold mbind, M_bind. rewrite IH by lia.
    destruct (lookup_lt_is_Some_2 (mPeers t) k) as [p Hp]; [lia|].
    by rewrite (maintained_upto_S now k p) by done.
Qed.

(** One maintenance pass, exactly. *)
Lemma runMaintenance_run now t :
  is_running t = true →
  runMaintenance now t =
    (Ret tt, upd_mMaintenanceTimer (λ _, Some (now + kMaintenanceInterval))
      (table_update (fmap (maintained now)) (record_all (mPeers t ≫= maintenance_sends now))
        (filter (λ kv, expired_at now (mPeers t) kv.2 = false)) t)).
Proof.
  intros Hr. unfold runMaintenance. unfold mbind at 1, M_bind at 1, gets at 1. rewrite Hr.
  unfold mbind, M_bind, gets, modify. simpl. rewrite maintain_loop by done. f_equal.
  unfold maintained_upto. f_equal. apply table_update_ext; simpl; rewrite firstn_all; [|done..].
  by rewrite drop_all, app_nil_r.
Qed.

(** The timer fires. *)
Lemma onMaintenanceTimer_run now t :
  is_running t = true →
  onMaintenanceTimer false now t =
    (Ret tt, upd_mMaintenanceTimer (λ _, Some (now + kMaintenanceInterval))
      (table_update (fmap (maintained now)) (record_all (mPeers t ≫= maintenance_sends now))
        (filter (λ kv, expired_at now (mPeers t) kv.2 = false)) t)).
Proof.
  intros Hr. unfold onMaintenanceTimer, mbind, M_bind, modify, gets.
  cbn [is_running upd_mMaintenanceTimer]. rewrite Hr. by apply (runMaintenance_run now (upd_mMaintenanceTimer _ t)).
Qed.
End maintenance.

Section safety.
Context {AS : Asio} {LK : Link} {node_size : nat} {LW : LinkLaws node_size}.
Context {W : Type} {GW : GatewayOps W} (I : W → Prop) {GL : GatewayLaws W I}.
Implicit Types (t : UdpTunnel W) (p : PeerEntry).

Lemma maintained_endpoint now p : endpoint (maintained now p) = endpoint p.
Proof. unfold maintained. destruct (state p); [done..|]. by case_match. Qed.

Lemma preserves_runMaintenance now : preserves I (runMaintenance now).
Proof.
  intros t Ht. destruct (is_running t) eqn:Hr.
  - eapply wp_run; [by apply runMaintenance_run|].
    apply inv_upd_timer.
    eapply inv_core; [..|exact Ht]; try done. simpl. rewrite <-list_fmap_compose.
    apply list_fmap_ext. intros i p _. apply maintained_endpoint.
  - eapply wp_run; [|exact Ht]. unfold runMaintenance, mbind, M_bind, gets. by rewrite Hr.
Qed.

Lemma preserves_zoom_world (m : M W unit) :
  (∀ w, I w → wp m w (λ _ w', I w') no_throw) →
  preserves I (zoom world (λ w, upd_world (λ _, w)) m).
Proof.
  intros Hm t Ht. wp_steps. eapply wp_mono; [apply Hm, Ht| |done].
  intros ? w' Hw. by apply inv_upd_world.
Qed.

Lemma preserves_stop_listening : preserves I stop_listening.
Proof.
  unfold stop_listening.
  do 2 (apply preserves_bind; [apply preserves_modify; eauto with ale|intros _]).
  apply preserves_bind; [apply preserves_gets|intros ps].
  apply preserves_bind; [|intros _].
  { apply preserves_for_each. intros p. case_decide; [|apply preserves_skip].
    by apply preserves_sendControl. }
  apply preserves_bind; [apply preserves_gets|intros gs].
  apply preserves_bind; [|intros _].
  { apply preserves_for_each. intros g. apply preserves_zoom_world. intros w Hw.
    by apply gateway_stop_listening_returns. }
  do 4 (apply preserves_bind; [apply preserves_modify; eauto with ale|intros _]).
  apply preserves_modify. eauto with ale.
Qed.

Lemma preserves_onDatagram from bytes now :
  (length bytes ≤ kMaxMessageSize)%nat → size_in_buffer bytes →
  preserves I (onDatagram from bytes now).
Proof.
  intros Hlen Hsize. unfold onDatagram.
  apply preserves_bind; [apply preserves_modify; eauto with ale|intros _].
  intros t Ht. apply wp_bind. unfold lift. unfold wp at 1. rewrite write_at_zero by done.
  revert t Ht.
  apply preserves_bind; [|intros _].
  - apply (preserves_handleReceive I); [by apply length_filled|]. intros context payload Hd.
    by eapply Hsize.
  - apply preserves_bind; [apply preserves_gets|intros running].
    destruct running; [apply preserves_listen|apply preserves_skip].
Qed.

Lemma preserves_run_job j now : preserves I (run_job j now).
Proof.
  destruct j; simpl.
  - apply preserves_listen.
  - apply preserves_runMaintenance.
  - apply preserves_addPeer_job.
  - apply preserves_removePeer_job.
  - apply preserves_accept_job.
  - apply preserves_reject_job.
Qed.

Lemma preserves_run_next now : preserves I (run_next now).
Proof.
  apply preserves_bind; [apply preserves_gets|intros [|j q]]; [apply preserves_skip|].
  apply preserves_bind; [apply preserves_modify; eauto with ale|intros _].
  apply preserves_run_job.
Qed.

Lemma preserves_addGateway g :
  preserves I (zoom base (λ b, upd_base (λ _, b)) (addGateway g)).
Proof.
  intros t [Hc HI Hx]. wp_steps. eapply wp_run; [apply addGateway_run|].
  split; simpl; [by case_decide|done|done].
Qed.

Lemma handle_event_inv e t :
  inv I t → event_ok (node_size:=node_size) I e t →
  wp (handle_event e) t (λ _ t', inv I t') no_throw.
Proof.
  intros Ht Hok. destruct e; simpl in *.
  - by apply preserves_run_next.
  - destruct Hok as (_ & Hlen & Hsize). by apply preserves_onDatagram.
  - unfold onMaintenanceTimer. apply preserves_bind; [|intros _|done].
    { destruct ec; [by intros ?|apply preserves_modify]. eauto with ale. }
    intros t' Ht'. wp_steps. case_match; [|done]. by apply preserves_runMaintenance.
  - by apply preserves_forward.
  - by apply inv_upd_posted.
  - by apply inv_upd_posted.
  - by apply inv_upd_callback.
  - by apply inv_upd_posted.
  - by apply preserves_addGateway.
  - by apply inv_upd_world.
  - by apply preserves_stop_listening.
Qed.

Lemma new_UdpTunnel_inv w script peers : I w → inv I (new_UdpTunnel w script peers).
Proof.
  intros Hw. split; simpl; [|done|].
  - apply new_wf. unfold kDedupCacheCapacity. lia.
  - intros ep i. apply index_of_lookup.
Qed.

Lemma reachable_inv t : reachable (node_size:=node_size) I t → inv I t.
Proof.
  induction 1 as [|t e t' _ IH Hok Hr]; [by apply new_UdpTunnel_inv|].
  pose proof (handle_event_inv e t IH Hok) as Hwp. unfold wp in Hwp. by rewrite Hr in Hwp.
Qed.
End safety.

(** ** Frames: what a whole event leaves alone *)

Section frames.
Context {AS : Asio} {LK : Link} {W : Type} {GW : GatewayOps W}.
Implicit Types (t : UdpTunnel W) (p : PeerEntry).

(** The gateways are not called and no route is added. *)
Definition no_delivery t t' : Prop :=
  world t' = world t ∧ remoteNodeIdToPeerIdx t' ⊆ remoteNodeIdToPeerIdx t.
#[local] Instance no_delivery_preorder : PreOrder no_delivery.
Proof.
  split; [by split|]. intros t1 t2 t3 [Hw1 Hm1] [Hw2 Hm2]. split; [congruence|by etrans].
Qed.

Lemma no_delivery_erase i : respects no_delivery (erasePeerNodeIds (W:=W) i).
Proof.
  unfold erasePeerNodeIds. respects_steps. split; [done|]. simpl. apply map_filter_subseteq.
Qed.

Lemma no_delivery_sendControl ty to : respects no_delivery (sendControlMessage (W:=W) ty to).
Proof. unfold sendControlMessage, sendRaw. respects_steps; by split. Qed.

Lemma no_delivery_handleUnknownPeer from :
  respects no_delivery (handleUnknownPeer (W:=W) from).
Proof. unfold handleUnknownPeer, decide_peer, async. respects_steps; by split. Qed.

Lemma no_delivery_handleHello from now : respects no_delivery (handleHello (W:=W) from now).
Proof.
  unfold handleHello, peer_at, write_peer, sendHello.
  respects_steps; try (by split);
    [apply no_delivery_sendControl|apply no_delivery_handleUnknownPeer].
Qed.

Lemma no_delivery_handleKeepalive from now :
  respects no_delivery (handleKeepalive (W:=W) from now).
Proof. unfold handleKeepalive, peer_at, write_peer. respects_steps; by split. Qed.

Lemma no_delivery_handleBye from : respects no_delivery (handleBye (W:=W) from).
Proof.
  unfold handleBye, peer_at, write_peer. respects_steps; try (by split).
  apply no_delivery_erase.
Qed.

(** [from] is a known peer in state CONNECTED. *)
Definition connected_from t (from : UdpEndpoint) : Prop :=
  ∃ i p, mEndpointToPeerIdx t !! from = Some i ∧ mPeers t !! i = Some p ∧ state p = CONNECTED.

Lemma not_connected_index t from (f : nat → M (UdpTunnel W) unit) :
  ¬ connected_from t from →
  ((i ← connected_index from; match i with None => skip | Some i => f i end) t).2 = t.
Proof.
  intros Hn. unfold connected_index, peer_at, mbind, M_bind, gets, mret, M_ret, undefined.
  destruct (mEndpointToPeerIdx t !! from) as [i|] eqn:Hi; [|done].
  destruct (mPeers t !! i) as [p|] eqn:Hp; [|done].
  case_decide as Hs; [|done]. exfalso. apply Hn. by exists i, p.
Qed.

Lemma no_delivery_handleReceive t from buf now :
  ¬ connected_from t from → no_delivery t (handleReceive from buf now t).2.
Proof.
  intros Hn. unfold handleReceive. unfold mbind at 1, M_bind at 1, lift.
  destruct (decapsulate buf) as [[[context payload]|]|e|u]; try reflexivity.
  destruct (ctx_type context); try (rewrite not_connected_index by done; reflexivity).
  - apply no_delivery_handleHello.
  - apply no_delivery_handleBye.
  - apply no_delivery_handleKeepalive.
Qed.

Lemma no_delivery_onDatagram t from bytes now :
  ¬ connected_from t from → no_delivery t (onDatagram from bytes now t).2.
Proof.
  intros Hn. unfold onDatagram. unfold mbind at 1, M_bind at 1, modify.
  set (t1 := upd_mSocket _ t).
  assert (¬ connected_from t1 from) as Hn1 by exact Hn.
  assert (no_delivery t t1) as Ht1 by done.
  unfold mbind at 1, M_bind at 1, lift. destruct (write_at _ _ _) as [buf|e|u]; [|done..].
  pose proof (no_delivery_handleReceive t1 from buf now Hn1) as Hr.
  unfold mbind at 1, M_bind at 1. destruct (handleReceive from buf now t1) as [[[]|e|u] t2];
    (etrans; [exact Ht1|]); simpl in *; try done.
  etrans; [exact Hr|].
  assert (respects no_delivery (running ← gets is_running; if running : bool then listen else skip))
    as Hlast; [|apply Hlast].
  unfold listen. respects_steps; by split.
Qed.

(** The decision about a rejected endpoint stands: it is not asked about
    again. *)
Definition not_asked (ep : UdpEndpoint) t t' : Prop :=
  ep ∈ mRejectedPeers t →
  ep ∈ mRejectedPeers t' ∧
  filter (.= ep) (callback_calls t') = filter (.= ep) (callback_calls t).
#[local] Instance not_asked_preorder ep : PreOrder (not_asked ep).
Proof.
  split; [by intros t|]. intros t1 t2 t3 H12 H23 H1.
  destruct (H12 H1) as [H2 ->%symmetry]. destruct (H23 H2) as [H3 ->]. done.
Qed.

Lemma not_asked_handleUnknownPeer ep from :
  respects (not_asked ep) (handleUnknownPeer (W:=W) from).
Proof.
  intros t. unfold handleUnknownPeer. unfold mbind at 1, M_bind at 1, gets at 1.
  unfold mbind at 1, M_bind at 1, gets at 1. case_decide as Hr; [by intros Hep|].
  case_decide as Hp; [by intros Hep|].
  assert (∀ cb, respects (not_asked ep) (for_each cb (λ d, decide_peer (W:=W) d from))) as Hloop.
  { intros cb. unfold decide_peer, async. respects_steps. by intros ?. }
  unfold mbind at 1, M_bind at 1, modify at 1.
  unfold mbind at 1, M_bind at 1, gets at 1.
  unfold mbind at 1, M_bind at 1, modify at 1.
  intros Hep. match goal with |- context [for_each ?cb _ ?s] =>
    destruct (Hloop cb s) as [Hin Hf]; [exact Hep|]; split; [exact Hin|]; rewrite Hf end.
  simpl. rewrite filter_app, filter_cons_False; [by rewrite app_nil_r|].
  intros ->. done.
Qed.

Lemma not_asked_sendControl ep ty to :
  respects (not_asked ep) (sendControlMessage (W:=W) ty to).
Proof. unfold sendControlMessage, sendRaw. respects_steps; by intros ?. Qed.

Lemma not_asked_deliver ep context payload :
  respects (not_asked ep) (deliver (W:=W) context payload).
Proof. unfold deliver. respects_steps; by intros ?. Qed.

Lemma not_asked_handleReceive ep from buf now :
  respects (not_asked ep) (handleReceive (W:=W) from buf now).
Proof.
  unfold handleReceive, handleHello, handleKeepalive, handleBye, connected_index, peer_at,
    write_peer, erasePeerNodeIds.
  respects_steps; try (by intros ?); try apply not_asked_deliver;
    try apply not_asked_sendControl; apply not_asked_handleUnknownPeer.
Qed.

Lemma not_asked_runMaintenance ep now : respects (not_asked ep) (runMaintenance (W:=W) now).
Proof.
  unfold runMaintenance, maintain_peer, peer_at, write_peer, erasePeerNodeIds.
  respects_steps; try (by intros ?); apply not_asked_sendControl.
Qed.

Lemma not_asked_run_job ep j now : respects (not_asked ep) (run_job (W:=W) j now).
Proof.
  destruct j; simpl.
  - unfold listen. respects_steps. by intros ?.
  - apply not_asked_runMaintenance.
  - unfold addPeer_job, push_peer. respects_steps; try (by intros ?);
      apply not_asked_sendControl.
  - unfold removePeer_job, erasePeerNodeIds, rebuildEndpointIndex.
    respects_steps; try (by intros ?); apply not_asked_sendControl.
  - unfold accept_job, push_peer. respects_steps; try (by intros ?);
      apply not_asked_sendControl.
  - unfold reject_job. respects_steps; [by intros ?|].
    intros Hin. split; [set_solver|done].
Qed.

Lemma not_asked_handle_event ep (e : Event W) :
  e ≠ EvStop → respects (not_asked ep) (handle_event e).
Proof.
  intros Hne. destruct e; simpl; [..|done].
  - unfold run_next. respects_steps; [by intros ?|apply not_asked_run_job].
  - unfold onDatagram, listen. respects_steps; try (by intros ?).
    apply not_asked_handleReceive.
  - unfold onMaintenanceTimer. respects_steps; [by intros ?|apply not_asked_runMaintenance].
  - unfold forward, sendToPeerOf, sendRaw. respects_steps; by intros ?.
  - unfold addPeer, async. respects_steps. by intros ?.
  - unfold removePeer, async. respects_steps. by intros ?.
  - unfold setUnknownPeerCallback. respects_steps. by intros ?.
  - unfold decide_peer, async. respects_steps. by intros ?.
  - respects_steps. by intros ?.
  - respects_steps. by intros ?.
Qed.

Definition handle_events (es : list (Event W)) : M (UdpTunnel W) unit :=
  for_each es handle_event.

Lemma not_asked_events ep (es : list (Event W)) t :
  EvStop ∉ es → not_asked ep t (handle_events es t).2.
Proof.
  revert t. induction es as [|e es IH]; intros t Hes; [by intros ?|].
  apply not_elem_of_cons in Hes as [He Hes]. unfold handle_events in *. simpl.
  pose proof (not_asked_handle_event ep e (not_eq_sym He) t) as H1.
  unfold mbind, M_bind. destruct (handle_event e t) as [[[]|ex|u] t1]; simpl in *; [|done|done].
  etrans; [exact H1|]. by apply IH.
Qed.
End frames.
