(* ===== verification/UdpTunnelSpec.v ===== *)
(** * What the tunnel between sites promises

    The theorems about [UdpTunnel.v]: safety and liveness over all reachable
    states, the connection handshake, routing, delivery from one site to the
    other, maintenance and approval, each with a concrete instance. *)

From S2P Require Import Prelude LinkLib Sample DedupCache Tunnel UdpTunnel.

(** ** The tunnel keeps receiving and maintaining itself *)

Section alive.
Context {AS : Asio} {LK : Link} {W : Type} {GW : GatewayOps W}.
Implicit Types (t : UdpTunnel W) (p : PeerEntry) (ps : list PeerEntry).

(** The run flag, the timer and the receive handler are left alone, and
    posted work stays posted. *)
Definition quiet t t' : Prop :=
  is_running t' = is_running t ∧ mMaintenanceTimer t' = mMaintenanceTimer t ∧
  receiving (mSocket t') = receiving (mSocket t) ∧ posted t ⊆ posted t'.
#[local] Instance quiet_preorder : PreOrder quiet.
Proof.
  split; [by intros t|]. intros t1 t2 t3 (?&?&?&?) (?&?&?&?).
  split_and!; [congruence..|by etrans].
Qed.

Ltac quiet := intros; split_and!; simpl; (done || set_solver).

Lemma quiet_sendRaw msg n to : respects quiet (sendRaw (W:=W) msg n to).
Proof.
  intros t. unfold sendRaw, try_catch, zoom, socket_send, mbind, M_bind, gets, modify,
    throw, skip, mret, M_ret, undefined.
  case_decide; [|done]. destruct (head (send_script (mSocket t))) as [[e|]|]; quiet.
Qed.

Lemma quiet_sendControl ty to : respects quiet (sendControlMessage (W:=W) ty to).
Proof. unfold sendControlMessage. respects_steps. apply quiet_sendRaw. Qed.

Lemma quiet_handleReceive from buf now : respects quiet (handleReceive (W:=W) from buf now).
Proof.
  unfold handleReceive, handleHello, handleKeepalive, handleBye, handleUnknownPeer,
    decide_peer, async, connected_index, peer_at, write_peer, erasePeerNodeIds, deliver.
  respects_steps; try quiet; apply quiet_sendControl.
Qed.

Lemma quiet_forward ty from message to now :
  respects quiet (forward (W:=W) ty from message to now).
Proof.
  unfold forward, sendToPeerOf. respects_steps; try quiet; apply quiet_sendRaw.
Qed.

(** The jobs that neither listen nor maintain. *)
Lemma quiet_run_job j now :
  j ≠ JobListen → j ≠ JobMaintenance → respects quiet (run_job (W:=W) j now).
Proof.
  intros H1 H2. destruct j; [done|done|..]; simpl;
    unfold addPeer_job, removePeer_job, accept_job, reject_job, push_peer,
      erasePeerNodeIds, rebuildEndpointIndex;
    respects_steps; try quiet; apply quiet_sendControl.
Qed.

(** While the tunnel runs, the maintenance timer is armed or about to be, and
    the socket receives or is about to. *)
Definition io_alive t : Prop :=
  is_running t = true →
  (is_Some (mMaintenanceTimer t) ∨ JobMaintenance ∈ posted t) ∧
  (receiving (mSocket t) = true ∨ JobListen ∈ posted t).

Lemma quiet_alive t t' : quiet t t' → io_alive t → io_alive t'.
Proof. unfold io_alive. intros (-> & -> & -> & Hp) H. set_solver. Qed.
End alive.

Section alive_events.
Context {AS : Asio} {LK : Link} {node_size : nat} {LW : LinkLaws node_size}.
Context {W : Type} {GW : GatewayOps W}.
Implicit Types (t : UdpTunnel W) (p : PeerEntry) (ps : list PeerEntry).

(** A maintenance pass arms the timer. *)
Lemma alive_runMaintenance now t :
  (is_running t = true → receiving (mSocket t) = true ∨ JobListen ∈ posted t) →
  io_alive (runMaintenance now t).2.
Proof.
  intros Ht. destruct (is_running t) eqn:Hr.
  - rewrite runMaintenance_run by done. intros _. simpl.
    rewrite record_all_receiving. split; [left; by eexists|auto].
  - unfold runMaintenance, mbind, M_bind, gets. rewrite Hr. simpl.
    intros Hr'. by rewrite Hr in Hr'.
Qed.

Lemma alive_run_next now t : io_alive t → io_alive (run_next now t).2.
Proof.
  intros Ht. unfold run_next, mbind at 1, M_bind at 1, gets.
  destruct (posted t) as [|j q] eqn:Hq; [done|].
  unfold mbind, M_bind, modify. set (t1 := upd_posted _ t).
  destruct (decide (j = JobListen)) as [->|Hl].
  { simpl. intros Hr. destruct (Ht Hr) as [Hm _]. rewrite Hq in Hm. simpl.
    split; [|by left]. set_solver. }
  destruct (decide (j = JobMaintenance)) as [->|Hm].
  { apply alive_runMaintenance. intros Hr. destruct (Ht Hr) as [_ Hs].
    rewrite Hq in Hs. simpl. set_solver. }
  apply (quiet_alive t1); [by apply quiet_run_job|].
  intros Hr. specialize (Ht Hr). rewrite Hq in Ht. simpl. set_solver.
Qed.

Lemma alive_onDatagram from bytes now t t' :
  io_alive t → onDatagram from bytes now t = (Ret tt, t') → io_alive t'.
Proof.
  intros Ht. unfold onDatagram. unfold mbind at 1, M_bind at 1, modify.
  unfold mbind at 1, M_bind at 1, lift. destruct (write_at _ _ _) as [buf|e|u]; [|done..].
  set (t1 := upd_mSocket _ t). pose proof (quiet_handleReceive from buf now t1) as Hq.
  unfold mbind, M_bind. destruct (handleReceive from buf now t1) as [[[]|e|u] t2]; [|done..].
  destruct Hq as (Hr & Hm & _ & Hp). unfold gets, listen, modify, skip, mret, M_ret.
  destruct (is_running t2) eqn:Hr2; intros [= <-] Hrun; [|simpl in *; congruence].
  simpl in *. split; [|by left]. destruct Ht as [Htm _]; [congruence|].
  rewrite Hm. set_solver.
Qed.

Lemma stop_stops t : is_running (stop_listening t).2 = false.
Proof.
  assert (∀ m : M (UdpTunnel W) unit, respects (λ t t', is_running t' = is_running t) m →
    is_running ((modify (upd_is_running (λ _, false));; m) t).2 = false) as Hstop.
  { intros m Hm. exact (Hm (upd_is_running (λ _, false) t)). }
  assert (PreOrder (λ t t' : UdpTunnel W, is_running t' = is_running t)).
  { split; [done|]. intros ??? H1 H2. congruence. }
  apply Hstop. unfold sendBye, sendControlMessage, sendRaw. respects_steps; done.
Qed.

Lemma alive_event e t t' :
  io_alive t → handle_event e t = (Ret tt, t') → io_alive t'.
Proof.
  intros Ht Hr.
  assert (∀ r, quiet t r.2 → r = (Ret tt, t') → io_alive t') as Hquiet.
  { intros r Hq ->. by eapply quiet_alive. }
  assert (∀ (f : UdpTunnel W → UdpTunnel W), quiet t (f t) → (Ret tt, f t) = (Ret tt, t') →
    io_alive t') as Hmod.
  { intros f Hf. by apply (Hquiet (Ret tt, f t)). }
  assert (∀ j, quiet t (upd_posted (λ q, q ++ [j]) t)) as Hpost.
  { intros j. repeat split. simpl. apply list_subseteq_app_l. done. }
  destruct e; cbn [handle_event] in Hr.
  - pose proof (alive_run_next now t Ht) as H. by rewrite Hr in H.
  - by eapply alive_onDatagram.
  - unfold onMaintenanceTimer, mbind, M_bind, modify, gets in Hr.
    destruct ec; [by injection Hr as <-|]. cbn [is_running upd_mMaintenanceTimer negb andb] in Hr.
    destruct (is_running t) eqn:Hrt; [|injection Hr as <-; intros Hrun; simpl in Hrun; congruence].
    pose proof (alive_runMaintenance now (upd_mMaintenanceTimer (λ _, None) t)) as H.
    rewrite Hr in H. apply H. intros Hrun. by apply Ht.
  - eapply Hquiet; [|exact Hr]. apply quiet_forward.
  - by eapply Hmod; [|exact Hr].
  - by eapply Hmod; [|exact Hr].
  - by eapply Hmod; [|exact Hr].
  - by eapply Hmod; [|exact Hr].
  - eapply Hquiet; [|exact Hr]. unfold zoom. by destruct (addGateway _ _).
  - by eapply Hmod; [|exact Hr].
  - pose proof (stop_stops t) as H. rewrite Hr in H. simpl in H. intros Hrun. congruence.
Qed.
End alive_events.

(** ** Connections are opened by HELLO only *)

Section connections.
Context {AS : Asio} {LK : Link} {W : Type} {GW : GatewayOps W}.
Implicit Types (t : UdpTunnel W) (p : PeerEntry) (ps : list PeerEntry).

Definition connected_peer ps (ep : UdpEndpoint) : Prop :=
  ∃ p, p ∈ ps ∧ endpoint p = ep ∧ state p = CONNECTED.

Definition opens_none t t' : Prop :=
  ∀ ep, connected_peer (mPeers t') ep → connected_peer (mPeers t) ep.
#[local] Instance opens_none_preorder : PreOrder opens_none.
Proof. split; [by intros t ?|]. intros t1 t2 t3 H12 H23 ep H. by apply H12, H23. Qed.

Lemma opens_same t t' : mPeers t' = mPeers t → opens_none t t'.
Proof. unfold opens_none. by intros ->. Qed.

Lemma elem_of_alter (f : PeerEntry → PeerEntry) i ps q :
  q ∈ alter f i ps → q ∈ ps ∨ ∃ p, ps !! i = Some p ∧ q = f p.
Proof.
  intros (j & Hj)%list_elem_of_lookup. rewrite list_lookup_alter in Hj.
  case_decide as Hji; [subst j|left; by eapply list_elem_of_lookup_2].
  destruct (ps !! i) as [p|]; simplify_eq/=. eauto.
Qed.

Lemma elem_of_delete i ps p : p ∈ delete i ps → p ∈ ps.
Proof.
  rewrite delete_take_drop, elem_of_app. intros [Hp|Hp].
  - rewrite <-(take_drop i ps). apply elem_of_app. by left.
  - rewrite <-(take_drop (S i) ps). apply elem_of_app. by right.
Qed.

Lemma opens_write_peer i f t :
  (∀ p, endpoint (f p) = endpoint p) →
  (∀ p, state (f p) = CONNECTED → state p = CONNECTED) →
  opens_none t (upd_mPeers (alter f i) t).
Proof.
  intros Hep Hs ep (q & Hq & <- & Hc). simpl in Hq.
  apply elem_of_alter in Hq as [Hq|(p & Hp & ->)]; [by exists q|].
  exists p. split_and!; [by eapply list_elem_of_lookup_2|done|by apply Hs].
Qed.

Ltac opens := intros; first [by apply opens_same | by apply opens_write_peer].

Lemma opens_sendControl ty to : respects opens_none (sendControlMessage (W:=W) ty to).
Proof. unfold sendControlMessage, sendRaw. respects_steps; opens. Qed.

Lemma opens_deliver context payload : respects opens_none (deliver (W:=W) context payload).
Proof. unfold deliver. respects_steps; opens. Qed.

Lemma opens_handleUnknownPeer from : respects opens_none (handleUnknownPeer (W:=W) from).
Proof. unfold handleUnknownPeer, decide_peer, async. respects_steps; opens. Qed.

Lemma opens_handleReceive from buf now t :
  (∀ context payload, decapsulate buf = Ret (Some (context, payload)) →
     ctx_type context ≠ TUNNEL_HELLO) →
  opens_none t (handleReceive from buf now t).2.
Proof.
  intros Hty. unfold handleReceive. unfold mbind at 1, M_bind at 1, lift.
  destruct (decapsulate buf) as [[[context payload]|]|e|u]; try reflexivity.
  specialize (Hty _ _ eq_refl). revert t.
  destruct (ctx_type context); [done|..];
    match goal with |- ∀ t, opens_none t (?m t).2 => change (respects opens_none m) end;
    unfold handleKeepalive, handleBye, connected_index, peer_at, write_peer, erasePeerNodeIds;
    respects_steps; first [apply opens_deliver|opens].
Qed.

Lemma opens_maintain now i : respects opens_none (maintain_peer (W:=W) now i).
Proof.
  unfold maintain_peer, peer_at, write_peer, erasePeerNodeIds.
  respects_steps; first [apply opens_sendControl|opens].
Qed.

Lemma opens_runMaintenance now : respects opens_none (runMaintenance (W:=W) now).
Proof. unfold runMaintenance. respects_steps; first [apply opens_maintain|opens]. Qed.

Lemma opens_push_peer ep : respects opens_none (push_peer (W:=W) ep).
Proof.
  unfold push_peer. respects_steps; [|opens].
  intros t ep' (p & Hp & <- & Hc). simpl in Hp.
  apply elem_of_app in Hp as [Hp| ->%list_elem_of_singleton]; [by exists p|done].
Qed.

Lemma opens_run_job j now : respects opens_none (run_job (W:=W) j now).
Proof.
  destruct j; simpl.
  - unfold listen. respects_steps; opens.
  - apply opens_runMaintenance.
  - unfold addPeer_job.
    respects_steps; first [apply opens_sendControl|apply opens_push_peer|opens].
  - unfold removePeer_job, erasePeerNodeIds, rebuildEndpointIndex.
    respects_steps; try first [apply opens_sendControl|opens].
    intros t ep' (p & Hp & Hep). exists p. split; [|done]. simpl in Hp.
    by eapply elem_of_delete.
  - unfold accept_job.
    respects_steps; first [apply opens_sendControl|apply opens_push_peer|opens].
  - unfold reject_job. respects_steps; opens.
Qed.
End connections.

(** ** Exact runs of the receive path *)

Section receive.
Context {AS : Asio} {LK : Link} {node_size : nat} {LW : LinkLaws node_size}.
Context {W : Type} {GW : GatewayOps W} (I : W → Prop) {GL : GatewayLaws W I}.
Implicit Types (t : UdpTunnel W) (p : PeerEntry).

Lemma length_datagram ty from to (message : list byte) :
  well_addressed (mkContext from ty to 0) →
  length (datagram ty from to message) = (header_size (node_size:=node_size) ty + length message)%nat.
Proof.
  unfold well_addressed. simpl. intros Hto. unfold datagram. rewrite length_app, length_header; [done|].
  simpl. intros Hty. by rewrite Hty in Hto.
Qed.

(** The receiver reads back what the sender's datagram holds. *)
Lemma decapsulate_datagram ty from to (message : list byte) :
  named ty = true → well_addressed (mkContext from ty to 0) →
  (header_size (node_size:=node_size) ty + length message ≤ kMaxMessageSize)%nat →
  decapsulate (filled kMaxMessageSize (datagram ty from to message)) =
  Ret (Some (mkContext from ty to (Z.of_nat (length message)), filled kMaxMessageSize message)).
Proof. intros. by apply (decapsulate_header (mkContext from ty to 0)). Qed.

Lemma datagram_size_in_buffer ty from to (message : list byte) :
  named ty = true → well_addressed (mkContext from ty to 0) →
  (header_size (node_size:=node_size) ty + length message ≤ kMaxMessageSize)%nat →
  size_in_buffer (datagram ty from to message).
Proof.
  intros ??? context buf. rewrite decapsulate_datagram by done. intros [= <- <-]. simpl. lia.
Qed.

(** The receive handler around [handleReceive]. *)
Lemma onDatagram_run from bytes now t t' :
  (length bytes ≤ kMaxMessageSize)%nat →
  handleReceive from (filled kMaxMessageSize bytes) now (upd_mSocket (set_receiving false) t) =
    (Ret tt, t') →
  onDatagram from bytes now t =
    (Ret tt, if is_running t' then upd_mSocket (set_receiving true) t' else t').
Proof.
  intros Hlen Hr. unfold onDatagram. unfold mbind at 1, M_bind at 1, modify.
  unfold mbind at 1, M_bind at 1, lift. rewrite write_at_zero by done.
  unfold mbind, M_bind, gets. rewrite Hr. by destruct (is_running t').
Qed.

(** HELLO from a known peer. *)
Lemma handleHello_run from now i p t :
  mEndpointToPeerIdx t !! from = Some i → mPeers t !! i = Some p →
  handleHello from now t =
    (Ret tt, upd_mSocket (λ s, if decide (state p = CONNECTED) then s
                               else record_send (control_datagram TUNNEL_HELLO) from s)
      (upd_mPeers (alter (λ p, set_last_seen now (set_state CONNECTED p)) i) t)).
Proof.
  intros Hi Hp. unfold handleHello, mbind at 1, M_bind at 1, gets. rewrite Hi.
  unfold peer_at, mbind at 1, M_bind at 1, mbind at 1, M_bind at 1, gets. rewrite Hp.
  unfold mret, M_ret, mbind, M_bind, write_peer, modify.
  rewrite bool_decide_decide. unfold upd_mPeers; simpl. rewrite list_alter_alter_eq.
  case_decide; [done|]. unfold sendHello. by rewrite sendControlMessage_run.
Qed.

(** A message from a connected peer: its route, then the gateways. *)
Definition learn_route (ty : TunnelMessageType) (n : NodeId) (i : nat)
    (m : gmap NodeId nat) : gmap NodeId nat :=
  if decide (ty = BYEBYE) then delete n m
  else match m !! n with Some _ => m | None => <[n := i]> m end.

Lemma handleReceive_message from ty node to (message : list byte) now i p t :
  inv I t → mEndpointToPeerIdx t !! from = Some i → mPeers t !! i = Some p →
  state p = CONNECTED → carries_message ty = true → well_addressed (mkContext node ty to 0) →
  (header_size (node_size:=node_size) ty + length message ≤ kMaxMessageSize)%nat →
  ∃ buf' w', forward_locally (gateways (base t)) ty node (filled kMaxMessageSize message)
               (Z.of_nat (length message)) to (world t) = (Ret buf', w') ∧ I w' ∧
    handleReceive from (filled kMaxMessageSize (datagram ty node to message)) now t =
      (Ret tt, upd_world (λ _, w') (upd_remoteNodeIdToPeerIdx (learn_route ty node i) t)).
Proof.
  intros Ht Hi Hp Hs Hty Hto Hfit.
  destruct (returns_run _ _ _ (forward_locally_returns I (gateways (base t)) ty node
    (filled kMaxMessageSize message) (length message) to (world t) (inv_world I _ Ht)
    ltac:(apply length_filled; lia) ltac:(rewrite length_filled; lia)
    ltac:(intros Hh; unfold well_addressed in Hto; simpl in Hto; by rewrite Hh in Hto)))
    as (buf' & w' & Hrun & Hw & _).
  exists buf', w'. split; [done|]. split; [done|].
  unfold handleReceive. unfold mbind at 1, M_bind at 1, lift.
  rewrite decapsulate_datagram by (done || by destruct ty). cbn [ctx_type ctx_from_node].
  assert (connected_index from t = (Ret (Some i), t)) as Hci.
  { unfold connected_index, peer_at, mbind, M_bind, gets. rewrite Hi. rewrite Hp.
    unfold mret, M_ret. by rewrite decide_True. }
  assert (∀ f, deliver (mkContext node ty to (Z.of_nat (length message)))
      (filled kMaxMessageSize message) (upd_remoteNodeIdToPeerIdx f t) =
    (Ret tt, upd_world (λ _, w') (upd_remoteNodeIdToPeerIdx f t))) as Hdel.
  { intros f. unfold deliver, mbind, M_bind, gets, zoom. simpl. by rewrite Hrun. }
  unfold learn_route.
  destruct ty; try done; unfold mbind at 1, M_bind at 1; rewrite Hci;
    unfold mbind, M_bind, modify; by rewrite Hdel.
Qed.
End receive.

(** ** Which events can open a connection *)

Section opens.
Context {AS : Asio} {LK : Link} {node_size : nat} {LW : LinkLaws node_size}.
Context {W : Type} {GW : GatewayOps W} (I : W → Prop) {GL : GatewayLaws W I}.
Implicit Types (t : UdpTunnel W) (p : PeerEntry).
#[local] Existing Instance opens_none_preorder.

Lemma onDatagram_inv (from : UdpEndpoint) (bytes : list byte) now t t' :
  (length bytes ≤ kMaxMessageSize)%nat → onDatagram from bytes now t = (Ret tt, t') →
  ∃ t2, handleReceive from (filled kMaxMessageSize bytes) now
          (upd_mSocket (set_receiving false) t) = (Ret tt, t2) ∧ mPeers t' = mPeers t2 ∧
    world t' = world t2.
Proof.
  intros Hlen. unfold onDatagram. unfold mbind at 1, M_bind at 1, modify.
  unfold mbind at 1, M_bind at 1, lift. rewrite write_at_zero by done.
  unfold mbind, M_bind, gets. destruct (handleReceive _ _ _ _) as [[[]|e|u] t2]; [|done..].
  intros Hr. exists t2. split; [done|]. by destruct (is_running t2); injection Hr as <-.
Qed.

(** HELLO connects the peer with the sender's endpoint only. *)
Lemma opens_handleHello (from : UdpEndpoint) now t t' :
  inv I t → handleHello from now t = (Ret tt, t') →
  ∀ ep, connected_peer (mPeers t') ep → connected_peer (mPeers t) ep ∨ ep = from.
Proof.
  intros Ht Hr ep Hc. destruct (mEndpointToPeerIdx t !! from) as [i|] eqn:Hi.
  - destruct (index_peer I t from i Ht Hi) as (p & Hp & Hep).
    rewrite (handleHello_run from now i p t Hi Hp) in Hr. injection Hr as <-.
    destruct Hc as (q & Hq & <- & Hs). simpl in Hq.
    apply elem_of_alter in Hq as [Hq|(p' & Hp' & ->)]; [left; by exists q|right].
    simplify_eq. done.
  - left. pose proof (opens_handleUnknownPeer from t) as Ho.
    unfold handleHello, mbind at 1, M_bind at 1, gets in Hr. rewrite Hi in Hr.
    rewrite Hr in Ho. by apply Ho.
Qed.

(** What a datagram that opens a connection looks like. *)
Definition hello_from (e : Event W) (ep : UdpEndpoint) : Prop :=
  ∃ bytes now context payload, e = EvDatagram ep bytes now ∧
    decapsulate (filled kMaxMessageSize bytes) = Ret (Some (context, payload)) ∧
    ctx_type context = TUNNEL_HELLO.

Lemma opens_onDatagram (from : UdpEndpoint) (bytes : list byte) now t t' ep :
  inv I t → (length bytes ≤ kMaxMessageSize)%nat →
  onDatagram from bytes now t = (Ret tt, t') → connected_peer (mPeers t') ep →
  connected_peer (mPeers t) ep ∨ hello_from (EvDatagram from bytes now) ep.
Proof.
  intros Ht Hlen Hr Hc. apply onDatagram_inv in Hr as (t2 & Hr & Hps & _); [|done].
  rewrite Hps in Hc.
  destruct (decapsulate_run (filled kMaxMessageSize bytes)) as (context & Hd & _);
    [by apply length_filled|].
  destruct (decide (ctx_type context = TUNNEL_HELLO)) as [Hty|Hty].
  - unfold handleReceive in Hr. unfold mbind at 1, M_bind at 1, lift in Hr.
    rewrite Hd, Hty in Hr. apply opens_handleHello with (ep:=ep) in Hr as [?| ->]; [by left| |..].
    + right. by eexists _, _, _, _.
    + by apply inv_upd_mSocket.
    + done.
  - left. pose proof (opens_handleReceive from (filled kMaxMessageSize bytes) now
      (upd_mSocket (set_receiving false) t)) as Ho. rewrite Hr in Ho.
    apply Ho; [|done]. intros context' payload Hd'. rewrite Hd in Hd'. by simplify_eq.
Qed.

(** Any other event opens none. *)
Lemma opens_other (e : Event W) :
  (∀ from bytes now, e ≠ EvDatagram from bytes now) → respects opens_none (handle_event e).
Proof.
  intros Hne. destruct e; simpl; [|by edestruct Hne|..];
    try (by intros t; apply opens_same).
  - unfold run_next. respects_steps; [intros; by apply opens_same|apply opens_run_job].
  - unfold onMaintenanceTimer. respects_steps; [intros; by apply opens_same|apply opens_runMaintenance].
  - unfold forward, sendToPeerOf, sendRaw. respects_steps; intros; by apply opens_same.
  - respects_steps. intros; by apply opens_same.
  - unfold stop_listening.
    respects_steps; first [apply opens_sendControl|intros; by apply opens_same].
Qed.
End opens.

(** ** The targets of a message *)

Section targets.
Context {AS : Asio} {LK : Link} {W : Type}.
Implicit Types (t : UdpTunnel W) (p : PeerEntry).

Lemma well_addressed_complete from ty to :
  well_addressed (mkContext from ty to 0) →
  negb (has_to_node ty && bool_decide (to = None)) = true.
Proof.
  unfold well_addressed. simpl. destruct (has_to_node ty); [|done].
  by intros [n ->].
Qed.

Lemma connected_endpoints ps (ep : UdpEndpoint) :
  ep ∈ endpoint <$> filter (λ p, state p = CONNECTED) ps ↔ connected_peer ps ep.
Proof.
  rewrite list_elem_of_fmap. unfold connected_peer. setoid_rewrite list_elem_of_filter.
  naive_solver.
Qed.

Lemma forward_targets_route ty to t :
  ty = UNICAST ∨ ty = MEASUREMENT_PING →
  ∀ ep, ep ∈ forward_targets ty to t ↔ ∃ n i p, to = Some n ∧
    remoteNodeIdToPeerIdx t !! n = Some i ∧
    mPeers t !! i = Some p ∧ endpoint p = ep ∧ state p = CONNECTED.
Proof.
  intros Hty ep. unfold forward_targets.
  assert (ep ∈ (match to ≫= λ n, remoteNodeIdToPeerIdx t !! n ≫= λ i, mPeers t !! i with
      | Some p => if decide (state p = CONNECTED) then [endpoint p] else []
      | None => []
      end) ↔ ∃ n i p, to = Some n ∧ remoteNodeIdToPeerIdx t !! n = Some i ∧
    mPeers t !! i = Some p ∧ endpoint p = ep ∧ state p = CONNECTED) as Hiff;
    [|by destruct Hty as [-> | ->]].
  destruct to as [n|]; simpl; [|set_solver].
  destruct (remoteNodeIdToPeerIdx t !! n) as [i|] eqn:Hi; simpl; [|set_solver].
  destruct (mPeers t !! i) as [p|] eqn:Hp; simpl; [|set_solver].
  case_decide; set_solver.
Qed.

Lemma forward_targets_all ty to t :
  ¬ (ty = UNICAST ∨ ty = MEASUREMENT_PING) →
  ∀ ep, connected_peer (mPeers t) ep → ep ∈ forward_targets ty to t.
Proof.
  intros Hty ep Hc. apply connected_endpoints in Hc. destruct ty; tauto || done.
Qed.

Lemma forward_targets_connected ty to t ep :
  ep ∈ forward_targets ty to t → connected_peer (mPeers t) ep.
Proof.
  destruct (decide (ty = UNICAST ∨ ty = MEASUREMENT_PING)) as [Hty|Hty].
  - rewrite forward_targets_route by done. intros (n & i & p & _ & _ & Hp & <- & Hs).
    exists p. split; [by eapply list_elem_of_lookup_2|done].
  - intros Hin. apply connected_endpoints. destruct ty; tauto || done.
Qed.
End targets.

(** ** HELLO from a known peer *)

Section hello.
Context {AS : Asio} {LK : Link} {node_size : nat} {LW : LinkLaws node_size}.
Context {W : Type} {GW : GatewayOps W} (I : W → Prop) {GL : GatewayLaws W I}.
Implicit Types (t : UdpTunnel W) (p : PeerEntry).

Definition known_peer t (ep : UdpEndpoint) : Prop := is_Some (mEndpointToPeerIdx t !! ep).

#[global] Instance connected_from_dec t ep : Decision (connected_from t ep).
Proof.
  unfold connected_from. destruct (mEndpointToPeerIdx t !! ep) as [i|] eqn:Hi.
  - destruct (mPeers t !! i) as [p|] eqn:Hp.
    + destruct (decide (state p = CONNECTED)); [left; eauto|].
      right. naive_solver.
    + right. naive_solver.
  - right. naive_solver.
Defined.

Lemma length_control ty :
  has_to_node ty = false → (length (control_datagram ty) ≤ kMaxMessageSize)%nat.
Proof.
  intros Hty. pose proof (header_size_bound (node_size:=node_size) ty).
  unfold control_datagram. rewrite length_datagram; [cbn [length]; lia|].
  unfold well_addressed. simpl. by rewrite Hty.
Qed.

Lemma handleReceive_hello (from : UdpEndpoint) now t :
  handleReceive from (filled kMaxMessageSize (control_datagram TUNNEL_HELLO)) now t =
    handleHello from now t.
Proof.
  unfold handleReceive. unfold mbind at 1, M_bind at 1, lift.
  pose proof (header_size_bound (node_size:=node_size) TUNNEL_HELLO).
  unfold control_datagram. rewrite decapsulate_datagram by (done || (cbn [length]; lia)). done.
Qed.

(** The HELLO datagram connects the peer and is answered once. *)
Lemma hello_run (from : UdpEndpoint) now t :
  inv I t → known_peer t from →
  ∃ t', onDatagram from (control_datagram TUNNEL_HELLO) now t = (Ret tt, t') ∧
    inv I t' ∧ connected_from t' from ∧ mEndpointToPeerIdx t' = mEndpointToPeerIdx t ∧
    send_calls (mSocket t') = send_calls (mSocket t) ++
      (if decide (connected_from t from) then []
       else [(control_datagram TUNNEL_HELLO, from)]).
Proof.
  intros Ht [i Hi]. destruct (index_peer I t from i Ht Hi) as (p & Hp & Hep).
  set (t1 := upd_mSocket (set_receiving false) t).
  pose proof (handleHello_run from now i p t1 Hi Hp) as Hh.
  pose proof (handleReceive_hello from now t1) as Hrun.
  rewrite Hh in Hrun. apply (onDatagram_run _ _ _ _ _ (length_control TUNNEL_HELLO eq_refl)) in Hrun.
  pose proof (preserves_handleHello I from now t1 (inv_upd_mSocket I _ _ Ht)) as Hinv.
  unfold wp in Hinv. rewrite Hh in Hinv. clear Hh.
  set (f := λ p, set_last_seen now (set_state CONNECTED p)) in *.
  set (g := λ s : UdpSocket, if decide (state p = CONNECTED) then s else _) in *.
  assert (alter f i (mPeers t) !! i = Some (f p)) as Hfp
    by (rewrite list_lookup_alter, decide_True, Hp; done).
  assert (send_calls (g (mSocket t1)) = send_calls (mSocket t) ++
    (if decide (connected_from t from) then []
     else [(control_datagram TUNNEL_HELLO, from)])) as Hsends.
  { unfold g. destruct (decide (connected_from t from)) as [(i' & p' & Hi' & Hp' & Hs)|Hn].
    - simplify_eq. rewrite decide_True by done. by rewrite app_nil_r.
    - rewrite decide_False; [done|]. intros Hs. apply Hn. by exists i, p. }
  eexists. split; [exact Hrun|].
  destruct (is_running (upd_mSocket g (upd_mPeers (alter f i) t1)));
    (split; [first [by apply inv_upd_mSocket|done]|]);
    (split; [by exists i, (f p)|]); done.
Qed.
End hello.

(** ** Theorems *)

Section theorems.
Context {AS : Asio} {LK : Link} {node_size : nat} {LW : LinkLaws node_size}.
Context {W : Type} {GW : GatewayOps W} (I : W → Prop) {GL : GatewayLaws W I}.
Implicit Types (t : UdpTunnel W) (p : PeerEntry).

Abbreviation reachable := (reachable (node_size:=node_size) I).
Abbreviation event_ok := (event_ok (node_size:=node_size) I).

(** C5: from every reachable state, every event that can happen is handled
    without an exception escaping and without undefined behaviour, and the
    endpoint index keeps naming the peers with those endpoints.  The events
    include any datagram whose size field stays inside the buffer. *)
Theorem udp_tunnel_safe t e :
  reachable t → event_ok e t →
  ∃ t', handle_event e t = (Ret tt, t') ∧ reachable t' ∧ index_ok t'.
Proof.
  intros Ht Hok.
  destruct (returns_run _ _ _ (handle_event_inv I e t (reachable_inv I t Ht) Hok))
    as ([] & t' & Hr & Hinv).
  exists t'. split; [done|]. split; [by eapply reachable_step|]. apply Hinv.
Qed.

(** C12: a running tunnel never falls asleep: in every reachable state the
    maintenance timer is armed or a maintenance pass is queued, the socket
    listens or the listen call is queued, and when the timer fires the pass
    returns and arms it again, one interval later. *)
Theorem udp_tunnel_alive t :
  reachable t → is_running t = true →
  (is_Some (mMaintenanceTimer t) ∨ JobMaintenance ∈ posted t) ∧
  (receiving (mSocket t) = true ∨ JobListen ∈ posted t) ∧
  ∀ now, ∃ t', onMaintenanceTimer false now t = (Ret tt, t') ∧ is_running t' = true ∧
    mMaintenanceTimer t' = Some (now + kMaintenanceInterval).
Proof.
  intros Ht Hrun.
  assert (io_alive t) as Halive.
  { clear Hrun. induction Ht as [w script peers Hw|t e t' Ht IH Hok Hr].
    - intros _. simpl. split; right; set_solver.
    - by eapply alive_event. }
  destruct (Halive Hrun) as [Hm Hs]. split_and!; [done..|]. intros now.
  eexists. split; [by apply onMaintenanceTimer_run|by split].
Qed.

(** A peer becomes connected only through a HELLO datagram from its own
    endpoint: after any event, a connected peer was connected before or the
    event is such a datagram. *)
Theorem connected_only_by_hello t e t' (ep : UdpEndpoint) :
  reachable t → event_ok e t → handle_event e t = (Ret tt, t') →
  connected_peer (mPeers t') ep →
  connected_peer (mPeers t) ep ∨ hello_from e ep.
Proof.
  intros Ht Hok Hr Hc.
  assert ((∃ from bytes now, e = EvDatagram from bytes now) ∨
          ∀ from bytes now, e ≠ EvDatagram from bytes now) as [(from & bytes & now & ->)|Hne]
    by (destruct e; eauto).
  - eapply opens_onDatagram; [by apply reachable_inv|apply Hok|done|done].
  - left. pose proof (opens_other e Hne t) as Ho. rewrite Hr in Ho. by apply Ho.
Qed.

(** C9: a datagram from an endpoint that is not a connected peer reaches no
    gateway and teaches no route, whatever it contains. *)
Theorem only_connected_senders_delivered t (from : UdpEndpoint) (bytes : list byte) now t' :
  ¬ connected_from t from → handle_event (EvDatagram from bytes now) t = (Ret tt, t') →
  world t' = world t ∧ remoteNodeIdToPeerIdx t' ⊆ remoteNodeIdToPeerIdx t.
Proof.
  intros Hn Hr. pose proof (no_delivery_onDatagram t from bytes now Hn) as H.
  simpl in Hr. by rewrite Hr in H.
Qed.

(** C7: [forward] sends nothing when the duplicate filter says so; otherwise it
    sends one datagram holding the header and the message for each target, in
    the order of the peers.  The targets are the connected peers for a broadcast
    type; for [UNICAST] and [MEASUREMENT_PING] they are the peer that the route
    of the target node names, if it is connected, and nobody otherwise.  Only
    the filter and the log of the socket change, whatever errors the socket
    reports. *)
Theorem forward_sends t ty from (message : list byte) to now :
  reachable t → well_addressed (mkContext from ty to 0) →
  (header_size (node_size:=node_size) ty + length message ≤ kMaxMessageSize)%nat →
  let targets :=
    if decide (ty = UNICAST ∨ ty = MEASUREMENT_PING)
    then match to ≫= λ n, remoteNodeIdToPeerIdx t !! n ≫= λ i, mPeers t !! i with
         | Some p => if decide (state p = CONNECTED) then [endpoint p] else []
         | None => []
         end
    else endpoint <$> filter (λ p, state p = CONNECTED) (mPeers t) in
  ∃ fresh c socket,
    shouldForward ty from message now (mDedupCache (base t)) = (Ret fresh, c) ∧
    forward ty from message to now t =
      (Ret tt, upd_mSocket (λ _, socket) (upd_base (set_mDedupCache c) t)) ∧
    send_calls socket = send_calls (mSocket t) ++
      (if fresh then (λ ep, (datagram ty from to message, ep)) <$> targets else []) ∧
    receiving socket = receiving (mSocket t).
Proof.
  intros Ht Hto Hfit targets.
  destruct (returns_run _ _ _ (shouldForward_wp ty from message now _
    (inv_cache I _ (reachable_inv I t Ht)))) as (fresh & c & Hr & _).
  rewrite (forward_run ty from message to now t fresh c Hr Hfit).
  rewrite (well_addressed_complete _ _ _ Hto), andb_true_r.
  assert (forward_targets ty to t = targets) as Htargets.
  { unfold targets, forward_targets. destruct ty; try (by rewrite decide_False by (by intros [|]));
      by rewrite decide_True by auto. }
  exists fresh, c. destruct fresh.
  - eexists. split; [done|]. split; [reflexivity|]. rewrite record_sends_calls, record_sends_receiving.
    by rewrite Htargets.
  - exists (mSocket t). split; [done|]. rewrite app_nil_r. split; [by destruct t|done].
Qed.

(** C6: the datagram that [forward] sends for a message, received from a
    connected peer, is handed to the gateways exactly as it was given to
    [forward]: type, source node, target node, length and bytes.  It teaches
    the tunnel a route back to the source ([BYEBYE] removes the route), and
    nothing is sent. *)
Theorem messages_delivered t (from : UdpEndpoint) ty node to (message : list byte) now i p :
  reachable t → mEndpointToPeerIdx t !! from = Some i → mPeers t !! i = Some p →
  state p = CONNECTED → carries_message ty = true → well_addressed (mkContext node ty to 0) →
  (header_size (node_size:=node_size) ty + length message ≤ kMaxMessageSize)%nat →
  ∃ t' buf', onDatagram from (datagram ty node to message) now t = (Ret tt, t') ∧
    forward_locally (gateways (base t)) ty node (filled kMaxMessageSize message)
      (Z.of_nat (length message)) to (world t) = (Ret buf', world t') ∧
    remoteNodeIdToPeerIdx t' = learn_route ty node i (remoteNodeIdToPeerIdx t) ∧
    mPeers t' = mPeers t ∧ send_calls (mSocket t') = send_calls (mSocket t).
Proof.
  intros Ht Hi Hp Hs Hty Hto Hfit.
  destruct (handleReceive_message I from ty node to message now i p
    (upd_mSocket (set_receiving false) t)) as (buf' & w' & Hrun & _ & Hr); try done.
  { by apply inv_upd_mSocket, reachable_inv. }
  eexists _, buf'. split; [apply onDatagram_run; [|exact Hr]|].
  - by rewrite length_datagram.
  - simpl in *. by destruct (is_running t).
Qed.

(** What a message from a connected peer leaves. *)
Lemma learned_route t (from : UdpEndpoint) ty node to (message : list byte) now i p t' :
  reachable t → mEndpointToPeerIdx t !! from = Some i → mPeers t !! i = Some p →
  state p = CONNECTED → carries_message ty = true → ty ≠ BYEBYE →
  well_addressed (mkContext node ty to 0) →
  (header_size (node_size:=node_size) ty + length message ≤ kMaxMessageSize)%nat →
  remoteNodeIdToPeerIdx t !! node = None →
  onDatagram from (datagram ty node to message) now t = (Ret tt, t') →
  mPeers t' = mPeers t ∧ remoteNodeIdToPeerIdx t' = <[node:=i]> (remoteNodeIdToPeerIdx t) ∧
  send_calls (mSocket t') = send_calls (mSocket t).
Proof.
  intros Ht Hi Hp Hs Hty Hbye Hto Hfit Hnone Hr.
  destruct (handleReceive_message I from ty node to message now i p
    (upd_mSocket (set_receiving false) t)) as (buf' & w' & _ & _ & Hr'); try done.
  { by apply inv_upd_mSocket, reachable_inv. }
  rewrite (onDatagram_run _ _ _ _ _ ltac:(by rewrite length_datagram) Hr') in Hr.
  assert (learn_route ty node i (remoteNodeIdToPeerIdx t) =
            <[node:=i]> (remoteNodeIdToPeerIdx t)) as <-
    by (unfold learn_route; by rewrite decide_False, Hnone by done).
  injection Hr as <-. simpl. by destruct (is_running t).
Qed.

(** C10: replies return the way a message came: once a message from a node
    without a route has arrived from a connected peer, a unicast or a ping to
    that node that passes the filter is sent to that peer, once, and to no
    other. *)
Theorem replies_return t (from : UdpEndpoint) ty node to (message : list byte) now i p t' :
  reachable t → mEndpointToPeerIdx t !! from = Some i → mPeers t !! i = Some p →
  state p = CONNECTED → carries_message ty = true → ty ≠ BYEBYE →
  well_addressed (mkContext node ty to 0) →
  (header_size (node_size:=node_size) ty + length message ≤ kMaxMessageSize)%nat →
  remoteNodeIdToPeerIdx t !! node = None →
  onDatagram from (datagram ty node to message) now t = (Ret tt, t') →
  ∀ ty' node' (reply : list byte) now' c,
    ty' = UNICAST ∨ ty' = MEASUREMENT_PING →
    (header_size (node_size:=node_size) ty' + length reply ≤ kMaxMessageSize)%nat →
    shouldForward ty' node' reply now' (mDedupCache (base t')) = (Ret true, c) →
    ∃ t'', forward ty' node' reply (Some node) now' t' = (Ret tt, t'') ∧
      send_calls (mSocket t'') =
        send_calls (mSocket t) ++ [(datagram ty' node' (Some node) reply, from)].
Proof.
  intros Ht Hi Hp Hs Hty Hbye Hto Hfit Hnone Hr ty' node' reply now' c Hty' Hfit' Hsf.
  destruct (learned_route t from ty node to message now i p t') as (Hps & Hm & Hsend); try done.
  assert (endpoint p = from) as Hep.
  { destruct (index_peer I t from i (reachable_inv I t Ht) Hi) as (p' & Hp' & ?). by simplify_eq. }
  assert (forward_targets ty' (Some node) t' = [from]) as Htargets.
  { unfold forward_targets. simpl. rewrite Hps, Hm, lookup_insert, decide_True by done. simpl.
    rewrite Hp, decide_True, Hep by done. by destruct Hty' as [->| ->]. }
  eexists. split; [by apply (forward_run ty' node' reply (Some node) now' t' true c)|].
  rewrite andb_false_r. simpl. by rewrite record_sends_calls, Htargets, Hsend.
Qed.

(** C11: one maintenance pass.  A connected peer that has been silent for more
    than the timeout is disconnected, loses its routes and is sent nothing; each
    other connected peer is sent one KEEPALIVE, and each other peer becomes
    CONNECTING and is sent one HELLO.  Nothing else is sent, the peers stay in
    place, all other routes stay, the timer is armed for the next pass, and
    nothing else changes. *)
Theorem maintenance_pass t now :
  is_running t = true →
  let silent p := now - last_seen p > kKeepaliveTimeout in
  ∃ socket peers routes,
    onMaintenanceTimer false now t =
      (Ret tt, upd_mMaintenanceTimer (λ _, Some (now + kMaintenanceInterval))
        (upd_mSocket (λ _, socket) (upd_mPeers (λ _, peers)
          (upd_remoteNodeIdToPeerIdx (λ _, routes) t)))) ∧
    send_calls socket = send_calls (mSocket t) ++ (mPeers t ≫= λ p,
      match state p with
      | CONNECTED =>
          if decide (silent p) then [] else [(control_datagram TUNNEL_KEEPALIVE, endpoint p)]
      | DISCONNECTED | CONNECTING => [(control_datagram TUNNEL_HELLO, endpoint p)]
      end) ∧
    peers = (λ p,
      match state p with
      | CONNECTED => if decide (silent p) then set_state DISCONNECTED p else p
      | DISCONNECTED | CONNECTING => set_state CONNECTING p
      end) <$> mPeers t ∧
    (∀ n i, routes !! n = Some i ↔
      remoteNodeIdToPeerIdx t !! n = Some i ∧
      ∀ p, mPeers t !! i = Some p → state p = CONNECTED → ¬ silent p) ∧
    receiving socket = receiving (mSocket t).
Proof.
  intros Hrun silent.
  assert (∀ p, state p = CONNECTED → expired now p = bool_decide (silent p)) as Hexp.
  { intros p Hp. unfold expired. rewrite bool_decide_true by done. apply bool_decide_ext. unfold silent. lia. }
  exists (record_all (mPeers t ≫= maintenance_sends now) (mSocket t)), (maintained now <$> mPeers t),
    (filter (λ kv, expired_at now (mPeers t) kv.2 = false) (remoteNodeIdToPeerIdx t)).
  split; [rewrite (onMaintenanceTimer_run now t Hrun); reflexivity|]. split; [|split; [|split]].
  - rewrite record_all_calls. f_equal. apply list_bind_ext; [|done]. intros p.
    unfold maintenance_sends. destruct (state p) eqn:Hp; [done..|]. rewrite Hexp by done.
    by repeat case_bool_decide || case_decide.
  - apply list_fmap_ext. intros i p _. unfold maintained. destruct (state p) eqn:Hp; [done..|].
    rewrite Hexp by done. by repeat case_bool_decide || case_decide.
  - intros n i. rewrite map_lookup_filter_Some. apply and_iff_compat_l. simpl.
    unfold expired_at. destruct (mPeers t !! i) as [p|]; simpl; [|naive_solver].
    unfold expired, silent. destruct (decide (state p = CONNECTED)), (decide (kKeepaliveTimeout < now - last_seen p));
      rewrite ?bool_decide_true, ?bool_decide_false by done; simpl;
      (split; [intros ?|intros Hx; try done]); try (intros q [= <-] ?); try done; try lia.
    specialize (Hx p eq_refl e). lia.
  - apply record_all_receiving.
Qed.

(** A rejected endpoint stays rejected and the callback is not called for
    it again, whatever events follow, until the tunnel is stopped. *)
Theorem rejected_not_asked_again t (ep : UdpEndpoint) (es : list (Event W)) t' :
  ep ∈ mRejectedPeers t → EvStop ∉ es → handle_events es t = (Ret tt, t') →
  ep ∈ mRejectedPeers t' ∧
  filter (.= ep) (callback_calls t') = filter (.= ep) (callback_calls t).
Proof.
  intros Hep Hes Hr. pose proof (not_asked_events ep es t Hes Hep) as H. by rewrite Hr in H.
Qed.

(** C13: removing a peer says goodbye to it, drops its routes and deletes its
    entry; entries before it keep their routes.  A route to a later entry is
    not adjusted although that entry has moved: unicasts to its node now go to
    the entry that followed the one it was learned from, or nowhere. *)
Theorem removePeer_routes t (ep : UdpEndpoint) i now :
  reachable t → mEndpointToPeerIdx t !! ep = Some i →
  ∃ t', run_job (JobRemovePeer ep) now t = (Ret tt, t') ∧
    mPeers t' = delete i (mPeers t) ∧
    send_calls (mSocket t') = send_calls (mSocket t) ++ [(control_datagram TUNNEL_BYE, ep)] ∧
    ∀ n j (msg : list byte) bytes, remoteNodeIdToPeerIdx t !! n = Some j → (bytes ≤ length msg)%nat →
      ∃ t'', sendToPeerOf n msg bytes t' = (Ret tt, t'') ∧
        send_calls (mSocket t'') = send_calls (mSocket t') ++
          if decide (j = i) then []
          else match mPeers t !! (if decide (j < i)%nat then j else S j) with
               | Some p => if decide (state p = CONNECTED) then [(take bytes msg, endpoint p)] else []
               | None => []
               end.
Proof.
  intros Ht Hi. apply (reachable_inv I) in Ht.
  eexists. split; [by apply (removePeer_job_run I)|].
  split; [done|]. split; [done|]. intros n j msg bytes Hj Hb.
  eexists. split; [by apply sendToPeerOf_run|]. cbn [mSocket upd_mSocket].
  rewrite record_sends_calls. f_equal. unfold forward_targets. simpl.
  rewrite map_lookup_filter, Hj. simpl. case_decide as Hji.
  - subst j. by rewrite option_guard_False by naive_solver.
  - rewrite option_guard_True by done. simpl. rewrite list_lookup_delete. by repeat case_match.
Qed.
End theorems.

Section two_tunnels.
Context {AS : Asio} {LK : Link} {node_size : nat} {LW : LinkLaws node_size}.
Context {W1 W2 : Type} {GW1 : GatewayOps W1} {GW2 : GatewayOps W2}.
Context (I1 : W1 → Prop) (I2 : W2 → Prop) {GL1 : GatewayLaws W1 I1} {GL2 : GatewayLaws W2 I2}.

(** C8: the handshake between two tunnels that know each other.  When the
    HELLO of the first reaches the second, the second's answer the first, and
    the first's answer the second, both are connected and the last one sends
    nothing: the exchange ends.  A tunnel answers exactly when it was not yet
    connected. *)
Theorem handshake_converges (t1 : UdpTunnel W1) (t2 : UdpTunnel W2)
    (ep1 ep2 : UdpEndpoint) now1 now2 now3 :
  reachable (node_size:=node_size) I1 t1 → reachable (node_size:=node_size) I2 t2 →
  known_peer t1 ep2 → known_peer t2 ep1 →
  let hello := control_datagram TUNNEL_HELLO in
  ∃ t2' t1' t2'',
    onDatagram ep1 hello now1 t2 = (Ret tt, t2') ∧
    onDatagram ep2 hello now2 t1 = (Ret tt, t1') ∧
    onDatagram ep1 hello now3 t2' = (Ret tt, t2'') ∧
    connected_from t2' ep1 ∧ connected_from t1' ep2 ∧ connected_from t2'' ep1 ∧
    send_calls (mSocket t2') = send_calls (mSocket t2) ++
      (if decide (connected_from t2 ep1) then [] else [(hello, ep1)]) ∧
    send_calls (mSocket t1') = send_calls (mSocket t1) ++
      (if decide (connected_from t1 ep2) then [] else [(hello, ep2)]) ∧
    send_calls (mSocket t2'') = send_calls (mSocket t2').
Proof.
  intros Ht1%(reachable_inv I1) Ht2%(reachable_inv I2) Hk1 Hk2 hello.
  destruct (hello_run I2 ep1 now1 t2 Ht2 Hk2) as (t2' & Hr2 & Hinv2 & Hc2 & Hx2 & Hs2).
  destruct (hello_run I1 ep2 now2 t1 Ht1 Hk1) as (t1' & Hr1 & _ & Hc1 & _ & Hs1).
  destruct (hello_run I2 ep1 now3 t2' Hinv2) as (t2'' & Hr3 & _ & Hc3 & _ & Hs3).
  { unfold known_peer. by rewrite Hx2. }
  exists t2', t1', t2''. split_and!; try done.
  rewrite Hs3, decide_True by done. by rewrite app_nil_r.
Qed.
End two_tunnels.

(** ** Concrete instances *)

Module UdpWitnesses.
Import Sample Recorder.

Abbreviation reach := (reachable (node_size:=1) (λ _ : recorded, True)).

Definition studio : UdpEndpoint := (20, Byte.x09).
Definition stranger : UdpEndpoint := (30, Byte.x09).
Definition hello : list byte := control_datagram TUNNEL_HELLO.

(** A tunnel with one initial peer: it starts, gets a gateway, hears HELLO. *)
Definition t0 : UdpTunnel recorded := new_UdpTunnel [] [] [studio].
Definition t1 := (handle_event (EvRunNext 1) t0).2.
Definition t2 := (handle_event (EvRunNext 2) t1).2.
Definition t3 := (handle_event (EvAddGateway 0) t2).2.
Definition t4 := (handle_event (EvDatagram studio hello 3) t3).2.

Lemma hello_size : size_in_buffer hello.
Proof.
  apply (datagram_size_in_buffer (node_size:=1)); [done|done|].
  decide_now.
Qed.

Lemma t3_reachable : reach t3.
Proof.
  assert (reach t0) as H0 by by apply reachable_new.
  assert (reach t1) as H1
    by (eapply (reachable_step _ t0 (EvRunNext 1)); [done|done|apply run_outcome; evaluate]).
  assert (reach t2) as H2
    by (eapply (reachable_step _ t1 (EvRunNext 2)); [done|done|apply run_outcome; evaluate]).
  eapply (reachable_step _ t2 (EvAddGateway 0)); [done|done|apply run_outcome; evaluate].
Qed.

Lemma hello_ok t : receiving (mSocket t) = true →
  event_ok (node_size:=1) (λ _ : recorded, True) (EvDatagram studio hello 3) t.
Proof. split; [done|]. split; [decide_now|apply hello_size]. Qed.

Lemma t4_reachable : reach t4.
Proof.
  eapply (reachable_step _ t3 (EvDatagram studio hello 3)); [apply t3_reachable| |].
  - apply hello_ok. evaluate.
  - unfold t4. apply run_outcome. evaluate.
Qed.

Definition peer4 : PeerEntry := mkPeer studio CONNECTED 3.
Lemma t4_index : mEndpointToPeerIdx t4 !! studio = Some 0%nat.
Proof. evaluate. Qed.
Lemma t4_peer : mPeers t4 !! 0%nat = Some peer4.
Proof. evaluate. Qed.

Lemma udp_tunnel_safe_witness :
  ∃ t', handle_event (EvDatagram studio hello 3) t3 = (Ret tt, t') ∧ index_ok t'.
Proof.
  destruct (udp_tunnel_safe (λ _, True) t3 (EvDatagram studio hello 3)) as (t' & Hr & _ & Hi).
  - apply t3_reachable.
  - apply hello_ok. evaluate.
  - exists t'. split; [exact Hr|exact Hi].
Defined.

Lemma udp_tunnel_alive_witness :
  is_Some (mMaintenanceTimer t4) ∨ JobMaintenance ∈ posted t4.
Proof.
  destruct (udp_tunnel_alive (λ _, True) t4) as (H & _).
  - apply t4_reachable.
  - evaluate.
  - exact H.
Defined.

Lemma connected_only_by_hello_witness :
  connected_peer (mPeers t3) studio ∨ hello_from (W:=recorded) (EvDatagram studio hello 3) studio.
Proof.
  apply (connected_only_by_hello (λ _, True) t3 (EvDatagram studio hello 3) t4).
  - apply t3_reachable.
  - apply hello_ok. evaluate.
  - unfold t4. apply run_outcome. evaluate.
  - exists peer4. split; [apply (list_elem_of_lookup_2 _ 0), t4_peer|split; reflexivity].
Defined.

Definition beat : list byte := [Byte.xaa; Byte.xbb].
Definition beat_datagram : list byte := datagram BROADCAST Byte.x07 None beat.

Lemma only_connected_senders_delivered_witness :
  world (handle_event (EvDatagram stranger beat_datagram 4) t4).2 = world t4.
Proof.
  refine (proj1 (only_connected_senders_delivered t4 stranger beat_datagram 4 _ _ _)).
  - intros (i & p & Hi & _). vm_compute in Hi. discriminate Hi.
  - apply run_outcome. evaluate.
Defined.

Lemma forward_sends_witness :
  ∃ t', forward BROADCAST Byte.x07 beat None 4 t4 = (Ret tt, t') ∧
    send_calls (mSocket t') = send_calls (mSocket t4) ++ [(beat_datagram, studio)].
Proof.
  destruct (forward_sends (λ _, True) t4 BROADCAST Byte.x07 beat None 4)
    as (fresh & c & socket & H1 & H2 & H3 & _).
  - apply t4_reachable.
  - reflexivity.
  - decide_now.
  - eexists. split; [exact H2|].
    assert (fresh = true) as ->.
    { assert (Ret fresh = Ret true) as Heq; [|by injection Heq].
      transitivity (shouldForward BROADCAST Byte.x07 beat 4 (mDedupCache (base t4))).1; [by rewrite H1|evaluate]. }
    exact H3.
Defined.

Lemma messages_delivered_witness :
  ∃ t' buf', onDatagram studio beat_datagram 4 t4 = (Ret tt, t') ∧
    forward_locally (gateways (base t4)) BROADCAST Byte.x07 (filled kMaxMessageSize beat)
      2 None (world t4) = (Ret buf', world t').
Proof.
  destruct (messages_delivered (λ _, True) t4 studio BROADCAST Byte.x07 None beat 4 0 peer4)
    as (t' & buf' & H1 & H2 & _).
  - apply t4_reachable.
  - apply t4_index.
  - apply t4_peer.
  - reflexivity.
  - reflexivity.
  - reflexivity.
  - decide_now.
  - exists t', buf'. split; [exact H1|exact H2].
Defined.

Definition replier : @NodeId _ link := Byte.x09.
Definition t4' := (onDatagram studio beat_datagram 4 t4).2.
Lemma replies_return_witness :
  ∃ t'', forward UNICAST replier beat (Some Byte.x07) 5 t4' = (Ret tt, t'') ∧
    send_calls (mSocket t'') =
      send_calls (mSocket t4) ++ [(datagram UNICAST replier (Some Byte.x07) beat, studio)].
Proof.
  apply (replies_return (λ _, True) t4 studio BROADCAST Byte.x07 None beat 4 0 peer4 t4')
    with (c := (shouldForward UNICAST replier beat 5 (mDedupCache (base t4'))).2).
  - apply t4_reachable.
  - apply t4_index.
  - apply t4_peer.
  - reflexivity.
  - reflexivity.
  - discriminate.
  - reflexivity.
  - decide_now.
  - evaluate.
  - unfold t4'. apply run_outcome. evaluate.
  - left. reflexivity.
  - decide_now.
  - apply run_outcome. evaluate.
Defined.

Lemma handshake_converges_witness :
  ∃ t2', onDatagram studio hello 5 t3 = (Ret tt, t2') ∧ connected_from t2' studio.
Proof.
  destruct (handshake_converges (node_size:=1) (λ _, True) (λ _, True) t4 t3 studio studio 5 6 7)
    as (t2' & _ & _ & H1 & _ & _ & H2 & _).
  - apply t4_reachable.
  - apply t3_reachable.
  - exists 0%nat. apply t4_index.
  - exists 0%nat. evaluate.
  - exists t2'. split; [exact H1|exact H2].
Defined.

(** The studio, last heard at 3, is silent for too long. *)
Lemma maintenance_pass_witness :
  ∃ t', onMaintenanceTimer false (seconds 20) t4 = (Ret tt, t') ∧
    mMaintenanceTimer t' = Some (seconds 25) ∧
    mPeers t' = [set_state DISCONNECTED peer4].
Proof.
  destruct (maintenance_pass t4 (seconds 20)) as (socket & peers & routes & H1 & _ & H3 & _).
  - evaluate.
  - eexists. split; [exact H1|]. split; [reflexivity|]. cbn [mPeers upd_mMaintenanceTimer upd_mSocket upd_mPeers].
    rewrite H3. evaluate.
Defined.

(** The stranger says HELLO, is rejected (the initial callback rejects) and
    says HELLO again. *)
Definition t5 := (handle_events [EvDatagram stranger hello 5; EvRunNext 6] t4).2.
Lemma rejected_not_asked_again_witness :
  filter (.= stranger) (callback_calls (handle_events [EvDatagram stranger hello 7] t5).2) =
  filter (.= stranger) (callback_calls t5).
Proof.
  refine (proj2 (rejected_not_asked_again t5 stranger [EvDatagram stranger hello 7] _ _ _ _)).
  - decide_now.
  - intros [Hin|Hin]%elem_of_cons; [discriminate Hin|inversion Hin].
  - apply run_outcome. evaluate.
Defined.

Lemma removePeer_routes_witness :
  ∃ t', run_job (JobRemovePeer studio) 8 t4 = (Ret tt, t') ∧
    mPeers t' = delete 0%nat (mPeers t4).
Proof.
  destruct (removePeer_routes (λ _, True) t4 studio 0 8) as (t' & H1 & H2 & _).
  - apply t4_reachable.
  - apply t4_index.
  - exists t'. split; [exact H1|exact H2].
Defined.
End UdpWitnesses.

Module UdpFindings.
Import Sample Recorder UdpWitnesses.

(** Two nodes [a] and [b] at one site are heard of through the studio. *)
Definition a : NodeId := Byte.x0a.
Definition b : NodeId := Byte.x0b.
Definition t6 := (handle_events
  [EvDatagram studio (datagram BROADCAST a None beat) 10;
   EvDatagram studio (datagram BROADCAST b None beat) 11] t4).2.
Definition answer (to : NodeId) (now : Z) : Event recorded :=
  EvForward UNICAST Byte.x07 beat (Some to) now.

(** The duplicate filter does not look at the target: of two equal unicasts
    from one node to two nodes within the window, the second is lost. *)
Lemma second_unicast_lost :
  send_calls (mSocket (handle_events [answer a 20] t6).2) =
    send_calls (mSocket t6) ++ [(datagram UNICAST Byte.x07 (Some a) beat, studio)] ∧
  send_calls (mSocket (handle_events [answer a 20; answer b 21] t6).2) =
    send_calls (mSocket (handle_events [answer a 20] t6).2) ∧
  send_calls (mSocket (handle_events [answer b 21] t6).2) =
    send_calls (mSocket t6) ++ [(datagram UNICAST Byte.x07 (Some b) beat, studio)].
Proof. split_and!; evaluate. Qed.

(** Three sites; node [a] lives behind the second, [stage]. *)
Definition stage : UdpEndpoint := (10, Byte.x09).
Definition s0 : UdpTunnel recorded := (handle_events
  [EvRunNext 1; EvRunNext 2;
   EvDatagram studio hello 3; EvDatagram stage hello 4; EvDatagram stranger hello 5;
   EvDatagram stage (datagram BROADCAST a None beat) 6]
  (new_UdpTunnel [] [] [studio; stage; stranger])).2.

(** Removing the first site misroutes unicasts to [a] to the third one. *)
Lemma removePeer_misroutes :
  forward_targets UNICAST (Some a) s0 = [stage] ∧
  forward_targets UNICAST (Some a) (run_job (JobRemovePeer studio) 7 s0).2 = [stranger].
Proof. split; evaluate. Qed.
End UdpFindings.
