(* ===== verification/PeerTracker.v ===== *)
(** * PeerTracker: the timeouts of known peers (TunnelGateway.hpp)

    A vector of (deadline, node) pairs sorted by deadline and a timer.  The
    owner is told about expired nodes through a callback that runs before the
    expired entries are erased. *)

From S2P Require Import Prelude LinkLib Sample.

(** ** Sorted vectors: [std::upper_bound] and [std::lower_bound]

    Both are the partition point of a predicate that holds on a prefix; the
    vector is sorted by deadline ([tracker_ok] below). *)

Section sorted.
Context {A : Type}.
Implicit Types (l : list (Z * A)).

Fixpoint take_while (p : Z → bool) l : list (Z * A) :=
  match l with
  | [] => []
  | x :: l => if p x.1 then x :: take_while p l else []
  end.
Fixpoint drop_while (p : Z → bool) l : list (Z * A) :=
  match l with
  | [] => []
  | x :: l' => if p x.1 then drop_while p l' else l
  end.

(** The elements before and from [upper_bound(l, t)] on: not [t < x.first]. *)
Definition before_upper (t : Z) l := take_while (λ x, bool_decide (x ≤ t)) l.
Definition from_upper (t : Z) l := drop_while (λ x, bool_decide (x ≤ t)) l.
(** The elements before and from [lower_bound(l, t)] on: [x.first < t]. *)
Definition before_lower (t : Z) l := take_while (λ x, bool_decide (x < t)) l.
Definition from_lower (t : Z) l := drop_while (λ x, bool_decide (x < t)) l.

Inductive sorted : list (Z * A) → Prop :=
  | sorted_nil : sorted []
  | sorted_cons x l : (∀ y, y ∈ l → x.1 ≤ y.1) → sorted l → sorted (x :: l).

Lemma take_drop_while p l : take_while p l ++ drop_while p l = l.
Proof. induction l as [|x l IH]; simpl; [done|]. destruct (p x.1); simpl; congruence. Qed.

Lemma elem_take_while p l x : x ∈ take_while p l → x ∈ l ∧ p x.1 = true.
Proof.
  induction l as [|y l IH]; simpl; [by intros ?%not_elem_of_nil|].
  destruct (p y.1) eqn:Hp; [|by intros ?%not_elem_of_nil].
  rewrite !elem_of_cons. intros [->|?]; naive_solver.
Qed.

Lemma elem_drop_while p l x : x ∈ drop_while p l → x ∈ l.
Proof. intros Hx. rewrite <-(take_drop_while p l). apply elem_of_app. by right. Qed.

Lemma sorted_filter (P : Z * A → Prop) `{!∀ x, Decision (P x)} l :
  sorted l → sorted (filter P l).
Proof.
  induction 1 as [|x l Hx Hl IH]; [constructor|]. rewrite filter_cons.
  case_decide; [|done]. constructor; [|done]. intros y Hy.
  apply list_elem_of_filter in Hy as [_ Hy]. by apply Hx.
Qed.

Lemma sorted_app_inv l1 l2 : sorted (l1 ++ l2) → sorted l2.
Proof. induction l1 as [|x l1 IH]; simpl; [done|]. intros Hs. inv Hs. auto. Qed.

(** What remains after a partition point of a downward closed predicate. *)
Lemma elem_drop_while_sorted p l x :
  (∀ a b, a ≤ b → p b = true → p a = true) → sorted l →
  x ∈ drop_while p l ↔ x ∈ l ∧ p x.1 = false.
Proof.
  intros Hp. induction 1 as [|y l Hy Hl IH]; simpl; [set_solver|].
  destruct (p y.1) eqn:Hpy.
  - rewrite IH, elem_of_cons. split; [tauto|]. intros [[->|?] ?]; [congruence|done].
  - split; [|tauto]. intros Hx. split; [done|].
    destruct (p x.1) eqn:Hpx; [|done]. apply elem_of_cons in Hx as [->|Hx]; [congruence|].
    apply Hy in Hx. rewrite (Hp y.1 x.1) in Hpy; done.
Qed.

Lemma elem_take_while_sorted p l x :
  (∀ a b, a ≤ b → p b = true → p a = true) → sorted l →
  x ∈ take_while p l ↔ x ∈ l ∧ p x.1 = true.
Proof.
  intros Hp Hl. split; [apply elem_take_while|]. intros [Hx Hpx].
  rewrite <-(take_drop_while p l) in Hx. apply elem_of_app in Hx as [?|Hx]; [done|].
  apply elem_drop_while_sorted in Hx as [_ ?]; [congruence|done|done].
Qed.

Lemma lower_closed t a b :
  a ≤ b → bool_decide (b < t) = true → bool_decide (a < t) = true.
Proof. rewrite !bool_decide_eq_true. lia. Qed.

(** Inserting at the upper bound keeps the vector sorted. *)
Lemma sorted_insert t a l : sorted l → sorted (before_upper t l ++ (t, a) :: from_upper t l).
Proof.
  unfold before_upper, from_upper.
  induction 1 as [|x l Hx Hl IH]; simpl; [constructor; [set_solver|constructor]|].
  case_bool_decide as Ht; simpl.
  - constructor; [|done]. intros y. rewrite elem_of_app, elem_of_cons.
    intros [Hy|[->|Hy]]; [|done|].
    + by apply elem_take_while in Hy as [? _]; apply Hx.
    + by apply elem_drop_while, Hx in Hy.
  - constructor; [|by constructor]. intros y [->|Hy]%elem_of_cons; simpl; [lia|].
    specialize (Hx y Hy). lia.
Qed.

Lemma elem_of_insert t a l x :
  x ∈ before_upper t l ++ (t, a) :: from_upper t l ↔ x = (t, a) ∨ x ∈ l.
Proof.
  unfold before_upper, from_upper. rewrite <-(take_drop_while (λ x, bool_decide (x ≤ t)) l) at 3.
  rewrite !elem_of_app, elem_of_cons. tauto.
Qed.

Lemma Permutation_insert t a l : before_upper t l ++ (t, a) :: from_upper t l ≡ₚ (t, a) :: l.
Proof.
  unfold before_upper, from_upper. rewrite <-Permutation_middle, take_drop_while. done.
Qed.
End sorted.

(** ** The tracker *)

Section definitions.
Context {AS : Asio} {LK : Link}.

Record PeerTracker := mkTracker {
  mTimer : option Z;                     (* when the pending wait expires *)
  mTimeouts : list (Z * NodeId);
}.

Definition new_PeerTracker : PeerTracker := mkTracker None [].
Definition upd_mTimeouts f (t : PeerTracker) : PeerTracker := mkTracker (mTimer t) (f (mTimeouts t)).

(** [expires_at] cancels a pending wait; an empty vector leaves the timer. *)
Definition schedulePruning (t : PeerTracker) : PeerTracker :=
  match mTimeouts t with
  | [] => t
  | x :: _ => mkTracker (Some (x.1 + seconds 1)) (mTimeouts t)
  end.

(** [erase(remove_if(... pt.second == nodeId))] *)
Definition erase_node (nodeId : NodeId) (l : list (Z * NodeId)) : list (Z * NodeId) :=
  filter (λ pt, pt.2 ≠ nodeId) l.

Definition updateTimeout (nodeId : NodeId) (ttl : byte) (now : Z) (t : PeerTracker) : PeerTracker :=
  let l := erase_node nodeId (mTimeouts t) in
  let deadline := now + seconds (byte_to_Z ttl) in
  schedulePruning (mkTracker (mTimer t)
    (before_upper deadline l ++ (deadline, nodeId) :: from_upper deadline l)).

(** [[begin, endExpired)]: the nodes the callback gets. *)
Definition expired_nodes (now : Z) (t : PeerTracker) : list NodeId :=
  (before_lower now (mTimeouts t)).*2.

Definition remove (nodeId : NodeId) : PeerTracker → PeerTracker := upd_mTimeouts (erase_node nodeId).
Definition clear : PeerTracker → PeerTracker := upd_mTimeouts (λ _, []).

(** [prune] for a tracker inside a larger state [S]; the callback does not touch
    the tracker, so the iterators stay valid while it runs. *)
Definition prune {S} (get : S → PeerTracker) (upd : (PeerTracker → PeerTracker) → S → S)
    (mOnExpire : NodeId → M S unit) (now : Z) : M S unit :=
  t ← gets get;
  for_each (expired_nodes now t) mOnExpire;;
  modify (upd (upd_mTimeouts (drop (length (expired_nodes now t)))));;
  modify (upd schedulePruning).

(** The wait handler: the wait is over, and without an error it prunes. *)
Definition onPruneTimer {S} (get : S → PeerTracker) (upd : (PeerTracker → PeerTracker) → S → S)
    (mOnExpire : NodeId → M S unit) (e : bool) (now : Z) : M S unit :=
  if e then skip else
  modify (upd (λ t, mkTracker None (mTimeouts t)));;
  prune get upd mOnExpire now.
End definitions.

(** ** The tracker as a map from nodes to deadlines *)

Section laws.
Context {AS : Asio} {LK : Link}.
Implicit Types (t : PeerTracker) (l : list (Z * NodeId)).

Record tracker_ok t : Prop := {
  tracker_sorted : sorted (mTimeouts t);
  tracker_nodup : NoDup (mTimeouts t).*2;
  (* a pending wait, not later than one second after the first deadline *)
  tracker_timer : mTimeouts t ≠ [] →
    ∃ w, mTimer t = Some w ∧ ∀ x, x ∈ mTimeouts t → w ≤ x.1 + seconds 1;
}.

Definition deadlines t : gmap NodeId Z := list_to_map ((λ x, (x.2, x.1)) <$> mTimeouts t).

Lemma deadlines_Some t id d :
  NoDup (mTimeouts t).*2 → deadlines t !! id = Some d ↔ (d, id) ∈ mTimeouts t.
Proof.
  intros Hnd. unfold deadlines.
  rewrite <-elem_of_list_to_map.
  - rewrite list_elem_of_fmap. split; [intros ([] & [= -> ->] & ?); done|].
    intros ?. by exists (d, id).
  - rewrite <-list_fmap_compose. done.
Qed.

Lemma deadlines_ext t1 t2 :
  NoDup (mTimeouts t1).*2 → NoDup (mTimeouts t2).*2 →
  (∀ d id, (d, id) ∈ mTimeouts t1 ↔ (d, id) ∈ mTimeouts t2) → deadlines t1 = deadlines t2.
Proof.
  intros H1 H2 Hel. apply map_eq. intros id. apply option_eq. intros d.
  by rewrite !deadlines_Some, Hel.
Qed.

Lemma elem_erase_node id l x : x ∈ erase_node id l ↔ x ∈ l ∧ x.2 ≠ id.
Proof. unfold erase_node. rewrite list_elem_of_filter. tauto. Qed.

Lemma erase_node_nodes id l : (erase_node id l).*2 = filter (.≠ id) l.*2.
Proof.
  unfold erase_node. induction l as [|[d n] l IH]; csimpl; [done|].
  rewrite !filter_cons; simpl. destruct (decide (n ≠ id)); csimpl; congruence.
Qed.

Lemma NoDup_erase_node id l : NoDup l.*2 → NoDup (erase_node id l).*2.
Proof. rewrite erase_node_nodes. apply NoDup_filter. Qed.

Lemma schedulePruning_timeouts t : mTimeouts (schedulePruning t) = mTimeouts t.
Proof. unfold schedulePruning. by destruct (mTimeouts t) eqn:Hl. Qed.

Lemma schedulePruning_ok t :
  sorted (mTimeouts t) → NoDup (mTimeouts t).*2 → tracker_ok (schedulePruning t).
Proof.
  intros Hs Hnd. split; rewrite ?schedulePruning_timeouts; [done..|].
  intros Hne. unfold schedulePruning. destruct (mTimeouts t) as [|x l]; [done|].
  eexists. split; [done|]. inv Hs. intros y [->|Hy]%elem_of_cons; [lia|].
  match goal with H : ∀ y, _ → _ |- _ => apply H in Hy end. lia.
Qed.

Lemma updateTimeout_timeouts id ttl now t :
  mTimeouts (updateTimeout id ttl now t) ≡ₚ
    (now + seconds (byte_to_Z ttl), id) :: erase_node id (mTimeouts t).
Proof. unfold updateTimeout. rewrite schedulePruning_timeouts. apply Permutation_insert. Qed.

Lemma updateTimeout_nodup id ttl now t :
  NoDup (mTimeouts t).*2 → NoDup (mTimeouts (updateTimeout id ttl now t)).*2.
Proof.
  intros Hnd. rewrite updateTimeout_timeouts. csimpl. apply NoDup_cons.
  split; [|by apply NoDup_erase_node]. rewrite erase_node_nodes, list_elem_of_filter. tauto.
Qed.

Lemma updateTimeout_ok id ttl now t : tracker_ok t → tracker_ok (updateTimeout id ttl now t).
Proof.
  intros [Hs Hnd _]. apply (schedulePruning_ok (mkTracker _ _)).
  - apply sorted_insert. by apply sorted_filter.
  - apply (updateTimeout_nodup id ttl now) in Hnd. unfold updateTimeout in Hnd.
    by rewrite schedulePruning_timeouts in Hnd.
Qed.

Lemma updateTimeout_deadlines id ttl now t :
  tracker_ok t →
  deadlines (updateTimeout id ttl now t) = <[id := now + seconds (byte_to_Z ttl)]> (deadlines t).
Proof.
  intros [_ Hnd _]. apply map_eq. intros id'. apply option_eq. intros d.
  rewrite deadlines_Some by (by apply updateTimeout_nodup).
  rewrite updateTimeout_timeouts, elem_of_cons, elem_erase_node, lookup_insert_Some.
  rewrite deadlines_Some by done. simpl. naive_solver.
Qed.

Lemma remove_ok id t : tracker_ok t → tracker_ok (remove id t).
Proof.
  intros [Hs Hnd Ht]. split; simpl; [by apply sorted_filter|by apply NoDup_erase_node|].
  intros Hne. destruct Ht as (w & Hw & Hall).
  { intros Hnil. rewrite Hnil in Hne. done. }
  exists w. split; [done|]. intros x [Hx _]%elem_erase_node. by apply Hall.
Qed.

Lemma remove_deadlines id t : tracker_ok t → deadlines (remove id t) = delete id (deadlines t).
Proof.
  intros Ht. apply map_eq. intros id'. apply option_eq. intros d.
  rewrite lookup_delete_Some, !deadlines_Some by first [apply (tracker_nodup _ (remove_ok id t Ht))|apply (tracker_nodup _ Ht)].
  simpl. rewrite elem_erase_node. simpl. naive_solver.
Qed.

Lemma clear_ok t : tracker_ok (clear t).
Proof. split; simpl; [constructor|constructor|done]. Qed.

Lemma drop_expired now t :
  drop (length (expired_nodes now t)) (mTimeouts t) = from_lower now (mTimeouts t).
Proof.
  unfold expired_nodes. rewrite length_fmap. unfold before_lower, from_lower.
  rewrite <-(take_drop_while (λ x, bool_decide (x < now)) (mTimeouts t)) at 2.
  apply drop_app_length.
Qed.

(** What [prune] leaves, and how it arms the timer. *)
Definition pruned (now : Z) t : PeerTracker :=
  schedulePruning (upd_mTimeouts (drop (length (expired_nodes now t))) t).

Lemma pruned_timeouts now t : mTimeouts (pruned now t) = from_lower now (mTimeouts t).
Proof. unfold pruned. rewrite schedulePruning_timeouts. apply drop_expired. Qed.

Lemma pruned_ok now t :
  sorted (mTimeouts t) → NoDup (mTimeouts t).*2 → tracker_ok (pruned now t).
Proof.
  intros Hs Hnd. apply schedulePruning_ok; simpl; rewrite drop_expired; unfold from_lower.
  - rewrite <-(take_drop_while (λ x, bool_decide (x < now)) (mTimeouts t)) in Hs.
    by apply sorted_app_inv in Hs.
  - rewrite <-(take_drop_while (λ x, bool_decide (x < now)) (mTimeouts t)), fmap_app in Hnd.
    by apply NoDup_app in Hnd as (_ & _ & ?).
Qed.

Lemma elem_pruned now t d id :
  sorted (mTimeouts t) → (d, id) ∈ mTimeouts (pruned now t) ↔ (d, id) ∈ mTimeouts t ∧ now ≤ d.
Proof.
  intros Hs. rewrite pruned_timeouts. unfold from_lower.
  rewrite elem_drop_while_sorted by (done || apply lower_closed).
  rewrite bool_decide_eq_false. simpl. split; intros [? ?]; (split; [done|lia]).
Qed.

Lemma elem_expired now t id :
  sorted (mTimeouts t) → id ∈ expired_nodes now t ↔ ∃ d, (d, id) ∈ mTimeouts t ∧ d < now.
Proof.
  intros Hs. unfold expired_nodes, before_lower. rewrite list_elem_of_fmap. split.
  - intros ([d n] & -> & Hin). exists d.
    apply elem_take_while_sorted in Hin as [? Hd]; [|apply lower_closed|done].
    by rewrite bool_decide_eq_true in Hd.
  - intros (d & Hin & Hd). exists (d, id). split; [done|].
    apply elem_take_while_sorted; [apply lower_closed|done|].
    split; [done|]. by apply bool_decide_eq_true.
Qed.

Lemma NoDup_expired now t : NoDup (mTimeouts t).*2 → NoDup (expired_nodes now t).
Proof.
  intros Hnd. unfold expired_nodes, before_lower.
  rewrite <-(take_drop_while (λ x, bool_decide (x < now)) (mTimeouts t)), fmap_app in Hnd.
  by apply NoDup_app in Hnd as (? & _ & _).
Qed.

(** The pending wait does not matter. *)
Lemma pruned_deadlines_waited now t :
  sorted (mTimeouts t) → NoDup (mTimeouts t).*2 →
  deadlines (pruned now (mkTracker None (mTimeouts t))) =
    filter (λ p, now ≤ p.2) (deadlines t).
Proof.
  intros Hs Hnd. apply map_eq. intros id. apply option_eq. intros d.
  rewrite map_lookup_filter_Some, !deadlines_Some by first [done|by apply pruned_ok].
  by rewrite elem_pruned.
Qed.

(** Somebody is waited for exactly if somebody is left. *)
Lemma pruned_waiting now t :
  sorted (mTimeouts t) → NoDup (mTimeouts t).*2 →
  is_Some (mTimer (pruned now (mkTracker None (mTimeouts t)))) ↔
  deadlines (pruned now (mkTracker None (mTimeouts t))) ≠ ∅.
Proof.
  intros Hs Hnd. pose proof (pruned_ok now (mkTracker None (mTimeouts t)) Hs Hnd) as [_ Hnd' _].
  unfold pruned, schedulePruning in *. simpl in *.
  destruct (drop _ (mTimeouts t)) as [|[d id] l] eqn:Hl.
  - split; [by intros []|]. intros Hne. destruct Hne. unfold deadlines. simpl. by rewrite Hl.
  - split; [|done]. intros _ Hempty. apply (f_equal (.!! id)) in Hempty.
    unfold deadlines in Hempty. simpl in Hempty.
    by rewrite lookup_insert, decide_True in Hempty.
Qed.

Lemma pruned_deadlines now t :
  tracker_ok t → deadlines (pruned now t) = filter (λ p, now ≤ p.2) (deadlines t).
Proof.
  intros [Hs Hnd _]. apply map_eq. intros id. apply option_eq. intros d.
  rewrite map_lookup_filter_Some, !deadlines_Some by first [done|by apply pruned_ok].
  by rewrite elem_pruned.
Qed.
End laws.

(** The rule for [prune]: a loop invariant over the expired nodes. *)
Lemma wp_prune {AS : Asio} {LK : Link} {S} (get : S → PeerTracker) upd
    (mOnExpire : NodeId → M S unit) now (s : S) (I : list NodeId → S → Prop)
    (Q : unit → S → Prop) (E : cpp_exn → S → Prop) :
  (∀ id ids s', I (id :: ids) s' → wp (mOnExpire id) s' (λ _ s'', I ids s'') E) →
  I (expired_nodes now (get s)) s →
  (∀ s', I [] s' → Q tt (upd schedulePruning
     (upd (upd_mTimeouts (drop (length (expired_nodes now (get s))))) s'))) →
  wp (prune get upd mOnExpire now) s Q E.
Proof.
  intros Hstep HI HQ. unfold prune. wp_steps.
  eapply wp_mono; [by apply wp_for_each with (I:=I)| |done].
  intros [] s' HI'. wp_steps. by apply HQ.
Qed.

(** What a callback does to the state around the tracker: it returns and leaves
    the tracker alone.  [calls] are its calls so far. *)
Record expire_callback {AS : Asio} {LK : Link} {S} (get : S → PeerTracker)
    (upd : (PeerTracker → PeerTracker) → S → S) (mOnExpire : NodeId → M S unit)
    (calls : S → list NodeId) : Prop := {
  callback_returns id s : ∃ s', mOnExpire id s = (Ret tt, s') ∧ get s' = get s ∧
    calls s' = calls s ++ [id];
  get_upd f s : get (upd f s) = f (get s);
  calls_upd f s : calls (upd f s) = calls s;
}.

Section runs.
Context {AS : Asio} {LK : Link} {S : Type} (get : S → PeerTracker).
Context (upd : (PeerTracker → PeerTracker) → S → S) (mOnExpire : NodeId → M S unit).
Context (calls : S → list NodeId) (Hcb : expire_callback get upd mOnExpire calls).

Lemma callbacks_run ids (s : S) :
  ∃ s', for_each ids mOnExpire s = (Ret tt, s') ∧ get s' = get s ∧ calls s' = calls s ++ ids.
Proof.
  revert s. induction ids as [|id ids IH]; intros s.
  { exists s. by rewrite app_nil_r. }
  destruct (callback_returns _ _ _ _ Hcb id s) as (s1 & H1 & Hg1 & Hc1).
  destruct (IH s1) as (s' & H' & Hg & Hc). exists s'. cbn [for_each]. unfold mbind, M_bind.
  rewrite H1. split; [done|]. split; [congruence|]. by rewrite Hc, Hc1, <-app_assoc.
Qed.

Lemma prune_run now (s : S) :
  ∃ s', prune get upd mOnExpire now s = (Ret tt, s') ∧ get s' = pruned now (get s) ∧
    calls s' = calls s ++ expired_nodes now (get s).
Proof.
  destruct (callbacks_run (expired_nodes now (get s)) s) as (s1 & Hr & Hg & Hc).
  eexists. unfold prune, mbind, M_bind, gets, modify. rewrite Hr. split; [done|].
  rewrite !(get_upd _ _ _ _ Hcb), Hg, !(calls_upd _ _ _ _ Hcb). done.
Qed.

Lemma onPruneTimer_run now (s : S) :
  ∃ s', onPruneTimer get upd mOnExpire false now s = (Ret tt, s') ∧
    get s' = pruned now (mkTracker None (mTimeouts (get s))) ∧
    calls s' = calls s ++ expired_nodes now (get s).
Proof.
  destruct (prune_run now (upd (λ t, mkTracker None (mTimeouts t)) s)) as (s' & Hr & Hg & Hc).
  exists s'. split; [exact Hr|].
  rewrite (get_upd _ _ _ _ Hcb) in Hg. rewrite (get_upd _ _ _ _ Hcb), (calls_upd _ _ _ _ Hcb) in Hc.
  done.
Qed.
End runs.

(** ** Theorems *)

Section theorems.
Context {AS : Asio} {LK : Link} {S : Type} (get : S → PeerTracker).
Context (upd : (PeerTracker → PeerTracker) → S → S) (mOnExpire : NodeId → M S unit).
Context (calls : S → list NodeId).

(** C22: the tracker implements a map from nodes to deadlines.  Its operations
    keep the vector sorted, its nodes distinct and, while it is not empty, a wait
    pending; updating a node overwrites its deadline and removing one deletes
    it.  Pruning deletes exactly the deadlines that have passed and calls the
    callback once for each of their nodes and for no other. *)
Theorem tracker_refines_map (s : S) (id : NodeId) (ttl : byte) now :
  expire_callback get upd mOnExpire calls → tracker_ok (get s) →
  let t := get s in
  (tracker_ok (updateTimeout id ttl now t) ∧
   deadlines (updateTimeout id ttl now t) =
     <[id := now + seconds (byte_to_Z ttl)]> (deadlines t)) ∧
  (tracker_ok (remove id t) ∧ deadlines (remove id t) = delete id (deadlines t)) ∧
  (tracker_ok (clear t) ∧ deadlines (clear t) = ∅) ∧
  ∃ s' ids, prune get upd mOnExpire now s = (Ret tt, s') ∧ tracker_ok (get s') ∧
    deadlines (get s') = filter (λ p, now ≤ p.2) (deadlines t) ∧
    calls s' = calls s ++ ids ∧ NoDup ids ∧
    ∀ n, n ∈ ids ↔ ∃ d, deadlines t !! n = Some d ∧ d < now.
Proof.
  intros Hcb Ht t. pose proof Ht as [Hs Hnd _]. split_and!.
  - by apply updateTimeout_ok.
  - by apply updateTimeout_deadlines.
  - by apply remove_ok.
  - by apply remove_deadlines.
  - apply clear_ok.
  - done.
  - destruct (prune_run get upd mOnExpire calls Hcb now s) as (s' & Hr & Hg & Hc).
    exists s', (expired_nodes now t). rewrite Hg. split_and!; try done.
    + by apply pruned_ok.
    + by apply pruned_deadlines.
    + by apply NoDup_expired.
    + intros n. rewrite elem_expired by done. by setoid_rewrite deadlines_Some.
Qed.

(** When a wait ends before a deadline, the next one is armed. *)
Lemma pruned_waits now t id d :
  tracker_ok t → (d, id) ∈ mTimeouts t → now ≤ d →
  ∃ w', mTimer (pruned now (mkTracker None (mTimeouts t))) = Some w' ∧ now < w' ≤ d + seconds 1.
Proof.
  intros [Hs Hnd _] Hin Hd. set (t0 := mkTracker None (mTimeouts t)).
  assert ((d, id) ∈ mTimeouts (pruned now t0)) as Hin' by (by apply elem_pruned).
  destruct (pruned_ok now t0 Hs Hnd) as [Hs' Hnd' Htimer'].
  unfold pruned, schedulePruning in *.
  destruct (mTimeouts (upd_mTimeouts _ t0)) as [|[d0 n0] l] eqn:Hl; simpl in *.
  { rewrite Hl in Hin'. inv Hin'. }
  eexists. split; [done|].
  assert (now ≤ d0).
  { assert ((d0, n0) ∈ from_lower now (mTimeouts t)) as Hd0
      by (rewrite <-drop_expired; change (expired_nodes now t) with (expired_nodes now t0);
          rewrite Hl; apply list_elem_of_here).
    apply elem_drop_while_sorted in Hd0 as [_ Hd0]; [|apply lower_closed|done].
    rewrite bool_decide_eq_false in Hd0. simpl in Hd0. lia. }
  unfold seconds. destruct Htimer' as (w' & [= <-] & Hall'); [done|].
  specialize (Hall' _ Hin'). unfold seconds in Hall'. simpl in *. lia.
Qed.

(** C23: a node that is never heard of again expires.  While it is tracked a wait
    is pending that ends at most one second after its deadline.  When the wait
    ends after the deadline, the handler calls the callback for the node and
    forgets it; when it ends earlier, the handler keeps the node, does not call
    the callback for it, and starts another wait that ends strictly later and
    again at most one second after the deadline. *)
Theorem silent_node_expires (s : S) (id : NodeId) d :
  expire_callback get upd mOnExpire calls → tracker_ok (get s) → deadlines (get s) !! id = Some d →
  ∃ w, mTimer (get s) = Some w ∧ w ≤ d + seconds 1 ∧
    ∀ now, w ≤ now → ∃ s' ids,
      onPruneTimer get upd mOnExpire false now s = (Ret tt, s') ∧
      calls s' = calls s ++ ids ∧ tracker_ok (get s') ∧
      (d < now → id ∈ ids ∧ deadlines (get s') !! id = None) ∧
      (now ≤ d → (id ∉ ids) ∧ deadlines (get s') !! id = Some d ∧
        ∃ w', mTimer (get s') = Some w' ∧ now < w' ≤ d + seconds 1).
Proof.
  intros Hcb Ht Hid. pose proof Ht as [Hs Hnd Htimer].
  pose proof Hid as Hin. rewrite deadlines_Some in Hin by done.
  destruct Htimer as (w & Hw & Hall); [by intros Hnil; rewrite Hnil in Hin; inv Hin|].
  exists w. split; [done|]. split; [apply (Hall _ Hin)|]. intros now _.
  destruct (onPruneTimer_run get upd mOnExpire calls Hcb now s) as (s' & Hr & Hg & Hc).
  exists s', (expired_nodes now (get s)). split; [done|]. split; [done|]. rewrite Hg.
  split; [by apply pruned_ok|]. rewrite pruned_deadlines_waited by done. split; intros Hd.
  - split; [apply elem_expired; eauto|]. apply map_lookup_filter_None. right.
    intros d' Hd'. simpl. simplify_eq. lia.
  - split; [|split; [by apply map_lookup_filter_Some|by eapply pruned_waits]].
    intros (d' & Hd' & Hlt)%elem_expired; [|done]. rewrite <-deadlines_Some in Hd' by done.
    simplify_eq. lia.
Qed.
End theorems.

Module TrackerWitnesses.
Import Sample.

Definition n7 : @NodeId asio link := Byte.x07.
Definition n8 : @NodeId asio link := Byte.x08.
Definition tracker0 : PeerTracker :=
  updateTimeout n8 Byte.x03 (seconds 12)
    (updateTimeout n7 Byte.x05 (seconds 10) new_PeerTracker).

Lemma tracker0_ok : tracker_ok tracker0.
Proof.
  do 2 apply updateTimeout_ok. split; [constructor|constructor|done].
Qed.

(** The tracker with a callback that records its calls. *)
Definition tracked : Type := PeerTracker * list NodeId.
Definition upd_tracked f (s : tracked) : tracked := (f s.1, s.2).
Definition record_call (id : NodeId) : M tracked unit := modify (λ s, (s.1, s.2 ++ [id])).
Lemma recorded_calls : expire_callback fst upd_tracked record_call snd.
Proof. split; [|done..]. intros id s. by exists (s.1, s.2 ++ [id]). Qed.

Lemma tracker_refines_map_witness :
  ∃ s' ids, prune fst upd_tracked record_call (seconds 16) (tracker0, []) = (Ret tt, s') ∧
    snd s' = ids ∧ ∀ n, n ∈ ids ↔ ∃ d, deadlines tracker0 !! n = Some d ∧ d < seconds 16.
Proof.
  destruct (tracker_refines_map fst upd_tracked record_call snd (tracker0, []) n7 Byte.x05 (seconds 16))
    as (_ & _ & _ & s' & ids & H1 & _ & _ & H2 & _ & H3).
  - apply recorded_calls.
  - apply tracker0_ok.
  - exists s', ids. split; [exact H1|]. split; [exact H2|exact H3].
Defined.

Lemma silent_node_expires_witness :
  ∃ w, mTimer tracker0 = Some w ∧ w ≤ seconds 15 + seconds 1.
Proof.
  destruct (silent_node_expires fst upd_tracked record_call snd (tracker0, []) n7 (seconds 15))
    as (w & H1 & H2 & _).
  - apply recorded_calls.
  - apply tracker0_ok.
  - evaluate.
  - exists w. split; [exact H1|exact H2].
Defined.
End TrackerWitnesses.
