(* ===== verification/TunnelGateway.v ===== *)
(** * TunnelGateway.hpp: one network interface

    A gateway represents the nodes of the other sites on its network interface
    by surrogates (sockets it opens for each of them) and passes the messages
    of local nodes to the tunnel.  Calls that leave the gateway (to the tunnel,
    to the observers, to the sockets) are recorded in order; the outcomes of
    opening and sending come from the environment. *)

From stdpp Require Import pretty.
From S2P Require Import Prelude LinkLib Sample Tunnel PeerTracker.

(** ** Data *)

Section data.
Context {AS : Asio} {LK : Link}.

(** The calls of the free functions [sawPeer], [peerLeft], [peerTimedOut]. *)
Inductive ObserverCall :=
  | SawPeer (st : PeerState)
  | PeerLeft (id : NodeId)
  | PeerTimedOut (id : NodeId).

(** The calls on [mTunnel]. *)
Inductive TunnelCall :=
  | CallAddGateway
  | CallForward (ty : TunnelMessageType) (from : NodeId) (message : list byte) (to : option NodeId).

Record Socket := mkSocket { sock_id : nat; sock_endpoint : UdpEndpoint }.

(** The system: the outcome of the n-th [openUnicastSocket] and of the n-th
    [send], and what has been opened and sent. *)
Record System := mkSystem {
  open_outcome : nat → UdpEndpoint + cpp_exn;
  send_outcome : nat → option cpp_exn;
  opens : nat;
  sends : list (nat * list byte * UdpEndpoint);
}.

Record RemoteNodeSurrogate := mkNodeSurrogate {
  stateSocket : Socket;
  measurementSocket : Socket;
  surrogate_running : bool;
  receiving_state : bool;
  receiving_measurement : bool;
}.

Record RemoteMeasurementSurrogate := mkMeasurementSurrogate {
  ms_socket : Socket;
  ms_running : bool;
  ms_receiving : bool;
}.

Record LocalNodeEndpoints := mkEndpoints {
  stateEndpoint : UdpEndpoint;
  measurementEndpoint : UdpEndpoint;
}.

Record TunnelGateway := mkGateway {
  system : System;
  clock : Z;                                       (* Timer::now() *)
  randoms : nat;                                   (* calls of NodeId::random *)
  local_interface_address : Address;
  mLocalObserver : list ObserverCall;
  mRemoteObserver : list ObserverCall;
  mTunnel : list TunnelCall;
  multicast_receiving : bool;                      (* mMulticastReceiveSocket *)
  mLocalTracker : PeerTracker;
  mRemoteTracker : PeerTracker;
  mRemoteNodeIdToRemoteNodeSurrogate : gmap NodeId RemoteNodeSurrogate;
  mRemoteNodeIdToRemoteMeasurementSurrogate : gmap NodeId RemoteMeasurementSurrogate;
  localNodeIdToEndpointMap : gmap NodeId LocalNodeEndpoints;
  localMeasurementEndpointToNodeId : gmap string NodeId;
  is_running : bool;
}.

Definition upd_system f (t : TunnelGateway) : TunnelGateway :=
  mkGateway (f (system t)) (clock t) (randoms t) (local_interface_address t)
    (mLocalObserver t) (mRemoteObserver t) (mTunnel t) (multicast_receiving t)
    (mLocalTracker t) (mRemoteTracker t) (mRemoteNodeIdToRemoteNodeSurrogate t)
    (mRemoteNodeIdToRemoteMeasurementSurrogate t) (localNodeIdToEndpointMap t)
    (localMeasurementEndpointToNodeId t) (is_running t).
Definition upd_clock f (t : TunnelGateway) : TunnelGateway :=
  mkGateway (system t) (f (clock t)) (randoms t) (local_interface_address t)
    (mLocalObserver t) (mRemoteObserver t) (mTunnel t) (multicast_receiving t)
    (mLocalTracker t) (mRemoteTracker t) (mRemoteNodeIdToRemoteNodeSurrogate t)
    (mRemoteNodeIdToRemoteMeasurementSurrogate t) (localNodeIdToEndpointMap t)
    (localMeasurementEndpointToNodeId t) (is_running t).
Definition upd_randoms f (t : TunnelGateway) : TunnelGateway :=
  mkGateway (system t) (clock t) (f (randoms t)) (local_interface_address t)
    (mLocalObserver t) (mRemoteObserver t) (mTunnel t) (multicast_receiving t)
    (mLocalTracker t) (mRemoteTracker t) (mRemoteNodeIdToRemoteNodeSurrogate t)
    (mRemoteNodeIdToRemoteMeasurementSurrogate t) (localNodeIdToEndpointMap t)
    (localMeasurementEndpointToNodeId t) (is_running t).
Definition upd_local_interface_address f (t : TunnelGateway) : TunnelGateway :=
  mkGateway (system t) (clock t) (randoms t) (f (local_interface_address t))
    (mLocalObserver t) (mRemoteObserver t) (mTunnel t) (multicast_receiving t)
    (mLocalTracker t) (mRemoteTracker t) (mRemoteNodeIdToRemoteNodeSurrogate t)
    (mRemoteNodeIdToRemoteMeasurementSurrogate t) (localNodeIdToEndpointMap t)
    (localMeasurementEndpointToNodeId t) (is_running t).
Definition upd_mLocalObserver f (t : TunnelGateway) : TunnelGateway :=
  mkGateway (system t) (clock t) (randoms t) (local_interface_address t)
    (f (mLocalObserver t)) (mRemoteObserver t) (mTunnel t) (multicast_receiving t)
    (mLocalTracker t) (mRemoteTracker t) (mRemoteNodeIdToRemoteNodeSurrogate t)
    (mRemoteNodeIdToRemoteMeasurementSurrogate t) (localNodeIdToEndpointMap t)
    (localMeasurementEndpointToNodeId t) (is_running t).
Definition upd_mRemoteObserver f (t : TunnelGateway) : TunnelGateway :=
  mkGateway (system t) (clock t) (randoms t) (local_interface_address t)
    (mLocalObserver t) (f (mRemoteObserver t)) (mTunnel t) (multicast_receiving t)
    (mLocalTracker t) (mRemoteTracker t) (mRemoteNodeIdToRemoteNodeSurrogate t)
    (mRemoteNodeIdToRemoteMeasurementSurrogate t) (localNodeIdToEndpointMap t)
    (localMeasurementEndpointToNodeId t) (is_running t).
Definition upd_mTunnel f (t : TunnelGateway) : TunnelGateway :=
  mkGateway (system t) (clock t) (randoms t) (local_interface_address t)
    (mLocalObserver t) (mRemoteObserver t) (f (mTunnel t)) (multicast_receiving t)
    (mLocalTracker t) (mRemoteTracker t) (mRemoteNodeIdToRemoteNodeSurrogate t)
    (mRemoteNodeIdToRemoteMeasurementSurrogate t) (localNodeIdToEndpointMap t)
    (localMeasurementEndpointToNodeId t) (is_running t).
Definition upd_multicast_receiving f (t : TunnelGateway) : TunnelGateway :=
  mkGateway (system t) (clock t) (randoms t) (local_interface_address t)
    (mLocalObserver t) (mRemoteObserver t) (mTunnel t) (f (multicast_receiving t))
    (mLocalTracker t) (mRemoteTracker t) (mRemoteNodeIdToRemoteNodeSurrogate t)
    (mRemoteNodeIdToRemoteMeasurementSurrogate t) (localNodeIdToEndpointMap t)
    (localMeasurementEndpointToNodeId t) (is_running t).
Definition upd_mLocalTracker f (t : TunnelGateway) : TunnelGateway :=
  mkGateway (system t) (clock t) (randoms t) (local_interface_address t)
    (mLocalObserver t) (mRemoteObserver t) (mTunnel t) (multicast_receiving t)
    (f (mLocalTracker t)) (mRemoteTracker t) (mRemoteNodeIdToRemoteNodeSurrogate t)
    (mRemoteNodeIdToRemoteMeasurementSurrogate t) (localNodeIdToEndpointMap t)
    (localMeasurementEndpointToNodeId t) (is_running t).
Definition upd_mRemoteTracker f (t : TunnelGateway) : TunnelGateway :=
  mkGateway (system t) (clock t) (randoms t) (local_interface_address t)
    (mLocalObserver t) (mRemoteObserver t) (mTunnel t) (multicast_receiving t)
    (mLocalTracker t) (f (mRemoteTracker t)) (mRemoteNodeIdToRemoteNodeSurrogate t)
    (mRemoteNodeIdToRemoteMeasurementSurrogate t) (localNodeIdToEndpointMap t)
    (localMeasurementEndpointToNodeId t) (is_running t).
Definition upd_mRemoteNodeIdToRemoteNodeSurrogate f (t : TunnelGateway) : TunnelGateway :=
  mkGateway (system t) (clock t) (randoms t) (local_interface_address t)
    (mLocalObserver t) (mRemoteObserver t) (mTunnel t) (multicast_receiving t)
    (mLocalTracker t) (mRemoteTracker t) (f (mRemoteNodeIdToRemoteNodeSurrogate t))
    (mRemoteNodeIdToRemoteMeasurementSurrogate t) (localNodeIdToEndpointMap t)
    (localMeasurementEndpointToNodeId t) (is_running t).
Definition upd_mRemoteNodeIdToRemoteMeasurementSurrogate f (t : TunnelGateway) : TunnelGateway :=
  mkGateway (system t) (clock t) (randoms t) (local_interface_address t)
    (mLocalObserver t) (mRemoteObserver t) (mTunnel t) (multicast_receiving t)
    (mLocalTracker t) (mRemoteTracker t) (mRemoteNodeIdToRemoteNodeSurrogate t)
    (f (mRemoteNodeIdToRemoteMeasurementSurrogate t)) (localNodeIdToEndpointMap t)
    (localMeasurementEndpointToNodeId t) (is_running t).
Definition upd_localNodeIdToEndpointMap f (t : TunnelGateway) : TunnelGateway :=
  mkGateway (system t) (clock t) (randoms t) (local_interface_address t)
    (mLocalObserver t) (mRemoteObserver t) (mTunnel t) (multicast_receiving t)
    (mLocalTracker t) (mRemoteTracker t) (mRemoteNodeIdToRemoteNodeSurrogate t)
    (mRemoteNodeIdToRemoteMeasurementSurrogate t) (f (localNodeIdToEndpointMap t))
    (localMeasurementEndpointToNodeId t) (is_running t).
Definition upd_localMeasurementEndpointToNodeId f (t : TunnelGateway) : TunnelGateway :=
  mkGateway (system t) (clock t) (randoms t) (local_interface_address t)
    (mLocalObserver t) (mRemoteObserver t) (mTunnel t) (multicast_receiving t)
    (mLocalTracker t) (mRemoteTracker t) (mRemoteNodeIdToRemoteNodeSurrogate t)
    (mRemoteNodeIdToRemoteMeasurementSurrogate t) (localNodeIdToEndpointMap t)
    (f (localMeasurementEndpointToNodeId t)) (is_running t).
Definition upd_is_running f (t : TunnelGateway) : TunnelGateway :=
  mkGateway (system t) (clock t) (randoms t) (local_interface_address t)
    (mLocalObserver t) (mRemoteObserver t) (mTunnel t) (multicast_receiving t)
    (mLocalTracker t) (mRemoteTracker t) (mRemoteNodeIdToRemoteNodeSurrogate t)
    (mRemoteNodeIdToRemoteMeasurementSurrogate t) (localNodeIdToEndpointMap t)
    (localMeasurementEndpointToNodeId t) (f (is_running t)).

Definition new_TunnelGateway (sys : System) (now : Z) (interface_address : Address) : TunnelGateway :=
  mkGateway sys now 0 interface_address [] [] [] false new_PeerTracker new_PeerTracker ∅ ∅ ∅ ∅ false.

Definition observe_local (c : ObserverCall) : M TunnelGateway unit :=
  modify (upd_mLocalObserver (λ l, l ++ [c])).
Definition observe_remote (c : ObserverCall) : M TunnelGateway unit :=
  modify (upd_mRemoteObserver (λ l, l ++ [c])).
Definition call_tunnel (c : TunnelCall) : M TunnelGateway unit :=
  modify (upd_mTunnel (λ l, l ++ [c])).

(** [mIo->openUnicastSocket(local_interface_address)] *)
Definition openUnicastSocket : M TunnelGateway Socket :=
  n ← gets (λ g, opens (system g));
  outcome ← gets (λ g, open_outcome (system g) n);
  modify (upd_system (λ s, mkSystem (open_outcome s) (send_outcome s) (S n) (sends s)));;
  match outcome with
  | inl ep => mret (mkSocket n ep)
  | inr e => throw e
  end.

(** [socket.send(data, numBytes, to)] *)
Definition socket_send (s : Socket) (data : list byte) (to : UdpEndpoint) : M TunnelGateway unit :=
  outcome ← gets (λ g, send_outcome (system g) (length (sends (system g))));
  modify (upd_system (λ sy, mkSystem (open_outcome sy) (send_outcome sy) (opens sy)
    (sends sy ++ [(sock_id s, data, to)])));;
  match outcome with Some e => throw e | None => skip end.
End data.

(** ** Operations *)

Section definitions.
Context {AS : Asio} {LK : Link}.
Implicit Types (g : TunnelGateway).

Definition createKeyFromEndpoint (e : UdpEndpoint) : string :=
  address_to_string (address e) +:+ ":" +:+ pretty (port e).

Definition hasLocalNode (id : NodeId) g : bool :=
  bool_decide (is_Some (localNodeIdToEndpointMap g !! id)).
Definition hasRemoteNodeSurrogate (id : NodeId) g : bool :=
  bool_decide (is_Some (mRemoteNodeIdToRemoteNodeSurrogate g !! id)).

(** *** From the local network to the tunnel *)

(** The tunnel gets the bytes between the two iterators. *)
Definition forwardMessage (ty : TunnelMessageType) (from : NodeId) (message : list byte)
    (to : option NodeId) : M TunnelGateway unit :=
  call_tunnel (CallForward ty from message to).

Definition receiveByeBye (from_node_id : NodeId) (message : list byte) (to : option NodeId) :
    M TunnelGateway unit :=
  forwardMessage BYEBYE from_node_id message to;;
  observe_local (PeerLeft from_node_id);;
  modify (upd_mLocalTracker (remove from_node_id));;
  (* operator[] inserts empty endpoints for an unknown node *)
  modify (upd_localNodeIdToEndpointMap (λ m,
    match m !! from_node_id with
    | Some _ => m
    | None => <[from_node_id := mkEndpoints default_endpoint default_endpoint]> m
    end));;
  m ← gets localNodeIdToEndpointMap;
  match m !! from_node_id with
  | None => undefined DanglingIterator
  | Some ends =>
      modify (upd_localMeasurementEndpointToNodeId
                (delete (createKeyFromEndpoint (measurementEndpoint ends))))
  end;;
  modify (upd_localNodeIdToEndpointMap (delete from_node_id)).

(** [wholeMessageEnd - measEndpointEntrySize] *)
Definition strip_entry (e : UdpEndpoint) (message : list byte) : result (list byte) :=
  if decide (entry_size e ≤ length message)%nat
  then Ret (take (length message - entry_size e) message) else Undef OutOfBounds.

Definition receivePeerState (fromEndpoint : UdpEndpoint) (header : StateHeader)
    (message payload : list byte) (to : option NodeId) : M TunnelGateway unit :=
  try_catch is_runtime_error
    (st ← lift (fromPayload (sh_ident header) payload);
     modify (upd_localNodeIdToEndpointMap
       <[sh_ident header := mkEndpoints fromEndpoint (ps_endpoint st)]>);;
     let key := createKeyFromEndpoint (ps_endpoint st) in
     modify (upd_localMeasurementEndpointToNodeId <[key := sh_ident header]>);;
     observe_local (SawPeer st);;
     now ← gets clock;
     modify (upd_mLocalTracker (updateTimeout (ps_ident st) (sh_ttl header) now));;
     stripped ← lift (strip_entry (ps_endpoint st) message);
     forwardMessage (if to is Some _ then UNICAST else BROADCAST) (sh_ident header) stripped to)
    (λ _, skip).

Definition handle_state_message (fromEndpoint : UdpEndpoint) (header : StateHeader)
    (message payload : list byte) (to : option NodeId) : M TunnelGateway unit :=
  own ← gets (hasRemoteNodeSurrogate (sh_ident header));
  if own : bool then skip
  else if decide (sh_messageType header = kAlive ∨ sh_messageType header = kResponse)
  then receivePeerState fromEndpoint header message payload to
  else if decide (sh_messageType header = kByeBye)
  then receiveByeBye (sh_ident header) message to
  else skip.

Definition handle_measurement_message (fromEndpoint : UdpEndpoint) (header : MeasurementHeader)
    (message : list byte) (to_node_id : NodeId) : M TunnelGateway unit :=
  let key := createKeyFromEndpoint fromEndpoint in
  known ← gets (λ g, localMeasurementEndpointToNodeId g !! key);
  if decide (mh_messageType header = kPing) then
    match known with
    | None =>
        n ← gets randoms;
        let nodeId := NodeId_random n in
        modify (upd_randoms S);;
        modify (upd_localMeasurementEndpointToNodeId <[key := nodeId]>);;
        modify (upd_localNodeIdToEndpointMap
          <[nodeId := mkEndpoints default_endpoint fromEndpoint]>);;
        forwardMessage MEASUREMENT_PING nodeId message (Some to_node_id)
    | Some nodeId => forwardMessage MEASUREMENT_PING nodeId message (Some to_node_id)
    end
  else
    match known with
    | Some nodeId => forwardMessage MEASUREMENT_PONG nodeId message (Some to_node_id)
    | None => skip
    end.

(** [mMulticastReceiveSocket.receive], [receiveState], [receiveMeasurement] *)
Definition receive : M TunnelGateway unit := modify (upd_multicast_receiving (λ _, true)).

Definition set_receiving_state b (s : RemoteNodeSurrogate) : RemoteNodeSurrogate :=
  mkNodeSurrogate (stateSocket s) (measurementSocket s) (surrogate_running s) b
    (receiving_measurement s).
Definition set_receiving_measurement b (s : RemoteNodeSurrogate) : RemoteNodeSurrogate :=
  mkNodeSurrogate (stateSocket s) (measurementSocket s) (surrogate_running s)
    (receiving_state s) b.
Definition set_surrogate_running b (s : RemoteNodeSurrogate) : RemoteNodeSurrogate :=
  mkNodeSurrogate (stateSocket s) (measurementSocket s) b (receiving_state s)
    (receiving_measurement s).
Definition set_ms_running b (s : RemoteMeasurementSurrogate) : RemoteMeasurementSurrogate :=
  mkMeasurementSurrogate (ms_socket s) b (ms_receiving s).
Definition set_ms_receiving b (s : RemoteMeasurementSurrogate) : RemoteMeasurementSurrogate :=
  mkMeasurementSurrogate (ms_socket s) (ms_running s) b.

(** [mRemoteNodeIdToRemoteNodeSurrogate[id]->...]: [operator[]] of an absent
    node gives a null pointer. *)
Definition on_node_surrogate (id : NodeId) (f : RemoteNodeSurrogate → RemoteNodeSurrogate) :
    M TunnelGateway unit :=
  m ← gets mRemoteNodeIdToRemoteNodeSurrogate;
  match m !! id with
  | None => undefined NullPointer
  | Some _ => modify (upd_mRemoteNodeIdToRemoteNodeSurrogate (alter f id))
  end.
Definition receiveState (id : NodeId) : M TunnelGateway unit :=
  on_node_surrogate id (set_receiving_state true).

(** [operator()]: a discovery message from the multicast socket ([to] is empty)
    or from the state socket of the surrogate of [to]. *)
Definition receive_message (fromEndpoint : UdpEndpoint) (message : list byte)
    (to : option NodeId) : M TunnelGateway unit :=
  '(header, payload) ← lift (parseMessageHeader message);
  local ← gets local_interface_address;
  let ignoreIpV4Message :=
    if is_v4 (address fromEndpoint) && is_v4 local
    then negb (is_subnet_of (make_network_v4 (address fromEndpoint) 32) (make_network_v4 local 24))
    else false in
  (if negb ignoreIpV4Message
   then handle_state_message fromEndpoint header message payload to else skip);;
  running ← gets is_running;
  if running : bool then match to with Some n => receiveState n | None => receive end else skip.

(** *** From the tunnel to the local network *)

Definition getBroadcastEndpoint : M TunnelGateway UdpEndpoint :=
  local ← gets local_interface_address;
  if is_v4 local then mret multicastEndpointV4
  else a ← lift (to_v6 local); mret (multicastEndpointV6 (scope_id a)).

Definition ipV6Endpoint (e : UdpEndpoint) : M TunnelGateway UdpEndpoint :=
  a ← lift (to_v6 (address e));
  local ← gets local_interface_address;
  l ← lift (to_v6 local);
  mret (make_endpoint (with_scope_id (scope_id l) a) (port e)).

Definition getSocketForRemoteNode (id : NodeId) (getMeasurementSocket : bool) :
    M TunnelGateway Socket :=
  has ← gets (hasRemoteNodeSurrogate id);
  (if has : bool then skip else
    stateSocket ← openUnicastSocket;
    measurementSocket ← openUnicastSocket;
    modify (upd_mRemoteNodeIdToRemoteNodeSurrogate
      <[id := mkNodeSurrogate stateSocket measurementSocket false false false]>);;
    (* listen() *)
    on_node_surrogate id (set_surrogate_running true);;
    on_node_surrogate id (set_receiving_state true);;
    on_node_surrogate id (set_receiving_measurement true));;
  m ← gets mRemoteNodeIdToRemoteNodeSurrogate;
  match m !! id with
  | None => undefined NullPointer
  | Some s => mret (if getMeasurementSocket then measurementSocket s else stateSocket s)
  end.

Definition getSocketForRemoteMeasurement (id : NodeId) : M TunnelGateway Socket :=
  m ← gets mRemoteNodeIdToRemoteMeasurementSurrogate;
  match m !! id with
  | Some s => mret (ms_socket s)
  | None =>
      s ← openUnicastSocket;
      modify (upd_mRemoteNodeIdToRemoteMeasurementSurrogate
        <[id := mkMeasurementSurrogate s true true]>);;
      mret s
  end.

(** [localNodeIdToEndpointMap.at(id)] *)
Definition local_endpoints_at (id : NodeId) : M TunnelGateway LocalNodeEndpoints :=
  m ← gets localNodeIdToEndpointMap;
  match m !! id with Some e => mret e | None => throw OutOfRange end.

(** [*to_node_id] *)
Definition deref_node (to : option NodeId) : M TunnelGateway NodeId :=
  match to with Some n => mret n | None => undefined EmptyOptional end.

Definition resolveDestination (ty : TunnelMessageType) (from_node_id : NodeId)
    (to_node_id : option NodeId) : M TunnelGateway (option (Socket * UdpEndpoint)) :=
  unknown1 ← (if decide (ty = UNICAST ∨ ty = MEASUREMENT_PING)
              then n ← deref_node to_node_id; h ← gets (hasLocalNode n); mret (negb h)
              else mret false);
  unknown2 ← gets (λ g,
    bool_decide (ty ≠ BYEBYE ∧ ty ≠ BROADCAST) &&
    match to_node_id with None => true | Some n => negb (hasLocalNode n g) end);
  if unknown1 || unknown2 : bool then mret None else
  '(socket, to) ←
    match ty with
    | MEASUREMENT_PING =>
        n ← deref_node to_node_id;
        e ← local_endpoints_at n;
        s ← getSocketForRemoteMeasurement from_node_id;
        mret (s, measurementEndpoint e)
    | MEASUREMENT_PONG =>
        n ← deref_node to_node_id;
        e ← local_endpoints_at n;
        s ← getSocketForRemoteNode from_node_id true;
        mret (s, measurementEndpoint e)
    | BYEBYE | BROADCAST =>
        e ← getBroadcastEndpoint;
        s ← getSocketForRemoteNode from_node_id false;
        mret (s, e)
    | _ =>
        n ← deref_node to_node_id;
        e ← local_endpoints_at n;
        s ← getSocketForRemoteNode from_node_id false;
        mret (s, stateEndpoint e)
    end;
  endpoint ← (if is_v4 (address to) then mret to else ipV6Endpoint to);
  mret (Some (socket, endpoint)).

(** The bytes of [[messageBegin, messageEnd)], [size] bytes of a buffer. *)
Definition message_bytes (buf : list byte) (size : Z) : result (list byte) :=
  if decide (0 ≤ size ≤ Z.of_nat (length buf))
  then Ret (take (Z.to_nat size) buf) else Undef OutOfBounds.

Definition observeRemotePeerState (from_node_id : NodeId) (buf : list byte) (size : Z) :
    M TunnelGateway unit :=
  try_catch is_runtime_error
    (message ← lift (message_bytes buf size);
     '(header, payload) ← lift (parseMessageHeader message);
     st ← lift (fromPayload from_node_id payload);
     observe_remote (SawPeer st);;
     now ← gets clock;
     modify (upd_mRemoteTracker (updateTimeout (ps_ident st) (sh_ttl header) now)))
    (λ _, skip).

Definition onRemotePeerLeft (id : NodeId) : M TunnelGateway unit :=
  observe_remote (PeerLeft id);;
  modify (upd_mRemoteTracker (remove id)).

(** A runtime error of [send] is rethrown as another type. *)
Definition sendUdpMessage (s : Socket) (data : list byte) (to : UdpEndpoint) :
    M TunnelGateway unit :=
  try_catch is_runtime_error (socket_send s data to) (λ _, throw UdpSendException).

(** The gateway and the buffer of the message: the end of the message moves when
    the endpoint is appended. *)
Abbreviation with_gateway m := (zoom fst (λ g s, (g, s.2)) m).

Definition appendMeasurementEndpoint (from_node_id : NodeId) (size : Z) :
    M (TunnelGateway * list byte) Z :=
  s ← with_gateway (getSocketForRemoteNode from_node_id true);
  let payload := measurementPayload (sock_endpoint s) in
  let payloadSize := measurementPayloadSize (sock_endpoint s) in
  if decide (size + Z.of_nat payloadSize < Z.of_nat kMaxMessageSize) then
    buf ← gets snd;
    buf' ← lift (write_at buf (Z.to_nat size) payload);
    modify (λ s, (s.1, buf'));;
    mret (size + Z.of_nat (length payload))
  else mret size.

Definition forward_body (ty : TunnelMessageType) (from_node_id : NodeId) (size : Z)
    (to_node_id : option NodeId) : M (TunnelGateway * list byte) unit :=
  routing ← with_gateway (resolveDestination ty from_node_id to_node_id);
  match routing with
  | None => skip
  | Some (socket, endpoint) =>
      buf ← gets snd;
      with_gateway
        (if decide (ty = BROADCAST ∨ ty = UNICAST)
         then observeRemotePeerState from_node_id buf size
         else if decide (ty = BYEBYE) then onRemotePeerLeft from_node_id
         else skip);;
      size ← (if decide (ty ≠ MEASUREMENT_PING ∧ ty ≠ BYEBYE)
              then appendMeasurementEndpoint from_node_id size else mret size);
      buf ← gets snd;
      data ← lift (message_bytes buf size);
      with_gateway (sendUdpMessage socket data endpoint)
  end.

(** [catch (...)] around the body; the caller sees the buffer afterwards. *)
Definition forwardMessageLocally (ty : TunnelMessageType) (from_node_id : NodeId)
    (buf : list byte) (size : Z) (to_node_id : option NodeId) : M TunnelGateway (list byte) := λ g,
  let '(r, (g', buf')) :=
    try_catch (λ _, true) (forward_body ty from_node_id size to_node_id) (λ _, skip) (g, buf) in
  (match r with Ret _ => Ret buf' | Throw e => Throw e | Undef u => Undef u end, g').

(** *** Timeouts *)

Definition onLocalPeerTimedOut (id : NodeId) : M TunnelGateway unit :=
  observe_local (PeerTimedOut id);;
  m ← gets localNodeIdToEndpointMap;
  match m !! id with
  | None => skip
  | Some ends =>
      modify (upd_localMeasurementEndpointToNodeId
                (delete (createKeyFromEndpoint (measurementEndpoint ends))));;
      modify (upd_localNodeIdToEndpointMap (delete id))
  end.

Definition onRemotePeerTimedOut (id : NodeId) : M TunnelGateway unit :=
  observe_remote (PeerTimedOut id);;
  modify (upd_mRemoteNodeIdToRemoteNodeSurrogate (delete id));;
  modify (upd_mRemoteNodeIdToRemoteMeasurementSurrogate (delete id)).

Definition onLocalTimer (e : bool) : M TunnelGateway unit :=
  now ← gets clock; onPruneTimer mLocalTracker upd_mLocalTracker onLocalPeerTimedOut e now.
Definition onRemoteTimer (e : bool) : M TunnelGateway unit :=
  now ← gets clock; onPruneTimer mRemoteTracker upd_mRemoteTracker onRemotePeerTimedOut e now.

(** *** Life cycle and the handlers of the sockets *)

Definition listen : M TunnelGateway unit :=
  modify (upd_is_running (λ _, true));;
  call_tunnel CallAddGateway;;
  receive.

Definition stop_listening : M TunnelGateway unit :=
  modify (upd_is_running (λ _, false));;
  modify (upd_mRemoteNodeIdToRemoteNodeSurrogate (fmap (set_surrogate_running false)));;
  modify (upd_mRemoteNodeIdToRemoteMeasurementSurrogate (fmap (set_ms_running false)));;
  modify (upd_mRemoteNodeIdToRemoteNodeSurrogate (λ _, ∅));;
  modify (upd_mRemoteNodeIdToRemoteMeasurementSurrogate (λ _, ∅));;
  modify (upd_localNodeIdToEndpointMap (λ _, ∅));;
  modify (upd_localMeasurementEndpointToNodeId (λ _, ∅));;
  modify (upd_mLocalTracker clear);;
  modify (upd_mRemoteTracker clear).

Definition onMulticast (from : UdpEndpoint) (message : list byte) : M TunnelGateway unit :=
  modify (upd_multicast_receiving (λ _, false));;
  receive_message from message None.

Definition onState (id : NodeId) (from : UdpEndpoint) (message : list byte) :
    M TunnelGateway unit :=
  on_node_surrogate id (set_receiving_state false);;
  receive_message from message (Some id).

(** [RemoteNodeSurrogate::operator()] *)
Definition onMeasurement (id : NodeId) (from : UdpEndpoint) (message : list byte) :
    M TunnelGateway unit :=
  on_node_surrogate id (set_receiving_measurement false);;
  '(header, _) ← lift (parseMeasurementHeader message);
  handle_measurement_message from header message id;;
  m ← gets mRemoteNodeIdToRemoteNodeSurrogate;
  match m !! id with
  | None => undefined DanglingIterator
  | Some s => if surrogate_running s then on_node_surrogate id (set_receiving_measurement true)
              else skip
  end.

Definition on_measurement_surrogate (id : NodeId)
    (f : RemoteMeasurementSurrogate → RemoteMeasurementSurrogate) : M TunnelGateway unit :=
  modify (upd_mRemoteNodeIdToRemoteMeasurementSurrogate (alter f id)).

(** [RemoteMeasurementSurrogate::operator()] *)
Definition onSurrogateMeasurement (id : NodeId) (from : UdpEndpoint) (message : list byte) :
    M TunnelGateway unit :=
  on_measurement_surrogate id (set_ms_receiving false);;
  '(header, _) ← lift (parseMeasurementHeader message);
  handle_measurement_message from header message id;;
  m ← gets mRemoteNodeIdToRemoteMeasurementSurrogate;
  match m !! id with
  | None => undefined DanglingIterator
  | Some s => if ms_running s then on_measurement_surrogate id (set_ms_receiving true) else skip
  end.
End definitions.

(** ** What the receive path does *)

Section receive_path.
Context {AS : Asio} {LK : Link} {PL : ParseLaws}.
Implicit Types (g : TunnelGateway).

(** A peer state: its endpoints, its observer, its deadline, its message. *)
Definition peer_state_seen (from : UdpEndpoint) (header : StateHeader) (message : list byte)
    (st : PeerState) (to : option NodeId) g : TunnelGateway :=
  upd_mTunnel (λ l, l ++ [CallForward (if to is Some _ then UNICAST else BROADCAST)
      (sh_ident header) (take (length message - entry_size (ps_endpoint st)) message) to])
  (upd_mLocalTracker (updateTimeout (sh_ident header) (sh_ttl header) (clock g))
  (upd_mLocalObserver (λ l, l ++ [SawPeer st])
  (upd_localMeasurementEndpointToNodeId
     <[createKeyFromEndpoint (ps_endpoint st) := sh_ident header]>
  (upd_localNodeIdToEndpointMap
     <[sh_ident header := mkEndpoints from (ps_endpoint st)]> g)))).

(** The endpoints of a node, as [operator[]] gives them. *)
Definition endpoints_of (id : NodeId) g : LocalNodeEndpoints :=
  default (mkEndpoints default_endpoint default_endpoint) (localNodeIdToEndpointMap g !! id).

Definition bye_seen (id : NodeId) (message : list byte) (to : option NodeId) g : TunnelGateway :=
  upd_localNodeIdToEndpointMap (delete id)
  (upd_localMeasurementEndpointToNodeId
     (delete (createKeyFromEndpoint (measurementEndpoint (endpoints_of id g))))
  (upd_mLocalTracker (remove id)
  (upd_mLocalObserver (λ l, l ++ [PeerLeft id])
  (upd_mTunnel (λ l, l ++ [CallForward BYEBYE id message to]) g)))).

Lemma upd_endpoints_ext f h g :
  f (localNodeIdToEndpointMap g) = h (localNodeIdToEndpointMap g) →
  upd_localNodeIdToEndpointMap f g = upd_localNodeIdToEndpointMap h g.
Proof. unfold upd_localNodeIdToEndpointMap. by intros ->. Qed.

Lemma receiveByeBye_run id message to g :
  receiveByeBye id message to g = (Ret tt, bye_seen id message to g).
Proof.
  unfold receiveByeBye, forwardMessage, call_tunnel, observe_local, mbind, M_bind, modify, gets.
  set (g1 := upd_mLocalTracker _ _).
  set (ins := λ m : gmap NodeId LocalNodeEndpoints, match m !! id with Some _ => m | None => _ end).
  assert (ins (localNodeIdToEndpointMap g) !! id = Some (endpoints_of id g) ∧
          delete id (ins (localNodeIdToEndpointMap g)) = delete id (localNodeIdToEndpointMap g))
    as [Hins Hdel].
  { unfold ins, endpoints_of. destruct (localNodeIdToEndpointMap g !! id) eqn:He; [done|].
    by rewrite lookup_insert, decide_True, delete_insert_eq. }
  change (localNodeIdToEndpointMap (upd_localNodeIdToEndpointMap ins g1))
    with (ins (localNodeIdToEndpointMap g)). rewrite Hins.
  unfold bye_seen. fold g1. f_equal. set (h := delete (createKeyFromEndpoint _)).
  trans (upd_localNodeIdToEndpointMap (λ m, delete id (ins m))
           (upd_localMeasurementEndpointToNodeId h g1)); [done|].
  by apply upd_endpoints_ext.
Qed.

(** The outcome of a state message from the local network. *)
Definition state_handled (from : UdpEndpoint) (header : StateHeader) (message payload : list byte)
    (to : option NodeId) g : TunnelGateway :=
  if hasRemoteNodeSurrogate (sh_ident header) g then g
  else if decide (sh_messageType header = kAlive ∨ sh_messageType header = kResponse) then
    match fromPayload (sh_ident header) payload with
    | Ret st => peer_state_seen from header message st to g
    | _ => g
    end
  else if decide (sh_messageType header = kByeBye)
  then bye_seen (sh_ident header) message to g
  else g.

Lemma receivePeerState_run from header message payload to g :
  parseMessageHeader message = Ret (header, payload) →
  sh_messageType header = kAlive ∨ sh_messageType header = kResponse →
  receivePeerState from header message payload to g =
    (Ret tt, match fromPayload (sh_ident header) payload with
             | Ret st => peer_state_seen from header message st to g
             | _ => g
             end).
Proof.
  intros Hparse Hty. unfold receivePeerState, try_catch.
  unfold mbind at 1, M_bind at 1, lift at 1.
  destruct (fromPayload_outcome (sh_ident header) payload)
    as [(st & Hst & Hid)|(e & He & Hrt)]; [|by rewrite He, Hrt].
  rewrite Hst. pose proof (fromPayload_entry _ _ _ _ _ Hparse Hty Hst) as Hsize.
  unfold peer_state_seen, forwardMessage, call_tunnel, observe_local, strip_entry, lift,
    mbind, M_bind, modify, gets. rewrite decide_True by done. rewrite Hid. done.
Qed.

Lemma handle_state_message_run from header message payload to g :
  parseMessageHeader message = Ret (header, payload) →
  handle_state_message from header message payload to g =
    (Ret tt, state_handled from header message payload to g).
Proof.
  intros Hparse. unfold handle_state_message, state_handled, mbind, M_bind, gets.
  destruct (hasRemoteNodeSurrogate _ _); [done|].
  case_decide; [by apply receivePeerState_run|].
  case_decide; [apply receiveByeBye_run|done].
Qed.

(** A foreign IPv4 sender. *)
Definition foreign_subnet (from : UdpEndpoint) g : bool :=
  is_v4 (address from) && is_v4 (local_interface_address g) &&
  negb (is_subnet_of (make_network_v4 (address from) 32)
          (make_network_v4 (local_interface_address g) 24)).

(** The receive handler up to the renewal of the receive operation. *)
Definition message_handled (from : UdpEndpoint) (message : list byte) (to : option NodeId) g :
    TunnelGateway :=
  match parseMessageHeader message with
  | Ret (header, payload) =>
      if foreign_subnet from g then g else state_handled from header message payload to g
  | _ => g
  end.

Lemma receive_message_run from message to g :
  receive_message from message to g =
    (if is_running g then match to with Some n => receiveState n | None => receive end else skip)
      (message_handled from message to g).
Proof.
  unfold receive_message, message_handled, foreign_subnet.
  destruct (parseMessageHeader_total message) as (header & payload & Hparse).
  unfold lift. unfold mbind at 1, M_bind at 1. rewrite Hparse.
  unfold mbind at 1, M_bind at 1, gets at 1. unfold mbind at 1, M_bind at 1.
  assert (∀ g', is_running g' = is_running g →
    (running ← gets is_running;
     if running : bool then match to with Some n => receiveState n | None => receive end
     else skip) g' =
    (if is_running g then match to with Some n => receiveState n | None => receive end
     else skip) g') as Hend by (intros g' <-; done).
  assert (is_running (state_handled from header message payload to g) = is_running g) as Hrun.
  { unfold state_handled. by repeat case_match. }
  destruct (is_v4 (address from) && is_v4 (local_interface_address g)); cbn [andb negb];
    [destruct (is_subnet_of _ _)|]; cbn [negb];
    rewrite ?handle_state_message_run by done; by apply Hend.
Qed.

(** The node a measurement message is attributed to, and what a new ping adds. *)
Definition measurement_handled (from : UdpEndpoint) (header : MeasurementHeader)
    (message : list byte) (to : NodeId) g : TunnelGateway :=
  let key := createKeyFromEndpoint from in
  match localMeasurementEndpointToNodeId g !! key with
  | Some id =>
      upd_mTunnel (λ l, l ++ [CallForward
        (if decide (mh_messageType header = kPing) then MEASUREMENT_PING else MEASUREMENT_PONG)
        id message (Some to)]) g
  | None =>
      if decide (mh_messageType header = kPing) then
        let id := NodeId_random (randoms g) in
        upd_mTunnel (λ l, l ++ [CallForward MEASUREMENT_PING id message (Some to)])
        (upd_localNodeIdToEndpointMap <[id := mkEndpoints default_endpoint from]>
        (upd_localMeasurementEndpointToNodeId <[key := id]>
        (upd_randoms S g)))
      else g
  end.

Lemma handle_measurement_message_run from header message to g :
  handle_measurement_message from header message to g =
    (Ret tt, measurement_handled from header message to g).
Proof.
  unfold handle_measurement_message, measurement_handled. unfold mbind at 1, M_bind at 1, gets at 1.
  case_decide; by destruct (localMeasurementEndpointToNodeId g !! _).
Qed.
End receive_path.

(** ** The invariant *)

Section invariant.
Context {AS : Asio} {LK : Link}.
Implicit Types (g : TunnelGateway).

(** Every tracked node is known, and while the gateway runs every socket it
    owns is receiving. *)
Record gw_inv g : Prop := {
  inv_local_tracker : tracker_ok (mLocalTracker g);
  inv_remote_tracker : tracker_ok (mRemoteTracker g);
  inv_local_known d id : (d, id) ∈ mTimeouts (mLocalTracker g) →
    is_Some (localNodeIdToEndpointMap g !! id);
  inv_remote_known d id : (d, id) ∈ mTimeouts (mRemoteTracker g) →
    is_Some (mRemoteNodeIdToRemoteNodeSurrogate g !! id);
  inv_multicast : is_running g = true → multicast_receiving g = true;
  inv_state id s : mRemoteNodeIdToRemoteNodeSurrogate g !! id = Some s →
    is_running g = true → receiving_state s = true;
  inv_measurement id s : mRemoteNodeIdToRemoteNodeSurrogate g !! id = Some s →
    surrogate_running s = true ∧ receiving_measurement s = true;
  inv_surrogate id s : mRemoteNodeIdToRemoteMeasurementSurrogate g !! id = Some s →
    ms_running s = true ∧ ms_receiving s = true;
}.

(** The fields the invariant speaks about. *)
Lemma gw_inv_same g g' :
  mLocalTracker g' = mLocalTracker g → mRemoteTracker g' = mRemoteTracker g →
  (∀ id, is_Some (localNodeIdToEndpointMap g !! id) →
         is_Some (localNodeIdToEndpointMap g' !! id)) →
  mRemoteNodeIdToRemoteNodeSurrogate g' = mRemoteNodeIdToRemoteNodeSurrogate g →
  mRemoteNodeIdToRemoteMeasurementSurrogate g' = mRemoteNodeIdToRemoteMeasurementSurrogate g →
  multicast_receiving g' = multicast_receiving g → is_running g' = is_running g →
  gw_inv g → gw_inv g'.
Proof.
  intros H1 H2 H3 H4 H5 H6 H7 [I1 I2 I3 I4 I5 I6 I7 I8].
  split; rewrite ?H1, ?H2, ?H4, ?H5, ?H6, ?H7; try done. intros d id Hid. eauto.
Qed.

Lemma inv_upd_system f g : gw_inv g → gw_inv (upd_system f g).
Proof. by apply gw_inv_same. Qed.
Lemma inv_upd_clock f g : gw_inv g → gw_inv (upd_clock f g).
Proof. by apply gw_inv_same. Qed.
Lemma inv_upd_randoms f g : gw_inv g → gw_inv (upd_randoms f g).
Proof. by apply gw_inv_same. Qed.
Lemma inv_upd_mLocalObserver f g : gw_inv g → gw_inv (upd_mLocalObserver f g).
Proof. by apply gw_inv_same. Qed.
Lemma inv_upd_mRemoteObserver f g : gw_inv g → gw_inv (upd_mRemoteObserver f g).
Proof. by apply gw_inv_same. Qed.
Lemma inv_upd_mTunnel f g : gw_inv g → gw_inv (upd_mTunnel f g).
Proof. by apply gw_inv_same. Qed.
Lemma inv_upd_keys f g : gw_inv g → gw_inv (upd_localMeasurementEndpointToNodeId f g).
Proof. by apply gw_inv_same. Qed.

Lemma inv_insert_endpoints id e g :
  gw_inv g → gw_inv (upd_localNodeIdToEndpointMap <[id := e]> g).
Proof.
  apply gw_inv_same; try done. intros id' Hid. simpl. rewrite lookup_insert_is_Some'. by right.
Qed.

Lemma elem_updateTimeout id ttl now t d id' :
  (d, id') ∈ mTimeouts (updateTimeout id ttl now t) → id' = id ∨ (d, id') ∈ mTimeouts t.
Proof.
  rewrite updateTimeout_timeouts, elem_of_cons, elem_erase_node. simpl.
  intros [[= _ ->]|[? _]]; auto.
Qed.

Lemma inv_update_local id ttl now g :
  is_Some (localNodeIdToEndpointMap g !! id) → gw_inv g →
  gw_inv (upd_mLocalTracker (updateTimeout id ttl now) g).
Proof.
  intros Hid [I1 I2 I3 I4 I5 I6 I7 I8]. split; try done; simpl.
  - by apply updateTimeout_ok.
  - intros d id' [->|?]%elem_updateTimeout; eauto.
Qed.

Lemma inv_update_remote id ttl now g :
  is_Some (mRemoteNodeIdToRemoteNodeSurrogate g !! id) → gw_inv g →
  gw_inv (upd_mRemoteTracker (updateTimeout id ttl now) g).
Proof.
  intros Hid [I1 I2 I3 I4 I5 I6 I7 I8]. split; try done; simpl.
  - by apply updateTimeout_ok.
  - intros d id' [->|?]%elem_updateTimeout; eauto.
Qed.

Lemma inv_remove_remote id g : gw_inv g → gw_inv (upd_mRemoteTracker (remove id) g).
Proof.
  intros [I1 I2 I3 I4 I5 I6 I7 I8]. split; try done; simpl.
  - by apply remove_ok.
  - intros d id' [? _]%elem_erase_node. eauto.
Qed.

Lemma inv_forget_local id key g :
  gw_inv g → gw_inv (upd_localNodeIdToEndpointMap (delete id)
    (upd_localMeasurementEndpointToNodeId key (upd_mLocalTracker (remove id) g))).
Proof.
  intros [I1 I2 I3 I4 I5 I6 I7 I8]. split; try done; simpl.
  - by apply remove_ok.
  - intros d id' [? Hne]%elem_erase_node. simpl in Hne. rewrite lookup_delete_ne by done. eauto.
Qed.

(** Adding surrogates that listen. *)
Lemma inv_insert_surrogate id s1 s2 g :
  gw_inv g → gw_inv (upd_mRemoteNodeIdToRemoteNodeSurrogate
    <[id := mkNodeSurrogate s1 s2 true true true]> g).
Proof.
  intros [I1 I2 I3 I4 I5 I6 I7 I8]. split; try done; simpl.
  - intros d id' Hid. rewrite lookup_insert_is_Some'. right. eauto.
  - intros id' s [[_ <-]|[_ ?]]%lookup_insert_Some; [done|eauto].
  - intros id' s [[_ <-]|[_ ?]]%lookup_insert_Some; [done|eauto].
Qed.

Lemma inv_insert_measurement id s g :
  gw_inv g → gw_inv (upd_mRemoteNodeIdToRemoteMeasurementSurrogate
    <[id := mkMeasurementSurrogate s true true]> g).
Proof.
  intros [I1 I2 I3 I4 I5 I6 I7 I8]. split; try done; simpl.
  intros id' s' [[_ <-]|[_ ?]]%lookup_insert_Some; [done|eauto].
Qed.
End invariant.

#[export] Hint Resolve inv_upd_system inv_upd_clock inv_upd_randoms inv_upd_mLocalObserver
  inv_upd_mRemoteObserver inv_upd_mTunnel inv_upd_keys inv_insert_endpoints
  inv_insert_surrogate inv_insert_measurement inv_remove_remote inv_forget_local : ale.

(** ** The forwarding path *)

Section forward_path.
Context {AS : Asio} {LK : Link} {PL : ParseLaws}.
Implicit Types (g : TunnelGateway).

(** [n] calls of [openUnicastSocket] later. *)
Definition opened (n : nat) g : TunnelGateway :=
  upd_system (λ s, mkSystem (open_outcome s) (send_outcome s) (opens s + n) (sends s)) g.

Lemma openUnicastSocket_run g :
  openUnicastSocket g =
    (match open_outcome (system g) (opens (system g)) with
     | inl ep => Ret (mkSocket (opens (system g)) ep)
     | inr e => Throw e
     end, opened 1 g).
Proof.
  unfold openUnicastSocket, opened, mbind, M_bind, gets, modify, upd_system. cbn.
  rewrite Nat.add_1_r. by destruct (open_outcome _ _).
Qed.

Lemma opened_opened m n g : opened n (opened m g) = opened (m + n) g.
Proof. unfold opened, upd_system. cbn. by rewrite Nat.add_assoc. Qed.

Definition pick (b : bool) (s : RemoteNodeSurrogate) : Socket :=
  if b then measurementSocket s else stateSocket s.

Lemma getSocket_known id b s g :
  mRemoteNodeIdToRemoteNodeSurrogate g !! id = Some s →
  getSocketForRemoteNode id b g = (Ret (pick b s), g).
Proof.
  intros Hs. unfold getSocketForRemoteNode, hasRemoteNodeSurrogate, mbind, M_bind, gets.
  rewrite bool_decide_true by eauto. unfold skip, mret, M_ret. rewrite Hs. done.
Qed.

(** A new surrogate: two sockets, listening. *)
Definition new_surrogate (n : nat) (e1 e2 : UdpEndpoint) : RemoteNodeSurrogate :=
  mkNodeSurrogate (mkSocket n e1) (mkSocket (S n) e2) true true true.

Lemma on_node_surrogate_run id s f g :
  mRemoteNodeIdToRemoteNodeSurrogate g !! id = Some s →
  on_node_surrogate id f g =
    (Ret tt, upd_mRemoteNodeIdToRemoteNodeSurrogate <[id := f s]> g).
Proof.
  intros Hs. unfold on_node_surrogate, mbind, M_bind, gets, modify. rewrite Hs. f_equal.
  unfold upd_mRemoteNodeIdToRemoteNodeSurrogate. f_equal. apply map_eq. intros id'.
  destruct (decide (id' = id)) as [->|Hne].
  - by rewrite lookup_alter, lookup_insert, !decide_True, Hs.
  - by rewrite lookup_alter_ne, lookup_insert_ne by done.
Qed.

Lemma upd_surrogates_insert id s s' g :
  upd_mRemoteNodeIdToRemoteNodeSurrogate <[id := s']>
    (upd_mRemoteNodeIdToRemoteNodeSurrogate <[id := s]> g) =
  upd_mRemoteNodeIdToRemoteNodeSurrogate <[id := s']> g.
Proof.
  unfold upd_mRemoteNodeIdToRemoteNodeSurrogate. cbn. f_equal. apply insert_insert_eq.
Qed.

Lemma getSocket_new id b e1 e2 g :
  mRemoteNodeIdToRemoteNodeSurrogate g !! id = None →
  open_outcome (system g) (opens (system g)) = inl e1 →
  open_outcome (system g) (S (opens (system g))) = inl e2 →
  getSocketForRemoteNode id b g =
    (Ret (pick b (new_surrogate (opens (system g)) e1 e2)),
     upd_mRemoteNodeIdToRemoteNodeSurrogate
       <[id := new_surrogate (opens (system g)) e1 e2]> (opened 2 g)).
Proof.
  intros Hs H1 H2. unfold getSocketForRemoteNode, hasRemoteNodeSurrogate.
  unfold mbind at 1, M_bind at 1, gets at 1. rewrite bool_decide_false by (rewrite Hs; by intros []).
  unfold mbind at 1, M_bind at 1. unfold mbind at 1, M_bind at 1.
  rewrite openUnicastSocket_run, H1. unfold mbind at 1, M_bind at 1.
  rewrite openUnicastSocket_run. cbn [opened upd_system system open_outcome opens].
  rewrite Nat.add_1_r, H2. unfold mbind at 1, M_bind at 1, modify at 1.
  set (s0 := mkNodeSurrogate _ _ false false false).
  set (g1 := upd_mRemoteNodeIdToRemoteNodeSurrogate _ _).
  assert (mRemoteNodeIdToRemoteNodeSurrogate g1 !! id = Some s0) as Hg1
    by (unfold g1; simpl; by rewrite lookup_insert, decide_True).
  unfold mbind at 1, M_bind at 1. rewrite (on_node_surrogate_run _ _ _ _ Hg1).
  unfold mbind at 1, M_bind at 1.
  erewrite on_node_surrogate_run by (simpl; by rewrite lookup_insert, decide_True).
  erewrite on_node_surrogate_run by (simpl; by rewrite lookup_insert, decide_True).
  unfold g1. rewrite !upd_surrogates_insert, opened_opened.
  unfold mbind, M_bind, gets. simpl. rewrite lookup_insert, decide_True by done.
  done.
Qed.

Lemma getSocket_fails id b g e :
  mRemoteNodeIdToRemoteNodeSurrogate g !! id = None →
  open_outcome (system g) (opens (system g)) = inr e ∨
    (∃ e1, open_outcome (system g) (opens (system g)) = inl e1 ∧
           open_outcome (system g) (S (opens (system g))) = inr e) →
  ∃ n, getSocketForRemoteNode id b g = (Throw e, opened n g).
Proof.
  intros Hs H. unfold getSocketForRemoteNode, hasRemoteNodeSurrogate.
  unfold mbind at 1, M_bind at 1, gets at 1. rewrite bool_decide_false by (rewrite Hs; by intros []).
  unfold mbind at 1, M_bind at 1. unfold mbind at 1, M_bind at 1.
  rewrite openUnicastSocket_run. destruct H as [H1|(e1 & H1 & H2)]; rewrite H1; [by exists 1%nat|].
  unfold mbind at 1, M_bind at 1.
  rewrite openUnicastSocket_run. cbn [opened upd_system system open_outcome opens].
  rewrite Nat.add_1_r, H2. exists 2%nat. by rewrite opened_opened.
Qed.
End forward_path.

Section forward_safe.
Context {AS : Asio} {LK : Link} {PL : ParseLaws}.
Implicit Types (g : TunnelGateway).

Abbreviation kept := (λ (_ : cpp_exn) g, gw_inv g).

Lemma inv_opened n g : gw_inv g → gw_inv (opened n g).
Proof. apply inv_upd_system. Qed.

Lemma getSocket_wp id b g :
  gw_inv g →
  wp (getSocketForRemoteNode id b) g (λ s g', gw_inv g' ∧
    ∃ sur, mRemoteNodeIdToRemoteNodeSurrogate g' !! id = Some sur ∧ s = pick b sur) kept.
Proof.
  intros Hg. destruct (mRemoteNodeIdToRemoteNodeSurrogate g !! id) as [s|] eqn:Hs.
  { eapply wp_run; [by apply getSocket_known|]. eauto. }
  destruct (open_outcome (system g) (opens (system g))) as [e1|e] eqn:H1;
    [destruct (open_outcome (system g) (S (opens (system g)))) as [e2|e] eqn:H2|].
  - eapply wp_run; [by apply getSocket_new|]. simpl. split.
    + by apply inv_insert_surrogate, inv_opened.
    + eexists. by rewrite lookup_insert, decide_True.
  - destruct (getSocket_fails id b g e Hs) as [n Hn]; [eauto|].
    unfold wp. rewrite Hn. by apply inv_opened.
  - destruct (getSocket_fails id b g e Hs) as [n Hn]; [eauto|].
    unfold wp. rewrite Hn. by apply inv_opened.
Qed.

Lemma getSocketForRemoteMeasurement_wp id g :
  gw_inv g →
  wp (getSocketForRemoteMeasurement id) g (λ s g', gw_inv g') kept.
Proof.
  intros Hg. unfold getSocketForRemoteMeasurement. wp_steps.
  destruct (mRemoteNodeIdToRemoteMeasurementSurrogate g !! id) as [s|] eqn:Hs; [done|].
  wp_steps. unfold wp at 1. rewrite openUnicastSocket_run.
  destruct (open_outcome _ _); [|by apply inv_opened].
  wp_steps. by apply inv_insert_measurement, inv_opened.
Qed.

Context {AL : AsioLaws}.

Lemma lift_to_v6_wp a g (Q : Address → TunnelGateway → Prop) (E : cpp_exn → TunnelGateway → Prop) :
  Q a g → E BadCast g → wp (lift (to_v6 a)) g Q E.
Proof. intros HQ HE. unfold wp, lift. rewrite to_v6_outcome. by destruct (is_v4 a). Qed.

Lemma ipV6Endpoint_wp e g : gw_inv g → wp (ipV6Endpoint e) g (λ _ g', g' = g) kept.
Proof.
  intros Hg. unfold ipV6Endpoint. wp_steps. apply lift_to_v6_wp; [|done].
  wp_steps. by apply lift_to_v6_wp.
Qed.

Lemma getBroadcastEndpoint_wp g : gw_inv g → wp getBroadcastEndpoint g (λ _ g', g' = g) kept.
Proof.
  intros Hg. unfold getBroadcastEndpoint. wp_steps. case_match; [done|].
  wp_steps. by apply lift_to_v6_wp.
Qed.

Lemma local_endpoints_at_wp id g (Q : LocalNodeEndpoints → TunnelGateway → Prop) :
  gw_inv g → (∀ e, Q e g) → wp (local_endpoints_at id) g Q kept.
Proof. intros Hg HQ. unfold local_endpoints_at. wp_steps. case_match; [apply HQ|done]. Qed.

(** Afterwards the surrogate of the sender exists, except for a ping. *)
Definition sender_known (ty : TunnelMessageType) (id : NodeId) g : Prop :=
  ty ≠ MEASUREMENT_PING → is_Some (mRemoteNodeIdToRemoteNodeSurrogate g !! id).

Lemma resolveDestination_wp ty from to g :
  gw_inv g → (has_to_node ty = true → is_Some to) →
  wp (resolveDestination ty from to) g (λ r g', gw_inv g' ∧
    match r with None => True | Some _ => sender_known ty from g' end) kept.
Proof.
  intros Hg Hto. unfold resolveDestination.
  apply wp_bind.
  apply (wp_no_throw _ _ (λ b g', g' = g ∧ (to = None → has_to_node ty = false))).
  { case_decide as Hty; [|split; [done|]].
    - destruct to as [n|]; [|destruct Hty as [-> | ->]; by destruct Hto].
      unfold deref_node. by wp_steps.
    - intros ->. destruct (has_to_node ty); [by destruct Hto|done]. }
  intros unknown1 g' [-> Hnone]. wp_steps.
  destruct (unknown1 || _) eqn:Hunknown; [done|].
  apply orb_false_iff in Hunknown as [_ Hunknown].
  assert (ty ≠ BYEBYE → ty ≠ BROADCAST → is_Some to) as Hto'.
  { intros H1 H2. rewrite bool_decide_true in Hunknown by done. destruct to; [by eexists|done]. }
  wp_steps.
  set (Q := λ (r : option (Socket * UdpEndpoint)) g'', gw_inv g'' ∧
      match r with None => True | Some _ => sender_known ty from g'' end).
  set (fin := λ a : Socket * UdpEndpoint, let '(s, e) := a in
    endpoint ← (if is_v4 (address e) then mret e else ipV6Endpoint e); mret (Some (s, endpoint))).
  assert (Hend : ∀ a g', gw_inv g' → sender_known ty from g' → wp (fin a) g' Q kept).
  { intros [s e] g' Hg' Hk. apply wp_bind. destruct (is_v4 (address e)); [by split|].
    eapply wp_mono; [by apply ipV6Endpoint_wp|intros ? ? ->; wp_steps; by split|done]. }
  assert (Hsock : ∀ b e g', gw_inv g' →
    wp (s ← getSocketForRemoteNode from b; mret (s, e)) g' (λ a g'', wp (fin a) g'' Q kept) kept).
  { intros b e g' Hg'. apply wp_bind. eapply wp_mono; [by apply getSocket_wp| |done].
    intros s g'' (Hg'' & sur & Hsur & _). apply wp_ret, Hend; [done|]. intros _. by eexists. }
  assert (Hnode : ∀ b (f : LocalNodeEndpoints → UdpEndpoint), ty ≠ BYEBYE → ty ≠ BROADCAST →
    wp (n ← deref_node to; e ← local_endpoints_at n;
        s ← getSocketForRemoteNode from b; mret (s, f e)) g (λ a g'', wp (fin a) g'' Q kept) kept).
  { intros b f H1 H2. destruct (Hto' H1 H2) as [n ->]. unfold deref_node. do 2 wp_step. cbn beta.
    wp_step. apply local_endpoints_at_wp; [done|]. intros e. by apply Hsock. }
  destruct ty; try (by apply Hnode).
  - wp_steps. eapply wp_mono; [by apply getBroadcastEndpoint_wp| |done].
    intros e g' ->. by apply Hsock.
  - wp_steps. eapply wp_mono; [by apply getBroadcastEndpoint_wp| |done].
    intros e g' ->. by apply Hsock.
  - destruct Hto' as [n ->]; [done..|]. unfold deref_node. wp_steps.
    apply local_endpoints_at_wp; [done|]. intros e. wp_steps.
    eapply wp_mono; [by apply getSocketForRemoteMeasurement_wp| |done].
    intros s g1 Hg1. apply wp_ret, (Hend (s, measurementEndpoint e)); [done|by intros []].
Qed.

Lemma message_bytes_ok buf (n : nat) :
  (n ≤ length buf)%nat → message_bytes buf (Z.of_nat n) = Ret (take n buf).
Proof. intros Hn. unfold message_bytes. rewrite decide_True by lia. by rewrite Nat2Z.id. Qed.

Lemma observeRemotePeerState_wp from buf (n : nat) g :
  gw_inv g → is_Some (mRemoteNodeIdToRemoteNodeSurrogate g !! from) → (n ≤ length buf)%nat →
  wp (observeRemotePeerState from buf (Z.of_nat n)) g (λ _ g', gw_inv g') no_throw.
Proof.
  intros Hg Hk Hn. unfold observeRemotePeerState. wp_steps. rewrite message_bytes_ok by done.
  unfold lift at 1, wp at 1. wp_steps.
  destruct (parseMessageHeader_total (take n buf)) as (h & payload & Hp).
  unfold lift at 1, wp at 1. rewrite Hp. wp_steps.
  destruct (fromPayload_outcome from payload) as [(st & Hst & Hid)|(e & He & Hrt)].
  - unfold lift at 1, wp at 1. rewrite Hst. unfold observe_remote. wp_steps. rewrite Hid.
    by apply inv_update_remote; [|apply inv_upd_mRemoteObserver].
  - unfold lift at 1, wp at 1. rewrite He. by rewrite Hrt.
Qed.

Lemma wp_with_gateway {A} (m : M TunnelGateway A) (s : TunnelGateway * list byte)
    (Q : A → TunnelGateway * list byte → Prop) (E : cpp_exn → TunnelGateway * list byte → Prop) :
  wp m s.1 (λ a g, Q a (g, s.2)) (λ e g, E e (g, s.2)) →
  wp (zoom fst (λ g s, (g, s.2)) m) s Q E.
Proof. intros H. by apply wp_zoom. Qed.

(** The buffer keeps its size and its first [n] bytes. *)
Definition buffer_kept (n : nat) (buf : list byte) (s : TunnelGateway * list byte) : Prop :=
  gw_inv s.1 ∧ length s.2 = length buf ∧ take n s.2 = take n buf.

Lemma take_write_at n (buf buf' bs : list byte) :
  write_at buf n bs = Ret buf' → length buf' = length buf ∧ take n buf' = take n buf.
Proof.
  unfold write_at. case_decide as Hd; [|done]. intros [= <-]. split.
  - rewrite !length_app, length_take, length_drop. lia.
  - rewrite take_app_le by (rewrite length_take; lia). rewrite take_take. f_equal. lia.
Qed.

Lemma appendMeasurementEndpoint_wp from (n : nat) buf s :
  buffer_kept n buf s → length buf = kMaxMessageSize → (n ≤ length buf)%nat →
  wp (appendMeasurementEndpoint from (Z.of_nat n)) s
    (λ size s', buffer_kept n buf s' ∧ ∃ m : nat, size = Z.of_nat m ∧ (m ≤ length buf)%nat)
    (λ _ s', buffer_kept n buf s').
Proof.
  intros (Hg & Hl & Ht) Hbuf Hn. unfold appendMeasurementEndpoint. apply wp_bind, wp_with_gateway.
  eapply wp_mono; [by apply getSocket_wp| |by intros e g Hg'].
  intros sock g' (Hg' & _). pose proof (measurementPayload_size (sock_endpoint sock)) as Hsize.
  cbv beta zeta. case_decide as Hd.
  - wp_steps. rewrite Nat2Z.id. simpl. unfold lift. unfold wp at 1.
    destruct (write_at s.2 n _) as [buf'|e|u] eqn:Hw.
    + wp_steps. apply take_write_at in Hw as [Hl' Ht']. split; [split_and!; [done|simpl..]; congruence|].
      eexists (n + _)%nat. split; [by rewrite Nat2Z.inj_add|]. lia.
    + unfold write_at in Hw. by case_decide.
    + unfold write_at in Hw. case_decide; [done|]. lia.
  - wp_steps. split; [by split_and!|]. by exists n.
Qed.

Lemma sendUdpMessage_wp sock data to g :
  gw_inv g → wp (sendUdpMessage sock data to) g (λ _ g', gw_inv g') kept.
Proof.
  intros Hg. unfold sendUdpMessage, socket_send. wp_steps.
  destruct (send_outcome _ _); [|by apply wp_skip, inv_upd_system].
  unfold wp, throw. case_match; by apply inv_upd_system.
Qed.

Lemma forward_body_wp ty from (n : nat) to buf s :
  buffer_kept n buf s → length buf = kMaxMessageSize → (n ≤ length buf)%nat →
  (has_to_node ty = true → is_Some to) →
  wp (forward_body ty from (Z.of_nat n) to) s
    (λ _ s', buffer_kept n buf s') (λ _ s', buffer_kept n buf s').
Proof.
  intros (Hg & Hl & Ht) Hbuf Hn Hto. unfold forward_body. apply wp_bind, wp_with_gateway.
  eapply wp_mono; [by apply resolveDestination_wp| |by intros e g Hg'].
  intros [[sock ep]|] g (Hg' & Hk); [|by split_and!].
  wp_step. wp_step. wp_step. apply wp_with_gateway. simpl.
  apply (wp_no_throw _ _ (λ _ g', gw_inv g')).
  { case_decide as Ht1; [|case_decide].
    - apply observeRemotePeerState_wp; [done| |by rewrite Hl].
      apply Hk. by destruct Ht1 as [-> | ->].
    - unfold onRemotePeerLeft, observe_remote. wp_steps.
      by apply inv_remove_remote, inv_upd_mRemoteObserver.
    - done. }
  intros [] g1 Hg1. apply wp_bind.
  assert (buffer_kept n buf (g1, s.2)) as Hb by (by split_and!).
  eapply (wp_mono _ _ (λ size s', buffer_kept n buf s' ∧
    ∃ m : nat, size = Z.of_nat m ∧ (m ≤ length buf)%nat) _ (λ _ s', buffer_kept n buf s'));
    [|clear dependent g s|done].
  - case_decide; [by apply appendMeasurementEndpoint_wp|]. apply wp_ret. split; [done|]. by exists n.
  - intros size s ((Hg & Hl & Ht) & m & -> & Hm). wp_step. wp_step. wp_step.
    unfold lift. unfold wp at 1. rewrite message_bytes_ok by (by rewrite Hl).
    apply wp_with_gateway. eapply wp_mono; [by apply sendUdpMessage_wp|..]; intros ???; by split_and!.
Qed.

(** The interface the tunnels rely on. *)
Lemma forwardMessageLocally_wp ty from buf (n : nat) to g :
  gw_inv g → length buf = kMaxMessageSize → (n ≤ length buf)%nat →
  (has_to_node ty = true → is_Some to) →
  wp (forwardMessageLocally ty from buf (Z.of_nat n) to) g
    (λ buf' g', gw_inv g' ∧ length buf' = length buf ∧ take n buf' = take n buf) no_throw.
Proof.
  intros Hg Hbuf Hn Hto.
  assert (wp (try_catch (λ _, true) (forward_body ty from (Z.of_nat n) to) (λ _, skip)) (g, buf)
    (λ _ s', buffer_kept n buf s') no_throw) as Hwp.
  { apply wp_try_catch. eapply wp_mono; [by apply forward_body_wp|done|].
    intros e s' Hs'. by apply wp_skip. }
  unfold wp in *. unfold forwardMessageLocally.
  by destruct (try_catch _ _ _ (g, buf)) as [[[]|e|u] [g' buf']].
Qed.
End forward_safe.

(** ** The handlers of the sockets *)

Section handlers.
Context {AS : Asio} {LK : Link} {PL : ParseLaws}.
Implicit Types (g : TunnelGateway).

Lemma state_handled_frame from header message payload to f g :
  (∀ id, is_Some (f (mRemoteNodeIdToRemoteNodeSurrogate g) !! id) ↔
         is_Some (mRemoteNodeIdToRemoteNodeSurrogate g !! id)) →
  state_handled from header message payload to (upd_mRemoteNodeIdToRemoteNodeSurrogate f g) =
  upd_mRemoteNodeIdToRemoteNodeSurrogate f (state_handled from header message payload to g).
Proof.
  intros Hf. unfold state_handled, hasRemoteNodeSurrogate. simpl.
  rewrite (bool_decide_ext _ _ (Hf (sh_ident header))). by repeat case_match.
Qed.

Lemma message_handled_frame from message to f g :
  (∀ id, is_Some (f (mRemoteNodeIdToRemoteNodeSurrogate g) !! id) ↔
         is_Some (mRemoteNodeIdToRemoteNodeSurrogate g !! id)) →
  message_handled from message to (upd_mRemoteNodeIdToRemoteNodeSurrogate f g) =
  upd_mRemoteNodeIdToRemoteNodeSurrogate f (message_handled from message to g).
Proof.
  intros Hf. unfold message_handled, foreign_subnet. simpl.
  destruct (parseMessageHeader message) as [[header payload]|e|u]; [|done..].
  case_match; [done|]. by apply state_handled_frame.
Qed.

Lemma insert_same_dom (m : gmap NodeId RemoteNodeSurrogate) id s s' :
  m !! id = Some s → ∀ id', is_Some (<[id := s']> m !! id') ↔ is_Some (m !! id').
Proof.
  intros Hs id'. rewrite lookup_insert_is_Some'. split; [|by right].
  intros [<-|?]; [by eexists|done].
Qed.

Lemma message_handled_same from message to g :
  let g' := message_handled from message to g in
  is_running g' = is_running g ∧
  mRemoteNodeIdToRemoteNodeSurrogate g' = mRemoteNodeIdToRemoteNodeSurrogate g ∧
  mRemoteNodeIdToRemoteMeasurementSurrogate g' = mRemoteNodeIdToRemoteMeasurementSurrogate g ∧
  mRemoteTracker g' = mRemoteTracker g ∧ mRemoteObserver g' = mRemoteObserver g ∧
  multicast_receiving g' = multicast_receiving g ∧ system g' = system g ∧ clock g' = clock g.
Proof.
  simpl. unfold message_handled, state_handled.
  destruct (parseMessageHeader message) as [[header payload]|e|u]; [|by split_and!..].
  by repeat case_match; split_and!.
Qed.

Lemma state_handled_inv from header message payload to g :
  gw_inv g → gw_inv (state_handled from header message payload to g).
Proof.
  intros Hg. unfold state_handled. case_match; [done|]. case_decide; [|case_decide; [|done]].
  - case_match; [|done..]. unfold peer_state_seen. apply inv_upd_mTunnel, inv_update_local.
    + simpl. rewrite lookup_insert_is_Some'. by left.
    + eauto with ale.
  - unfold bye_seen. eauto with ale.
Qed.

Lemma message_handled_inv from message to g : gw_inv g → gw_inv (message_handled from message to g).
Proof.
  intros Hg. unfold message_handled.
  destruct (parseMessageHeader message) as [[header payload]|e|u]; [|done..].
  case_match; [done|]. by apply state_handled_inv.
Qed.

Lemma onMulticast_run from message g :
  onMulticast from message g =
    (Ret tt, upd_multicast_receiving (λ _, is_running g) (message_handled from message None g)).
Proof.
  unfold onMulticast. unfold mbind at 1, M_bind at 1, modify at 1.
  rewrite receive_message_run. simpl.
  assert (message_handled from message None (upd_multicast_receiving (λ _, false) g) =
    upd_multicast_receiving (λ _, false) (message_handled from message None g)) as ->.
  { unfold message_handled, foreign_subnet, state_handled, hasRemoteNodeSurrogate. simpl.
    destruct (parseMessageHeader message) as [[header payload]|e|u]; [|done..].
    destruct (_ && _ && _); [done|]. by repeat case_match. }
  unfold receive, modify, skip, mret, M_ret. by destruct (is_running g).
Qed.

Lemma onState_run id s from message g :
  mRemoteNodeIdToRemoteNodeSurrogate g !! id = Some s →
  onState id from message g =
    (Ret tt, upd_mRemoteNodeIdToRemoteNodeSurrogate <[id := set_receiving_state (is_running g) s]>
               (message_handled from message (Some id) g)).
Proof.
  intros Hs. unfold onState. unfold mbind at 1, M_bind at 1.
  rewrite (on_node_surrogate_run _ _ _ _ Hs), receive_message_run. simpl.
  rewrite message_handled_frame by by eapply insert_same_dom.
  destruct (is_running g); [|done]. unfold receiveState.
  erewrite on_node_surrogate_run by (simpl; by rewrite lookup_insert, decide_True).
  by rewrite upd_surrogates_insert.
Qed.

Lemma measurement_handled_frame from header message to f g :
  measurement_handled from header message to (upd_mRemoteNodeIdToRemoteNodeSurrogate f g) =
  upd_mRemoteNodeIdToRemoteNodeSurrogate f (measurement_handled from header message to g).
Proof. unfold measurement_handled. simpl. by repeat case_match. Qed.

Lemma measurement_handled_frame2 from header message to f g :
  measurement_handled from header message to (upd_mRemoteNodeIdToRemoteMeasurementSurrogate f g) =
  upd_mRemoteNodeIdToRemoteMeasurementSurrogate f (measurement_handled from header message to g).
Proof. unfold measurement_handled. simpl. by repeat case_match. Qed.

Lemma measurement_handled_inv from header message to g :
  gw_inv g → gw_inv (measurement_handled from header message to g).
Proof. intros Hg. unfold measurement_handled. repeat case_match; eauto with ale. Qed.

Lemma measurement_handled_same from header message to g :
  let g' := measurement_handled from header message to g in
  mRemoteNodeIdToRemoteNodeSurrogate g' = mRemoteNodeIdToRemoteNodeSurrogate g ∧
  mRemoteNodeIdToRemoteMeasurementSurrogate g' = mRemoteNodeIdToRemoteMeasurementSurrogate g ∧
  is_running g' = is_running g.
Proof. simpl. unfold measurement_handled. by repeat case_match. Qed.

Lemma onMeasurement_run id s from message header rest g :
  mRemoteNodeIdToRemoteNodeSurrogate g !! id = Some s → surrogate_running s = true →
  parseMeasurementHeader message = Ret (header, rest) →
  onMeasurement id from message g =
    (Ret tt, upd_mRemoteNodeIdToRemoteNodeSurrogate <[id := set_receiving_measurement true s]>
               (measurement_handled from header message id g)).
Proof.
  intros Hs Hrun Hh. unfold onMeasurement. unfold mbind at 1, M_bind at 1.
  rewrite (on_node_surrogate_run _ _ _ _ Hs). unfold mbind at 1, M_bind at 1, lift. rewrite Hh.
  unfold mbind at 1, M_bind at 1. rewrite handle_measurement_message_run, measurement_handled_frame.
  unfold mbind, M_bind, gets. simpl. rewrite lookup_insert, decide_True by done. simpl. rewrite Hrun.
  erewrite on_node_surrogate_run by (simpl; by rewrite lookup_insert, decide_True).
  by rewrite upd_surrogates_insert.
Qed.

Lemma upd_surrogates_alter f id s g :
  mRemoteNodeIdToRemoteNodeSurrogate g !! id = Some s →
  upd_mRemoteNodeIdToRemoteNodeSurrogate (alter f id) g =
  upd_mRemoteNodeIdToRemoteNodeSurrogate <[id := f s]> g.
Proof.
  intros Hs. unfold upd_mRemoteNodeIdToRemoteNodeSurrogate. f_equal.
  apply map_eq. intros id'. rewrite lookup_alter, lookup_insert. case_decide; [|done].
  simplify_eq. by rewrite Hs.
Qed.

Lemma upd_measurement_surrogates_ext f h g :
  f (mRemoteNodeIdToRemoteMeasurementSurrogate g) = h (mRemoteNodeIdToRemoteMeasurementSurrogate g) →
  upd_mRemoteNodeIdToRemoteMeasurementSurrogate f g = upd_mRemoteNodeIdToRemoteMeasurementSurrogate h g.
Proof. unfold upd_mRemoteNodeIdToRemoteMeasurementSurrogate. by intros ->. Qed.

Lemma onSurrogateMeasurement_run id s from message header rest g :
  mRemoteNodeIdToRemoteMeasurementSurrogate g !! id = Some s → ms_running s = true →
  parseMeasurementHeader message = Ret (header, rest) →
  onSurrogateMeasurement id from message g =
    (Ret tt, upd_mRemoteNodeIdToRemoteMeasurementSurrogate (alter (set_ms_receiving true) id)
               (measurement_handled from header message id g)).
Proof.
  intros Hs Hrun Hh. unfold onSurrogateMeasurement, on_measurement_surrogate.
  unfold mbind at 1, M_bind at 1, modify at 1. unfold mbind at 1, M_bind at 1, lift. rewrite Hh.
  unfold mbind at 1, M_bind at 1.
  rewrite handle_measurement_message_run, measurement_handled_frame2.
  destruct (measurement_handled_same from header message id g) as (_ & Hms & _).
  unfold mbind, M_bind, gets, modify. simpl. rewrite Hms, lookup_alter, decide_True, Hs by done.
  simpl. rewrite Hrun. f_equal.
  trans (upd_mRemoteNodeIdToRemoteMeasurementSurrogate
    (λ m, alter (set_ms_receiving true) id (alter (set_ms_receiving false) id m))
    (measurement_handled from header message id g)); [done|].
  apply upd_measurement_surrogates_ext. by rewrite alter_alter_eq.
Qed.
End handlers.

(** ** The timers *)

Section timers.
Context {AS : Asio} {LK : Link}.
Implicit Types (g : TunnelGateway).

Lemma pruned_not_expired now (t : PeerTracker) d id :
  sorted (mTimeouts t) → NoDup (mTimeouts t).*2 →
  (d, id) ∈ mTimeouts (pruned now t) → id ∉ expired_nodes now t.
Proof.
  intros Hs Hnd [Hin Hd]%elem_pruned; [|done]. intros (d' & Hin' & Hd')%elem_expired; [|done].
  rewrite <-deadlines_Some in Hin, Hin' by done. simplify_eq. lia.
Qed.

(** The tracker once its wait is over. *)
Definition waited (t : PeerTracker) : PeerTracker := mkTracker None (mTimeouts t).

(** The fields [onLocalTimer] and [onRemoteTimer] leave alone. *)
Definition same_sockets g g' : Prop :=
  mTunnel g' = mTunnel g ∧ system g' = system g ∧ clock g' = clock g ∧
  is_running g' = is_running g ∧ multicast_receiving g' = multicast_receiving g ∧
  randoms g' = randoms g ∧ local_interface_address g' = local_interface_address g.

(** The keys of the nodes [ids]: those of their measurement endpoints. *)
Definition key_of (ids : list NodeId) g (k : string) : Prop :=
  ∃ id e, id ∈ ids ∧ localNodeIdToEndpointMap g !! id = Some e ∧
    k = createKeyFromEndpoint (measurementEndpoint e).

Definition local_expired (ids : list NodeId) g g' : Prop :=
  mLocalObserver g' = mLocalObserver g ++ (PeerTimedOut <$> ids) ∧
  localNodeIdToEndpointMap g' = filter (λ kv, kv.1 ∉ ids) (localNodeIdToEndpointMap g) ∧
  (∀ k, key_of ids g k → localMeasurementEndpointToNodeId g' !! k = None) ∧
  (∀ k, ¬ key_of ids g k →
    localMeasurementEndpointToNodeId g' !! k = localMeasurementEndpointToNodeId g !! k) ∧
  mRemoteTracker g' = mRemoteTracker g ∧ mRemoteObserver g' = mRemoteObserver g ∧
  mRemoteNodeIdToRemoteNodeSurrogate g' = mRemoteNodeIdToRemoteNodeSurrogate g ∧
  mRemoteNodeIdToRemoteMeasurementSurrogate g' = mRemoteNodeIdToRemoteMeasurementSurrogate g ∧
  same_sockets g g'.

Lemma filter_not_in_snoc {V} (m : gmap NodeId V) (ids : list NodeId) id :
  delete id (filter (λ kv, kv.1 ∉ ids) m) = filter (λ kv, kv.1 ∉ ids ++ [id]) m.
Proof.
  apply map_eq. intros id'. apply option_eq. intros v.
  rewrite lookup_delete_Some, !map_lookup_filter_Some. simpl.
  rewrite elem_of_app, list_elem_of_singleton. naive_solver.
Qed.

Lemma filter_not_in_nil {V} (m : gmap NodeId V) : filter (λ kv, kv.1 ∉ @nil NodeId) m = m.
Proof. apply map_filter_id. intros i x _. apply not_elem_of_nil. Qed.

Lemma key_of_snoc ids id g k :
  key_of (ids ++ [id]) g k ↔ key_of ids g k ∨ key_of [id] g k.
Proof.
  unfold key_of. setoid_rewrite elem_of_app. setoid_rewrite list_elem_of_singleton. naive_solver.
Qed.

Lemma local_expired_step ids id g g' :
  local_expired ids g g' →
  wp (onLocalPeerTimedOut id) g' (λ _ g'', local_expired (ids ++ [id]) g g'' ∧
    mLocalTracker g'' = mLocalTracker g') no_throw.
Proof.
  intros (H1 & H2 & H3 & H4 & H5 & H6 & H7 & H8 & H9).
  unfold onLocalPeerTimedOut, observe_local. wp_steps. simpl. rewrite H2.
  destruct (filter _ (localNodeIdToEndpointMap g) !! id) as [e|] eqn:He.
  - wp_steps. split; [|done]. unfold local_expired. simpl.
    split_and!; try done.
    + by rewrite H1, <-app_assoc, fmap_app.
    + by rewrite H2, filter_not_in_snoc.
    + intros k Hk%key_of_snoc. rewrite lookup_delete. case_decide as Hke; [done|].
      destruct Hk as [Hk|(id' & e' & Hid & He' & Hk)]; [by apply H3|].
      apply list_elem_of_singleton in Hid. apply map_lookup_filter_Some in He as [He _].
      by simplify_eq.
    + intros k Hk. rewrite lookup_delete. case_decide as Hke.
      * destruct Hk. apply key_of_snoc. right. apply map_lookup_filter_Some in He as [He _].
        exists id, e. by rewrite list_elem_of_singleton.
      * apply H4. intros ?. apply Hk, key_of_snoc. by left.
  - wp_steps. split; [|done]. unfold local_expired. simpl.
    split_and!; try done.
    + by rewrite H1, <-app_assoc, fmap_app.
    + rewrite H2, <-filter_not_in_snoc. by rewrite delete_id.
    + intros k [Hk|(id' & e' & Hid & He' & Hk)]%key_of_snoc; [by apply H3|].
      apply list_elem_of_singleton in Hid as ->.
      apply map_lookup_filter_None in He as [He|He]; [congruence|].
      specialize (He e' He'). simpl in He. apply dec_stable in He.
      apply H3. by exists id, e'.
    + intros k Hk. apply H4. intros ?. apply Hk, key_of_snoc. by left.
Qed.

(** The local timer fires. *)
Lemma onLocalTimer_wp g :
  wp (onLocalTimer false) g (λ _ g',
    local_expired (expired_nodes (clock g) (mLocalTracker g)) g g' ∧
    mLocalTracker g' = pruned (clock g) (waited (mLocalTracker g))) no_throw.
Proof.
  unfold onLocalTimer, onPruneTimer. wp_steps. simpl.
  set (g0 := upd_mLocalTracker _ g). set (E := expired_nodes (clock g) (mLocalTracker g)).
  apply (wp_prune mLocalTracker upd_mLocalTracker _ _ _ (λ ids g', ∃ dn, dn ++ ids = E ∧
    local_expired dn g g' ∧ mLocalTracker g' = waited (mLocalTracker g))).
  - intros id ids g' (dn & HE & Hg' & Ht).
    eapply wp_mono; [by apply (local_expired_step dn id)| |done].
    intros [] g'' [Hg'' Ht']. exists (dn ++ [id]). rewrite <-app_assoc. split; [done|].
    split; [done|congruence].
  - exists []. split; [done|]. split; [|done]. unfold local_expired, same_sockets.
    split_and!; try done; [by rewrite fmap_nil, app_nil_r|by rewrite filter_not_in_nil|].
    by intros k (? & ? & ?%not_elem_of_nil & _).
  - intros g' (dn & HE & Hg' & Ht). rewrite app_nil_r in HE. subst dn. split; [done|].
    simpl. by rewrite Ht.
Qed.

Definition remote_expired (ids : list NodeId) g g' : Prop :=
  mRemoteObserver g' = mRemoteObserver g ++ (PeerTimedOut <$> ids) ∧
  mRemoteNodeIdToRemoteNodeSurrogate g' =
    filter (λ kv, kv.1 ∉ ids) (mRemoteNodeIdToRemoteNodeSurrogate g) ∧
  mRemoteNodeIdToRemoteMeasurementSurrogate g' =
    filter (λ kv, kv.1 ∉ ids) (mRemoteNodeIdToRemoteMeasurementSurrogate g) ∧
  mLocalTracker g' = mLocalTracker g ∧ mLocalObserver g' = mLocalObserver g ∧
  localNodeIdToEndpointMap g' = localNodeIdToEndpointMap g ∧
  localMeasurementEndpointToNodeId g' = localMeasurementEndpointToNodeId g ∧
  same_sockets g g'.

Lemma remote_expired_step ids id g g' :
  remote_expired ids g g' →
  wp (onRemotePeerTimedOut id) g' (λ _ g'', remote_expired (ids ++ [id]) g g'' ∧
    mRemoteTracker g'' = mRemoteTracker g') no_throw.
Proof.
  intros (H1 & H2 & H3 & H4 & H5 & H6 & H7 & H8).
  unfold onRemotePeerTimedOut, observe_remote. wp_steps. split; [|done].
  unfold remote_expired. simpl. split_and!; try done.
  - by rewrite H1, <-app_assoc, fmap_app.
  - by rewrite H2, filter_not_in_snoc.
  - by rewrite H3, filter_not_in_snoc.
Qed.

Lemma onRemoteTimer_wp g :
  wp (onRemoteTimer false) g (λ _ g',
    remote_expired (expired_nodes (clock g) (mRemoteTracker g)) g g' ∧
    mRemoteTracker g' = pruned (clock g) (waited (mRemoteTracker g))) no_throw.
Proof.
  unfold onRemoteTimer, onPruneTimer. wp_steps. simpl.
  set (g0 := upd_mRemoteTracker _ g). set (E := expired_nodes (clock g) (mRemoteTracker g)).
  apply (wp_prune mRemoteTracker upd_mRemoteTracker _ _ _ (λ ids g', ∃ dn, dn ++ ids = E ∧
    remote_expired dn g g' ∧ mRemoteTracker g' = waited (mRemoteTracker g))).
  - intros id ids g' (dn & HE & Hg' & Ht).
    eapply wp_mono; [by apply (remote_expired_step dn id)| |done].
    intros [] g'' [Hg'' Ht']. exists (dn ++ [id]). rewrite <-app_assoc. split; [done|].
    split; [done|congruence].
  - exists []. split; [done|]. split; [|done]. unfold remote_expired, same_sockets.
    split_and!; try done; [by rewrite fmap_nil, app_nil_r|by rewrite filter_not_in_nil..].
  - intros g' (dn & HE & Hg' & Ht). rewrite app_nil_r in HE. subst dn. split; [done|].
    simpl. by rewrite Ht.
Qed.

Lemma local_expired_inv g g' :
  gw_inv g → local_expired (expired_nodes (clock g) (mLocalTracker g)) g g' →
  mLocalTracker g' = pruned (clock g) (waited (mLocalTracker g)) → gw_inv g'.
Proof.
  intros [I1 I2 I3 I4 I5 I6 I7 I8]
    (H1 & H2 & H3 & H4 & H5 & H6 & H7 & H8 & (_ & _ & _ & Hrun & Hmc & _)) Ht.
  split; rewrite ?H5, ?H7, ?H8, ?Hrun, ?Hmc, ?Ht; try done; [by apply pruned_ok; apply I1|].
  intros d id Hin.
  pose proof (pruned_not_expired _ (waited (mLocalTracker g)) d id
    (tracker_sorted _ I1) (tracker_nodup _ I1) Hin) as Hne.
  apply elem_pruned in Hin as [Hin _]; [|apply I1].
  destruct (I3 d id Hin) as [e He]. rewrite H2. exists e. by apply map_lookup_filter_Some.
Qed.

Lemma remote_expired_inv g g' :
  gw_inv g → remote_expired (expired_nodes (clock g) (mRemoteTracker g)) g g' →
  mRemoteTracker g' = pruned (clock g) (waited (mRemoteTracker g)) → gw_inv g'.
Proof.
  intros [I1 I2 I3 I4 I5 I6 I7 I8]
    (H1 & H2 & H3 & H4 & H5 & H6 & H7 & (_ & _ & _ & Hrun & Hmc & _)) Ht.
  split; rewrite ?H2, ?H3, ?H4, ?H6, ?Hrun, ?Hmc, ?Ht; try done.
  - by apply pruned_ok; apply I2.
  - intros d id Hin.
    pose proof (pruned_not_expired _ (waited (mRemoteTracker g)) d id
      (tracker_sorted _ I2) (tracker_nodup _ I2) Hin) as Hne.
    apply elem_pruned in Hin as [Hin _]; [|apply I2].
    destruct (I4 d id Hin) as [s Hs]. exists s. by apply map_lookup_filter_Some.
  - intros id s [Hs _]%map_lookup_filter_Some. by apply (I6 id).
  - intros id s [Hs _]%map_lookup_filter_Some. by apply (I7 id).
  - intros id s [Hs _]%map_lookup_filter_Some. by apply (I8 id).
Qed.
End timers.
