(* ===== verification/TunnelGatewaySpec.v ===== *)
(** * What a gateway promises

    The theorems about [TunnelGateway.v]: safety and liveness over all
    reachable states, what each kind of message does in both directions, the
    round trip of a measurement, and what timeouts do. *)

From stdpp Require Import functions.
From S2P Require Import Prelude LinkLib Sample Tunnel PeerTracker TunnelGateway.

(** ** Exact runs of the forwarding path *)

Section runs.
Context {AS : Asio} {LK : Link} {PL : ParseLaws}.
Implicit Types (g : TunnelGateway) (s : RemoteNodeSurrogate).

(** A recorded send. *)
Definition sent (sock : Socket) (data : list byte) (to : UdpEndpoint) g : TunnelGateway :=
  upd_system (λ sy, mkSystem (open_outcome sy) (send_outcome sy) (opens sy)
    (sends sy ++ [(sock_id sock, data, to)])) g.

(** What the observer of remote peers and their tracker learn. *)
Definition remote_seen (from : NodeId) (message : list byte) g : TunnelGateway :=
  match parseMessageHeader message with
  | Ret (header, payload) =>
      match fromPayload from payload with
      | Ret st => upd_mRemoteTracker (updateTimeout from (sh_ttl header) (clock g))
                    (upd_mRemoteObserver (λ l, l ++ [SawPeer st]) g)
      | _ => g
      end
  | _ => g
  end.

Definition remote_effect (ty : TunnelMessageType) (from : NodeId) (message : list byte) g :
    TunnelGateway :=
  match ty with
  | BROADCAST | UNICAST => remote_seen from message g
  | BYEBYE => upd_mRemoteTracker (remove from) (upd_mRemoteObserver (λ l, l ++ [PeerLeft from]) g)
  | _ => g
  end.

(** The endpoint entry of a surrogate, and the message it sends. *)
Definition surrogate_entry s : list byte := measurementPayload (sock_endpoint (measurementSocket s)).
Definition surrogate_entry_size s : nat :=
  measurementPayloadSize (sock_endpoint (measurementSocket s)).

Definition local_data (ty : TunnelMessageType) s (message : list byte) : list byte :=
  if decide (ty = MEASUREMENT_PING ∨ ty = BYEBYE) then message
  else if decide (length message + surrogate_entry_size s < kMaxMessageSize)%nat
  then message ++ surrogate_entry s else message.

Lemma observeRemotePeerState_run from buf (n : nat) g :
  (n ≤ length buf)%nat →
  observeRemotePeerState from buf (Z.of_nat n) g = (Ret tt, remote_seen from (take n buf) g).
Proof.
  intros Hn. unfold observeRemotePeerState, try_catch, remote_seen, mbind, M_bind, lift.
  rewrite message_bytes_ok by done.
  destruct (parseMessageHeader_total (take n buf)) as (h & payload & ->).
  destruct (fromPayload_outcome from payload) as [(st & -> & Hid)|(e & -> & Hrt)].
  - unfold observe_remote, modify, gets. by rewrite Hid.
  - by rewrite Hrt.
Qed.

Lemma sendUdpMessage_run sock data to g :
  ∃ r, sendUdpMessage sock data to g = (r, sent sock data to g) ∧ ∀ u, r ≠ Undef u.
Proof.
  unfold sendUdpMessage, try_catch, socket_send, mbind, M_bind, gets, modify, sent.
  destruct (send_outcome (system g) _) as [e|]; [|by eexists].
  unfold throw. destruct (is_runtime_error e); by eexists.
Qed.

Lemma zoom_run {S T A} (get : S → T) (set : T → S → S) (m : M T A) (x : S) r t :
  m (get x) = (r, t) → zoom get set m x = (r, set t x).
Proof. unfold zoom. by intros ->. Qed.

Lemma remote_effect_run ty from buf (n : nat) g :
  (n ≤ length buf)%nat →
  (if decide (ty = BROADCAST ∨ ty = UNICAST) then observeRemotePeerState from buf (Z.of_nat n)
   else if decide (ty = BYEBYE) then onRemotePeerLeft from else skip) g =
  (Ret tt, remote_effect ty from (take n buf) g).
Proof.
  intros Hn. destruct ty; simpl; try done; by apply observeRemotePeerState_run.
Qed.

Lemma remote_effect_surrogates ty from message g :
  mRemoteNodeIdToRemoteNodeSurrogate (remote_effect ty from message g) =
  mRemoteNodeIdToRemoteNodeSurrogate g.
Proof. unfold remote_effect, remote_seen. by repeat case_match. Qed.

Lemma append_run from s (n : nat) g buf :
  mRemoteNodeIdToRemoteNodeSurrogate g !! from = Some s →
  length buf = kMaxMessageSize → (n ≤ length buf)%nat →
  ∃ buf' m, appendMeasurementEndpoint from (Z.of_nat n) (g, buf) = (Ret (Z.of_nat m), (g, buf')) ∧
    message_bytes buf' (Z.of_nat m) =
      Ret (if decide (length (take n buf) + surrogate_entry_size s < kMaxMessageSize)%nat
           then take n buf ++ surrogate_entry s else take n buf).
Proof.
  intros Hs Hbuf Hn. unfold appendMeasurementEndpoint. unfold mbind at 1, M_bind at 1.
  erewrite zoom_run by (by apply getSocket_known). cbn [pick].
  fold (surrogate_entry s) (surrogate_entry_size s). rewrite length_take_le by done.
  assert (length (surrogate_entry s) ≤ surrogate_entry_size s)%nat as Hsize
    by apply measurementPayload_size.
  destruct (decide (n + surrogate_entry_size s < kMaxMessageSize)%nat) as [Hd|Hd].
  - rewrite decide_True by lia. unfold mbind, M_bind, gets, lift, modify.
    rewrite Nat2Z.id. cbn [snd]. unfold write_at at 1. rewrite decide_True by lia.
    eexists _, (n + length (surrogate_entry s))%nat. split; [by rewrite Nat2Z.inj_add|].
    rewrite message_bytes_ok by (rewrite !length_app, length_take, length_drop; lia).
    rewrite app_assoc, take_app_le by (rewrite length_app, length_take; lia).
    f_equal. apply take_ge. rewrite length_app, length_take. lia.
  - rewrite decide_False by lia. exists buf, n. split; [done|]. by apply message_bytes_ok.
Qed.

(** A resolved message: one send, whatever its outcome. *)
Lemma forwardMessageLocally_run ty from s buf (n : nat) to g g1 sock ep :
  resolveDestination ty from to g = (Ret (Some (sock, ep)), g1) →
  (ty ≠ MEASUREMENT_PING → ty ≠ BYEBYE →
   mRemoteNodeIdToRemoteNodeSurrogate g1 !! from = Some s) →
  length buf = kMaxMessageSize → (n ≤ length buf)%nat →
  ∃ buf', forwardMessageLocally ty from buf (Z.of_nat n) to g =
    (Ret buf', sent sock (local_data ty s (take n buf)) ep (remote_effect ty from (take n buf) g1)).
Proof.
  intros Hres Hs Hbuf Hn.
  assert (∃ r buf', forward_body ty from (Z.of_nat n) to (g, buf) = (r, (sent sock
    (local_data ty s (take n buf)) ep (remote_effect ty from (take n buf) g1), buf')) ∧
    ∀ u, r ≠ Undef u) as (r & buf' & Hbody & Hr).
  { unfold forward_body. unfold mbind at 1, M_bind at 1. erewrite zoom_run by done.
    unfold mbind at 1, M_bind at 1, gets at 1. cbn [snd].
    unfold mbind at 1, M_bind at 1.
    erewrite zoom_run by (by apply remote_effect_run). cbn [fst snd].
    set (g2 := remote_effect ty from (take n buf) g1).
    unfold mbind at 1, M_bind at 1. unfold local_data.
    destruct (decide (ty ≠ MEASUREMENT_PING ∧ ty ≠ BYEBYE)) as [[H1 H2]|H].
    - rewrite (decide_False (P:=ty = MEASUREMENT_PING ∨ ty = BYEBYE)) by (by intros [|]).
      destruct (append_run from s n g2 buf) as (buf' & m & -> & Hm); [|done..|].
      { unfold g2. rewrite remote_effect_surrogates. by apply Hs. }
      unfold mbind, M_bind, gets, lift. cbn [snd]. rewrite Hm.
      set (data := if decide _ then _ else _).
      destruct (sendUdpMessage_run sock data ep g2) as (r & Hrun & Hr).
      erewrite zoom_run by done. eauto.
    - rewrite (decide_True (P:=ty = MEASUREMENT_PING ∨ ty = BYEBYE))
        by (destruct (decide (ty = MEASUREMENT_PING)), (decide (ty = BYEBYE)); tauto).
      unfold mret, M_ret, mbind, M_bind, gets, lift. cbn [snd]. rewrite message_bytes_ok by done.
      destruct (sendUdpMessage_run sock (take n buf) ep g2) as (r & Hrun & Hr).
      erewrite zoom_run by done. eauto. }
  exists buf'. unfold forwardMessageLocally, try_catch. rewrite Hbody.
  destruct r as [[]|e|u]; [done|done|by destruct (Hr u)].
Qed.
End runs.

(** ** Where a message goes *)

Section routing.
Context {AS : Asio} {LK : Link} {PL : ParseLaws} {AL : AsioLaws}.
Implicit Types (g : TunnelGateway) (s : RemoteNodeSurrogate).

(** The surrogate of a node: the one there is, or two sockets opened now. *)
Definition obtains (id : NodeId) s g g1 : Prop :=
  (mRemoteNodeIdToRemoteNodeSurrogate g !! id = Some s ∧ g1 = g) ∨
  (mRemoteNodeIdToRemoteNodeSurrogate g !! id = None ∧ ∃ e1 e2,
    open_outcome (system g) (opens (system g)) = inl e1 ∧
    open_outcome (system g) (S (opens (system g))) = inl e2 ∧
    s = new_surrogate (opens (system g)) e1 e2 ∧
    g1 = upd_mRemoteNodeIdToRemoteNodeSurrogate <[id := s]> (opened 2 g)).

Lemma obtains_run id s g g1 b :
  obtains id s g g1 → getSocketForRemoteNode id b g = (Ret (pick b s), g1).
Proof.
  intros [[Hs ->]|(Hs & e1 & e2 & H1 & H2 & -> & ->)]; [by apply getSocket_known|].
  by apply getSocket_new.
Qed.

Lemma obtains_surrogate id s g g1 :
  obtains id s g g1 → mRemoteNodeIdToRemoteNodeSurrogate g1 !! id = Some s.
Proof.
  intros [[Hs ->]|(Hs & e1 & e2 & H1 & H2 & -> & ->)]; [done|].
  simpl. by rewrite lookup_insert, decide_True.
Qed.

Lemma obtains_same id s g g1 :
  obtains id s g g1 →
  local_interface_address g1 = local_interface_address g ∧ sends (system g1) = sends (system g) ∧
  localNodeIdToEndpointMap g1 = localNodeIdToEndpointMap g ∧ mTunnel g1 = mTunnel g ∧
  clock g1 = clock g.
Proof. by intros [[_ ->]|(_ & e1 & e2 & _ & _ & -> & ->)]. Qed.

(** The measurement socket of a foreign measurement. *)
Definition obtains_measurement (id : NodeId) (sock : Socket) g g1 : Prop :=
  (∃ ms, mRemoteNodeIdToRemoteMeasurementSurrogate g !! id = Some ms ∧ sock = ms_socket ms ∧
     g1 = g) ∨
  (mRemoteNodeIdToRemoteMeasurementSurrogate g !! id = None ∧ ∃ e,
    open_outcome (system g) (opens (system g)) = inl e ∧ sock = mkSocket (opens (system g)) e ∧
    g1 = upd_mRemoteNodeIdToRemoteMeasurementSurrogate
           <[id := mkMeasurementSurrogate sock true true]> (opened 1 g)).

Lemma obtains_measurement_run id sock g g1 :
  obtains_measurement id sock g g1 → getSocketForRemoteMeasurement id g = (Ret sock, g1).
Proof.
  unfold getSocketForRemoteMeasurement, mbind, M_bind, gets.
  intros [(ms & Hs & -> & ->)|(Hs & e & He & -> & ->)]; rewrite Hs; [done|].
  by rewrite openUnicastSocket_run, He.
Qed.

Lemma obtains_measurement_same id sock g g1 :
  obtains_measurement id sock g g1 →
  local_interface_address g1 = local_interface_address g ∧ sends (system g1) = sends (system g).
Proof. by intros [(ms & _ & _ & ->)|(_ & e & _ & _ & ->)]. Qed.

(** An endpoint the interface can reach, and the form it is used in: on an IPv6
    interface the scope of the interface is put in. *)
Definition same_family g (to : UdpEndpoint) : Prop :=
  is_v4 (address to) = true ∨ is_v4 (local_interface_address g) = false.
Definition scoped g (to : UdpEndpoint) : UdpEndpoint :=
  if is_v4 (address to) then to
  else make_endpoint (with_scope_id (scope_id (local_interface_address g)) (address to)) (port to).
Definition broadcast_endpoint g : UdpEndpoint :=
  if is_v4 (local_interface_address g) then multicastEndpointV4
  else multicastEndpointV6 (scope_id (local_interface_address g)).

Lemma scoped_run g (to : UdpEndpoint) :
  same_family g to →
  (if is_v4 (address to) then mret to else ipV6Endpoint to) g = (Ret (scoped g to), g).
Proof.
  intros Hf. unfold scoped. destruct (is_v4 (address to)) eqn:Hv; [done|].
  destruct Hf as [Hf|Hf]; [congruence|].
  unfold ipV6Endpoint, mbind, M_bind, gets, lift. by rewrite !to_v6_outcome, Hv, Hf.
Qed.

Lemma getBroadcastEndpoint_run g : getBroadcastEndpoint g = (Ret (broadcast_endpoint g), g).
Proof.
  unfold getBroadcastEndpoint, broadcast_endpoint, mbind, M_bind, gets, lift.
  destruct (is_v4 (local_interface_address g)) eqn:Hv; [done|]. by rewrite to_v6_outcome, Hv.
Qed.

Lemma broadcast_same_family g : same_family g (broadcast_endpoint g).
Proof.
  unfold same_family, broadcast_endpoint. destruct (is_v4 (local_interface_address g)); [|by right].
  left. apply multicastEndpointV4_is_v4.
Qed.

Lemma scoped_same g g1 to :
  local_interface_address g1 = local_interface_address g → scoped g1 to = scoped g to.
Proof. unfold scoped. by intros ->. Qed.

Lemma hasLocalNode_true g n e :
  localNodeIdToEndpointMap g !! n = Some e → hasLocalNode n g = true.
Proof. intros Hn. unfold hasLocalNode. apply bool_decide_true. by eexists. Qed.

Lemma resolve_broadcast ty from to s g g1 :
  ty = BROADCAST ∨ ty = BYEBYE → obtains from s g g1 →
  resolveDestination ty from to g =
    (Ret (Some (stateSocket s, scoped g (broadcast_endpoint g))), g1).
Proof.
  intros Hty Hob. pose proof (obtains_same _ _ _ _ Hob) as (Hl & _).
  assert (same_family g1 (broadcast_endpoint g)) as Hf.
  { pose proof (broadcast_same_family g). unfold same_family in *. by rewrite Hl. }
  pose proof (scoped_run g1 _ Hf) as Hend. rewrite (scoped_same g g1) in Hend by done.
  destruct Hty as [-> | ->]; unfold resolveDestination, mbind, M_bind, gets; simpl;
    rewrite getBroadcastEndpoint_run, (obtains_run _ _ _ _ false Hob); simpl;
    unfold mret, M_ret in *; by rewrite Hend.
Qed.

Lemma resolve_unicast from n e s g g1 :
  localNodeIdToEndpointMap g !! n = Some e → same_family g (stateEndpoint e) →
  obtains from s g g1 →
  resolveDestination UNICAST from (Some n) g =
    (Ret (Some (stateSocket s, scoped g (stateEndpoint e))), g1).
Proof.
  intros He Hf Hob. pose proof (obtains_same _ _ _ _ Hob) as (Hl & _).
  assert (same_family g1 (stateEndpoint e)) as Hf' by (unfold same_family in *; by rewrite Hl).
  pose proof (scoped_run g1 _ Hf') as Hend. rewrite (scoped_same g g1) in Hend by done.
  unfold resolveDestination, local_endpoints_at, mbind, M_bind, gets; simpl.
  rewrite (hasLocalNode_true g n e He). simpl. rewrite He. simpl.
  rewrite (obtains_run _ _ _ _ false Hob). simpl. unfold mret, M_ret in *. by rewrite Hend.
Qed.

Lemma resolve_pong from n e s g g1 :
  localNodeIdToEndpointMap g !! n = Some e → same_family g (measurementEndpoint e) →
  obtains from s g g1 →
  resolveDestination MEASUREMENT_PONG from (Some n) g =
    (Ret (Some (measurementSocket s, scoped g (measurementEndpoint e))), g1).
Proof.
  intros He Hf Hob. pose proof (obtains_same _ _ _ _ Hob) as (Hl & _).
  assert (same_family g1 (measurementEndpoint e)) as Hf' by (unfold same_family in *; by rewrite Hl).
  pose proof (scoped_run g1 _ Hf') as Hend. rewrite (scoped_same g g1) in Hend by done.
  unfold resolveDestination, local_endpoints_at, mbind, M_bind, gets; simpl.
  rewrite (hasLocalNode_true g n e He). simpl. rewrite He. simpl.
  rewrite (obtains_run _ _ _ _ true Hob). simpl. unfold mret, M_ret in *. by rewrite Hend.
Qed.

Lemma resolve_ping from n e sock g g1 :
  localNodeIdToEndpointMap g !! n = Some e → same_family g (measurementEndpoint e) →
  obtains_measurement from sock g g1 →
  resolveDestination MEASUREMENT_PING from (Some n) g =
    (Ret (Some (sock, scoped g (measurementEndpoint e))), g1).
Proof.
  intros He Hf Hob. pose proof (obtains_measurement_same _ _ _ _ Hob) as (Hl & _).
  assert (same_family g1 (measurementEndpoint e)) as Hf' by (unfold same_family in *; by rewrite Hl).
  pose proof (scoped_run g1 _ Hf') as Hend. rewrite (scoped_same g g1) in Hend by done.
  unfold resolveDestination, local_endpoints_at, mbind, M_bind, gets; simpl.
  rewrite (hasLocalNode_true g n e He). simpl. rewrite He. simpl.
  rewrite (obtains_measurement_run _ _ _ _ Hob). simpl. unfold mret, M_ret in *. by rewrite Hend.
Qed.

(** A message to a node that is not local is left to another gateway. *)
Lemma resolve_unknown ty from n g :
  ty ≠ BYEBYE → ty ≠ BROADCAST → localNodeIdToEndpointMap g !! n = None →
  resolveDestination ty from (Some n) g = (Ret None, g).
Proof.
  intros H1 H2 Hn.
  assert (bool_decide (is_Some (localNodeIdToEndpointMap g !! n)) = false) as Hh
    by (apply bool_decide_false; rewrite Hn; by intros []).
  unfold resolveDestination, hasLocalNode, mbind, M_bind, gets, deref_node, mret, M_ret.
  destruct (decide (ty = UNICAST ∨ ty = MEASUREMENT_PING)); simpl; rewrite Hh; simpl;
    [done|]. by rewrite bool_decide_true.
Qed.
End routing.

(** ** The transition system *)

Section events.
Context {AS : Asio} {LK : Link}.

(** What happens to a gateway: its sockets receive, its timers expire ([e] is
    set when the wait was cancelled), the tunnel delivers a message, time passes,
    it is started and stopped. *)
Inductive GatewayEvent :=
  | GMulticast (from : UdpEndpoint) (message : list byte)
  | GState (id : NodeId) (from : UdpEndpoint) (message : list byte)
  | GMeasurement (id : NodeId) (from : UdpEndpoint) (message : list byte)
  | GSurrogateMeasurement (id : NodeId) (from : UdpEndpoint) (message : list byte)
  | GLocalTimer (e : bool)
  | GRemoteTimer (e : bool)
  | GDeliver (ty : TunnelMessageType) (from : NodeId) (buf : list byte) (size : nat)
      (to : option NodeId)
  | GTick (now : Z)
  | GListen
  | GStop.

Definition handle (e : GatewayEvent) : M TunnelGateway unit :=
  match e with
  | GMulticast from message => onMulticast from message
  | GState id from message => onState id from message
  | GMeasurement id from message => onMeasurement id from message
  | GSurrogateMeasurement id from message => onSurrogateMeasurement id from message
  | GLocalTimer e => onLocalTimer e
  | GRemoteTimer e => onRemoteTimer e
  | GDeliver ty from buf size to => forwardMessageLocally ty from buf (Z.of_nat size) to;; skip
  | GTick now => modify (upd_clock (λ _, now))
  | GListen => listen
  | GStop => stop_listening
  end.

(** A socket's handler runs when the socket is receiving, a timer's when it was
    armed; the tunnel delivers full buffers and names a target when the type
    needs one; the factory starts a gateway before it has surrogates. *)
Definition can_happen (e : GatewayEvent) (g : TunnelGateway) : Prop :=
  match e with
  | GMulticast _ _ => multicast_receiving g = true
  | GState id _ _ => ∃ s, mRemoteNodeIdToRemoteNodeSurrogate g !! id = Some s ∧
      receiving_state s = true
  | GMeasurement id _ _ => ∃ s, mRemoteNodeIdToRemoteNodeSurrogate g !! id = Some s ∧
      receiving_measurement s = true
  | GSurrogateMeasurement id _ _ => ∃ s,
      mRemoteNodeIdToRemoteMeasurementSurrogate g !! id = Some s ∧ ms_receiving s = true
  | GLocalTimer e => e = true ∨ is_Some (mTimer (mLocalTracker g))
  | GRemoteTimer e => e = true ∨ is_Some (mTimer (mRemoteTracker g))
  | GDeliver ty _ buf size to => length buf = kMaxMessageSize ∧ (size ≤ length buf)%nat ∧
      (has_to_node ty = true → is_Some to)
  | GListen => mRemoteNodeIdToRemoteNodeSurrogate g = ∅
  | GTick _ | GStop => True
  end.

Inductive reachable : TunnelGateway → Prop :=
  | reachable_new sys now addr : reachable (new_TunnelGateway sys now addr)
  | reachable_step g e g' :
      reachable g → can_happen e g → handle e g = (Ret tt, g') → reachable g'.
End events.

Section safety.
Context {AS : Asio} {LK : Link} {PL : ParseLaws} {AL : AsioLaws}.
Implicit Types (g : TunnelGateway).

Lemma new_TunnelGateway_inv sys now addr : gw_inv (new_TunnelGateway sys now addr).
Proof.
  split; simpl; try done.
  - split; [constructor|constructor|done].
  - split; [constructor|constructor|done].
  - by intros ? ? ?%not_elem_of_nil.
  - by intros ? ? ?%not_elem_of_nil.
Qed.

Lemma inv_replace_surrogate id s g :
  is_Some (mRemoteNodeIdToRemoteNodeSurrogate g !! id) →
  (is_running g = true → receiving_state s = true) →
  surrogate_running s = true → receiving_measurement s = true →
  gw_inv g → gw_inv (upd_mRemoteNodeIdToRemoteNodeSurrogate <[id := s]> g).
Proof.
  intros Hid H1 H2 H3 [I1 I2 I3 I4 I5 I6 I7 I8]. split; try done; simpl.
  - intros d id' Hin. rewrite lookup_insert_is_Some'. right. eauto.
  - intros id' s' [[_ <-]|[_ ?]]%lookup_insert_Some; [done|eauto].
  - intros id' s' [[_ <-]|[_ ?]]%lookup_insert_Some; [done|eauto].
Qed.

Lemma stop_listening_inv g : gw_inv g → wp stop_listening g (λ _ g', gw_inv g') no_throw.
Proof.
  intros Hg. unfold stop_listening. wp_steps. split; simpl; try done; try apply clear_ok.
  - by intros ? ? ?%not_elem_of_nil.
  - by intros ? ? ?%not_elem_of_nil.
Qed.

Lemma listen_inv g :
  gw_inv g → mRemoteNodeIdToRemoteNodeSurrogate g = ∅ →
  wp listen g (λ _ g', gw_inv g') no_throw.
Proof.
  intros [I1 I2 I3 I4 I5 I6 I7 I8] Hr. unfold listen, call_tunnel, receive. wp_steps.
  split; simpl; try done. intros id s Hs _. by rewrite Hr, lookup_empty in Hs.
Qed.

Lemma inv_multicast_upd g :
  gw_inv g → gw_inv (upd_multicast_receiving (λ _, is_running g) g).
Proof. intros [I1 I2 I3 I4 I5 I6 I7 I8]. by split. Qed.

Lemma inv_receiving_measurement id g :
  gw_inv g → gw_inv (upd_mRemoteNodeIdToRemoteMeasurementSurrogate
    (alter (set_ms_receiving true) id) g).
Proof.
  intros [I1 I2 I3 I4 I5 I6 I7 I8]. split; try done; simpl.
  intros id' s Hs. rewrite lookup_alter_Some in Hs.
  destruct Hs as [(<- & s0 & Hs0 & ->)|[_ Hs]]; [|by eapply I8].
  destruct (I8 _ _ Hs0). done.
Qed.

Lemma handle_inv e g : gw_inv g → can_happen e g → wp (handle e) g (λ _ g', gw_inv g') no_throw.
Proof.
  intros Hg Hok. destruct e as [from msg|id from msg|id from msg|id from msg|e|e|ty from buf size to|now| |];
    cbn [handle can_happen] in *.
  - eapply wp_run; [apply onMulticast_run|].
    destruct (message_handled_same from msg None g) as (Hr & _). rewrite <-Hr.
    by apply inv_multicast_upd, message_handled_inv.
  - destruct Hok as (s & Hs & _). eapply wp_run; [by apply onState_run|].
    destruct (message_handled_same from msg (Some id) g) as (Hr & Hsur & _).
    destruct (inv_measurement _ Hg id s Hs). apply inv_replace_surrogate; try done.
    + rewrite Hsur. by eexists.
    + by rewrite Hr.
    + by apply message_handled_inv.
  - destruct Hok as (s & Hs & _). destruct (inv_measurement _ Hg id s Hs) as [Hrun Hrec].
    destruct (parseMeasurementHeader_total msg) as (h & rest & Hh).
    eapply wp_run; [by eapply onMeasurement_run|].
    destruct (measurement_handled_same from h msg id g) as (Hsur & _ & Hr).
    apply inv_replace_surrogate; try done.
    + rewrite Hsur. by eexists.
    + rewrite Hr. simpl. by eapply inv_state.
    + by apply measurement_handled_inv.
  - destruct Hok as (s & Hs & _). destruct (inv_surrogate _ Hg id s Hs) as [Hrun Hrec].
    destruct (parseMeasurementHeader_total msg) as (h & rest & Hh).
    eapply wp_run; [by eapply onSurrogateMeasurement_run|].
    by apply inv_receiving_measurement, measurement_handled_inv.
  - destruct e; [by unfold onLocalTimer, onPruneTimer; wp_steps|].
    eapply wp_mono; [apply onLocalTimer_wp| |done]. intros [] g' [H1 H2].
    by eapply local_expired_inv.
  - destruct e; [by unfold onRemoteTimer, onPruneTimer; wp_steps|].
    eapply wp_mono; [apply onRemoteTimer_wp| |done]. intros [] g' [H1 H2].
    by eapply remote_expired_inv.
  - destruct Hok as (H1 & H2 & H3). apply wp_bind.
    eapply wp_mono; [by apply forwardMessageLocally_wp| |done]. intros buf' g' (Hg' & _). done.
  - by apply inv_upd_clock.
  - by apply listen_inv.
  - by apply stop_listening_inv.
Qed.

Lemma gateway_reachable_inv g : reachable g → gw_inv g.
Proof.
  induction 1 as [|g e g' _ IH Hok Hr]; [apply new_TunnelGateway_inv|].
  pose proof (handle_inv e g IH Hok) as Hwp. unfold wp in Hwp. by rewrite Hr in Hwp.
Qed.
End safety.

(** ** Gateways as the tunnels see them *)

Section world.
Context {AS : Asio} {LK : Link} {PL : ParseLaws} {AL : AsioLaws}.

(** The gateways of a site, by their identity. *)
Abbreviation Gateways := (nat → TunnelGateway).

#[export] Instance gateway_ops : GatewayOps (nat → TunnelGateway) := {|
  Tunnel.forwardMessageLocally i ty from buf size to :=
    zoom (λ w : Gateways, w i) (λ g w, <[i := g]> w) (forwardMessageLocally ty from buf size to);
  gateway_stop_listening i := zoom (λ w : Gateways, w i) (λ g w, <[i := g]> w) stop_listening;
|}.

Definition all_ok (w : Gateways) : Prop := ∀ i, gw_inv (w i).

Lemma all_ok_insert i g (w : Gateways) : gw_inv g → all_ok w → all_ok (<[i := g]> w).
Proof.
  intros Hg Hw j. destruct (decide (j = i)) as [->|Hne].
  - by rewrite fn_lookup_insert.
  - by rewrite fn_lookup_insert_ne.
Qed.

#[export] Instance gateway_laws : GatewayLaws Gateways all_ok.
Proof.
  split.
  - intros i ty from buf n to w Hw Hbuf Hn Hto. cbn. apply wp_zoom.
    eapply wp_mono; [by apply forwardMessageLocally_wp| |done].
    intros buf' g' (Hg' & Hl & Ht). split; [by apply all_ok_insert|done].
  - intros i w Hw. cbn. apply wp_zoom.
    eapply wp_mono; [by apply stop_listening_inv| |done].
    intros [] g' Hg'. by apply all_ok_insert.
Qed.
End world.

(** ** Theorems *)

Section theorems.
Context {AS : Asio} {LK : Link} {PL : ParseLaws} {AL : AsioLaws}.
Implicit Types (g : TunnelGateway) (s : RemoteNodeSurrogate).

(** A discovery message and the node it was addressed to: nobody on the multicast
    socket, the node of the surrogate on a state socket. *)
Definition arrives (e : GatewayEvent) (from : UdpEndpoint) (message : list byte)
    (to : option NodeId) : Prop :=
  (e = GMulticast from message ∧ to = None) ∨ (∃ id, e = GState id from message ∧ to = Some id).

(** Everything but the receive operations. *)
Definition same_but_receiving g g' : Prop :=
  system g' = system g ∧ mTunnel g' = mTunnel g ∧
  mLocalObserver g' = mLocalObserver g ∧ mRemoteObserver g' = mRemoteObserver g ∧
  mLocalTracker g' = mLocalTracker g ∧ mRemoteTracker g' = mRemoteTracker g ∧
  localNodeIdToEndpointMap g' = localNodeIdToEndpointMap g ∧
  localMeasurementEndpointToNodeId g' = localMeasurementEndpointToNodeId g.

Lemma arrives_run e from message to g :
  arrives e from message to → can_happen e g →
  ∃ g', handle e g = (Ret tt, g') ∧
    same_but_receiving (message_handled from message to g) g'.
Proof.
  intros [[-> ->]|(id & -> & ->)]; simpl.
  - intros _. eexists. split; [apply onMulticast_run|]. by split_and!.
  - intros (s & Hs & _). eexists. split; [by apply onState_run|]. by split_and!.
Qed.

(** C16: from every reachable state, whatever the sockets, the timers, the tunnel
    and the system do, the gateway's handlers return: no exception escapes and no
    behaviour is undefined.  In every reachable state each tracked node has its
    endpoints or its surrogate, and while the gateway runs its
    multicast socket and both sockets of every surrogate are receiving; the socket
    of a node that was only seen to ping is receiving all the time. *)
Theorem gateway_safe g e :
  reachable g → can_happen e g →
  ∃ g', handle e g = (Ret tt, g') ∧ reachable g' ∧
    (∀ id, is_Some (deadlines (mLocalTracker g') !! id) →
       is_Some (localNodeIdToEndpointMap g' !! id)) ∧
    (∀ id, is_Some (deadlines (mRemoteTracker g') !! id) →
       is_Some (mRemoteNodeIdToRemoteNodeSurrogate g' !! id)) ∧
    (is_running g' = true → multicast_receiving g' = true ∧
       ∀ id s, mRemoteNodeIdToRemoteNodeSurrogate g' !! id = Some s →
         receiving_state s = true ∧ receiving_measurement s = true) ∧
    (∀ id (s : RemoteMeasurementSurrogate),
       mRemoteNodeIdToRemoteMeasurementSurrogate g' !! id = Some s → ms_receiving s = true).
Proof.
  intros Hg Hok.
  destruct (returns_run _ _ _ (handle_inv e g (gateway_reachable_inv g Hg) Hok)) as ([] & g' & Hr & Hi).
  exists g'. split; [done|]. split; [by eapply reachable_step|].
  destruct Hi as [I1 I2 I3 I4 I5 I6 I7 I8]. split_and!.
  - intros id [d Hd]. rewrite deadlines_Some in Hd by apply (tracker_nodup _ I1). eauto.
  - intros id [d Hd]. rewrite deadlines_Some in Hd by apply (tracker_nodup _ I2). eauto.
  - intros Hrun. split; [by apply I5|]. intros id s Hs. split; [by eapply I6|by eapply I7].
  - intros id s Hs. by apply (I8 id s).
Qed.

(** C17: a peer state from a local node is passed to the tunnel without its
    measurement endpoint, as a broadcast when it came by multicast and addressed
    to the remote node when it came to that node's surrogate.  The node's two
    endpoints are recorded, its deadline is set from the message's time to live,
    and the local observer sees the peer. *)
Theorem peer_state_forwarded g e from message to header payload st :
  reachable g → can_happen e g → arrives e from message to →
  parseMessageHeader message = Ret (header, payload) →
  sh_messageType header = kAlive ∨ sh_messageType header = kResponse →
  fromPayload (sh_ident header) payload = Ret st →
  mRemoteNodeIdToRemoteNodeSurrogate g !! sh_ident header = None →
  foreign_subnet from g = false →
  ∃ g', handle e g = (Ret tt, g') ∧
    mTunnel g' = mTunnel g ++ [CallForward (if to is Some _ then UNICAST else BROADCAST)
      (sh_ident header) (take (length message - entry_size (ps_endpoint st)) message) to] ∧
    localNodeIdToEndpointMap g' =
      <[sh_ident header := mkEndpoints from (ps_endpoint st)]> (localNodeIdToEndpointMap g) ∧
    localMeasurementEndpointToNodeId g' =
      <[createKeyFromEndpoint (ps_endpoint st) := sh_ident header]>
        (localMeasurementEndpointToNodeId g) ∧
    deadlines (mLocalTracker g') = <[sh_ident header :=
      clock g + seconds (byte_to_Z (sh_ttl header))]> (deadlines (mLocalTracker g)) ∧
    mLocalObserver g' = mLocalObserver g ++ [SawPeer st] ∧
    system g' = system g ∧ mRemoteObserver g' = mRemoteObserver g.
Proof.
  intros Hg Hok Harr Hparse Hty Hst Hown Hsub.
  destruct (arrives_run e from message to g Harr Hok) as (g' & Hr & Hsame).
  exists g'. split; [done|].
  assert (message_handled from message to g = peer_state_seen from header message st to g) as Hm.
  { unfold message_handled. rewrite Hparse, Hsub. unfold state_handled, hasRemoteNodeSurrogate.
    rewrite bool_decide_false by (rewrite Hown; by intros []).
    by rewrite decide_True, Hst. }
  rewrite Hm in Hsame. destruct Hsame as (-> & -> & -> & -> & -> & _ & -> & ->).
  split_and!; try done.
  apply updateTimeout_deadlines. apply (inv_local_tracker _ (gateway_reachable_inv g Hg)).
Qed.

(** A goodbye from a local node is passed to the tunnel unchanged, the local
    observer sees the peer leave, and the node's endpoints, its key and its
    deadline are forgotten. *)
Theorem goodbye_forwarded `{!MessageTypeLaws} g e from message to header payload :
  reachable g → can_happen e g → arrives e from message to →
  parseMessageHeader message = Ret (header, payload) → sh_messageType header = kByeBye →
  mRemoteNodeIdToRemoteNodeSurrogate g !! sh_ident header = None →
  foreign_subnet from g = false →
  ∃ g', handle e g = (Ret tt, g') ∧
    mTunnel g' = mTunnel g ++ [CallForward BYEBYE (sh_ident header) message to] ∧
    localNodeIdToEndpointMap g' = delete (sh_ident header) (localNodeIdToEndpointMap g) ∧
    localMeasurementEndpointToNodeId g' =
      delete (createKeyFromEndpoint (measurementEndpoint (endpoints_of (sh_ident header) g)))
        (localMeasurementEndpointToNodeId g) ∧
    deadlines (mLocalTracker g') = delete (sh_ident header) (deadlines (mLocalTracker g)) ∧
    mLocalObserver g' = mLocalObserver g ++ [PeerLeft (sh_ident header)] ∧
    system g' = system g ∧ mRemoteObserver g' = mRemoteObserver g.
Proof.
  intros Hg Hok Harr Hparse Hty Hown Hsub.
  destruct (arrives_run e from message to g Harr Hok) as (g' & Hr & Hsame).
  exists g'. split; [done|].
  assert (message_handled from message to g = bye_seen (sh_ident header) message to g) as Hm.
  { unfold message_handled. rewrite Hparse, Hsub. unfold state_handled, hasRemoteNodeSurrogate.
    rewrite bool_decide_false by (rewrite Hown; by intros []).
    rewrite decide_False; [by rewrite decide_True|].
    rewrite Hty. pose proof kAlive_kByeBye. pose proof kResponse_kByeBye. intros [|]; congruence. }
  rewrite Hm in Hsame. destruct Hsame as (-> & -> & -> & -> & -> & _ & -> & ->).
  split_and!; try done.
  apply remove_deadlines. apply (inv_local_tracker _ (gateway_reachable_inv g Hg)).
Qed.

(** The socket a message came to receives again if the gateway is running. *)
Definition receives_again (e : GatewayEvent) g : TunnelGateway :=
  match e with
  | GMulticast _ _ => upd_multicast_receiving (λ _, is_running g) g
  | GState id _ _ =>
      upd_mRemoteNodeIdToRemoteNodeSurrogate (alter (set_receiving_state (is_running g)) id) g
  | _ => g
  end.

Lemma receives_again_running e from message to g :
  arrives e from message to → can_happen e g → is_running g = true → receives_again e g = g.
Proof.
  intros [[-> ->]|(id & -> & ->)]; simpl.
  - intros Hmc ->. unfold upd_multicast_receiving. rewrite <-Hmc at 1. by destruct g.
  - intros (s & Hs & Hrec) ->. rewrite (upd_surrogates_alter _ _ _ _ Hs).
    replace (set_receiving_state true s) with s by (destruct s; simpl in *; by rewrite Hrec).
    unfold upd_mRemoteNodeIdToRemoteNodeSurrogate. rewrite insert_id by done. by destruct g.
Qed.

(** C20: no loops: a message from one of the gateway's own surrogates, or an IPv4
    message from outside the interface's network, leaves the whole gateway as it
    was - surrogates, trackers, endpoints, tunnel, observers - and the socket it
    came to receives again unless the gateway has stopped. *)
Theorem own_messages_ignored g e from message to header payload :
  reachable g → can_happen e g → arrives e from message to →
  parseMessageHeader message = Ret (header, payload) →
  is_Some (mRemoteNodeIdToRemoteNodeSurrogate g !! sh_ident header) ∨
    foreign_subnet from g = true →
  handle e g = (Ret tt, receives_again e g) ∧ (is_running g = true → receives_again e g = g).
Proof.
  intros _ Hok Harr Hparse Hign. split; [|by eapply receives_again_running].
  assert (message_handled from message to g = g) as Hm.
  { unfold message_handled. rewrite Hparse. destruct (foreign_subnet from g); [done|].
    destruct Hign as [Hown|]; [|done]. unfold state_handled, hasRemoteNodeSurrogate.
    by rewrite bool_decide_true. }
  destruct Harr as [[-> ->]|(id & -> & ->)]; simpl in *.
  - by rewrite onMulticast_run, Hm.
  - destruct Hok as (s & Hs & _).
    by rewrite (onState_run _ _ _ _ _ Hs), Hm, (upd_surrogates_alter _ _ _ _ Hs).
Qed.

Lemma take_filled n (message : list byte) : take (length message) (filled n message) = message.
Proof. unfold filled. by rewrite take_app_length. Qed.

(** The socket and the destination of a discovery message. *)
Definition emerges_at (ty : TunnelMessageType) (to : option NodeId) g (ep : UdpEndpoint) : Prop :=
  ((ty = BROADCAST ∨ ty = BYEBYE) ∧ ep = broadcast_endpoint g) ∨
  (ty = UNICAST ∧ ∃ n e, to = Some n ∧ localNodeIdToEndpointMap g !! n = Some e ∧
     ep = stateEndpoint e ∧ same_family g ep).

Lemma emerges_resolve ty from to s g g1 ep :
  emerges_at ty to g ep → obtains from s g g1 →
  resolveDestination ty from to g = (Ret (Some (stateSocket s, scoped g ep)), g1).
Proof.
  intros [[Hty ->]|(-> & n & e & -> & He & -> & Hf)] Hob; [by apply resolve_broadcast|].
  by apply resolve_unicast.
Qed.

Lemma local_data_discovery ty to g ep s buf (n : nat) :
  emerges_at ty to g ep → (n ≤ length buf)%nat →
  local_data ty s (take n buf) =
    if decide (ty ≠ BYEBYE ∧ (n + surrogate_entry_size s < kMaxMessageSize)%nat)
    then take n buf ++ surrogate_entry s else take n buf.
Proof.
  intros Hem Hn. unfold local_data. rewrite length_take_le by done.
  assert (ty ≠ MEASUREMENT_PING) as Hping by (by destruct Hem as [[[-> | ->] _]|[-> _]]).
  repeat case_decide; try done; tauto.
Qed.

Lemma remote_effect_system ty from message g : system (remote_effect ty from message g) = system g.
Proof. unfold remote_effect, remote_seen. by repeat case_match. Qed.

(** C18: a discovery message from another site leaves through the state socket of
    its sender's surrogate, opened now if the sender is new: broadcasts and
    goodbyes to the interface's multicast group, a unicast to the state endpoint
    of its target.  Except for a goodbye the surrogate's own measurement endpoint
    is appended when there is room.  The remote observer is told, and the
    sender's deadline is renewed or, on goodbye, dropped. *)
Theorem discovery_emerges g g1 ty from s buf (n : nat) to (ep : UdpEndpoint) :
  reachable g → emerges_at ty to g ep → obtains from s g g1 →
  length buf = kMaxMessageSize → (n ≤ length buf)%nat →
  ∃ buf' g', forwardMessageLocally ty from buf (Z.of_nat n) to g = (Ret buf', g') ∧
    mRemoteNodeIdToRemoteNodeSurrogate g' !! from = Some s ∧
    sends (system g') = sends (system g) ++
      [(sock_id (stateSocket s),
        if decide (ty ≠ BYEBYE ∧ (n + surrogate_entry_size s < kMaxMessageSize)%nat)
        then take n buf ++ surrogate_entry s else take n buf,
        scoped g ep)] ∧
    (ty = BYEBYE → mRemoteObserver g' = mRemoteObserver g ++ [PeerLeft from] ∧
       deadlines (mRemoteTracker g') = delete from (deadlines (mRemoteTracker g))) ∧
    (ty ≠ BYEBYE → ∀ header payload st,
       parseMessageHeader (take n buf) = Ret (header, payload) → fromPayload from payload = Ret st →
       mRemoteObserver g' = mRemoteObserver g ++ [SawPeer st] ∧
       deadlines (mRemoteTracker g') =
         <[from := clock g + seconds (byte_to_Z (sh_ttl header))]> (deadlines (mRemoteTracker g))).
Proof.
  intros Hg Hem Hob Hbuf Hn. pose proof (emerges_resolve ty from to s g g1 ep Hem Hob) as Hres.
  destruct (obtains_same _ _ _ _ Hob) as (_ & Hsends & _ & _ & Hclock).
  assert (mRemoteObserver g1 = mRemoteObserver g ∧ mRemoteTracker g1 = mRemoteTracker g)
    as [Hobs Htr] by (by destruct Hob as [[_ ->]|(_ & e1 & e2 & _ & _ & -> & ->)]).
  destruct (forwardMessageLocally_run ty from s buf n to g g1 (stateSocket s) (scoped g ep) Hres
    (λ _ _, obtains_surrogate _ _ _ _ Hob) Hbuf Hn) as (buf' & Hr).
  eexists buf', _. split; [exact Hr|]. clear Hr.
  pose proof (inv_remote_tracker _ (gateway_reachable_inv g Hg)) as Hok.
  split_and!.
  - simpl. rewrite remote_effect_surrogates. by apply obtains_surrogate with g.
  - simpl. rewrite remote_effect_system, Hsends.
    by rewrite (local_data_discovery ty to g ep s buf n Hem Hn).
  - intros ->. simpl. rewrite Hobs, Htr. split; [done|]. by apply remove_deadlines.
  - intros Hty header payload st Hp Hst.
    assert (remote_effect ty from (take n buf) g1 = remote_seen from (take n buf) g1) as ->.
    { destruct Hem as [[[-> | ->] _]|[-> _]]; done. }
    unfold remote_seen. rewrite Hp, Hst. simpl. rewrite Hobs, Htr, Hclock. split; [done|].
    by apply updateTimeout_deadlines.
Qed.

(** A unicast, ping or pong for a node that is not on this interface is left
    to the other gateways: nothing is opened or sent and the message is intact. *)
Theorem left_to_other_gateways g ty from buf (size : Z) (n : NodeId) :
  ty ≠ BYEBYE → ty ≠ BROADCAST → localNodeIdToEndpointMap g !! n = None →
  forwardMessageLocally ty from buf size (Some n) g = (Ret buf, g).
Proof.
  intros H1 H2 Hn. unfold forwardMessageLocally, forward_body, try_catch.
  unfold mbind at 1, M_bind at 1. erewrite zoom_run by (by apply resolve_unknown). done.
Qed.

(** The node a ping from [e] is attributed to: a new one, or the one an earlier
    ping from [e] was given. *)
Definition ping_source g (e : UdpEndpoint) (f : NodeId) : Prop :=
  (localMeasurementEndpointToNodeId g !! createKeyFromEndpoint e = None ∧
   f = NodeId_random (randoms g)) ∨
  (localMeasurementEndpointToNodeId g !! createKeyFromEndpoint e = Some f ∧
   ∃ e0, localNodeIdToEndpointMap g !! f = Some (mkEndpoints e0 e)).

Lemma ping_handled g e f header message to :
  ping_source g e f → mh_messageType header = kPing →
  let g' := measurement_handled e header message to g in
  mTunnel g' = mTunnel g ++ [CallForward MEASUREMENT_PING f message (Some to)] ∧
  (∃ e0, localNodeIdToEndpointMap g' !! f = Some (mkEndpoints e0 e)) ∧
  mRemoteNodeIdToRemoteNodeSurrogate g' = mRemoteNodeIdToRemoteNodeSurrogate g ∧
  system g' = system g ∧ local_interface_address g' = local_interface_address g.
Proof.
  intros [[Hk ->]|(Hk & e0 & He)] Hping; unfold measurement_handled; rewrite Hk, decide_True by done;
    simpl; split_and!; try done; [|by eexists].
  eexists. by rewrite lookup_insert, decide_True.
Qed.

(** C19: a measurement crosses the tunnel and returns.  A ping that a local peer
    sends from [e] to the surrogate of remote node [N] reaches the tunnel; at
    [N]'s site it leaves unchanged from a socket opened for it, to [N]'s
    measurement endpoint.  [N]'s pong to that socket reaches the tunnel on behalf
    of [N], and back at the first site it leaves from [N]'s measurement socket to
    [e] (the surrogate's endpoint entry appended when there is room). *)
Theorem ping_pong_returns gA gB (N f : NodeId) sN (e : UdpEndpoint) eN (ping pong : list byte) hp rp hq rq sock gB1 :
  reachable gA →
  mRemoteNodeIdToRemoteNodeSurrogate gA !! N = Some sN → ping_source gA e f →
  same_family gA e →
  parseMeasurementHeader ping = Ret (hp, rp) → mh_messageType hp = kPing →
  localNodeIdToEndpointMap gB !! N = Some eN →
  localMeasurementEndpointToNodeId gB !! createKeyFromEndpoint (measurementEndpoint eN) = Some N →
  same_family gB (measurementEndpoint eN) → reachable gB → obtains_measurement f sock gB gB1 →
  parseMeasurementHeader pong = Ret (hq, rq) → mh_messageType hq ≠ kPing →
  (length ping ≤ kMaxMessageSize)%nat → (length pong ≤ kMaxMessageSize)%nat →
  ∃ gA1 gB2 gB3 gA2 buf1 buf2,
    handle (GMeasurement N e ping) gA = (Ret tt, gA1) ∧
    mTunnel gA1 = mTunnel gA ++ [CallForward MEASUREMENT_PING f ping (Some N)] ∧
    forwardMessageLocally MEASUREMENT_PING f (filled kMaxMessageSize ping)
      (Z.of_nat (length ping)) (Some N) gB = (Ret buf1, gB2) ∧
    sends (system gB2) = sends (system gB) ++
      [(sock_id sock, ping, scoped gB (measurementEndpoint eN))] ∧
    handle (GSurrogateMeasurement f (measurementEndpoint eN) pong) gB2 = (Ret tt, gB3) ∧
    mTunnel gB3 = mTunnel gB ++ [CallForward MEASUREMENT_PONG N pong (Some f)] ∧
    forwardMessageLocally MEASUREMENT_PONG N (filled kMaxMessageSize pong)
      (Z.of_nat (length pong)) (Some f) gA1 = (Ret buf2, gA2) ∧
    sends (system gA2) = sends (system gA) ++
      [(sock_id (measurementSocket sN), local_data MEASUREMENT_PONG sN pong, scoped gA e)].
Proof.
  intros HgA HsN Hsrc HfA Hping Htp HeN HkN HfB HgB Hob Hpong Htq Hlp Hlq.
  destruct (inv_measurement _ (gateway_reachable_inv gA HgA) N sN HsN) as [HrunN _].
  destruct (ping_handled gA e f hp ping N Hsrc Htp) as (Htun & (e0 & Hf) & Hsur & Hsys & Hloc).
  pose proof (onMeasurement_run N sN e ping hp rp gA HsN HrunN Hping) as H1.
  set (gA1 := upd_mRemoteNodeIdToRemoteNodeSurrogate _ _) in H1.
  destruct (forwardMessageLocally_run MEASUREMENT_PING f sN (filled kMaxMessageSize ping)
    (length ping) (Some N) gB gB1 sock (scoped gB (measurementEndpoint eN)))
    as (buf1 & H2); [by eapply resolve_ping|done|by apply length_filled|by rewrite length_filled|].
  rewrite take_filled in H2. cbn [local_data remote_effect] in H2.
  set (gB2 := sent _ _ _ _) in H2.
  assert (∃ ms, mRemoteNodeIdToRemoteMeasurementSurrogate gB2 !! f = Some ms ∧ ms_running ms = true)
    as (ms & Hms & Hmsr).
  { destruct Hob as [(ms & Hms & -> & ->)|(Hms & e1 & He1 & -> & ->)].
    - exists ms. split; [done|]. by apply (inv_surrogate _ (gateway_reachable_inv gB HgB) f).
    - eexists. simpl. by rewrite lookup_insert, decide_True. }
  pose proof (onSurrogateMeasurement_run f ms (measurementEndpoint eN) pong hq rq gB2 Hms Hmsr Hpong)
    as H3.
  assert (localMeasurementEndpointToNodeId gB2 !! createKeyFromEndpoint (measurementEndpoint eN) =
    Some N ∧ mTunnel gB2 = mTunnel gB ∧
    sends (system gB2) = sends (system gB) ++
      [(sock_id sock, ping, scoped gB (measurementEndpoint eN))]) as (Hk2 & Ht2 & Hs2)
    by (by destruct Hob as [(ms' & _ & -> & ->)|(_ & e1 & _ & -> & ->)]).
  assert (mRemoteNodeIdToRemoteNodeSurrogate gA1 !! N = Some (set_receiving_measurement true sN))
    as Hs1 by (simpl; by rewrite lookup_insert, decide_True).
  assert (same_family gA1 e ∧ scoped gA1 e = scoped gA e ∧ sends (system gA1) = sends (system gA))
    as (HfA1 & Hsc & Hsends).
  { unfold same_family, scoped in *. simpl. by rewrite Hloc, Hsys. }
  destruct (forwardMessageLocally_run MEASUREMENT_PONG N (set_receiving_measurement true sN)
    (filled kMaxMessageSize pong) (length pong) (Some f) gA1 gA1 (measurementSocket sN)
    (scoped gA1 e)) as (buf2 & H4); [|done|by apply length_filled|by rewrite length_filled|].
  { apply (resolve_pong N f (mkEndpoints e0 e) (set_receiving_measurement true sN)); [done|done|by left]. }
  rewrite take_filled in H4. cbn [remote_effect] in H4.
  eexists gA1, gB2, _, _, buf1, buf2. split_and!; [exact H1|exact Htun|exact H2|exact Hs2|exact H3| |exact H4|].
  - rewrite <-Ht2. unfold measurement_handled. by rewrite Hk2, decide_False by done.
  - simpl in *. by rewrite <-Hsends, <-Hsc.
Qed.

(** C21: when the timer of the local nodes fires, exactly the nodes whose deadline
    has passed are reported to the observer, once each, and their endpoints and
    the keys of their measurement endpoints are dropped; the deadlines, endpoints
    and keys of all others stay as they were, the timer is armed again exactly if
    somebody is left, and every other part of the gateway is unchanged. *)
Theorem local_nodes_expire g :
  reachable g →
  ∃ ids g', handle (GLocalTimer false) g = (Ret tt, g') ∧ NoDup ids ∧
    (∀ id, id ∈ ids ↔ ∃ d, deadlines (mLocalTracker g) !! id = Some d ∧ d < clock g) ∧
    mLocalObserver g' = mLocalObserver g ++ (PeerTimedOut <$> ids) ∧
    deadlines (mLocalTracker g') = filter (λ p, clock g ≤ p.2) (deadlines (mLocalTracker g)) ∧
    localNodeIdToEndpointMap g' = filter (λ p, p.1 ∉ ids) (localNodeIdToEndpointMap g) ∧
    (∀ k, key_of ids g k → localMeasurementEndpointToNodeId g' !! k = None) ∧
    (∀ k, ¬ key_of ids g k →
      localMeasurementEndpointToNodeId g' !! k = localMeasurementEndpointToNodeId g !! k) ∧
    (is_Some (mTimer (mLocalTracker g')) ↔ deadlines (mLocalTracker g') ≠ ∅) ∧
    mRemoteNodeIdToRemoteNodeSurrogate g' = mRemoteNodeIdToRemoteNodeSurrogate g ∧
    mRemoteNodeIdToRemoteMeasurementSurrogate g' = mRemoteNodeIdToRemoteMeasurementSurrogate g ∧
    mRemoteTracker g' = mRemoteTracker g ∧ mRemoteObserver g' = mRemoteObserver g ∧
    same_sockets g g'.
Proof.
  intros Hg. destruct (inv_local_tracker _ (gateway_reachable_inv g Hg)) as [Hs Hnd _].
  destruct (returns_run _ _ _ (onLocalTimer_wp g)) as ([] & g' & Hr & Hx & Ht).
  exists (expired_nodes (clock g) (mLocalTracker g)), g'. split; [done|].
  destruct Hx as (H1 & H2 & H3 & H4 & H5 & H6 & H7 & H8 & H9).
  split_and!; try done; try apply H9.
  - by apply NoDup_expired.
  - intros id. rewrite elem_expired by done. by setoid_rewrite deadlines_Some.
  - rewrite Ht. apply (pruned_deadlines_waited _ _ Hs Hnd).
  - rewrite Ht. by apply (pruned_waiting _ _ Hs Hnd).
Qed.

(** When the timer of the remote nodes fires, exactly the nodes whose deadline
    has passed are reported to the observer, once each, and their surrogates are
    closed; all others stay, and nothing else changes. *)
Theorem remote_nodes_expire g :
  reachable g →
  ∃ ids g', handle (GRemoteTimer false) g = (Ret tt, g') ∧ NoDup ids ∧
    (∀ id, id ∈ ids ↔ ∃ d, deadlines (mRemoteTracker g) !! id = Some d ∧ d < clock g) ∧
    mRemoteObserver g' = mRemoteObserver g ++ (PeerTimedOut <$> ids) ∧
    deadlines (mRemoteTracker g') = filter (λ p, clock g ≤ p.2) (deadlines (mRemoteTracker g)) ∧
    mRemoteNodeIdToRemoteNodeSurrogate g' =
      filter (λ p, p.1 ∉ ids) (mRemoteNodeIdToRemoteNodeSurrogate g) ∧
    mRemoteNodeIdToRemoteMeasurementSurrogate g' =
      filter (λ p, p.1 ∉ ids) (mRemoteNodeIdToRemoteMeasurementSurrogate g) ∧
    localNodeIdToEndpointMap g' = localNodeIdToEndpointMap g ∧
    mLocalObserver g' = mLocalObserver g ∧ same_sockets g g'.
Proof.
  intros Hg. destruct (inv_remote_tracker _ (gateway_reachable_inv g Hg)) as [Hs Hnd _].
  destruct (returns_run _ _ _ (onRemoteTimer_wp g)) as ([] & g' & Hr & Hx & Ht).
  exists (expired_nodes (clock g) (mRemoteTracker g)), g'. split; [done|].
  destruct Hx as (H1 & H2 & H3 & H4 & H5 & H6 & H7 & H8).
  split_and!; try done; try apply H8.
  - by apply NoDup_expired.
  - intros id. rewrite elem_expired by done. by setoid_rewrite deadlines_Some.
  - rewrite Ht. apply (pruned_deadlines_waited _ _ Hs Hnd).
Qed.
End theorems.

(** ** Concrete instances *)

Module GatewayWitnesses.
Import Sample.

(** Every call of the system succeeds; sockets are bound to 10:100, 10:101, ... *)
Definition sys : System :=
  mkSystem (λ n, inl (10, byte_of_Z (100 + Z.of_nat n))) (λ _, None) 0 [].
Definition local_peer : UdpEndpoint := (11, Byte.x21).
Definition surrogate9 : UdpEndpoint := (10, Byte.x64).
Definition pinger : UdpEndpoint := (11, Byte.x40).
Definition peer9 : UdpEndpoint := (12, Byte.x22).
Definition peer9m : UdpEndpoint := (12, Byte.x31).
Definition n7 : NodeId := Byte.x07.
Definition n9 : NodeId := Byte.x09.
(** A peer state of node 7 with its measurement endpoint 11:48, and its body. *)
Definition body : list byte := [Byte.x01; Byte.x05; Byte.x07; Byte.xaa].
Definition alive : list byte := body ++ [Byte.x6d; Byte.x65; Byte.x0b; Byte.x30].
Definition alive9 : list byte :=
  [Byte.x01; Byte.x06; Byte.x09; Byte.xbb; Byte.xbb; Byte.xbb; Byte.xbb].
Definition bye : list byte := [Byte.x03; Byte.x00; Byte.x07].

Definition g0 : TunnelGateway := new_TunnelGateway sys (seconds 100) (10 : @Address asio).
Definition g1 := (handle GListen g0).2.
Definition g2 := (handle (GMulticast local_peer alive) g1).2.
Definition deliver9 : GatewayEvent := GDeliver BROADCAST n9 (filled 64 alive9) 7 None.
Definition g3 := (handle deliver9 g2).2.

Lemma step_reachable e g :
  reachable g → can_happen e g → (handle e g).1 = Ret tt → reachable (handle e g).2.
Proof. intros Hg Hok Hr. eapply reachable_step; [done..|]. by apply run_outcome. Qed.

Lemma g1_reachable : reachable g1.
Proof.
  apply step_reachable; [constructor|evaluate|evaluate].
Qed.
Lemma g2_reachable : reachable g2.
Proof.
  apply step_reachable; [apply g1_reachable|evaluate|evaluate].
Qed.
Lemma g3_reachable : reachable g3.
Proof.
  apply step_reachable; [apply g2_reachable| |evaluate].
  split; [reflexivity|]. split; [decide_now|done].
Qed.

Definition s9 : RemoteNodeSurrogate := new_surrogate 0 surrogate9 (10, Byte.x65).
Lemma g3_surrogate : mRemoteNodeIdToRemoteNodeSurrogate g3 !! n9 = Some s9.
Proof. evaluate. Qed.

Lemma gateway_safe_witness :
  ∃ g', handle (GMulticast local_peer alive) g1 = (Ret tt, g') ∧ reachable g'.
Proof.
  destruct (gateway_safe g1 (GMulticast local_peer alive)) as (g' & H1 & H2 & _).
  - apply g1_reachable.
  - reflexivity.
  - exists g'. split; [exact H1|exact H2].
Defined.

Lemma peer_state_forwarded_witness :
  ∃ g', handle (GMulticast local_peer alive) g1 = (Ret tt, g') ∧
    mTunnel g' = mTunnel g1 ++ [CallForward BROADCAST n7 body None].
Proof.
  destruct (peer_state_forwarded g1 (GMulticast local_peer alive) local_peer alive None
    (Byte.x01, Byte.x05, Byte.x07) [Byte.xaa; Byte.x6d; Byte.x65; Byte.x0b; Byte.x30]
    (Byte.x07, (11, Byte.x30))) as (g' & H1 & H2 & _).
  - apply g1_reachable.
  - reflexivity.
  - left. split; reflexivity.
  - reflexivity.
  - left. reflexivity.
  - reflexivity.
  - evaluate.
  - evaluate.
  - exists g'. split; [exact H1|exact H2].
Defined.

Lemma goodbye_forwarded_witness :
  ∃ g', handle (GMulticast local_peer bye) g2 = (Ret tt, g') ∧
    mTunnel g' = mTunnel g2 ++ [CallForward BYEBYE n7 bye None].
Proof.
  destruct (goodbye_forwarded g2 (GMulticast local_peer bye) local_peer bye None
    (Byte.x03, Byte.x00, Byte.x07) []) as (g' & H1 & H2 & _).
  - apply g2_reachable.
  - evaluate.
  - left. split; reflexivity.
  - reflexivity.
  - reflexivity.
  - evaluate.
  - evaluate.
  - exists g'. split; [exact H1|exact H2].
Defined.

(** The broadcast of the surrogate of node 9 comes back by multicast. *)
Lemma own_messages_ignored_witness :
  handle (GMulticast surrogate9 alive9) g3 = (Ret tt, g3).
Proof.
  destruct (own_messages_ignored g3 (GMulticast surrogate9 alive9) surrogate9 alive9 None
    (Byte.x01, Byte.x06, Byte.x09) [Byte.xbb; Byte.xbb; Byte.xbb; Byte.xbb]) as [H1 H2].
  - apply g3_reachable.
  - evaluate.
  - left. split; reflexivity.
  - reflexivity.
  - left. exists s9. apply g3_surrogate.
  - rewrite <-H2 at 2; [exact H1|evaluate].
Defined.

Lemma discovery_emerges_witness :
  ∃ buf' g', forwardMessageLocally BROADCAST n9 (filled 64 alive9) 7 None g3 = (Ret buf', g') ∧
    mRemoteNodeIdToRemoteNodeSurrogate g' !! n9 = Some s9.
Proof.
  destruct (discovery_emerges g3 g3 BROADCAST n9 s9 (filled 64 alive9) 7 None
    (broadcast_endpoint g3)) as (buf' & g' & H1 & H2 & _).
  - apply g3_reachable.
  - left. split; [left; reflexivity|reflexivity].
  - left. split; [apply g3_surrogate|reflexivity].
  - reflexivity.
  - decide_now.
  - exists buf', g'. split; [exact H1|exact H2].
Defined.

Lemma left_to_other_gateways_witness :
  forwardMessageLocally UNICAST n9 (filled 64 alive9) 7 (Some n9) g3 = (Ret (filled 64 alive9), g3).
Proof.
  apply (left_to_other_gateways g3 UNICAST n9 (filled 64 alive9) 7 n9).
  - discriminate.
  - discriminate.
  - evaluate.
Defined.

(** Node 9's own site: there it is local, with measurement endpoint 12:49. *)
Definition alive9B : list byte := [Byte.x01; Byte.x06; Byte.x09; Byte.x6d; Byte.x65; Byte.x0c; Byte.x31].
Definition gB := (handle (GMulticast peer9 alive9B) g1).2.
Lemma gB_reachable : reachable gB.
Proof.
  apply step_reachable; [apply g1_reachable|evaluate|evaluate].
Qed.

Definition ping : list byte := [Byte.x01; Byte.xab].
Definition pong : list byte := [Byte.x02; Byte.xab].

Lemma ping_pong_returns_witness :
  ∃ gA1 gA2 buf2, handle (GMeasurement n9 pinger ping) g3 = (Ret tt, gA1) ∧
    forwardMessageLocally MEASUREMENT_PONG n9 (filled 64 pong) 2 (Some (NodeId_random 0)) gA1 =
      (Ret buf2, gA2).
Proof.
  destruct (ping_pong_returns g3 gB n9 (NodeId_random 0) s9 pinger
    (mkEndpoints peer9 peer9m) ping pong Byte.x01 [Byte.xab] Byte.x02 [Byte.xab]
    (mkSocket 0 surrogate9)
    (upd_mRemoteNodeIdToRemoteMeasurementSurrogate
      <[NodeId_random 0 := mkMeasurementSurrogate (mkSocket 0 surrogate9) true true]> (opened 1 gB)))
    as (gA1 & _ & _ & gA2 & _ & buf2 & H1 & _ & _ & _ & _ & _ & H2 & _).
  - apply g3_reachable.
  - apply g3_surrogate.
  - left. split; evaluate.
  - left. reflexivity.
  - reflexivity.
  - reflexivity.
  - evaluate.
  - evaluate.
  - left. reflexivity.
  - apply gB_reachable.
  - right. split; [evaluate|]. exists surrogate9.
    split; [evaluate|]. split; reflexivity.
  - reflexivity.
  - discriminate.
  - decide_now.
  - decide_now.
  - exists gA1, gA2, buf2. split; [exact H1|exact H2].
Defined.

Lemma local_nodes_expire_witness :
  ∃ g', handle (GLocalTimer false) g3 = (Ret tt, g').
Proof.
  destruct (local_nodes_expire g3) as (_ & g' & H & _); [apply g3_reachable|exists g'; exact H].
Defined.

Lemma remote_nodes_expire_witness :
  ∃ g', handle (GRemoteTimer false) g3 = (Ret tt, g').
Proof.
  destruct (remote_nodes_expire g3) as (_ & g' & H & _); [apply g3_reachable|exists g'; exact H].
Defined.

(** A node that pings is given a made-up identity that is never tracked: five
    minutes later, with every timer run, it is still there. *)
Lemma ping_identity_leaks :
  let g := (handle (GMeasurement n9 pinger ping) g3).2 in
  let later := (handle (GRemoteTimer false) (handle (GLocalTimer false)
    (handle (GTick (seconds 400)) g).2).2).2 in
  deadlines (mLocalTracker later) = ∅ ∧
  dom (localNodeIdToEndpointMap later) = {[NodeId_random 0]}.
Proof. split; evaluate. Qed.
End GatewayWitnesses.
