(* ===== verification/SharedRing.v ===== *)
(** * ShmTunnel.hpp: the ring buffers in shared memory

    [SharedMessages] is a ring of [MAX_MESSAGES] slots.  Its operations hold an
    interprocess mutex, so each is one atomic step; [clear] does not take it. *)

From S2P Require Import Prelude LinkLib Sample.

#[local] Open Scope nat_scope.
#[local] Arguments Nat.modulo : simpl never.

Definition MAX_MESSAGES : nat := 100.

Record Message := mkMessage { source : nat; message : list byte }.

Record SharedMessages := mkRing {
  messages : list Message;                (* std::array<Message, MAX_MESSAGES> *)
  _messages_front : nat;
  _messages_back : nat;
}.

Definition is_empty (r : SharedMessages) : bool := _messages_front r =? _messages_back r.
Definition is_full (r : SharedMessages) : bool :=
  (_messages_back r + 1) mod MAX_MESSAGES =? _messages_front r.

Definition push (src : nat) (msg : list byte) (r : SharedMessages) : result SharedMessages :=
  if is_full r then Ret r
  else if decide (_messages_back r < length (messages r))%nat
  then Ret (mkRing (<[_messages_back r := mkMessage src msg]> (messages r))
              (_messages_front r) ((_messages_back r + 1) mod MAX_MESSAGES))
  else Undef OutOfBounds.

Definition pop (r : SharedMessages) : result (option Message * SharedMessages) :=
  if is_empty r then Ret (None, r)
  else match messages r !! _messages_front r with
  | Some m => Ret (Some m, mkRing (messages r) ((_messages_front r + 1) mod MAX_MESSAGES)
                             (_messages_back r))
  | None => Undef OutOfBounds
  end.

Definition clear (r : SharedMessages) : SharedMessages := mkRing (messages r) 0 0.

(** [new SharedMemory()] zeroes the slots. *)
Definition new_ring (zero : list byte) : SharedMessages :=
  mkRing (replicate MAX_MESSAGES (mkMessage 0 zero)) 0 0.

(** ** A bounded queue *)

Definition ring_ok (r : SharedMessages) : Prop :=
  length (messages r) = MAX_MESSAGES ∧
  (_messages_front r < MAX_MESSAGES)%nat ∧ (_messages_back r < MAX_MESSAGES)%nat.

Definition count (r : SharedMessages) : nat :=
  (_messages_back r + MAX_MESSAGES - _messages_front r) mod MAX_MESSAGES.

(** The messages from the front on. *)
Definition contents (r : SharedMessages) : list Message :=
  omap (λ i, messages r !! ((_messages_front r + i) mod MAX_MESSAGES)%nat) (seq 0 (count r)).

(** The specification: a queue that drops what does not fit. *)
Definition capacity : nat := MAX_MESSAGES - 1.
Definition enqueue (m : Message) (q : list Message) : list Message :=
  if decide (length q < capacity)%nat then q ++ [m] else q.

Lemma mod_wrap x :
  (x < 2 * MAX_MESSAGES)%nat →
  (x mod MAX_MESSAGES = if decide (x < MAX_MESSAGES) then x else x - MAX_MESSAGES)%nat.
Proof.
  intros Hx. case_decide as Hd; [by apply Nat.mod_small|].
  replace x with ((x - MAX_MESSAGES) + 1 * MAX_MESSAGES)%nat at 1 by (unfold MAX_MESSAGES in *; lia).
  rewrite Nat.Div0.mod_add. apply Nat.mod_small. unfold MAX_MESSAGES in *. lia.
Qed.

Ltac ring_lia := unfold capacity, MAX_MESSAGES in *; lia.

Lemma mod_succ b :
  b < MAX_MESSAGES →
  ((b + 1) mod MAX_MESSAGES = b + 1 ∧ b + 1 < MAX_MESSAGES) ∨
  ((b + 1) mod MAX_MESSAGES = 0 ∧ b + 1 = MAX_MESSAGES).
Proof.
  intros Hb. rewrite mod_wrap by ring_lia. case_decide; [by left|right]. ring_lia.
Qed.

Section queue.
Implicit Types (r : SharedMessages) (l : list Message).

Lemma count_cases r :
  ring_ok r →
  count r = if decide (_messages_front r ≤ _messages_back r)%nat
            then (_messages_back r - _messages_front r)%nat
            else (_messages_back r + MAX_MESSAGES - _messages_front r)%nat.
Proof.
  intros (_ & Hf & Hb). unfold count. rewrite mod_wrap by ring_lia.
  repeat case_decide; ring_lia.
Qed.

Lemma omap_total {A B} (f : A → option B) (l : list A) (g : A → B) :
  (∀ x, x ∈ l → f x = Some (g x)) → omap f l = g <$> l.
Proof.
  induction l as [|x l IH]; intros Hf; csimpl; [done|].
  rewrite (Hf x) by apply list_elem_of_here. f_equal. apply IH.
  intros y Hy. apply Hf. by apply list_elem_of_further.
Qed.

Lemma omap_ext_in {A B} (f g : A → option B) (l : list A) :
  (∀ x, x ∈ l → f x = g x) → omap f l = omap g l.
Proof.
  induction l as [|x l IH]; intros Hf; csimpl; [done|].
  rewrite (Hf x) by apply list_elem_of_here. rewrite IH; [done|].
  intros y Hy. apply Hf. by apply list_elem_of_further.
Qed.

Lemma omap_fmap_list {A B C} (f : B → option C) (g : A → B) (l : list A) :
  omap f (g <$> l) = omap (f ∘ g) l.
Proof. induction l as [|x l IH]; csimpl; [done|]. by rewrite IH. Qed.

Lemma length_contents r : ring_ok r → length (contents r) = count r.
Proof.
  intros (Hl & Hf & Hb). unfold contents.
  rewrite (omap_total _ _ (λ i, default (mkMessage 0 [])
    (messages r !! ((_messages_front r + i) mod MAX_MESSAGES)%nat))).
  - by rewrite length_fmap, length_seq.
  - intros i _. destruct (lookup_lt_is_Some_2 (messages r)
      ((_messages_front r + i) mod MAX_MESSAGES)%nat) as [m ->]; [|done].
    rewrite Hl. apply Nat.mod_upper_bound. done.
Qed.

Lemma is_empty_count r : ring_ok r → is_empty r = true ↔ count r = 0%nat.
Proof.
  intros Hr. rewrite count_cases by done. destruct Hr as (_ & Hf & Hb).
  unfold is_empty. rewrite Nat.eqb_eq. case_decide; ring_lia.
Qed.

Lemma is_full_count r : ring_ok r → is_full r = true ↔ count r = capacity.
Proof.
  intros Hr. rewrite count_cases by done. destruct Hr as (_ & Hf & Hb).
  unfold is_full. rewrite Nat.eqb_eq, mod_wrap by ring_lia. repeat case_decide; ring_lia.
Qed.

Lemma count_capacity r : ring_ok r → (count r ≤ capacity)%nat.
Proof.
  intros Hr. rewrite count_cases by done. destruct Hr as (_ & Hf & Hb).
  case_decide; ring_lia.
Qed.

Lemma push_run src msg r :
  ring_ok r → ∃ r', push src msg r = Ret r' ∧ ring_ok r' ∧
    contents r' = enqueue (mkMessage src msg) (contents r).
Proof.
  intros Hr. unfold push, enqueue. rewrite length_contents by done.
  pose proof (is_full_count r Hr) as Hfull. pose proof (count_capacity r Hr) as Hcap.
  destruct (is_full r).
  { exists r. split; [done|]. split; [done|]. rewrite decide_False; [done|].
    destruct Hfull as [Hfull _]. rewrite Hfull by done. lia. }
  assert (count r < capacity)%nat as Hlt.
  { destruct (decide (count r = capacity)) as [Hc|]; [|lia]. by apply Hfull in Hc. }
  pose proof Hr as (Hl & Hf & Hb). rewrite Hl, decide_True by done. rewrite decide_True by done.
  set (r' := mkRing _ _ _). assert (ring_ok r') as Hr'.
  { unfold r', ring_ok. cbn [messages _messages_front _messages_back]. rewrite length_insert.
    split_and!; [done|done|by apply Nat.mod_upper_bound]. }
  exists r'. split; [done|]. split; [done|].
  assert (count r' = S (count r)) as Hc.
  { rewrite !count_cases by done. rewrite count_cases in Hlt by done. unfold r'. cbn [messages _messages_front _messages_back].
    destruct (mod_succ _ Hb) as [[-> ?]|[-> ?]]; repeat case_decide; ring_lia. }
  unfold contents. rewrite Hc, seq_S, omap_app. f_equal.
  - apply omap_ext_in. intros i [_ Hi]%elem_of_seq. unfold r'. cbn [messages _messages_front _messages_back].
    apply list_lookup_insert_ne. rewrite count_cases in Hi, Hlt by done.
    rewrite mod_wrap by (repeat case_decide; ring_lia). repeat case_decide; ring_lia.
  - csimpl.
    replace ((_messages_front r + _) mod MAX_MESSAGES)%nat with (_messages_back r).
    + by rewrite list_lookup_insert_eq by (by rewrite Hl).
    + rewrite count_cases by done. repeat case_decide; rewrite mod_wrap by ring_lia; case_decide; ring_lia.
Qed.

Lemma pop_run r :
  ring_ok r → ∃ r', pop r = Ret (head (contents r), r') ∧ ring_ok r' ∧
    contents r' = tail (contents r).
Proof.
  intros Hr. unfold pop. pose proof (is_empty_count r Hr) as Hempty.
  destruct (is_empty r) eqn:He.
  { exists r. assert (contents r = []) as ->; [|done].
    apply nil_length_inv. rewrite length_contents by done. by apply Hempty. }
  assert (count r ≠ 0)%nat as Hc0 by (intros Hc; by apply Hempty in Hc).
  pose proof Hr as (Hl & Hf & Hb).
  destruct (lookup_lt_is_Some_2 (messages r) (_messages_front r)) as [m Hm]; [by rewrite Hl|].
  rewrite Hm. set (r' := mkRing _ _ _). assert (ring_ok r') as Hr'.
  { unfold r', ring_ok. cbn [messages _messages_front _messages_back]. split_and!; [done|by apply Nat.mod_upper_bound|done]. }
  exists r'. assert (count r = S (count r')) as Hc.
  { rewrite !count_cases by done. rewrite count_cases in Hc0 by done. unfold r' in *. cbn [messages _messages_front _messages_back] in *.
    destruct (mod_succ _ Hf) as [[-> ?]|[-> ?]]; repeat case_decide; ring_lia. }
  assert (contents r = m :: contents r') as ->.
  { unfold contents. rewrite Hc. csimpl. rewrite Nat.add_0_r, Nat.mod_small, Hm by done. f_equal.
    rewrite <-fmap_S_seq, omap_fmap_list. apply omap_ext_in. intros i [_ Hi]%elem_of_seq.
    unfold compose. unfold r'. cbn [messages _messages_front _messages_back]. f_equal.
    rewrite Nat.add_succ_r, <-Nat.add_succ_l, Nat.add_1_r. by rewrite Nat.Div0.add_mod_idemp_l. }
  done.
Qed.

Lemma clear_run r : ring_ok r → ring_ok (clear r) ∧ contents (clear r) = [].
Proof.
  intros (Hl & _ & _). split; [|done]. split_and!; [done|simpl; ring_lia|simpl; ring_lia].
Qed.

Lemma new_ring_ok zero : ring_ok (new_ring zero) ∧ contents (new_ring zero) = [].
Proof. split; [|done]. split_and!; [apply length_replicate|simpl; ring_lia..]. Qed.
End queue.

(** ** Theorem *)

(** C29: a ring buffer implements a queue of 99 messages: pushing appends unless
    the queue is full, when the message is dropped, popping takes the oldest
    message if there is one, and clearing empties it.  No operation leaves the
    array, and 100 slots hold at most 99 messages. *)
Theorem ring_refines_queue (r : SharedMessages) (src : nat) (msg : list byte) :
  ring_ok r →
  (∃ r', push src msg r = Ret r' ∧ ring_ok r' ∧
     contents r' = enqueue (mkMessage src msg) (contents r)) ∧
  (∃ r', pop r = Ret (head (contents r), r') ∧ ring_ok r' ∧ contents r' = tail (contents r)) ∧
  (ring_ok (clear r) ∧ contents (clear r) = []) ∧
  length (contents r) ≤ capacity.
Proof.
  intros Hr. split; [by apply push_run|]. split; [by apply pop_run|].
  split; [by apply clear_run|]. rewrite length_contents by done. by apply count_capacity.
Qed.

Module RingWitnesses.
(** The ring with the front at slot 98 and three messages: it wraps around. *)
Definition wrapped : SharedMessages :=
  mkRing (replicate MAX_MESSAGES (mkMessage 1 [])) 98 1.
Lemma ring_refines_queue_witness :
  ∃ r', push 2 [Byte.x01] wrapped = Ret r' ∧
    contents r' = [mkMessage 1 []; mkMessage 1 []; mkMessage 1 []; mkMessage 2 [Byte.x01]].
Proof.
  destruct (ring_refines_queue wrapped 2 [Byte.x01]) as ((r' & H1 & _ & H2) & _).
  - split; [reflexivity|]. split; decide_now.
  - exists r'. split; [exact H1|]. rewrite H2. evaluate.
Defined.
End RingWitnesses.
