(* ===== verification/ShmTunnel.v ===== *)
(** * ShmTunnel.hpp: the tunnel between processes of one machine

    Up to [MAX_CLIENTS] processes share one ring buffer per client.  A client
    forwards by pushing to the rings of the others and listens by popping its
    own.  The state of a tunnel contains the shared memory as the other clients
    left it. *)

From Stdlib Require Import Strings.String.
From S2P Require Import Prelude LinkLib Sample DedupCache Tunnel SharedRing.

(** ** Data *)

Definition MAX_CLIENTS : nat := 5.

Record SharedMemory := mkShared {
  num_clients : nat;
  broadcast : list SharedMessages;          (* std::array<SharedMessages, MAX_CLIENTS> *)
}.

Inductive TunnelClientState :=
  | TUNNEL_CLIENT_STATE_UNKNOWN
  | TUNNEL_CLIENT_STATE_HELLO
  | TUNNEL_CLIENT_STATE_CONNECTED.

Section definitions.
Context {AS : Asio} {LK : Link} {W : Type} {GW : GatewayOps W}.

Record ShmTunnel := mkShmTunnel {
  base : TunnelBase;
  world : W;
  mSharedMemory : SharedMemory;
  mClientId : nat;
  is_running : bool;
  remoteNodeIdToTunnelClientIdx : gmap NodeId nat;
  tunnelClientStates : gmap nat TunnelClientState;
  posted_listens : nat;                     (* mIo->async([this] { listen(); }) *)
  in_listen : bool;                         (* the IO thread is inside listen() *)
}.

Definition upd_base f (t : ShmTunnel) : ShmTunnel :=
  mkShmTunnel (f (base t)) (world t) (mSharedMemory t) (mClientId t) (is_running t)
    (remoteNodeIdToTunnelClientIdx t) (tunnelClientStates t) (posted_listens t) (in_listen t).
Definition upd_world f (t : ShmTunnel) : ShmTunnel :=
  mkShmTunnel (base t) (f (world t)) (mSharedMemory t) (mClientId t) (is_running t)
    (remoteNodeIdToTunnelClientIdx t) (tunnelClientStates t) (posted_listens t) (in_listen t).
Definition upd_mSharedMemory f (t : ShmTunnel) : ShmTunnel :=
  mkShmTunnel (base t) (world t) (f (mSharedMemory t)) (mClientId t) (is_running t)
    (remoteNodeIdToTunnelClientIdx t) (tunnelClientStates t) (posted_listens t) (in_listen t).
Definition upd_mClientId f (t : ShmTunnel) : ShmTunnel :=
  mkShmTunnel (base t) (world t) (mSharedMemory t) (f (mClientId t)) (is_running t)
    (remoteNodeIdToTunnelClientIdx t) (tunnelClientStates t) (posted_listens t) (in_listen t).
Definition upd_is_running f (t : ShmTunnel) : ShmTunnel :=
  mkShmTunnel (base t) (world t) (mSharedMemory t) (mClientId t) (f (is_running t))
    (remoteNodeIdToTunnelClientIdx t) (tunnelClientStates t) (posted_listens t) (in_listen t).
Definition upd_remoteNodeIdToTunnelClientIdx f (t : ShmTunnel) : ShmTunnel :=
  mkShmTunnel (base t) (world t) (mSharedMemory t) (mClientId t) (is_running t)
    (f (remoteNodeIdToTunnelClientIdx t)) (tunnelClientStates t) (posted_listens t) (in_listen t).
Definition upd_tunnelClientStates f (t : ShmTunnel) : ShmTunnel :=
  mkShmTunnel (base t) (world t) (mSharedMemory t) (mClientId t) (is_running t)
    (remoteNodeIdToTunnelClientIdx t) (f (tunnelClientStates t)) (posted_listens t)
    (in_listen t).
Definition upd_posted_listens f (t : ShmTunnel) : ShmTunnel :=
  mkShmTunnel (base t) (world t) (mSharedMemory t) (mClientId t) (is_running t)
    (remoteNodeIdToTunnelClientIdx t) (tunnelClientStates t) (f (posted_listens t))
    (in_listen t).
Definition upd_in_listen f (t : ShmTunnel) : ShmTunnel :=
  mkShmTunnel (base t) (world t) (mSharedMemory t) (mClientId t) (is_running t)
    (remoteNodeIdToTunnelClientIdx t) (tunnelClientStates t) (posted_listens t) (f (in_listen t)).

Definition post_listen : M ShmTunnel unit := modify (upd_posted_listens S).

(** [mSharedMemory->broadcast[i]] *)
Definition ring_at (i : nat) : M ShmTunnel SharedMessages :=
  mem ← gets mSharedMemory;
  match broadcast mem !! i with Some r => mret r | None => undefined OutOfBounds end.
Definition write_ring (i : nat) (r : SharedMessages) : M ShmTunnel unit :=
  modify (upd_mSharedMemory (λ mem, mkShared (num_clients mem) (<[i := r]> (broadcast mem)))).

(** [mSharedMemory->broadcast[i].push(mClientId, msg)] *)
Definition push_to (i : nat) (msg : list byte) : M ShmTunnel unit :=
  r ← ring_at i;
  me ← gets mClientId;
  r' ← lift (push me msg r);
  write_ring i r'.

(** Push to every ring of [is] but the client's own. *)
Definition push_to_others (ids : list nat) (msg : list byte) : M ShmTunnel unit :=
  me ← gets mClientId;
  for_each ids (λ i, if decide (i = me) then skip else push_to i msg).

Definition say_in_tunnel (message_type : TunnelMessageType) (text : string)
    (to_tunnel_client_idx : option nat) : M ShmTunnel unit :=
  optional_msg ← lift (encapsulate (mkContext NodeId_zero message_type None 0)
                         (list_byte_of_string text));
  match optional_msg with
  | None => skip
  | Some msg =>
      match to_tunnel_client_idx with
      | Some i => push_to i msg
      | None =>
          mem ← gets mSharedMemory;
          push_to_others (seq 0 (num_clients mem)) msg
      end
  end.

(** The shared memory object: [None] before it is created.  Creating it gives
    zeroed memory. *)
Definition zero_shared : SharedMemory :=
  mkShared 0 (replicate MAX_CLIENTS (new_ring (zero_buffer kMaxMessageSize))).
Definition map_shared (object : option SharedMemory) : SharedMemory := default zero_shared object.

(** The constructor, on an object whose members are not yet set up. *)
Definition before_constructor (w : W) (object : option SharedMemory) : ShmTunnel :=
  mkShmTunnel new_TunnelBase w (map_shared object) 0 true ∅ ∅ 0 false.

(** [mClientId = mSharedMemory->num_clients], then the rest: nothing protects the
    count in between. *)
Definition take_number : M ShmTunnel unit :=
  mem ← gets mSharedMemory;
  modify (upd_mClientId (λ _, num_clients mem)).
Definition register_client : M ShmTunnel unit :=
  me ← gets mClientId;
  (if decide (me = 0)%nat then
     (* new (mSharedMemory) SharedMemory() *)
     modify (upd_mSharedMemory (λ _, mkShared 1 (broadcast zero_shared)))
   else
     modify (upd_mSharedMemory (λ mem, mkShared (S (num_clients mem)) (broadcast mem)));;
     mem ← gets mSharedMemory;
     if decide (MAX_CLIENTS ≤ num_clients mem)%nat then throw RuntimeError
     else say_in_tunnel TUNNEL_HELLO "Hello" None);;
  post_listen.
Definition construct : M ShmTunnel unit := take_number;; register_client.

(** The destructor: what is left of the shared memory object. *)
Definition destruct_object (t : ShmTunnel) : option SharedMemory :=
  let mem := mSharedMemory t in
  if decide (1 < num_clients mem)%nat
  then Some (mkShared (num_clients mem - 1) (broadcast mem)) else None.

(** The end of [forward]: only unicasts and pings need the client of a node. *)
Definition push_to_targets (messageType : TunnelMessageType) (to_node_id : option NodeId)
    (msg : list byte) : M ShmTunnel unit :=
  match messageType with
  | UNICAST | MEASUREMENT_PING =>
      m ← gets remoteNodeIdToTunnelClientIdx;
      match to_node_id ≫= λ n, m !! n with
      | Some clientIdx => push_to clientIdx msg
      | None => skip
      end
  | _ =>
      mem ← gets mSharedMemory;
      push_to_others (seq 0 (length (broadcast mem))) msg
  end.

Definition forward (messageType : TunnelMessageType) (from_node_id : NodeId)
    (message : list byte) (to_node_id : option NodeId) (now : Z) : M ShmTunnel unit :=
  fwd ← zoom (λ t, mDedupCache (base t)) (λ c, upd_base (set_mDedupCache c))
          (shouldForward messageType from_node_id message now);
  if negb fwd then skip else
  optional_msg ← lift (encapsulate (mkContext from_node_id messageType to_node_id 0) message);
  match optional_msg with
  | None => skip
  | Some msg => push_to_targets messageType to_node_id msg
  end.

(** *** Listening *)

Definition deliver (context : MessageContext) (payload : list byte) : M ShmTunnel unit :=
  gs ← gets (λ t, gateways (base t));
  zoom world (λ w, upd_world (λ _, w))
    (forward_locally gs (ctx_type context) (ctx_from_node context) payload
       (ctx_size context) (ctx_to_node context));;
  skip.

(** The switch of the loop body. *)
Definition handle_message (source : nat) (context : MessageContext) (payload : list byte) :
    M ShmTunnel unit :=
  match ctx_type context with
  | TUNNEL_HELLO =>
      states ← gets tunnelClientStates;
      if decide (states !! source = None) then
        modify (upd_tunnelClientStates <[source := TUNNEL_CLIENT_STATE_HELLO]>);;
        say_in_tunnel TUNNEL_HELLO "ello" (Some source)
      else modify (upd_tunnelClientStates <[source := TUNNEL_CLIENT_STATE_CONNECTED]>)
  | TUNNEL_BYE => modify (upd_tunnelClientStates (delete source))
  | BYEBYE => modify (upd_remoteNodeIdToTunnelClientIdx (delete (ctx_from_node context)))
  | _ =>
      modify (upd_remoteNodeIdToTunnelClientIdx (λ m,
        match m !! ctx_from_node context with
        | Some _ => m
        | None => <[ctx_from_node context := source]> m
        end));;
      deliver context payload
  end.

Definition handle_popped (m : Message) : M ShmTunnel unit :=
  result ← lift (decapsulate (message m));
  match result with
  | Some (context, payload) => handle_message (source m) context payload
  | None => skip
  end.

(** One turn of [while (pop(source, msg) && is_running)]: true if the body ran. *)
Definition listen_turn : M ShmTunnel bool :=
  me ← gets mClientId;
  r ← ring_at me;
  '(popped, r') ← lift (pop r);
  write_ring me r';;
  match popped with
  | None => mret false
  | Some m =>
      running ← gets is_running;
      if running : bool then handle_popped m;; mret true else mret false
  end.

(** After the loop. *)
Definition listen_end : M ShmTunnel unit :=
  running ← gets is_running;
  if running : bool then post_listen else skip.

(** The whole function while nobody else touches the memory: false when the
    fuel runs out. *)
Fixpoint listen_loop (fuel : nat) : M ShmTunnel bool :=
  match fuel with
  | O => mret false
  | S fuel => again ← listen_turn; if again : bool then listen_loop fuel else mret true
  end.

Definition listen (fuel : nat) : M ShmTunnel bool :=
  finished ← listen_loop fuel;
  if finished : bool then listen_end;; mret true else mret false.

Definition stop_listening : M ShmTunnel unit :=
  modify (upd_is_running (λ _, false));;
  gs ← gets (λ t, gateways (base t));
  for_each gs (λ g, zoom world (λ w, upd_world (λ _, w)) (gateway_stop_listening g));;
  modify (upd_base (upd_gateways (λ _, [])));;
  me ← gets mClientId;
  r ← ring_at me;
  write_ring me (clear r);;
  say_in_tunnel TUNNEL_BYE "Bye" None.
End definitions.
Arguments ShmTunnel {AS LK} W.

(** ** The shared memory as queues *)

Section queues.
Context {AS : Asio} {LK : Link} {W : Type}.
Implicit Types (t : ShmTunnel W) (mem : SharedMemory).

Definition queues mem : list (list Message) := contents <$> broadcast mem.

Definition mem_ok mem : Prop := length (broadcast mem) = MAX_CLIENTS ∧ Forall ring_ok (broadcast mem).

Lemma mem_ok_ring mem i :
  mem_ok mem → (i < MAX_CLIENTS)%nat → ∃ r, broadcast mem !! i = Some r ∧ ring_ok r.
Proof.
  intros [Hl Hok] Hi. destruct (lookup_lt_is_Some_2 (broadcast mem) i) as [r Hr]; [by rewrite Hl|].
  exists r. split; [done|]. by eapply Forall_lookup_1.
Qed.

Lemma write_mem_ok mem i r :
  mem_ok mem → ring_ok r → mem_ok (mkShared (num_clients mem) (<[i := r]> (broadcast mem))).
Proof.
  intros [Hl Hok] Hr. split; simpl; [by rewrite length_insert|]. by apply Forall_insert.
Qed.

Lemma write_queues mem i r n :
  queues (mkShared n (<[i := r]> (broadcast mem))) = <[i := contents r]> (queues mem).
Proof. unfold queues. simpl. by rewrite list_fmap_insert. Qed.

Lemma insert_alter {A} (f : A → A) (l : list A) i x :
  l !! i = Some x → <[i := f x]> l = alter f i l.
Proof.
  intros Hx. apply list_eq. intros j. destruct (decide (i = j)) as [<-|Hne].
  - rewrite list_lookup_insert_eq by (by eapply lookup_lt_Some).
    by rewrite list_lookup_alter_eq, Hx.
  - by rewrite list_lookup_insert_ne, list_lookup_alter_ne by done.
Qed.

Lemma push_to_run t i msg :
  mem_ok (mSharedMemory t) → (i < MAX_CLIENTS)%nat →
  ∃ mem', push_to i msg t = (Ret tt, upd_mSharedMemory (λ _, mem') t) ∧ mem_ok mem' ∧
    num_clients mem' = num_clients (mSharedMemory t) ∧
    queues mem' = alter (enqueue (mkMessage (mClientId t) msg)) i (queues (mSharedMemory t)).
Proof.
  intros Hm Hi. destruct (mem_ok_ring _ _ Hm Hi) as (r & Hr & Hok).
  destruct (push_run (mClientId t) msg r Hok) as (r' & Hp & Hok' & Hc).
  eexists. split; [|split; [by apply (write_mem_ok (mSharedMemory t) i r')|split; [done|]]].
  - unfold push_to, ring_at, write_ring, mbind, M_bind, gets, lift, modify. rewrite Hr. simpl.
    by rewrite Hp.
  - rewrite write_queues, Hc. apply insert_alter. unfold queues. by rewrite list_lookup_fmap, Hr.
Qed.

(** Every other client's queue below [n] gets the message. *)
Definition enqueue_others (me n : nat) (m : Message) (qs : list (list Message)) :
    list (list Message) :=
  imap (λ i q, if decide (i < n ∧ i ≠ me)%nat then enqueue m q else q) qs.

Lemma enqueue_others_S me n m qs :
  (if decide (n = me) then enqueue_others me n m qs
   else alter (enqueue m) n (enqueue_others me n m qs)) = enqueue_others me (S n) m qs.
Proof.
  unfold enqueue_others. apply list_eq. intros i. case_decide as Hn.
  - rewrite !list_lookup_imap. destruct (qs !! i); simpl; [|done]. f_equal.
    repeat case_decide; try done; lia.
  - destruct (decide (n = i)) as [->|Hne].
    + rewrite list_lookup_alter_eq, !list_lookup_imap. destruct (qs !! i); simpl; [|done].
      by rewrite decide_False, decide_True by lia.
    + rewrite list_lookup_alter_ne, !list_lookup_imap by done.
      destruct (qs !! i); simpl; [|done]. f_equal. repeat case_decide; try done; lia.
Qed.

Lemma push_to_others_run t n msg :
  mem_ok (mSharedMemory t) → (n ≤ MAX_CLIENTS)%nat →
  ∃ mem', push_to_others (seq 0 n) msg t = (Ret tt, upd_mSharedMemory (λ _, mem') t) ∧
    mem_ok mem' ∧ num_clients mem' = num_clients (mSharedMemory t) ∧
    queues mem' = enqueue_others (mClientId t) n (mkMessage (mClientId t) msg)
                    (queues (mSharedMemory t)).
Proof.
  intros Hm. unfold push_to_others. unfold mbind, M_bind, gets.
  induction n as [|n IH]; intros Hn.
  - exists (mSharedMemory t). split; [by destruct t|]. split; [done|]. split; [done|].
    unfold enqueue_others. apply list_eq. intros i. rewrite list_lookup_imap.
    by destruct (queues _ !! i).
  - destruct IH as (mem' & Hr & Hok & Hnum & Hq); [lia|].
    rewrite seq_S, for_each_app. unfold mbind, M_bind. rewrite Hr. simpl.
    rewrite <-enqueue_others_S, <-Hq. unfold mbind, M_bind.
    destruct (decide (n = mClientId t)) as [Heq|Hne].
    + exists mem'. done.
    + destruct (push_to_run (upd_mSharedMemory (λ _, mem') t) n msg) as (mem'' & Hr' & Hok' & Hnum' & Hq');
        [done|lia|].
      exists mem''. rewrite Hr'. simpl in *. split; [done|]. split; [done|]. split; [congruence|done].
Qed.
End queues.

Lemma length_list_byte_of_string s : length (list_byte_of_string s) = String.length s.
Proof.
  unfold list_byte_of_string. rewrite List.length_map. induction s; simpl; congruence.
Qed.

(** ** What a client does with its messages *)

Section processing.
Context {AS : Asio} {LK : Link} {node_size : nat} {LW : LinkLaws node_size}.
Context {W : Type} {GW : GatewayOps W} (I : W → Prop) {GL : GatewayLaws W I}.
Implicit Types (t : ShmTunnel W) (m : Message).

(** A buffer whose size field stays inside it. *)
Definition buf_ok (buf : list byte) : Prop :=
  length buf = kMaxMessageSize ∧
  ∀ context payload, decapsulate buf = Ret (Some (context, payload)) →
    ctx_size context ≤ Z.of_nat kMaxMessageSize.
Definition msg_ok m : Prop := (source m < MAX_CLIENTS)%nat ∧ buf_ok (message m).

Record shm_inv t : Prop := {
  shm_mem : mem_ok (mSharedMemory t);
  shm_count : (num_clients (mSharedMemory t) ≤ MAX_CLIENTS)%nat;
  shm_msgs : Forall (Forall msg_ok) (queues (mSharedMemory t));
  shm_id : (mClientId t < MAX_CLIENTS)%nat;
  shm_cache : wf (mDedupCache (base t));
  shm_world : I (world t);
  shm_routes : map_Forall (λ _ i, (i < MAX_CLIENTS)%nat) (remoteNodeIdToTunnelClientIdx t);
}.

(** The part of the state that listening changes, with queues for the rings. *)
Record view := mkView {
  v_world : W;
  v_routes : gmap NodeId nat;
  v_states : gmap nat TunnelClientState;
  v_queues : list (list Message);
}.
Definition abs t : view :=
  mkView (world t) (remoteNodeIdToTunnelClientIdx t) (tunnelClientStates t)
    (queues (mSharedMemory t)).

(** The rest of it. *)
Definition same_client t t' : Prop :=
  base t' = base t ∧ mClientId t' = mClientId t ∧ is_running t' = is_running t ∧
  posted_listens t' = posted_listens t ∧
  num_clients (mSharedMemory t') = num_clients (mSharedMemory t) ∧ in_listen t' = in_listen t.

(** The buffer of a control message. *)
Definition control_buffer (ty : TunnelMessageType) (text : string) : list byte :=
  filled kMaxMessageSize
    (header (mkContext NodeId_zero ty None 0) (length (list_byte_of_string text)) ++
     list_byte_of_string text).

Definition learn (n : NodeId) (src : nat) (routes : gmap NodeId nat) : gmap NodeId nat :=
  match routes !! n with Some _ => routes | None => <[n := src]> routes end.

(** The effect of one message on client [me] with gateways [gs]. *)
Definition view_step (gs : list nat) (me : nat) m (v : view) : view :=
  match decapsulate (message m) with
  | Ret (Some (context, payload)) =>
      match ctx_type context with
      | TUNNEL_HELLO =>
          match v_states v !! source m with
          | None => mkView (v_world v) (v_routes v)
              (<[source m := TUNNEL_CLIENT_STATE_HELLO]> (v_states v))
              (alter (enqueue (mkMessage me (control_buffer TUNNEL_HELLO "ello"))) (source m)
                 (v_queues v))
          | Some _ => mkView (v_world v) (v_routes v)
              (<[source m := TUNNEL_CLIENT_STATE_CONNECTED]> (v_states v)) (v_queues v)
          end
      | TUNNEL_BYE =>
          mkView (v_world v) (v_routes v) (delete (source m) (v_states v)) (v_queues v)
      | BYEBYE =>
          mkView (v_world v) (delete (ctx_from_node context) (v_routes v)) (v_states v) (v_queues v)
      | ty =>
          mkView (forward_locally gs ty (ctx_from_node context) payload (ctx_size context)
                    (ctx_to_node context) (v_world v)).2
            (learn (ctx_from_node context) (source m) (v_routes v)) (v_states v) (v_queues v)
      end
  | _ => v
  end.

Lemma length_encapsulated context message buf :
  encapsulate context message = Ret (Some buf) → length buf = kMaxMessageSize.
Proof.
  rewrite encapsulate_run. case_match eqn:Hto; [done|]. case_decide; [|done]. intros [= <-].
  apply length_filled. rewrite length_app, length_header; [done|].
  intros Hty. rewrite Hty in Hto. simpl in Hto. destruct (ctx_to_node context); [by eexists|done].
Qed.

Lemma encapsulated_buf_ok context message buf :
  named (ctx_type context) = true → well_addressed context →
  encapsulate context message = Ret (Some buf) → buf_ok buf.
Proof.
  intros Hn Hw He. split; [by eapply length_encapsulated|]. intros context' payload.
  revert He. rewrite encapsulate_run. case_match; [done|]. case_decide; [|done].
  intros [= <-]. rewrite decapsulate_header by done. intros [= <- <-]. simpl. lia.
Qed.

Lemma encapsulate_control ty text :
  has_to_node ty = false → (String.length text ≤ 8)%nat →
  encapsulate (mkContext NodeId_zero ty None 0) (list_byte_of_string text) =
    Ret (Some (control_buffer ty text)).
Proof.
  intros Hty Hlen. rewrite encapsulate_run. cbn [ctx_type]. rewrite Hty. cbn [andb].
  rewrite decide_True; [done|]. rewrite length_list_byte_of_string.
  pose proof kMax_header. unfold header_size. rewrite Hty. lia.
Qed.

Lemma control_buf_ok ty text :
  named ty = true → has_to_node ty = false → (String.length text ≤ 8)%nat →
  buf_ok (control_buffer ty text).
Proof.
  intros Hn Hty Hlen. eapply encapsulated_buf_ok; [..|by apply encapsulate_control]; [done|].
  unfold well_addressed. cbn [ctx_type]. by rewrite Hty.
Qed.

Lemma say_in_tunnel_run ty text to t :
  has_to_node ty = false → (String.length text ≤ 8)%nat →
  say_in_tunnel ty text to t =
    match to with
    | Some i => push_to i (control_buffer ty text) t
    | None => push_to_others (seq 0 (num_clients (mSharedMemory t))) (control_buffer ty text) t
    end.
Proof.
  intros Hty Hlen. unfold say_in_tunnel. unfold mbind at 1, M_bind at 1, lift at 1.
  rewrite encapsulate_control by done. by destruct to.
Qed.

Lemma enqueue_msgs m (q : list Message) : msg_ok m → Forall msg_ok q → Forall msg_ok (enqueue m q).
Proof.
  intros Hm Hq. unfold enqueue. case_decide; [|done]. apply Forall_app. by split; [|constructor].
Qed.

(** Any change of the shared memory by pushes of good messages. *)
Lemma inv_memory t mem :
  shm_inv t → mem_ok mem → (num_clients mem ≤ MAX_CLIENTS)%nat →
  Forall (Forall msg_ok) (queues mem) → shm_inv (upd_mSharedMemory (λ _, mem) t).
Proof. intros [] ???. by split. Qed.

Lemma push_to_inv t i buf :
  shm_inv t → (i < MAX_CLIENTS)%nat → buf_ok buf →
  ∃ t', push_to i buf t = (Ret tt, t') ∧ shm_inv t' ∧ same_client t t' ∧
    abs t' = mkView (world t) (remoteNodeIdToTunnelClientIdx t) (tunnelClientStates t)
      (alter (enqueue (mkMessage (mClientId t) buf)) i (queues (mSharedMemory t))).
Proof.
  intros Ht Hi Hb. destruct (push_to_run t i buf) as (mem & Hr & Hok & Hn & Hq);
    [by apply shm_mem|done|].
  eexists. split; [exact Hr|]. split; [|split; [done|by rewrite <-Hq]].
  apply inv_memory; [done|done|rewrite Hn; by apply shm_count|].
  rewrite Hq. apply Forall_alter; [by apply shm_msgs|]. intros q _ Hall.
  apply enqueue_msgs; [split; [by apply shm_id|done]|done].
Qed.

Lemma push_to_others_inv t n buf :
  shm_inv t → (n ≤ MAX_CLIENTS)%nat → buf_ok buf →
  ∃ t', push_to_others (seq 0 n) buf t = (Ret tt, t') ∧ shm_inv t' ∧ same_client t t' ∧
    abs t' = mkView (world t) (remoteNodeIdToTunnelClientIdx t) (tunnelClientStates t)
      (enqueue_others (mClientId t) n (mkMessage (mClientId t) buf) (queues (mSharedMemory t))).
Proof.
  intros Ht Hi Hb. destruct (push_to_others_run t n buf) as (mem & Hr & Hok & Hn & Hq);
    [by apply shm_mem|done|].
  eexists. split; [exact Hr|]. split; [|split; [done|by rewrite <-Hq]].
  apply inv_memory; [done|done|rewrite Hn; by apply shm_count|].
  rewrite Hq. apply Forall_lookup_2. intros i q. unfold enqueue_others.
  rewrite list_lookup_imap. destruct (queues _ !! i) as [q'|] eqn:Hq'; [|done].
  intros [= <-]. assert (Forall msg_ok q') as Hall.
  { eapply Forall_lookup_1; [by apply (shm_msgs t)|done]. }
  case_decide; [|done]. apply enqueue_msgs; [split; [by apply shm_id|done]|done].
Qed.

Lemma learn_range n src (routes : gmap NodeId nat) :
  (src < MAX_CLIENTS)%nat → map_Forall (λ _ i, (i < MAX_CLIENTS)%nat) routes →
  map_Forall (λ _ i, (i < MAX_CLIENTS)%nat) (learn n src routes).
Proof.
  intros Hs Hr. unfold learn. case_match; [done|]. by apply map_Forall_insert_2.
Qed.

Lemma deliver_inv t context (payload : list byte) :
  shm_inv t → length payload = kMaxMessageSize →
  0 ≤ ctx_size context ≤ Z.of_nat kMaxMessageSize → well_addressed context →
  ∃ t', deliver context payload t = (Ret tt, t') ∧ shm_inv t' ∧ same_client t t' ∧
    abs t' = mkView (forward_locally (gateways (base t)) (ctx_type context) (ctx_from_node context)
                payload (ctx_size context) (ctx_to_node context) (world t)).2
      (remoteNodeIdToTunnelClientIdx t) (tunnelClientStates t) (queues (mSharedMemory t)).
Proof.
  intros Ht Hlen Hsize Hto. unfold deliver. unfold mbind at 1, M_bind at 1, gets at 1.
  unfold mbind at 1, M_bind at 1, zoom.
  destruct (returns_run _ _ _ (forward_locally_returns I (gateways (base t)) (ctx_type context)
    (ctx_from_node context) payload (Z.to_nat (ctx_size context)) (ctx_to_node context) (world t)
    (shm_world t Ht) Hlen ltac:(lia)
    ltac:(unfold well_addressed in Hto; intros Hty; by rewrite Hty in Hto)))
    as (buf' & w' & Hr & HI & _).
  rewrite Z2Nat.id in Hr by lia. rewrite Hr. eexists. split; [done|].
  split; [|by split]. destruct Ht. by split.
Qed.

(** A message for the gateways: its source is learnt and it is delivered. *)
Lemma learn_deliver_inv t src context (payload : list byte) :
  shm_inv t → (src < MAX_CLIENTS)%nat → length payload = kMaxMessageSize →
  0 ≤ ctx_size context ≤ Z.of_nat kMaxMessageSize → well_addressed context →
  ∃ t', (modify (upd_remoteNodeIdToTunnelClientIdx (learn (ctx_from_node context) src));;
         deliver context payload) t = (Ret tt, t') ∧ shm_inv t' ∧ same_client t t' ∧
    abs t' = mkView (forward_locally (gateways (base t)) (ctx_type context) (ctx_from_node context)
                payload (ctx_size context) (ctx_to_node context) (world t)).2
      (learn (ctx_from_node context) src (remoteNodeIdToTunnelClientIdx t))
      (tunnelClientStates t) (queues (mSharedMemory t)).
Proof.
  intros Ht Hsrc Hlen Hsize Hto. unfold mbind, M_bind, modify.
  destruct (deliver_inv (upd_remoteNodeIdToTunnelClientIdx
    (learn (ctx_from_node context) src) t) context payload) as (t' & ? & ? & ? & ?); try done.
  - destruct Ht. split; try done. by apply learn_range.
  - by exists t'.
Qed.

(** One message is handled as [view_step] says. *)
Lemma handle_popped_run t m :
  shm_inv t → msg_ok m →
  ∃ t', handle_popped m t = (Ret tt, t') ∧ shm_inv t' ∧ same_client t t' ∧
    abs t' = view_step (gateways (base t)) (mClientId t) m (abs t).
Proof.
  intros Ht (Hsrc & Hlen & Hsize). unfold handle_popped, view_step.
  unfold mbind at 1, M_bind at 1, lift.
  destruct (decapsulate_run (message m) Hlen) as (context & Hd & Hz & Hto).
  rewrite Hd in *. specialize (Hsize _ _ eq_refl).
  set (payload := filled _ _). assert (length payload = kMaxMessageSize) as Hpl.
  { apply length_filled. rewrite length_drop. lia. }
  clearbody payload. unfold handle_message.
  pose proof (learn_deliver_inv t (source m) context payload Ht Hsrc Hpl ltac:(lia) Hto) as Hl.
  destruct (ctx_type context) eqn:Hty; try exact Hl.
  - unfold mbind at 1, M_bind at 1, gets. cbn [abs v_states v_world v_routes v_queues].
    destruct (tunnelClientStates t !! source m) eqn:Hst.
    + rewrite decide_False by done. eexists. split; [done|].
      split; [by destruct Ht|]. by split.
    + rewrite decide_True by done. unfold mbind, M_bind, modify.
      rewrite say_in_tunnel_run by (done || simpl; lia).
      destruct (push_to_inv (upd_tunnelClientStates <[source m:=TUNNEL_CLIENT_STATE_HELLO]> t)
        (source m) (control_buffer TUNNEL_HELLO "ello")) as (t' & Hr & Hi & Hs & Ha); [|done| |].
      * by destruct Ht.
      * apply control_buf_ok; [done|done|simpl; lia].
      * by exists t'.
  - eexists. split; [done|]. split; [by destruct Ht|]. by split.
  - eexists. split; [done|]. split; [|by split]. destruct Ht. split; try done.
    by apply map_Forall_delete.
Qed.

(** *** The listening loop *)

(** The messages that wait for a client. *)
Definition waiting t : list Message := default [] (queues (mSharedMemory t) !! mClientId t).

Lemma own_queue t : shm_inv t → queues (mSharedMemory t) !! mClientId t = Some (waiting t).
Proof.
  intros Ht. destruct (mem_ok_ring _ _ (shm_mem t Ht) (shm_id t Ht)) as (r & Hr & _).
  unfold waiting, queues. rewrite list_lookup_fmap, Hr. done.
Qed.

Lemma waiting_ok t : shm_inv t → Forall msg_ok (waiting t) ∧ (length (waiting t) ≤ capacity)%nat.
Proof.
  intros Ht. pose proof (own_queue t Ht) as Hq. split.
  - by eapply Forall_lookup_1; [apply (shm_msgs t Ht)|].
  - unfold queues in Hq. rewrite list_lookup_fmap in Hq.
    destruct (mem_ok_ring _ _ (shm_mem t Ht) (shm_id t Ht)) as (r & Hr & Hok).
    rewrite Hr in Hq. injection Hq as <-. rewrite length_contents by done. by apply count_capacity.
Qed.

Definition with_queue (i : nat) (q : list Message) (v : view) : view :=
  mkView (v_world v) (v_routes v) (v_states v) (<[i := q]> (v_queues v)).

(** One turn of the loop: the oldest message leaves the queue. *)
Lemma listen_turn_run t :
  shm_inv t → ∃ t1, shm_inv t1 ∧ same_client t t1 ∧
    abs t1 = with_queue (mClientId t) (tail (waiting t)) (abs t) ∧
    listen_turn t =
      match head (waiting t) with
      | None => (Ret false, t1)
      | Some m => if is_running t then (handle_popped m;; mret true) t1 else (Ret false, t1)
      end.
Proof.
  intros Ht. destruct (mem_ok_ring _ _ (shm_mem t Ht) (shm_id t Ht)) as (r & Hr & Hok).
  destruct (pop_run r Hok) as (r' & Hp & Hok' & Hc).
  assert (waiting t = contents r) as Hw.
  { unfold waiting, queues. by rewrite list_lookup_fmap, Hr. }
  set (mem := mkShared (num_clients (mSharedMemory t))
                (<[mClientId t := r']> (broadcast (mSharedMemory t)))).
  assert (queues mem = <[mClientId t := tail (waiting t)]> (queues (mSharedMemory t))) as Hq.
  { unfold mem. by rewrite write_queues, Hc, Hw. }
  exists (upd_mSharedMemory (λ _, mem) t). split; [|split; [done|split]].
  - apply inv_memory; [done|apply write_mem_ok; [by apply shm_mem|done]|by apply shm_count|].
    rewrite Hq. apply Forall_insert; [by apply shm_msgs|].
    destruct (waiting_ok t Ht) as [Hall _]. destruct (waiting t); [constructor|]. by inv Hall.
  - unfold with_queue, abs. simpl. by rewrite Hq.
  - unfold listen_turn. unfold mbind at 1, M_bind at 1, gets at 1. unfold mbind at 1, M_bind at 1.
    unfold ring_at. unfold mbind at 1, M_bind at 1, gets at 1. rewrite Hr.
    unfold mbind at 1, M_bind at 1, lift, mret at 1, M_ret at 1. rewrite Hp.
    unfold mbind at 1, M_bind at 1, write_ring, modify. rewrite Hw.
    destruct (head (contents r)); [|done]. unfold mbind at 1, M_bind at 1, gets.
    assert (∀ f, is_running (upd_mSharedMemory f t) = is_running t) as -> by done.
    by destruct (is_running t).
Qed.

(** A message that is handled. *)
Lemma listen_turn_handles t m q :
  shm_inv t → waiting t = m :: q → is_running t = true →
  ∃ t', listen_turn t = (Ret true, t') ∧ shm_inv t' ∧ same_client t t' ∧
    abs t' = view_step (gateways (base t)) (mClientId t) m (with_queue (mClientId t) q (abs t)).
Proof.
  intros Ht Hq Hrun. destruct (listen_turn_run t Ht) as (t1 & Ht1 & Hs1 & Ha1 & Hl).
  destruct (waiting_ok t Ht) as [Hok _]. rewrite Hq in Hl, Ha1, Hok. simpl in Hl, Ha1.
  apply Forall_cons in Hok as [Hm _]. destruct (handle_popped_run t1 m Ht1 Hm) as (t2 & Hr2 & Ht2 & Hs2 & Ha2).
  exists t2. rewrite Hl, Hrun. unfold mbind, M_bind. rewrite Hr2. split; [done|]. split; [done|].
  pose proof Hs1 as (Hb & Hid & _). rewrite <-Ha1, <-Hb, <-Hid. split; [|done].
  unfold same_client in *. intuition congruence.
Qed.

(** A turn that ends the loop. *)
Lemma listen_turn_ends t :
  shm_inv t → (waiting t = [] ∨ is_running t = false) →
  ∃ t', listen_turn t = (Ret false, t') ∧ shm_inv t' ∧ same_client t t' ∧
    abs t' = with_queue (mClientId t) (tail (waiting t)) (abs t).
Proof.
  intros Ht Hend. destruct (listen_turn_run t Ht) as (t1 & Ht1 & Hs1 & Ha1 & Hl).
  exists t1. rewrite Hl. split; [|done]. destruct Hend as [-> | ->]; [done|].
  by destruct (head (waiting t)).
Qed.

Lemma view_step_own gs me m v :
  source m ≠ me → v_queues (view_step gs me m v) !! me = v_queues v !! me.
Proof.
  intros Hne. unfold view_step. destruct (decapsulate _) as [[[context payload]|]| |]; try done.
  destruct (ctx_type context); try done. destruct (v_states v !! source m); [done|]. simpl.
  by apply list_lookup_alter_ne.
Qed.

Lemma view_step_with_queue gs me m q v :
  source m ≠ me → with_queue me q (view_step gs me m v) = view_step gs me m (with_queue me q v).
Proof.
  intros Hne. unfold view_step. destruct (decapsulate _) as [[[context payload]|]| |]; try done.
  destruct (ctx_type context); try done. simpl. destruct (v_states v !! source m); [done|].
  unfold with_queue. simpl. f_equal. apply list_eq. intros i.
  destruct (decide (i = me)) as [->|Hi].
  - rewrite list_lookup_alter_ne, !list_lookup_insert by done. rewrite length_alter.
    by rewrite list_lookup_alter_ne by done.
  - rewrite list_lookup_insert_ne by done.
    destruct (decide (i = source m)) as [->|Hs].
    + by rewrite !list_lookup_alter_eq, list_lookup_insert_ne.
    + by rewrite !list_lookup_alter_ne, list_lookup_insert_ne by done.
Qed.

Lemma with_queue_twice i q q' v : with_queue i q (with_queue i q' v) = with_queue i q v.
Proof. unfold with_queue. simpl. f_equal. apply list_insert_insert_eq. Qed.

(** Listening handles the waiting messages, oldest first. *)
Lemma listen_loop_run q fuel t :
  waiting t = q → shm_inv t → is_running t = true →
  Forall (λ m, source m ≠ mClientId t) q → (length q < fuel)%nat →
  ∃ t', listen_loop fuel t = (Ret true, t') ∧ shm_inv t' ∧ same_client t t' ∧
    abs t' = foldl (λ v m, view_step (gateways (base t)) (mClientId t) m v)
               (with_queue (mClientId t) [] (abs t)) q.
Proof.
  revert fuel t. induction q as [|m q IH]; intros [|fuel] t Hq Ht Hrun Hsrc Hf; simpl in Hf; try lia;
    cbn [listen_loop]; unfold mbind at 1, M_bind at 1.
  - destruct (listen_turn_ends t Ht (or_introl Hq)) as (t1 & -> & Ht1 & Hs1 & Ha1).
    rewrite Hq in Ha1. by exists t1.
  - apply Forall_cons in Hsrc as [Hm Hsrc].
    destruct (listen_turn_handles t m q Ht Hq Hrun) as (t2 & -> & Ht2 & Hs & Ha2).
    pose proof Hs as (Hb & Hid & Hru & _).
    destruct (IH fuel t2) as (t' & Hr & Ht' & Hs' & Ha); try done; try congruence.
    + unfold waiting. change (queues (mSharedMemory t2)) with (v_queues (abs t2)).
      rewrite Hid, Ha2, view_step_own by done. unfold with_queue. simpl.
      rewrite list_lookup_insert_eq; [done|]. eapply lookup_lt_Some. by apply own_queue.
    + by rewrite Hid.
    + lia.
    + exists t'. split; [done|]. split; [done|]. split.
      * unfold same_client in *. intuition congruence.
      * by rewrite Ha, Hb, Hid, Ha2, view_step_with_queue, with_queue_twice by done.
Qed.
End processing.
