(* ===== verification/ShmTunnelSpec.v ===== *)
(** * ShmTunnel.hpp: what a client promises

    Joining, forwarding, listening and leaving, as changes of the queues in
    shared memory; the transition system of one client among others, who may
    push between two turns of a listen call; the theorems and their witnesses. *)

From Stdlib Require Import Strings.String.
From S2P Require Import Prelude LinkLib Sample DedupCache Tunnel SharedRing ShmTunnel.

Section outcomes.
Context {AS : Asio} {LK : Link} {node_size : nat} {LW : LinkLaws node_size}.
Context {W : Type} {GW : GatewayOps W} (I : W → Prop) {GL : GatewayLaws W I}.
Implicit Types (t : ShmTunnel W) (m : Message).

(** *** Termination of the loop

    A message makes the client push at most one message to its own queue, and
    only when it has not observed itself yet. *)
Definition work (me : nat) (v : view (W:=W)) : nat :=
  2 * length (default [] (v_queues v !! me)) +
  match v_states v !! me with None => 1 | Some _ => 0 end.

(** Enough for any queue: [work] is at most [2 * capacity + 1]. *)
Definition listen_fuel : nat := 2 * MAX_MESSAGES.

Lemma length_enqueue m q : (length (enqueue m q) ≤ S (length q))%nat.
Proof. unfold enqueue. case_decide; [rewrite length_app; simpl|]; lia. Qed.

Lemma work_step gs me m v : (work me (view_step gs me m v) ≤ S (work me v))%nat.
Proof.
  unfold view_step. destruct (decapsulate _) as [[[context payload]|]| |]; try lia.
  destruct (ctx_type context); unfold work; simpl; try lia.
  - destruct (v_states v !! source m) eqn:Hs; simpl.
    + destruct (decide (source m = me)) as [<-|Hne].
      * rewrite lookup_insert_eq, Hs. lia.
      * rewrite lookup_insert_ne by done. lia.
    + destruct (decide (source m = me)) as [<-|Hne].
      * rewrite lookup_insert_eq, list_lookup_alter_eq, Hs.
        destruct (v_queues v !! source m) as [q|]; simpl; [|lia].
        pose proof (length_enqueue (mkMessage (source m) (control_buffer TUNNEL_HELLO "ello")) q). lia.
      * rewrite lookup_insert_ne, list_lookup_alter_ne by done. lia.
  - destruct (decide (source m = me)) as [<-|Hne].
    + rewrite lookup_delete_eq. case_match; lia.
    + rewrite lookup_delete_ne by done. lia.
Qed.

Lemma work_turn t q :
  shm_inv I t → S (length q) = length (waiting t) →
  (work (mClientId t) (with_queue (mClientId t) q (abs t)) + 2 = work (mClientId t) (abs t))%nat.
Proof.
  intros Ht Hq. unfold work, with_queue. simpl. pose proof (own_queue I t Ht) as Hown.
  rewrite list_lookup_insert_eq by (by eapply lookup_lt_Some).
  rewrite Hown. simpl. lia.
Qed.

Lemma same_client_trans t1 t2 t3 : same_client t1 t2 → same_client t2 t3 → same_client t1 t3.
Proof. unfold same_client. intuition congruence. Qed.

(** One turn, whatever waits: the body ran and there is less to do, or not. *)
Lemma listen_turn_works t :
  shm_inv I t →
  ∃ again t', listen_turn t = (Ret again, t') ∧ shm_inv I t' ∧ same_client t t' ∧
    (again = true → work (mClientId t) (abs t') < work (mClientId t) (abs t))%nat ∧
    (waiting t = [] ∨ is_running t = false → again = false).
Proof.
  intros Ht. destruct (waiting t) as [|m q] eqn:Hq.
  { destruct (listen_turn_ends I t Ht (or_introl Hq)) as (t' & Hr & Ht' & Hs & _).
    by exists false, t'. }
  destruct (is_running t) eqn:Hrun.
  - destruct (listen_turn_handles I t m q Ht Hq Hrun) as (t' & Hr & Ht' & Hs & Ha).
    exists true, t'. split; [done|]. split; [done|]. split; [done|]. split; [|by intros [|]].
    intros _. rewrite Ha.
    pose proof (work_step (gateways (base t)) (mClientId t) m (with_queue (mClientId t) q (abs t))).
    pose proof (work_turn t q Ht). rewrite Hq in *. simpl in *. lia.
  - destruct (listen_turn_ends I t Ht (or_intror Hrun)) as (t' & Hr & Ht' & Hs & _).
    by exists false, t'.
Qed.

(** Whatever waits, the loop ends and keeps the invariant. *)
Lemma listen_loop_terminates fuel t :
  shm_inv I t → (work (mClientId t) (abs t) < fuel)%nat →
  ∃ t', listen_loop fuel t = (Ret true, t') ∧ shm_inv I t' ∧ same_client t t'.
Proof.
  revert t. induction fuel as [|fuel IH]; intros t Ht Hf; [lia|].
  cbn [listen_loop]. unfold mbind at 1, M_bind at 1.
  destruct (listen_turn_works t Ht) as (again & t1 & -> & Ht1 & Hs1 & Hw & _).
  destruct again; [|by exists t1]. specialize (Hw eq_refl). pose proof Hs1 as (_ & Hid & _).
  destruct (IH t1 Ht1) as (t' & Hr & Ht' & Hs'); [rewrite Hid; lia|].
  exists t'. split; [done|]. split; [done|]. by eapply same_client_trans.
Qed.

Lemma work_bound t : shm_inv I t → (work (mClientId t) (abs t) < listen_fuel)%nat.
Proof.
  intros Ht. unfold work. simpl. rewrite (own_queue I t Ht). simpl.
  destruct (waiting_ok I t Ht) as [_ Hl]. unfold listen_fuel, capacity, MAX_MESSAGES in *.
  case_match; lia.
Qed.

Lemma inv_posted f t : shm_inv I t → shm_inv I (upd_posted_listens f t).
Proof. by intros []. Qed.
Lemma inv_in_listen f t : shm_inv I t → shm_inv I (upd_in_listen f t).
Proof. by intros []. Qed.

Lemma listen_end_run t :
  listen_end t = (Ret tt, if is_running t then upd_posted_listens S t else t).
Proof. unfold listen_end, mbind, M_bind, gets. by destruct (is_running t). Qed.

(** The state [listen] leaves behind a finished loop. *)
Lemma listen_after fuel t t' :
  listen_loop fuel t = (Ret true, t') → is_running t' = is_running t →
  listen fuel t = (Ret true, if is_running t then upd_posted_listens S t' else t').
Proof.
  intros Hr Hrun. unfold listen. unfold mbind at 1, M_bind at 1. rewrite Hr.
  unfold mbind, M_bind. by rewrite listen_end_run, Hrun.
Qed.

(** *** Forwarding *)

(** The buffer [forward] pushes. *)
Definition message_buffer (ty : TunnelMessageType) (from : NodeId) (to : option NodeId)
    (message : list byte) : list byte :=
  filled kMaxMessageSize (header (mkContext from ty to 0) (length message) ++ message).

(** The queues after it is pushed. *)
Definition forward_queues (ty : TunnelMessageType) (to : option NodeId) (buf : list byte) t :
    list (list Message) :=
  let m := mkMessage (mClientId t) buf in
  let qs := queues (mSharedMemory t) in
  match ty with
  | UNICAST | MEASUREMENT_PING =>
      match to ≫= λ n, remoteNodeIdToTunnelClientIdx t !! n with
      | Some i => alter (enqueue m) i qs
      | None => qs
      end
  | _ => enqueue_others (mClientId t) MAX_CLIENTS m qs
  end.

(** What [forward] leaves alone. *)
Definition same_but_memory t t' : Prop :=
  world t' = world t ∧ mClientId t' = mClientId t ∧ is_running t' = is_running t ∧
  remoteNodeIdToTunnelClientIdx t' = remoteNodeIdToTunnelClientIdx t ∧
  tunnelClientStates t' = tunnelClientStates t ∧ posted_listens t' = posted_listens t ∧
  num_clients (mSharedMemory t') = num_clients (mSharedMemory t) ∧ in_listen t' = in_listen t.

Lemma same_memory t t' :
  same_client t t' → world t' = world t →
  remoteNodeIdToTunnelClientIdx t' = remoteNodeIdToTunnelClientIdx t →
  tunnelClientStates t' = tunnelClientStates t → same_but_memory t t'.
Proof. by intros (?&?&?&?&?&?) ???. Qed.

Lemma shm_inv_cache_upd t c : shm_inv I t → wf c → shm_inv I (upd_base (set_mDedupCache c) t).
Proof. intros [] ?. by split. Qed.

Lemma push_to_targets_run t ty to buf :
  shm_inv I t → buf_ok buf →
  ∃ t', push_to_targets ty to buf t = (Ret tt, t') ∧ shm_inv I t' ∧ base t' = base t ∧
    same_but_memory t t' ∧ queues (mSharedMemory t') = forward_queues ty to buf t.
Proof.
  intros Ht Hbuf.
  assert (∃ t', (mem ← gets mSharedMemory; push_to_others (seq 0 (length (broadcast mem))) buf) t =
      (Ret tt, t') ∧ shm_inv I t' ∧ base t' = base t ∧ same_but_memory t t' ∧
      queues (mSharedMemory t') = enqueue_others (mClientId t) MAX_CLIENTS
        (mkMessage (mClientId t) buf) (queues (mSharedMemory t))) as Hall.
  { destruct (push_to_others_inv I t MAX_CLIENTS buf Ht (le_n _) Hbuf) as (t' & Hr & Hi & Hs & Ha).
    exists t'. unfold mbind, M_bind, gets. destruct (shm_mem I t Ht) as [-> _].
    injection Ha as ????. split; [done|]. split; [done|]. split; [by destruct Hs|].
    by split; [apply same_memory|]. }
  assert (∃ t', (m ← gets remoteNodeIdToTunnelClientIdx;
       match to ≫= λ n, m !! n with Some clientIdx => push_to clientIdx buf | None => skip end) t =
      (Ret tt, t') ∧ shm_inv I t' ∧ base t' = base t ∧ same_but_memory t t' ∧
      queues (mSharedMemory t') =
        match to ≫= λ n, remoteNodeIdToTunnelClientIdx t !! n with
        | Some i => alter (enqueue (mkMessage (mClientId t) buf)) i (queues (mSharedMemory t))
        | None => queues (mSharedMemory t)
        end) as Hone.
  { unfold mbind at 1, M_bind at 1, gets.
    destruct (to ≫= λ n, remoteNodeIdToTunnelClientIdx t !! n) as [i|] eqn:Hi; [|by exists t].
    assert (i < MAX_CLIENTS)%nat as Hrange.
    { destruct to as [n|]; [|done]. by eapply (shm_routes I t Ht). }
    destruct (push_to_inv I t i buf Ht Hrange Hbuf) as (t' & Hr & Hv & Hs & Ha).
    exists t'. injection Ha as ????. split; [done|]. split; [done|]. split; [by destruct Hs|].
    by split; [apply same_memory|]. }
  destruct ty; try exact Hall; exact Hone.
Qed.

Lemma shm_forward_run t ty from (message : list byte) to now :
  shm_inv I t → named ty = true →
  (header_size (node_size:=node_size) ty + length message ≤ kMaxMessageSize)%nat →
  ∃ fresh c t', shouldForward ty from message now (mDedupCache (base t)) = (Ret fresh, c) ∧
    forward ty from message to now t = (Ret tt, t') ∧ shm_inv I t' ∧
    base t' = set_mDedupCache c (base t) ∧ same_but_memory t t' ∧
    queues (mSharedMemory t') =
      if fresh && negb (has_to_node ty && bool_decide (to = None))
      then forward_queues ty to (message_buffer ty from to message) t
      else queues (mSharedMemory t).
Proof.
  intros Ht Hn Hfit.
  destruct (returns_run _ _ _ (shouldForward_wp ty from message now _ (shm_cache I t Ht)))
    as (fresh & c & Hr & Hwf).
  exists fresh, c. unfold forward. unfold mbind at 1, M_bind at 1, zoom at 1. rewrite Hr.
  set (t1 := upd_base (set_mDedupCache c) t).
  assert (shm_inv I t1) as Ht1 by by apply shm_inv_cache_upd.
  destruct fresh; [|by exists t1]. cbn [negb andb].
  unfold mbind at 1, M_bind at 1, lift.
  pose proof (encapsulate_run (mkContext from ty to 0) message) as He. cbn [ctx_type ctx_to_node] in He.
  destruct (has_to_node ty && bool_decide (to = None)) eqn:Hnone.
  { rewrite He. by exists t1. }
  rewrite decide_True in He by done. fold (message_buffer ty from to message) in He.
  assert (buf_ok (message_buffer ty from to message)) as Hbuf.
  { rewrite <-encapsulate_target in He. eapply encapsulated_buf_ok; [..|exact He]; [done|].
    apply wire_target_addressed. intros Hty. rewrite Hty in Hnone. by destruct to. }
  rewrite He. cbn [negb andb].
  destruct (push_to_targets_run t1 ty to _ Ht1 Hbuf) as (t' & ? & ? & ? & ? & ?).
  by exists t'.
Qed.

(** *** Joining *)

(** The shared memory as well-behaved clients leave it. *)
Definition shared_ok (mem : SharedMemory) : Prop :=
  mem_ok mem ∧ (num_clients mem ≤ MAX_CLIENTS)%nat ∧ Forall (Forall msg_ok) (queues mem).

Lemma zero_shared_queues n :
  queues (mkShared n (broadcast zero_shared)) = replicate MAX_CLIENTS [].
Proof.
  unfold queues, zero_shared. cbn [broadcast]. rewrite fmap_replicate.
  by rewrite (proj2 (new_ring_ok (zero_buffer kMaxMessageSize))).
Qed.

Lemma zero_shared_ok : shared_ok zero_shared.
Proof.
  split; [split|split].
  - done.
  - apply Forall_replicate. by apply new_ring_ok.
  - simpl. lia.
  - assert (queues zero_shared = replicate MAX_CLIENTS []) as -> by apply (zero_shared_queues 0).
    apply Forall_replicate. constructor.
Qed.

Lemma inv_new w mem id :
  I w → shared_ok mem → (id < MAX_CLIENTS)%nat →
  shm_inv I (mkShmTunnel new_TunnelBase w mem id true ∅ ∅ 0 false).
Proof.
  intros Hw (Hm & Hn & Hq) Hid. split; try done. apply new_wf. unfold kDedupCacheCapacity. lia.
Qed.

(** The client that a successful constructor call leaves. *)
Definition joined (w : W) (id : nat) t : Prop :=
  mClientId t = id ∧ num_clients (mSharedMemory t) = S id ∧ world t = w ∧
  base t = new_TunnelBase ∧ is_running t = true ∧ remoteNodeIdToTunnelClientIdx t = ∅ ∧
  tunnelClientStates t = ∅ ∧ posted_listens t = 1%nat ∧ in_listen t = false.

Lemma construct_first w object :
  num_clients (map_shared object) = 0%nat → I w →
  ∃ t, construct (before_constructor w object) = (Ret tt, t) ∧ shm_inv I t ∧ joined w 0 t ∧
    Forall (λ q, q = []) (queues (mSharedMemory t)).
Proof.
  intros Hn Hw. unfold construct, take_number, register_client. unfold mbind, M_bind, gets, modify.
  cbn [mSharedMemory mClientId upd_mClientId before_constructor]. rewrite decide_True by done. eexists. split; [done|]. split; [|split; [done|]].
  - apply inv_posted, (inv_new w (mkShared 1 (broadcast zero_shared)) _ Hw); [|cbn; rewrite Hn; unfold MAX_CLIENTS; lia].
    destruct zero_shared_ok as (? & ? & ?). split; [done|]. split; [cbn; unfold MAX_CLIENTS; lia|done].
  - cbn [mSharedMemory upd_posted_listens upd_mSharedMemory]. rewrite zero_shared_queues.
    by apply Forall_replicate.
Qed.

Lemma construct_next w object n :
  num_clients (map_shared object) = n → (1 ≤ n ≤ 3)%nat → I w → shared_ok (map_shared object) →
  ∃ t, construct (before_constructor w object) = (Ret tt, t) ∧ shm_inv I t ∧ joined w n t ∧
    queues (mSharedMemory t) = enqueue_others n (S n)
      (mkMessage n (control_buffer TUNNEL_HELLO "Hello")) (queues (map_shared object)).
Proof.
  intros Hn Hr Hw (Hm & Hc & Hq). unfold construct, take_number, register_client.
  unfold mbind, M_bind, gets, modify.
  cbn [mSharedMemory mClientId upd_mClientId before_constructor]. rewrite decide_False by lia.
  cbn [mSharedMemory upd_mSharedMemory upd_mClientId before_constructor num_clients].
  rewrite decide_False by (unfold MAX_CLIENTS; lia).
  set (t1 := upd_mSharedMemory _ _).
  assert (shm_inv I t1) as Ht1.
  { apply (inv_new w (mkShared (S (num_clients (map_shared object))) (broadcast (map_shared object)))
      (num_clients (map_shared object))); [done| |rewrite Hn; unfold MAX_CLIENTS; lia].
    split; [done|]. split; [cbn [num_clients]; rewrite Hn; unfold MAX_CLIENTS; lia|done]. }
  rewrite say_in_tunnel_run by (done || simpl; lia).
  destruct (push_to_others_inv I t1 (num_clients (mSharedMemory t1)) (control_buffer TUNNEL_HELLO "Hello"))
    as (t2 & Hr2 & Hi2 & (Hb & Hid & Hru & Hp & Hn2 & Hli) & Ha2); [done|by apply (shm_count I)| |].
  { apply control_buf_ok; [done|done|simpl; lia]. }
  rewrite Hr2. injection Ha2 as Hw2 Hro Hst Hqs. eexists. split; [done|].
  split; [by apply inv_posted|]. cbn in Hn2, Hqs, Hid, Hp, Hli. rewrite Hn in *.
  split; [|done]. unfold joined. cbn. rewrite Hp, Hli. split_and!; done.
Qed.

Lemma construct_full w object n :
  num_clients (map_shared object) = n → (4 ≤ n)%nat →
  ∃ t, construct (before_constructor w object) = (Throw RuntimeError, t) ∧
    mSharedMemory t = mkShared (S n) (broadcast (map_shared object)) ∧ posted_listens t = 0%nat.
Proof.
  intros Hn Hr. unfold construct, take_number, register_client.
  unfold mbind, M_bind, gets, modify.
  cbn [mSharedMemory mClientId upd_mClientId before_constructor]. rewrite decide_False by lia.
  cbn [mSharedMemory upd_mSharedMemory upd_mClientId before_constructor num_clients].
  rewrite decide_True by (unfold MAX_CLIENTS; lia). eexists. split; [done|].
  by rewrite <-Hn.
Qed.

(** *** Leaving *)

Lemma inv_gateways f t : shm_inv I t → shm_inv I (upd_base (upd_gateways f) t).
Proof. by intros []. Qed.

Lemma stop_gateways gs t :
  shm_inv I t →
  wp (for_each gs (λ g, zoom world (λ w, upd_world (λ _, w)) (gateway_stop_listening g))) t
    (λ _ t', shm_inv I t' ∧ base t' = base t ∧ mSharedMemory t' = mSharedMemory t ∧
       mClientId t' = mClientId t ∧ is_running t' = is_running t ∧
       posted_listens t' = posted_listens t ∧ in_listen t' = in_listen t) no_throw.
Proof.
  intros Ht. apply (wp_for_each gs _ t (λ _ t', shm_inv I t' ∧ base t' = base t ∧
    mSharedMemory t' = mSharedMemory t ∧ mClientId t' = mClientId t ∧
    is_running t' = is_running t ∧ posted_listens t' = posted_listens t ∧
    in_listen t' = in_listen t)); [|done].
  intros g _ t' (Ht' & Hrest). apply wp_zoom.
  eapply wp_mono; [by apply gateway_stop_listening_returns, (shm_world I t' Ht')| |done].
  intros u w' Hw'. split; [|done]. destruct Ht'. by split.
Qed.

(** The queues after the client has left. *)
Definition left_queues t : list (list Message) :=
  enqueue_others (mClientId t) (num_clients (mSharedMemory t))
    (mkMessage (mClientId t) (control_buffer TUNNEL_BYE "Bye"))
    (<[mClientId t := []]> (queues (mSharedMemory t))).

Lemma stop_listening_run t :
  shm_inv I t →
  ∃ t', stop_listening t = (Ret tt, t') ∧ shm_inv I t' ∧ is_running t' = false ∧
    gateways (base t') = [] ∧ queues (mSharedMemory t') = left_queues t ∧
    posted_listens t' = posted_listens t ∧ in_listen t' = in_listen t ∧
    num_clients (mSharedMemory t') = num_clients (mSharedMemory t).
Proof.
  intros Ht. unfold stop_listening. unfold mbind at 1, M_bind at 1, modify at 1.
  set (t1 := upd_is_running _ t). assert (shm_inv I t1) as Ht1 by by destruct Ht.
  unfold mbind at 1, M_bind at 1, gets at 1. unfold mbind at 1, M_bind at 1.
  destruct (returns_run _ _ _ (stop_gateways (gateways (base t1)) t1 Ht1))
    as ([] & t2 & -> & Ht2 & Hb & Hmem & Hid & Hrun & Hp & Hli).
  unfold mbind at 1, M_bind at 1, modify at 1. set (t3 := upd_base _ t2).
  assert (shm_inv I t3) as Ht3 by by apply inv_gateways.
  unfold mbind at 1, M_bind at 1, gets at 1. unfold mbind at 1, M_bind at 1.
  unfold ring_at. unfold mbind at 1, M_bind at 1, gets at 1.
  destruct (mem_ok_ring _ _ (shm_mem I t3 Ht3) (shm_id I t3 Ht3)) as (r & Hr & Hok). rewrite Hr.
  unfold mret, M_ret. unfold mbind at 1, M_bind at 1, write_ring, modify.
  destruct (clear_run r Hok) as [Hok' Hc].
  set (mem := mkShared (num_clients (mSharedMemory t3))
                (<[mClientId t3 := clear r]> (broadcast (mSharedMemory t3)))).
  change (upd_mSharedMemory _ t3) with (upd_mSharedMemory (λ _, mem) t3).
  assert (queues mem = <[mClientId t3 := []]> (queues (mSharedMemory t3))) as Hq
    by (unfold mem; by rewrite write_queues, Hc).
  assert (shm_inv I (upd_mSharedMemory (λ _, mem) t3)) as Ht4.
  { apply inv_memory; [done|apply write_mem_ok; [by apply (shm_mem I)|done]|by apply (shm_count I)|].
    rewrite Hq. apply Forall_insert; [by apply (shm_msgs I)|constructor]. }
  rewrite say_in_tunnel_run by (done || simpl; lia).
  destruct (push_to_others_inv I _ (num_clients mem) (control_buffer TUNNEL_BYE "Bye") Ht4)
    as (t5 & Hr5 & Ht5 & (Hb5 & Hid5 & Hru5 & Hp5 & Hn5 & Hli5) & Ha5); [apply (shm_count I _ Ht4)| |].
  { apply control_buf_ok; [done|done|simpl; lia]. }
  exists t5. split; [exact Hr5|]. injection Ha5 as _ _ _ Hqs.
  split; [done|]. split; [by rewrite Hru5; cbn; rewrite Hrun|]. split; [by rewrite Hb5|].
  split; [|split; [by rewrite Hp5; cbn; rewrite Hp|split; [by rewrite Hli5|by rewrite Hn5; cbn; rewrite Hmem]]].
  rewrite Hqs. cbn [mSharedMemory upd_mSharedMemory mClientId]. rewrite Hq.
  unfold left_queues. unfold mem. cbn [num_clients]. cbn. by rewrite Hmem, Hid.
Qed.
End outcomes.

(** ** The transition system of one client *)

Section transitions.
Context {AS : Asio} {LK : Link} {node_size : nat} {LW : LinkLaws node_size}.
Context {W : Type} {GW : GatewayOps W} (I : W → Prop) {GL : GatewayLaws W I}.
Implicit Types (t : ShmTunnel W).

(** What can happen: gateways forward; the IO thread begins a posted listen call,
    or is in one and runs the next turn of its loop; other clients push, pop, join
    and leave, also between two turns; gateways come, and change; the tunnel is
    stopped. *)
Inductive ShmEvent :=
  | ShmForward (ty : TunnelMessageType) (from : NodeId) (message : list byte)
      (to : option NodeId) (now : Z)
  | ShmListen
  | ShmTurn
  | ShmOthers (mem : SharedMemory)
  | ShmAddGateway (g : nat)
  | ShmWorld (w : W)
  | ShmStop.

Definition shm_handle (e : ShmEvent) : M (ShmTunnel W) unit :=
  match e with
  | ShmForward ty from message to now => forward ty from message to now
  | ShmListen => modify (upd_posted_listens pred);; modify (upd_in_listen (λ _, true))
  | ShmTurn =>
      again ← listen_turn;
      if again : bool then skip else modify (upd_in_listen (λ _, false));; listen_end
  | ShmOthers mem => modify (upd_mSharedMemory (λ _, mem))
  | ShmAddGateway g => zoom base (λ b, upd_base (λ _, b)) (addGateway g)
  | ShmWorld w => modify (upd_world (λ _, w))
  | ShmStop => stop_listening
  end.

(** When an event can happen, and the bounds the code does not check.  The
    handlers of the IO thread wait for the end of a listen call. *)
Definition shm_event_ok (e : ShmEvent) (t : ShmTunnel W) : Prop :=
  match e with
  | ShmForward ty _ message to _ =>
      in_listen t = false ∧ named ty = true ∧
      (header_size (node_size:=node_size) ty + length message ≤ kMaxMessageSize)%nat
  | ShmListen => in_listen t = false ∧ (0 < posted_listens t)%nat
  | ShmTurn => in_listen t = true
  | ShmOthers mem => shared_ok mem
  | ShmWorld w => in_listen t = false ∧ I w
  | ShmAddGateway _ => in_listen t = false
  | ShmStop => True
  end.

Inductive shm_reachable : ShmTunnel W → Prop :=
  | shm_reachable_new w object t :
      I w → shared_ok (map_shared object) →
      construct (before_constructor w object) = (Ret tt, t) → shm_reachable t
  | shm_reachable_step t e t' :
      shm_reachable t → shm_event_ok e t → shm_handle e t = (Ret tt, t') → shm_reachable t'.

(** While the client runs, exactly one listen call is posted or running. *)
Definition listening t : Prop :=
  is_running t = true → posted_listens t = if in_listen t then 0%nat else 1%nat.

Definition shm_good t : Prop := shm_inv I t ∧ listening t.

Lemma construct_good w object t :
  I w → shared_ok (map_shared object) →
  construct (before_constructor w object) = (Ret tt, t) → shm_good t.
Proof.
  intros Hw Hok Hr. destruct (num_clients (map_shared object)) as [|n] eqn:Hn.
  - destruct (construct_first I w object Hn Hw) as (t' & Hr' & Hi & Hj & _).
    rewrite Hr in Hr'. injection Hr' as <-. split; [done|]. intros _. by destruct Hj as (_ & _ & _ & _ & _ & _ & _ & -> & ->).
  - destruct (decide (S n ≤ 3)%nat).
    + destruct (construct_next I w object _ Hn ltac:(lia) Hw Hok) as (t' & Hr' & Hi & Hj & _).
      rewrite Hr in Hr'. injection Hr' as <-. split; [done|]. intros _. by destruct Hj as (_ & _ & _ & _ & _ & _ & _ & -> & ->).
    + destruct (construct_full w object _ Hn ltac:(lia)) as (t' & Hr' & _). congruence.
Qed.

(** Only other clients change their number. *)
Definition keeps_count (e : ShmEvent) t t' : Prop :=
  match e with
  | ShmOthers _ => True
  | _ => num_clients (mSharedMemory t') = num_clients (mSharedMemory t)
  end.

(** One turn of a listen call. *)
Lemma turn_good t :
  shm_good t → in_listen t = true →
  wp (shm_handle ShmTurn) t (λ _ t', shm_good t' ∧ keeps_count ShmTurn t t' ∧
    (in_listen t' = true → work (mClientId t) (abs t') < work (mClientId t) (abs t))%nat ∧
    (waiting t = [] ∨ is_running t = false → in_listen t' = false)) no_throw.
Proof.
  intros [Hi Hl] Hin. cbn [shm_handle]. apply wp_bind.
  destruct (listen_turn_works I t Hi) as (again & t1 & Hr & Hi1 & Hs1 & Hw & Hend).
  eapply wp_run; [exact Hr|]. destruct Hs1 as (_ & _ & Hrun & Hp & Hn & Hli). destruct again.
  - apply wp_skip. split; [|split; [exact Hn|split; [by intros _; apply Hw|]]].
    + split; [done|]. unfold listening. by rewrite Hrun, Hp, Hli.
    + intros Hx. by specialize (Hend Hx).
  - apply wp_bind, wp_modify. eapply wp_run; [apply listen_end_run|].
    change (is_running (upd_in_listen (λ _, false) t1)) with (is_running t1). rewrite Hrun.
    split; [|split; [by destruct (is_running t)|split; by destruct (is_running t)]].
    split; [destruct (is_running t); [apply inv_posted|]; by apply inv_in_listen|].
    unfold listening. destruct (is_running t) eqn:Hrt; cbn; [|by rewrite Hrun].
    intros _. by rewrite Hp, (Hl Hrt), Hin.
Qed.

Lemma shm_handle_good e t :
  shm_good t → shm_event_ok e t →
  wp (shm_handle e) t (λ _ t', shm_good t' ∧ keeps_count e t t') no_throw.
Proof.
  intros Hg Hok. destruct e as [ty from message to now| | |mem|g|w|];
    [| |eapply wp_mono; [by apply turn_good|by intros [] t' (?&?&_)|done]|..];
    destruct Hg as [Hi Hl]; cbn [shm_handle].
  - destruct Hok as (_ & Hn & Hfit).
    destruct (shm_forward_run I t ty from message to now Hi Hn Hfit)
      as (fresh & c & t' & _ & Hr & Hi' & _ & Hs & _).
    eapply wp_run; [exact Hr|]. destruct Hs as (_ & _ & Hrun & _ & _ & Hp & Hcount & Hli).
    split; [|exact Hcount]. split; [done|]. unfold listening. by rewrite Hrun, Hp, Hli.
  - destruct Hok as [Hin Hp]. apply wp_bind, wp_modify, wp_modify. split; [|done].
    split; [by apply inv_in_listen, inv_posted|]. unfold listening. simpl. intros Hrun.
    by rewrite (Hl Hrun), Hin.
  - apply wp_modify. split; [|done]. destruct Hok as (?&?&?).
    split; [by apply inv_memory|done].
  - apply wp_zoom. eapply wp_run; [apply addGateway_run|].
    split; [|by case_decide]. case_decide; [by destruct t|]. split; [by apply inv_gateways|done].
  - destruct Hok as [_ Hw]. apply wp_modify. split; [|done]. split; [|done]. destruct Hi. by split.
  - destruct (stop_listening_run I t Hi) as (t' & Hr & Hi' & Hrun & _ & _ & _ & _ & Hn).
    eapply wp_run; [exact Hr|]. split; [|done]. split; [done|]. unfold listening.
    by rewrite Hrun.
Qed.

(** With nobody pushing meanwhile the turns of a call are the function [listen]. *)
Lemma undisturbed_listen fuel t t' :
  shm_inv I t → in_listen t = true → listen fuel t = (Ret true, t') →
  ∃ n, (n ≤ fuel)%nat ∧
    for_each (replicate n ShmTurn) shm_handle t = (Ret tt, upd_in_listen (λ _, false) t').
Proof.
  revert t. induction fuel as [|fuel IH]; intros t Ht Hin Hr; [done|].
  destruct (listen_turn_works I t Ht) as (again & t1 & Hr1 & Ht1 & (_&_&_&_&_&Hli) & _ & _).
  unfold listen in Hr. cbn [listen_loop] in Hr. unfold mbind, M_bind in Hr.
  rewrite Hr1 in Hr. destruct again.
  - destruct (IH t1 Ht1) as (n & Hn & Hrun); [congruence|exact Hr|]. exists (S n). split; [lia|].
    cbn [replicate for_each shm_handle]. unfold mbind at 1 2, M_bind at 1 2. rewrite Hr1. exact Hrun.
  - exists 1%nat. split; [lia|]. cbn [replicate for_each shm_handle].
    unfold mbind at 1 2, M_bind at 1 2. rewrite Hr1. unfold mbind, M_bind, mret, M_ret, modify in *.
    rewrite listen_end_run in *. injection Hr as <-.
    change (is_running (upd_in_listen (λ _, false) t1)) with (is_running t1).
    by destruct (is_running t1).
Qed.

Lemma shm_reachable_good t : shm_reachable t → shm_good t.
Proof.
  induction 1 as [w object t Hw Hok Hr|t e t' Ht IH Hok Hr]; [by eapply construct_good|].
  pose proof (shm_handle_good e t IH Hok) as Hwp. unfold wp in Hwp. rewrite Hr in Hwp. apply Hwp.
Qed.
End transitions.
Arguments ShmEvent {AS LK} W.

(** ** Theorems *)

Section theorems.
Context {AS : Asio} {LK : Link} {node_size : nat} {LW : LinkLaws node_size}.
Context {W : Type} {GW : GatewayOps W} (I : W → Prop) {GL : GatewayLaws W I}.
Implicit Types (t : ShmTunnel W).

Abbreviation reachable := (shm_reachable (node_size:=node_size) I).

(** The queue of client [i] once [forward] has pushed. *)
Lemma forward_queues_at t ty to buf i q :
  queues (mSharedMemory t) !! i = Some q → (length q < capacity)%nat → (i < MAX_CLIENTS)%nat →
  i ≠ mClientId t →
  (ty = UNICAST ∨ ty = MEASUREMENT_PING →
   (to ≫= λ n, remoteNodeIdToTunnelClientIdx t !! n) = Some i) →
  forward_queues ty to buf t !! i = Some (q ++ [mkMessage (mClientId t) buf]).
Proof.
  intros Hq Hlen Hi Hne Hroute.
  assert (enqueue_others (mClientId t) MAX_CLIENTS (mkMessage (mClientId t) buf)
    (queues (mSharedMemory t)) !! i = Some (q ++ [mkMessage (mClientId t) buf])) as Hall.
  { unfold enqueue_others. rewrite list_lookup_imap, Hq. cbn [fmap option_fmap option_map]. f_equal.
    unfold enqueue. by rewrite !decide_True by done. }
  unfold forward_queues. destruct ty; try exact Hall;
    (rewrite Hroute by auto; rewrite list_lookup_alter_eq, Hq; cbn [fmap option_fmap option_map];
     f_equal; unfold enqueue; by rewrite decide_True by done).
Qed.

(** The effect of a forwarded message on the client that gets it. *)
Lemma view_step_message gs me src ty from (message : list byte) to v :
  ty ∈ [BROADCAST; UNICAST; MEASUREMENT_PING; MEASUREMENT_PONG] →
  well_addressed (mkContext from ty to 0) →
  (header_size (node_size:=node_size) ty + length message ≤ kMaxMessageSize)%nat →
  view_step (W:=W) gs me (mkMessage src (message_buffer ty from to message)) v =
    mkView (forward_locally gs ty from (filled kMaxMessageSize message)
              (Z.of_nat (length message)) to (v_world v)).2
      (learn from src (v_routes v)) (v_states v) (v_queues v).
Proof.
  intros Hty Hto Hfit. unfold view_step, message_buffer. cbn [SharedRing.message source].
  rewrite (decapsulate_header (mkContext from ty to 0)); [|by set_solver|done|done].
  cbn [ctx_type ctx_from_node ctx_to_node ctx_size].
  rewrite !elem_of_cons in Hty. destruct Hty as [->|[->|[->|[->|Hnil]]]]; try done. inv Hnil.
Qed.

(** C24: from every reachable state, every event that can happen is handled
    without an exception or undefined behaviour: no ring is accessed outside
    the array, as long as at most five clients are counted in the shared
    memory.  A listen call is not one event: other clients may push between two
    turns of its loop.  A turn ends the call if nothing waits or the tunnel has
    been stopped; if it does not, there is less to do than before it, so only
    their pushes can keep the call going.  While the client runs, exactly one
    listen call is posted or running, so it never stops listening. *)
Theorem shm_tunnel_safe t e :
  reachable t → shm_event_ok (node_size:=node_size) I e t →
  ∃ t', shm_handle e t = (Ret tt, t') ∧ reachable t' ∧
    (num_clients (mSharedMemory t') ≤ MAX_CLIENTS)%nat ∧
    (is_running t' = true → posted_listens t' = if in_listen t' then 0%nat else 1%nat) ∧
    (e = ShmTurn →
       (waiting t = [] ∨ is_running t = false → in_listen t' = false) ∧
       (in_listen t' = true → work (mClientId t) (abs t') < work (mClientId t) (abs t))%nat).
Proof.
  intros Ht Hok. pose proof (shm_reachable_good I t Ht) as Hg.
  destruct (returns_run _ _ _ (shm_handle_good I e t Hg Hok)) as ([] & t' & Hr & [Hi Hl] & _).
  exists t'. split; [done|]. split; [by eapply shm_reachable_step|].
  split; [by apply (shm_count I)|]. split; [done|]. intros ->.
  destruct (returns_run _ _ _ (turn_good I t Hg Hok)) as ([] & t2 & Hr2 & _ & _ & Hw & Hend).
  rewrite Hr in Hr2. by injection Hr2 as <-.
Qed.

(** C25: joining.  The first client creates the shared memory and takes number
    0.  A client that finds one to three others takes the next number and
    leaves a HELLO for each of them.  From four on the constructor throws, and
    leaves the count one higher although nobody joined. *)
Theorem shm_join w (object : option SharedMemory) n :
  num_clients (map_shared object) = n → I w → shared_ok (map_shared object) →
  let run := construct (before_constructor w object) in
  if decide (n = 0)%nat then
    ∃ t, run = (Ret tt, t) ∧ joined w 0 t ∧ Forall (λ q, q = []) (queues (mSharedMemory t))
  else if decide (n < 4)%nat then
    ∃ t, run = (Ret tt, t) ∧ joined w n t ∧
      queues (mSharedMemory t) = enqueue_others n (S n)
        (mkMessage n (control_buffer TUNNEL_HELLO "Hello")) (queues (map_shared object))
  else
    ∃ t, run = (Throw RuntimeError, t) ∧ posted_listens t = 0%nat ∧
      mSharedMemory t = mkShared (S n) (broadcast (map_shared object)).
Proof.
  intros Hn Hw Hok run. case_decide as Hz; [|case_decide as Hlt].
  - destruct (construct_first I w object) as (t & Hr & _ & Hj & Hq); [congruence|done|].
    by exists t.
  - destruct (construct_next I w object n Hn) as (t & Hr & _ & Hj & Hq); [lia|done|done|].
    by exists t.
  - destruct (construct_full w object n Hn) as (t & Hr & Hm & Hp); [lia|]. by exists t.
Qed.

(** [forward] pushes nothing when the duplicate filter says so or when a
    target node is missing.  Otherwise the message, as a buffer of the wire
    format, is appended to the queue of every other client, or for [UNICAST]
    and [MEASUREMENT_PING] to the queue of the client that the target node was
    heard from, and to none if there is no such client.  Full queues drop it.
    Only the filter and those queues change. *)
Theorem shm_forward_queues t ty from (message : list byte) to now :
  reachable t → named ty = true →
  (header_size (node_size:=node_size) ty + length message ≤ kMaxMessageSize)%nat →
  ∃ fresh c t', shouldForward ty from message now (mDedupCache (base t)) = (Ret fresh, c) ∧
    forward ty from message to now t = (Ret tt, t') ∧
    base t' = set_mDedupCache c (base t) ∧ same_but_memory t t' ∧
    queues (mSharedMemory t') =
      if fresh && negb (has_to_node ty && bool_decide (to = None))
      then forward_queues ty to (message_buffer ty from to message) t
      else queues (mSharedMemory t).
Proof.
  intros Ht Hn Hfit. destruct (shm_reachable_good I t Ht) as [Hi _].
  destruct (shm_forward_run I t ty from message to now Hi Hn Hfit)
    as (fresh & c & t' & ? & ? & _ & ? & ? & ?).
  by exists fresh, c, t'.
Qed.

(** A listen call during which nobody pushes (see [undisturbed_listen]) handles
    every waiting message, oldest first, each with
    the effect of [view_step]: HELLO and BYE update the table of clients, the
    first HELLO of a client is answered, a goodbye forgets the node's client,
    anything else teaches the client of its source node and is delivered to the
    gateways.  Its own queue is empty afterwards and the next listen call is
    posted. *)
Theorem shm_listen_handles t :
  reachable t → is_running t = true →
  Forall (λ m, source m ≠ mClientId t) (waiting t) →
  ∃ t', listen listen_fuel t = (Ret true, t') ∧ posted_listens t' = S (posted_listens t) ∧
    abs t' = foldl (λ v m, view_step (gateways (base t)) (mClientId t) m v)
               (with_queue (mClientId t) [] (abs t)) (waiting t) ∧
    waiting t' = [] ∧ base t' = base t.
Proof.
  intros Ht Hrun Hsrc. destruct (shm_reachable_good I t Ht) as [Hi _].
  destruct (listen_loop_run I (waiting t) listen_fuel t) as (t' & Hr & Hi' & Hs & Ha); try done.
  { destruct (waiting_ok I t Hi). unfold listen_fuel, capacity, MAX_MESSAGES in *. lia. }
  pose proof Hs as (Hb & Hid & Hru & Hp & _).
  pose proof (listen_after _ _ _ Hr Hru) as Hl. rewrite Hrun in Hl. eexists. split; [exact Hl|].
  split; [cbn; by rewrite Hp|]. split; [exact Ha|]. split; [|exact Hb].
  unfold waiting. cbn. rewrite Hid. change (queues (mSharedMemory t')) with (v_queues (abs t')).
  rewrite Ha. revert Hsrc. generalize (waiting t). intros q Hsrc.
  assert (∀ v, v_queues v !! mClientId t = Some [] →
    v_queues (foldl (λ v m, view_step (gateways (base t)) (mClientId t) m v) v q) !! mClientId t
      = Some []) as Hfold.
  { induction Hsrc as [|m q Hm _ IH]; intros v Hv; [done|]. simpl. apply IH.
    by rewrite view_step_own. }
  rewrite Hfold; [done|]. unfold with_queue. cbn. apply list_lookup_insert_eq.
  eapply lookup_lt_Some. by apply (own_queue I).
Qed.

(** What one client forwards, another client delivers: when client A's
    [forward] passes the filter and client B is among the targets with room in
    its queue, the listen call of B hands the message to B's gateways after
    everything that waited before it, with the type, source node, target node,
    length and bytes that were given to A, and B learns that the source node is
    reached through A. *)
Theorem shm_messages_delivered tA tB ty from (message : list byte) to now c :
  reachable tA → reachable tB → mSharedMemory tB = mSharedMemory tA →
  mClientId tB ≠ mClientId tA → is_running tB = true →
  Forall (λ m, source m ≠ mClientId tB) (waiting tB) → (length (waiting tB) < capacity)%nat →
  shouldForward ty from message now (mDedupCache (base tA)) = (Ret true, c) →
  ty ∈ [BROADCAST; UNICAST; MEASUREMENT_PING; MEASUREMENT_PONG] →
  (ty = UNICAST ∨ ty = MEASUREMENT_PING →
   (to ≫= λ n, remoteNodeIdToTunnelClientIdx tA !! n) = Some (mClientId tB)) →
  well_addressed (mkContext from ty to 0) →
  (header_size (node_size:=node_size) ty + length message ≤ kMaxMessageSize)%nat →
  ∃ tA' tB' v, forward ty from message to now tA = (Ret tt, tA') ∧
    let tB1 := upd_mSharedMemory (λ _, mSharedMemory tA') tB in
    listen listen_fuel tB1 = (Ret true, tB') ∧
    v = foldl (λ v m, view_step (gateways (base tB)) (mClientId tB) m v)
          (with_queue (mClientId tB) [] (abs tB1)) (waiting tB) ∧
    world tB' = (forward_locally (gateways (base tB)) ty from (filled kMaxMessageSize message)
                   (Z.of_nat (length message)) to (v_world v)).2 ∧
    remoteNodeIdToTunnelClientIdx tB' = learn from (mClientId tA) (v_routes v).
Proof.
  intros HA HB Hmem Hid Hrun Hsrc Hroom Hsf Hty Hroute Hto Hfit.
  destruct (shm_reachable_good I tA HA) as [HiA _]. destruct (shm_reachable_good I tB HB) as [HiB _].
  assert (named ty = true) as Hn by set_solver.
  destruct (shm_forward_run I tA ty from message to now HiA Hn Hfit)
    as (fresh & c' & tA' & Hsf' & HrA & HiA' & _ & _ & Hq).
  rewrite Hsf in Hsf'. injection Hsf' as <- <-.
  assert (negb (has_to_node ty && bool_decide (to = None)) = true) as Hcomplete.
  { unfold well_addressed in Hto. cbn in Hto. destruct (has_to_node ty); [|done].
    by destruct Hto as [n ->]. }
  rewrite Hcomplete in Hq. cbn [andb] in Hq.
  set (tB1 := upd_mSharedMemory (λ _, mSharedMemory tA') tB).
  set (m := mkMessage (mClientId tA) (message_buffer ty from to message)) in *.
  assert (shm_inv I tB1) as HiB1.
  { apply inv_memory; [done|apply (shm_mem I tA' HiA')|apply (shm_count I tA' HiA')|apply (shm_msgs I tA' HiA')]. }
  assert (waiting tB1 = waiting tB ++ [m]) as Hw.
  { unfold waiting at 1. change (mSharedMemory tB1) with (mSharedMemory tA'). rewrite Hq.
    pose proof (own_queue I tB HiB) as Hown. rewrite Hmem in Hown.
    change (mClientId tB1) with (mClientId tB).
    rewrite (forward_queues_at tA ty to _ (mClientId tB) (waiting tB)); try done.
    apply (shm_id I tB HiB). }
  destruct (listen_loop_run I (waiting tB ++ [m]) listen_fuel tB1) as (tB' & Hr & _ & Hs & Ha); try done.
  { apply Forall_app. split; [done|]. apply Forall_singleton. cbn. congruence. }
  { rewrite length_app. unfold listen_fuel, capacity, MAX_MESSAGES in *. simpl. lia. }
  pose proof Hs as (_ & _ & Hru & _). eexists tA', _, _. split; [exact HrA|].
  split; [exact (listen_after _ _ _ Hr Hru)|]. split; [reflexivity|].
  change (is_running tB1) with (is_running tB). rewrite Hrun.
  rewrite foldl_app in Ha. cbn [foldl] in Ha. unfold m in Ha.
  rewrite view_step_message in Ha by done. injection Ha as Hw' Hr' _ _.
  split; [exact Hw'|exact Hr'].
Qed.
End theorems.

Module ShmWitnesses.
Import Sample Recorder.

Abbreviation reach := (shm_reachable (node_size:=1) (λ _ : recorded, True)).

(** The first client, and the second, which finds the memory of the first. *)
Definition alone : ShmTunnel recorded := (construct (before_constructor [] None)).2.
Definition clientB : ShmTunnel recorded :=
  (construct (before_constructor [] (Some (mSharedMemory alone)))).2.
Definition clientA : ShmTunnel recorded := (shm_handle (ShmOthers (mSharedMemory clientB)) alone).2.

Lemma alone_reachable : reach alone.
Proof.
  apply (shm_reachable_new _ [] None); [exact I|apply zero_shared_ok|].
  apply run_outcome. evaluate.
Defined.

Lemma alone_shared : shared_ok (mSharedMemory alone).
Proof.
  destruct (shm_reachable_good _ _ alone_reachable) as [Hi _].
  split; [|split]; [exact (shm_mem _ _ Hi)|exact (shm_count _ _ Hi)|exact (shm_msgs _ _ Hi)].
Defined.

Lemma clientB_reachable : reach clientB.
Proof.
  apply (shm_reachable_new _ [] (Some (mSharedMemory alone))); [exact I|apply alone_shared|].
  apply run_outcome. evaluate.
Defined.

Lemma clientA_reachable : reach clientA.
Proof.
  apply (shm_reachable_step _ alone (ShmOthers (mSharedMemory clientB)));
    [exact alone_reachable| |reflexivity].
  destruct (shm_reachable_good _ _ clientB_reachable) as [Hi _].
  split; [|split]; [exact (shm_mem _ _ Hi)|exact (shm_count _ _ Hi)|exact (shm_msgs _ _ Hi)].
Defined.

(** Client A in its listen call, with the HELLO of client B waiting. *)
Definition hearing : ShmTunnel recorded := (shm_handle ShmListen clientA).2.
Lemma hearing_reachable : reach hearing.
Proof.
  apply (shm_reachable_step _ clientA ShmListen); [exact clientA_reachable| |reflexivity].
  split; [evaluate|]. change (0 < posted_listens clientA)%nat. vm_compute. lia.
Defined.

Lemma shm_tunnel_safe_witness :
  ∃ t', shm_handle ShmTurn hearing = (Ret tt, t') ∧ in_listen t' = true ∧
    (work 0 (abs t') < work 0 (abs hearing))%nat.
Proof.
  destruct (shm_tunnel_safe _ hearing ShmTurn hearing_reachable) as (t' & Hr & _ & _ & _ & Ht).
  { evaluate. }
  assert (in_listen t' = true) as Hin by (rewrite <-(f_equal snd Hr : _ = t'); evaluate).
  exists t'. split; [exact Hr|]. split; [exact Hin|]. exact (proj2 (Ht eq_refl) Hin).
Defined.

(** The second client joins and greets the first. *)
Lemma shm_join_witness :
  ∃ t, construct (before_constructor [] (Some (mSharedMemory alone))) = (Ret tt, t) ∧ joined (W:=recorded) [] 1 t.
Proof.
  pose proof (shm_join (λ _ : recorded, True) [] (Some (mSharedMemory alone)) 1
    ltac:(evaluate) Logic.I alone_shared) as H. simpl in H.
  destruct H as (t & Hr & Hj & _). exists t. split; [exact Hr|exact Hj].
Defined.

Definition n7 : NodeId := Byte.x07.
Definition beat : list byte := [Byte.xaa; Byte.xbb].

Lemma shm_forward_queues_witness :
  ∃ t', forward BROADCAST n7 beat None 5 clientA = (Ret tt, t') ∧
    queues (mSharedMemory t') !! 1%nat =
      Some [mkMessage 0 (message_buffer BROADCAST n7 None beat)].
Proof.
  destruct (shm_forward_queues _ clientA BROADCAST n7 beat None 5 clientA_reachable)
    as (fresh & c & t' & Hs & Hr & _ & _ & Hq).
  - reflexivity.
  - decide_now.
  - exists t'. split; [exact Hr|]. rewrite Hq. clear Hq Hr.
    assert (fresh = true) as ->.
    { apply (f_equal fst) in Hs. vm_compute in Hs. congruence. }
    evaluate.
Defined.

(** Client A hears the HELLO of client B and answers it. *)
Lemma shm_listen_handles_witness :
  ∃ t', listen listen_fuel clientA = (Ret true, t') ∧ waiting t' = [].
Proof.
  destruct (shm_listen_handles _ clientA clientA_reachable) as (t' & Hr & _ & _ & Hw & _).
  - evaluate.
  - decide_now.
  - exists t'. split; [exact Hr|exact Hw].
Defined.

Lemma shm_messages_delivered_witness :
  ∃ tA' tB', forward BROADCAST n7 beat None 5 clientA = (Ret tt, tA') ∧
    listen listen_fuel (upd_mSharedMemory (λ _, mSharedMemory tA') clientB) = (Ret true, tB') ∧
    remoteNodeIdToTunnelClientIdx tB' !! n7 = Some 0%nat.
Proof.
  destruct (shm_messages_delivered _ clientA clientB BROADCAST n7 beat None 5
    (shouldForward BROADCAST n7 beat 5 (mDedupCache (base clientA))).2
    clientA_reachable clientB_reachable) as (tA' & tB' & v & HrA & HrB & Hv & _ & Hl).
  - reflexivity.
  - vm_compute. discriminate.
  - evaluate.
  - decide_now.
  - decide_now.
  - apply run_outcome. evaluate.
  - apply list_elem_of_here.
  - intros [H|H]; discriminate H.
  - reflexivity.
  - decide_now.
  - exists tA', tB'. split; [exact HrA|]. split; [exact HrB|]. rewrite Hl, Hv.
    assert (waiting clientB = []) as -> by (evaluate). cbn [foldl].
    evaluate.
Defined.
End ShmWitnesses.

(** ** What the sharing of numbers and rings leads to *)

Module ShmFindings.
Import Sample Recorder ShmWitnesses.

(** Join and leave, seen from the shared memory object. *)
Definition join (object : option SharedMemory) : option SharedMemory :=
  Some (mSharedMemory (construct (before_constructor (W:=recorded) [] object)).2).
Definition leave (object : option SharedMemory) : option SharedMemory :=
  destruct_object (before_constructor (W:=recorded) [] object).
Definition joined_as (object : option SharedMemory) : nat :=
  mClientId (construct (before_constructor (W:=recorded) [] object)).2.

(** Three clients join, the second leaves: the next one gets the number of the
    third. *)
Lemma client_number_reused :
  joined_as (join (join None)) = 2%nat ∧ joined_as (leave (join (join (join None)))) = 2%nat.
Proof. vm_compute. split; reflexivity. Qed.

(** Two constructors interleave: each reads the count before the other has
    raised it.  Both clients get the same number, and so the same ring; if there
    was no client before, the second also starts the memory afresh and counts one
    client, so the first to leave removes it under the other. *)
Definition both_read (object : option SharedMemory) : ShmTunnel recorded * ShmTunnel recorded :=
  let tA := (register_client (take_number (before_constructor [] object)).2).2 in
  let tB := (take_number (before_constructor [] object)).2 in
  (tA, (register_client (upd_mSharedMemory (λ _, mSharedMemory tA) tB)).2).
Lemma numbers_shared :
  let '(tA, tB) := both_read None in
  let '(uA, uB) := both_read (join None) in
  mClientId tA = 0%nat ∧ mClientId tB = 0%nat ∧ num_clients (mSharedMemory tB) = 1%nat ∧
  destruct_object tB = None ∧
  mClientId uA = 1%nat ∧ mClientId uB = 1%nat ∧ num_clients (mSharedMemory uB) = 3%nat.
Proof. vm_compute. by split_and!. Qed.

(** Four clients and two that could not join are counted as six: the first
    client's BYE leaves the array. *)
Definition crowded : ShmTunnel recorded :=
  (shm_handle (ShmOthers (default zero_shared (join (join (join (join (join (join None)))))))) alone).2.
Lemma stop_out_of_bounds :
  num_clients (mSharedMemory crowded) = 6%nat ∧ (stop_listening crowded).1 = Undef OutOfBounds.
Proof. vm_compute. split; reflexivity. Qed.

(** A message forwarded while nobody else was there waits for the client that
    joins later. *)
Definition talked : ShmTunnel recorded := (forward BROADCAST n7 beat None 5 alone).2.
Lemma stale_message_delivered :
  waiting (construct (before_constructor (W:=recorded) [] (Some (mSharedMemory talked)))).2 =
    [mkMessage 0 (message_buffer BROADCAST n7 None beat)].
Proof. evaluate. Qed.
End ShmFindings.
