(* ===== verification/GatewayCalls.v ===== *)
(** * A tunnel and its gateways, calling each other

    [Controller.hpp] gives every [TunnelGateway] the tunnel, and the tunnel the
    gateways.  This file runs the calls that a gateway's handler makes on its
    tunnel on the state of the tunnel, for any tunnel that offers the interface
    [TunnelOps], and shows from [TunnelLaws] that this returns; [Site.v] and
    [Machine.v] use it for the two tunnels.  It also follows a message from the
    tunnel to the networks of several gateways. *)

From stdpp Require Import functions.
From S2P Require Import Prelude LinkLib Sample DedupCache Tunnel.
From S2P Require Import PeerTracker TunnelGateway TunnelGatewaySpec.

Section definitions.
Context {AS : Asio} {LK : Link} {PL : ParseLaws} {AL : AsioLaws}.

(** The gateways by their identity, one per network interface. *)
Abbreviation Gateways := (nat → TunnelGateway.TunnelGateway).
Context {T : Type} {TO : TunnelOps T (nat → TunnelGateway.TunnelGateway)}.

(** One call on [mTunnel], made by gateway [i]. *)
Definition call_made (i : nat) (now : Z) (c : TunnelCall) : M T unit :=
  match c with
  | CallAddGateway => zoom tunnel_base set_tunnel_base (addGateway i)
  | CallForward ty from message to => tunnel_forward ty from message to now
  end.

(** A handler of gateway [i], with the calls it makes on the tunnel. *)
Definition gateway_event (i : nat) (e : GatewayEvent) (now : Z) : M T unit :=
  before ← gets tunnel_world;
  zoom tunnel_world set_tunnel_world
    (zoom (λ w : Gateways, w i) (λ g w, <[i := g]> w) (TunnelGatewaySpec.handle e));;
  after ← gets tunnel_world;
  for_each (drop (length (mTunnel (before i))) (mTunnel (after i))) (call_made i now).

(** Messages on the local network leave room for the tunnel header. *)
Definition room (node_size : nat) (message : list byte) : Prop :=
  (header_size (node_size:=node_size) UNICAST + length message ≤ kMaxMessageSize)%nat.
Definition message_room (node_size : nat) (e : GatewayEvent) : Prop :=
  match e with
  | GMulticast _ message | GState _ _ message | GMeasurement _ _ message
  | GSurrogateMeasurement _ _ message => room node_size message
  | GDeliver _ _ _ _ _ => False               (* only the tunnel delivers *)
  | _ => True
  end.

End definitions.

(** ** The calls of a handler *)

Section calls.
Context {AS : Asio} {LK : Link} {PL : ParseLaws} {AL : AsioLaws}.
Context {node_size : nat} {LW : LinkLaws node_size}.
Implicit Types (g : TunnelGateway.TunnelGateway).

Definition call_fits (c : TunnelCall) : Prop :=
  match c with
  | CallAddGateway => True
  | CallForward ty _ message to => forwardable (node_size:=node_size) ty message to
  end.

(** The log of calls grows by such calls. *)
Definition calls_fit g g' : Prop := ∃ calls, mTunnel g' = mTunnel g ++ calls ∧ Forall call_fits calls.

Lemma calls_none g g' : mTunnel g' = mTunnel g → calls_fit g g'.
Proof. intros Hm. exists []. by rewrite app_nil_r. Qed.

Lemma calls_one g g' c : mTunnel g' = mTunnel g ++ [c] → call_fits c → calls_fit g g'.
Proof. intros Hm Hc. exists [c]. by split; [|constructor]. Qed.

Lemma room_fits ty (message sent : list byte) :
  room node_size message → (length sent ≤ length message)%nat →
  (header_size (node_size:=node_size) ty + length sent ≤ kMaxMessageSize)%nat.
Proof. unfold room, header_size. simpl. destruct (has_to_node ty); lia. Qed.

Lemma message_handled_calls from message to g :
  room node_size message → calls_fit g (message_handled from message to g).
Proof.
  intros Hroom. unfold message_handled. destruct (parseMessageHeader message) as [[header payload]| |];
    try by apply calls_none.
  destruct (foreign_subnet from g); [by apply calls_none|]. unfold state_handled.
  destruct (hasRemoteNodeSurrogate _ g); [by apply calls_none|]. case_decide.
  - destruct (fromPayload _ _) as [st| |]; try by apply calls_none.
    eapply calls_one; [done|]. split; [by destruct to|]. split; [by destruct to|].
    apply (room_fits _ message); [done|]. rewrite length_take. lia.
  - case_decide; [|by apply calls_none]. eapply calls_one; [done|]. split_and!; [done..|].
    by apply (room_fits _ message).
Qed.

Lemma measurement_handled_calls from header message to g :
  room node_size message → calls_fit g (measurement_handled from header message to g).
Proof.
  intros Hroom. unfold measurement_handled. destruct (localMeasurementEndpointToNodeId g !! _).
  - eapply calls_one; [done|]. split; [by case_decide|]. split; [done|]. by apply (room_fits _ message).
  - case_decide; [|by apply calls_none]. eapply calls_one; [done|]. split_and!; [done..|].
    by apply (room_fits _ message).
Qed.

(** Every handler returns, keeps the gateway's invariant and makes such calls. *)
Lemma handle_calls e g :
  gw_inv g → can_happen e g → message_room node_size e →
  ∃ g', TunnelGatewaySpec.handle e g = (Ret tt, g') ∧ gw_inv g' ∧ calls_fit g g'.
Proof.
  intros Hg Hok Hroom.
  assert (∀ g', TunnelGatewaySpec.handle e g = (Ret tt, g') → calls_fit g g' →
    ∃ g', TunnelGatewaySpec.handle e g = (Ret tt, g') ∧ gw_inv g' ∧ calls_fit g g') as Hdone.
  { intros g' Hr Hc. exists g'. split; [done|]. split; [|done].
    pose proof (handle_inv e g Hg Hok) as Hwp. unfold wp in Hwp. by rewrite Hr in Hwp. }
  destruct (returns_run _ _ _ (handle_inv e g Hg Hok)) as ([] & g1 & Hrun & _).
  destruct e as [from msg|id from msg|id from msg|id from msg|e|e|ty from buf size to|now| |];
    cbn [message_room] in Hroom; try done.
  - eapply Hdone; [apply onMulticast_run|]. by apply message_handled_calls.
  - destruct Hok as (s & Hs & _). eapply Hdone; [by apply onState_run|]. by apply message_handled_calls.
  - destruct Hok as (s & Hs & _). destruct (inv_measurement _ Hg id s Hs) as [Hrunning _].
    destruct (parseMeasurementHeader_total msg) as (h & rest & Hh).
    eapply Hdone; [by eapply onMeasurement_run|]. by apply measurement_handled_calls.
  - destruct Hok as (s & Hs & _). destruct (inv_surrogate _ Hg id s Hs) as [Hrunning _].
    destruct (parseMeasurementHeader_total msg) as (h & rest & Hh).
    eapply Hdone; [by eapply onSurrogateMeasurement_run|]. by apply measurement_handled_calls.
  - destruct e; [eapply Hdone; [reflexivity|by apply calls_none]|].
    eapply Hdone; [exact Hrun|]. pose proof (onLocalTimer_wp g) as Hwp.
    cbn [TunnelGatewaySpec.handle] in Hrun. unfold wp in Hwp. rewrite Hrun in Hwp.
    destruct Hwp as [(_ & _ & _ & _ & _ & _ & _ & _ & Hs) _]. apply calls_none, Hs.
  - destruct e; [eapply Hdone; [reflexivity|by apply calls_none]|].
    eapply Hdone; [exact Hrun|]. pose proof (onRemoteTimer_wp g) as Hwp.
    cbn [TunnelGatewaySpec.handle] in Hrun. unfold wp in Hwp. rewrite Hrun in Hwp.
    destruct Hwp as [(_ & _ & _ & _ & _ & _ & _ & Hs) _]. apply calls_none, Hs.
  - eapply Hdone; [reflexivity|by apply calls_none].
  - eapply Hdone; [reflexivity|by eapply calls_one].
  - eapply Hdone; [reflexivity|by apply calls_none].
Qed.
End calls.

(** ** Safety of a handler with its calls *)

Section safety.
Context {AS : Asio} {LK : Link} {PL : ParseLaws} {AL : AsioLaws}.
Context {node_size : nat} {LW : LinkLaws node_size}.
Context {T : Type} {TO : TunnelOps T (nat → TunnelGateway.TunnelGateway)}.
Context {J : T → Prop} {TL : TunnelLaws (node_size:=node_size) T (nat → TunnelGateway.TunnelGateway) all_ok J}.
Implicit Types (t : T).

Abbreviation call_fits := (call_fits (node_size:=node_size)).

Lemma call_made_returns i now c t :
  J t → call_fits c →
  wp (call_made i now c) t (λ _ t', J t' ∧ tunnel_world t' = tunnel_world t) no_throw.
Proof.
  intros Ht Hc. destruct c as [|ty from message to].
  - by apply tunnel_addGateway_returns.
  - by apply tunnel_forward_returns.
Qed.

Lemma calls_made_returns i now calls t :
  J t → Forall call_fits calls →
  wp (for_each calls (call_made i now)) t (λ _ t', J t' ∧ tunnel_world t' = tunnel_world t) no_throw.
Proof.
  intros Ht Hcalls.
  eapply wp_mono; [apply (wp_for_each calls _ _ (λ cs t', Forall call_fits cs ∧ J t' ∧
    tunnel_world t' = tunnel_world t) no_throw)|by intros ? ? (_ & ?)|done].
  - intros c cs t' (Hcs & Ht' & Hw). apply Forall_cons in Hcs as [Hc Hcs].
    eapply wp_mono; [by apply call_made_returns| |done]. intros _ t1 [H1 H2]. by rewrite H2.
  - by split.
Qed.

(** A gateway's event, in steps. *)
Lemma gateway_event_run i e now t g' calls :
  TunnelGatewaySpec.handle e (tunnel_world t i) = (Ret tt, g') →
  mTunnel g' = mTunnel (tunnel_world t i) ++ calls →
  gateway_event i e now t =
    for_each calls (call_made i now) (set_tunnel_world (<[i := g']> (tunnel_world t)) t).
Proof.
  intros Hr Hm. unfold gateway_event. unfold mbind at 1, M_bind at 1, gets at 1.
  unfold mbind at 1, M_bind at 1.
  erewrite zoom_run by (by apply zoom_run). unfold mbind, M_bind, gets.
  by rewrite (tunnel_world_set (TunnelLaws:=TL)), fn_lookup_insert, Hm, drop_app_length.
Qed.

(** The handler and its calls return, and the world is the one that the handler leaves. *)
Lemma gateway_event_returns i e now t :
  J t → can_happen e (tunnel_world t i) → message_room node_size e →
  ∃ g' calls, TunnelGatewaySpec.handle e (tunnel_world t i) = (Ret tt, g') ∧ gw_inv g' ∧
    mTunnel g' = mTunnel (tunnel_world t i) ++ calls ∧ Forall call_fits calls ∧
    gateway_event i e now t =
      for_each calls (call_made i now) (set_tunnel_world (<[i := g']> (tunnel_world t)) t) ∧
    wp (gateway_event i e now) t
      (λ _ t', J t' ∧ tunnel_world t' = <[i := g']> (tunnel_world t)) no_throw.
Proof.
  intros Ht Hok Hroom. pose proof (tunnel_world_ok t Ht) as Hw.
  destruct (handle_calls e (tunnel_world t i) (Hw i) Hok Hroom) as (g' & Hr & Hg' & calls & Hm & Hfit).
  pose proof (gateway_event_run i e now t g' calls Hr Hm) as Hrun.
  exists g', calls. do 5 (split; [done|]). unfold wp. rewrite Hrun.
  set (t1 := set_tunnel_world _ t).
  assert (J t1) as Ht1 by (apply set_tunnel_world_ok; [done|by apply all_ok_insert]).
  eapply wp_mono; [by apply (calls_made_returns i now calls t1)| |done].
  intros _ t' [Ht' Hw']. split; [done|]. by rewrite Hw'; apply (tunnel_world_set (TunnelLaws:=TL)).
Qed.
End safety.

(** ** Delivery to several gateways *)

Section delivery.
Context {AS : Asio} {LK : Link} {PL : ParseLaws} {AL : AsioLaws}.

(** The gateways get the message one after the other.  What each does with a
    buffer that starts with the message, it does with the buffer it gets. *)
Lemma forward_locally_each gs ty from (n : nat) to (message : list byte)
    (R : nat → TunnelGateway.TunnelGateway → Prop) buf (w : nat → TunnelGateway.TunnelGateway) :
  NoDup gs → all_ok w → length buf = kMaxMessageSize → (n ≤ kMaxMessageSize)%nat →
  take n buf = message → (has_to_node ty = true → is_Some to) →
  (∀ j buf, j ∈ gs → length buf = kMaxMessageSize → take n buf = message →
    ∃ buf' g', TunnelGateway.forwardMessageLocally ty from buf (Z.of_nat n) to (w j) = (Ret buf', g') ∧
      R j g') →
  ∃ buf' w', forward_locally gs ty from buf (Z.of_nat n) to w = (Ret buf', w') ∧
    (∀ j, j ∈ gs → R j (w' j)) ∧ ∀ j, j ∉ gs → w' j = w j.
Proof.
  intros Hnd. revert buf w. induction Hnd as [|j gs Hj Hnd IH];
    intros buf w Hw Hlen Hn Htake Hto HR; simpl.
  { exists buf, w. split; [done|]. split; [by intros ? ?%not_elem_of_nil|done]. }
  destruct (HR j buf) as (buf1 & g1 & Hr & HRj); [by left|done|done|].
  pose proof (forwardMessageLocally_returns (I:=all_ok) j ty from buf n to w Hw Hlen ltac:(lia) Hto) as Hwp.
  unfold wp in Hwp. cbn [Tunnel.forwardMessageLocally gateway_ops] in Hwp.
  erewrite zoom_run in Hwp by exact Hr. destruct Hwp as (Hw1 & Hlen1 & Htake1).
  destruct (IH buf1 (<[j := g1]> w)) as (buf' & w' & Hrun & HR' & Hrest); [done|congruence|done|congruence|done| |].
  { intros k b Hk Hb Ht. rewrite fn_lookup_insert_ne by (intros ->; done). apply HR; [by right|done|done]. }
  exists buf', w'. split; [|split].
  - unfold mbind, M_bind. cbn [Tunnel.forwardMessageLocally gateway_ops].
    erewrite zoom_run by exact Hr. exact Hrun.
  - intros k [->|Hk]%elem_of_cons; [|by apply HR']. rewrite Hrest by done. by rewrite fn_lookup_insert.
  - intros k [Hkj Hk]%not_elem_of_cons. rewrite Hrest by done. by apply fn_lookup_insert_ne.
Qed.
End delivery.

(** ** A peer state announced at another place *)

Section announcements.
Context {AS : Asio} {LK : Link} {PL : ParseLaws} {AL : AsioLaws}.
Implicit Types (g : TunnelGateway.TunnelGateway).

(** What a gateway does with a message announced at another site. *)
Definition announced (from : NodeId) (body : list byte) (sur : RemoteNodeSurrogate) g g' : Prop :=
  mRemoteNodeIdToRemoteNodeSurrogate g' !! from = Some sur ∧
  sends (system g') = sends (system g) ++
    [(sock_id (stateSocket sur),
      if decide (length body + surrogate_entry_size sur < kMaxMessageSize)%nat
      then body ++ surrogate_entry sur else body,
      scoped g (broadcast_endpoint g))] ∧
  ∀ header payload st, parseMessageHeader body = Ret (header, payload) →
    fromPayload from payload = Ret st → mRemoteObserver g' = mRemoteObserver g ++ [SawPeer st].

Lemma broadcast_announced from body sur g g1 buf :
  obtains from sur g g1 → length buf = kMaxMessageSize → (length body ≤ kMaxMessageSize)%nat →
  take (length body) buf = body →
  ∃ buf' g', TunnelGateway.forwardMessageLocally BROADCAST from buf (Z.of_nat (length body)) None g =
    (Ret buf', g') ∧ announced from body sur g g'.
Proof.
  intros Hob Hlen Hn Htake.
  destruct (forwardMessageLocally_run BROADCAST from sur buf (length body) None g g1 (stateSocket sur)
    (scoped g (broadcast_endpoint g))) as (buf' & Hr).
  - by apply resolve_broadcast; [left|].
  - intros _ _. by eapply obtains_surrogate.
  - done.
  - lia.
  - eexists buf', _. split; [exact Hr|]. clear Hr.
    destruct (obtains_same _ _ _ _ Hob) as (_ & Hsends & _ & _ & _).
    assert (mRemoteObserver g1 = mRemoteObserver g) as Hobs
      by (by destruct Hob as [[_ ->]|(_ & e1 & e2 & _ & _ & -> & ->)]).
    rewrite Htake. split; [|split].
    + cbn [mRemoteNodeIdToRemoteNodeSurrogate sent upd_system]. rewrite remote_effect_surrogates.
      by eapply obtains_surrogate.
    + cbn [system sent upd_system sends]. rewrite remote_effect_system, Hsends. unfold local_data.
      by rewrite (decide_False (P:=BROADCAST = _ ∨ _)) by (by intros [|]).
    + intros header payload st Hp Hst. simpl. unfold remote_seen. rewrite Hp, Hst. simpl. by rewrite Hobs.
Qed.

(** A peer state heard on the local network makes one call. *)
Lemma multicast_call g from (message : list byte) header payload st :
  parseMessageHeader message = Ret (header, payload) →
  sh_messageType header = kAlive ∨ sh_messageType header = kResponse →
  fromPayload (sh_ident header) payload = Ret st →
  mRemoteNodeIdToRemoteNodeSurrogate g !! sh_ident header = None →
  foreign_subnet from g = false →
  ∃ g', TunnelGatewaySpec.handle (GMulticast from message) g = (Ret tt, g') ∧
    mTunnel g' = mTunnel g ++ [CallForward BROADCAST (sh_ident header)
      (take (length message - entry_size (ps_endpoint st)) message) None].
Proof.
  intros Hp Hty Hst Hown Hsub. eexists. split; [apply onMulticast_run|].
  cbn [mTunnel upd_multicast_receiving].
  assert (message_handled from message None g = peer_state_seen from header message st None g) as ->.
  { unfold message_handled. rewrite Hp, Hsub. unfold state_handled, hasRemoteNodeSurrogate.
    rewrite bool_decide_false by (rewrite Hown; by intros []). by rewrite decide_True, Hst. }
  reflexivity.
Qed.
End announcements.
