(* ===== verification/Site.v ===== *)
(** * A site: a UDP tunnel and the gateways it serves

    A site is the tunnel of [UdpTunnel.v] over the gateways of [TunnelGateway.v],
    each calling the other as in [GatewayCalls.v].  The theorems put the
    components together: a whole site is safe, and a peer state heard at one site
    is announced at another. *)

From stdpp Require Import functions.
From S2P Require Import Prelude LinkLib Sample DedupCache Tunnel UdpTunnel UdpTunnelSpec.
From S2P Require Import PeerTracker TunnelGateway TunnelGatewaySpec GatewayCalls.

(** ** The UDP tunnel as the gateways see it *)

Section interface.
Context {AS : Asio} {LK : Link} {node_size : nat} {LW : LinkLaws node_size}.
Context {W : Type} {GW : GatewayOps W} (I : W → Prop) {GL : GatewayLaws W I}.

#[export] Instance udp_tunnel_ops : TunnelOps (UdpTunnel.UdpTunnel W) W := {|
  tunnel_base := base;
  set_tunnel_base b := upd_base (λ _, b);
  tunnel_world := world;
  set_tunnel_world w := upd_world (λ _, w);
  tunnel_forward := UdpTunnel.forward;
  tunnel_stop_listening := UdpTunnel.stop_listening;
|}.

(** What [forward] leaves alone. *)
Lemma forward_returns ty from message to now (t : UdpTunnel.UdpTunnel W) :
  inv I t → (header_size (node_size:=node_size) ty + length message ≤ kMaxMessageSize)%nat →
  ∃ t', UdpTunnel.forward ty from message to now t = (Ret tt, t') ∧ inv I t' ∧ world t' = world t.
Proof.
  intros Ht Hfit. pose proof (preserves_forward I ty from message to now Hfit t Ht) as Hwp.
  destruct (returns_run _ _ _ (shouldForward_wp ty from message now _ (inv_cache I _ Ht)))
    as (b & c & Hsf & _).
  unfold wp in Hwp. rewrite (forward_run ty from message to now t b c Hsf Hfit) in *.
  eexists. split; [done|]. split; [exact Hwp|]. by case_match.
Qed.

#[export] Instance udp_tunnel_laws :
  TunnelLaws (node_size:=node_size) (UdpTunnel.UdpTunnel W) W I (inv I).
Proof.
  split; simpl.
  - apply inv_world.
  - intros w t Ht Hw. by apply inv_upd_world.
  - done.
  - intros g t Ht. pose proof (preserves_addGateway I g t Ht) as Hwp.
    unfold wp in *. erewrite zoom_run in * by apply addGateway_run. done.
  - intros ty from message to now t Ht (_ & _ & Hfit).
    destruct (forward_returns ty from message to now t Ht Hfit) as (t' & Hr & Ht' & Hw).
    by eapply wp_run.
Qed.
End interface.

Section definitions.
Context {AS : Asio} {LK : Link} {PL : ParseLaws} {AL : AsioLaws}.

Definition Site : Type := UdpTunnel.UdpTunnel (nat → TunnelGateway.TunnelGateway).

Inductive SiteEvent :=
  | SiteGateway (i : nat) (e : GatewayEvent) (now : Z)
  | SiteTunnel (e : UdpTunnel.Event (nat → TunnelGateway.TunnelGateway)).

Definition site_handle (e : SiteEvent) : M Site unit :=
  match e with
  | SiteGateway i e now => gateway_event i e now
  | SiteTunnel e => handle_event e
  end.

(** The events of the tunnel that its gateways do not cause. *)
Definition from_outside (e : UdpTunnel.Event (nat → TunnelGateway.TunnelGateway)) : Prop :=
  match e with EvForward _ _ _ _ _ | EvAddGateway _ | EvWorld _ => False | _ => True end.

Context {node_size : nat} {LW : LinkLaws node_size}.

Definition site_event_ok (e : SiteEvent) (s : Site) : Prop :=
  match e with
  | SiteGateway i e _ => can_happen e (world s i) ∧ message_room node_size e
  | SiteTunnel e => from_outside e ∧ event_ok (node_size:=node_size) all_ok e s
  end.

(** A site starts with its configured peers and no gateway listening. *)
Inductive site_reachable : Site → Prop :=
  | site_new (sys : nat → System) (now : nat → Z) (addr : nat → Address) script peers :
      site_reachable (new_UdpTunnel (λ i, new_TunnelGateway (sys i) (now i) (addr i)) script peers)
  | site_step s e s' :
      site_reachable s → site_event_ok e s → site_handle e s = (Ret tt, s') → site_reachable s'.
End definitions.

(** ** Safety of a whole site *)

Section safety.
Context {AS : Asio} {LK : Link} {PL : ParseLaws} {AL : AsioLaws}.
Context {node_size : nat} {LW : LinkLaws node_size}.
Implicit Types (s : Site).

Lemma site_handle_inv e s :
  inv all_ok s → site_event_ok (node_size:=node_size) e s →
  wp (site_handle e) s (λ _ s', inv all_ok s') no_throw.
Proof.
  intros Hs Hok. destruct e as [i e now|e]; simpl in *.
  - destruct Hok as [Hok Hroom].
    destruct (gateway_event_returns (TO:=udp_tunnel_ops) (J:=inv all_ok) i e now s Hs Hok Hroom) as (g' & calls & _ & _ & _ & _ & _ & Hwp).
    by eapply wp_mono; [exact Hwp|intros ? ? []|].
  - destruct Hok. by apply (handle_event_inv all_ok).
Qed.

Lemma site_reachable_inv s : site_reachable (node_size:=node_size) s → inv all_ok s.
Proof.
  induction 1 as [sys now addr script peers|s e s' _ IH Hok Hr].
  - apply new_UdpTunnel_inv. intros i. apply new_TunnelGateway_inv.
  - pose proof (site_handle_inv e s IH Hok) as Hwp. unfold wp in Hwp. by rewrite Hr in Hwp.
Qed.
End safety.

(** ** Theorems *)

Section theorems.
Context {AS : Asio} {LK : Link} {PL : ParseLaws} {AL : AsioLaws}.
Context {node_size : nat} {LW : LinkLaws node_size}.
Implicit Types (s : Site) (g : TunnelGateway.TunnelGateway).

Abbreviation reachable := (site_reachable (node_size:=node_size)).

(** A whole site is safe: from every reachable state, whatever arrives on
    the local networks and on the tunnel's socket, whatever timers fire and
    whatever the user decides, the event is handled without an escaping
    exception or undefined behaviour.  The gateways satisfy what the tunnel
    expects of them, and every call they make fits a datagram, provided that
    local messages leave room for the tunnel header. *)
Theorem site_safe s e :
  reachable s → site_event_ok (node_size:=node_size) e s →
  ∃ s', site_handle e s = (Ret tt, s') ∧ reachable s' ∧ index_ok s' ∧ ∀ i, gw_inv (world s' i).
Proof.
  intros Hs Hok.
  destruct (returns_run _ _ _ (site_handle_inv e s (site_reachable_inv s Hs) Hok))
    as ([] & s' & Hr & Hinv).
  exists s'. split; [done|]. split; [by eapply site_step|]. destruct Hinv. by split.
Qed.

(** The sending site: one call, one datagram to every connected peer. *)
Lemma multicast_forwarded s i from (message : list byte) header payload st now c :
  inv all_ok s → room node_size message →
  parseMessageHeader message = Ret (header, payload) →
  sh_messageType header = kAlive ∨ sh_messageType header = kResponse →
  fromPayload (sh_ident header) payload = Ret st →
  mRemoteNodeIdToRemoteNodeSurrogate (world s i) !! sh_ident header = None →
  foreign_subnet from (world s i) = false →
  let body := take (length message - entry_size (ps_endpoint st)) message in
  shouldForward BROADCAST (sh_ident header) body now (mDedupCache (base s)) = (Ret true, c) →
  ∃ s', gateway_event i (GMulticast from message) now s = (Ret tt, s') ∧
    send_calls (mSocket s') = send_calls (mSocket s) ++
      ((λ ep, (datagram BROADCAST (sh_ident header) None body, ep)) <$> forward_targets BROADCAST None s).
Proof.
  intros Hs Hroom Hp Hty Hst Hown Hsub body Hsf.
  destruct (multicast_call (world s i) from message header payload st) as (g' & Hg & Hm); try done.
  eexists. split.
  - rewrite (gateway_event_run (TO:=udp_tunnel_ops) (J:=inv all_ok) i _ now s g' _ Hg Hm).
    cbn [for_each call_made tunnel_forward udp_tunnel_ops]. unfold mbind, M_bind.
    rewrite (forward_run BROADCAST (sh_ident header) body None now _ true c); [reflexivity|exact Hsf|].
    apply (room_fits BROADCAST message); [done|]. unfold body. rewrite length_take. lia.
  - simpl. apply record_sends_calls.
Qed.

(** C1: sessions reach across sites: a peer state that a gateway of site A hears
    on its network leaves site A's tunnel for every connected peer, and the
    datagram, received at site B from a connected peer, makes every registered
    gateway of site B multicast the peer state from its own surrogate of the
    node, with the measurement endpoint of that surrogate instead of the one
    that is out of reach (when the entry fits), and tell its observer.  Site B
    learns the route back to the node. *)
Theorem peer_state_crosses sA sB i from (message : list byte) header payload st now c epA epB k p
    (surrogates : nat → RemoteNodeSurrogate) now' :
  reachable sA → reachable sB → room node_size message →
  parseMessageHeader message = Ret (header, payload) →
  sh_messageType header = kAlive ∨ sh_messageType header = kResponse →
  fromPayload (sh_ident header) payload = Ret st →
  mRemoteNodeIdToRemoteNodeSurrogate (world sA i) !! sh_ident header = None →
  foreign_subnet from (world sA i) = false →
  let body := take (length message - entry_size (ps_endpoint st)) message in
  shouldForward BROADCAST (sh_ident header) body now (mDedupCache (base sA)) = (Ret true, c) →
  connected_peer (mPeers sA) epB →
  mEndpointToPeerIdx sB !! epA = Some k → mPeers sB !! k = Some p → state p = CONNECTED →
  NoDup (gateways (base sB)) →
  (∀ j, j ∈ gateways (base sB) → ∃ g1, obtains (sh_ident header) (surrogates j) (world sB j) g1) →
  ∃ sA' sent_to d, gateway_event i (GMulticast from message) now sA = (Ret tt, sA') ∧
    send_calls (mSocket sA') = send_calls (mSocket sA) ++ ((λ ep, (d, ep)) <$> sent_to) ∧
    epB ∈ sent_to ∧
    ∃ sB', onDatagram epA d now' sB = (Ret tt, sB') ∧
      (∀ j, j ∈ gateways (base sB) →
         announced (sh_ident header) body (surrogates j) (world sB j) (world sB' j)) ∧
      remoteNodeIdToPeerIdx sB' !! sh_ident header =
        Some (default k (remoteNodeIdToPeerIdx sB !! sh_ident header)).
Proof.
  intros HA HB Hroom Hp Hty Hst Hown Hsub body Hsf HepB Hk Hpk Hconn Hnd Hob.
  pose proof (site_reachable_inv sB HB) as HiB.
  destruct (multicast_forwarded sA i from message header payload st now c) as (sA' & HrA & Hsent);
    try done; [by apply site_reachable_inv|].
  eexists sA', _, _. split; [exact HrA|]. split; [exact Hsent|].
  split; [apply forward_targets_all; [by intros [|]|done]|].
  assert (length body ≤ length message)%nat as Hbody by (unfold body; rewrite length_take; lia).
  pose proof (room_fits BROADCAST message body Hroom Hbody) as Hfit.
  destruct (handleReceive_message all_ok epA BROADCAST (sh_ident header) None body now' k p
    (upd_mSocket (set_receiving false) sB)) as (buf1 & w1 & Hlocal & _ & Hr); try done.
  { by apply inv_upd_mSocket. }
  destruct (forward_locally_each (gateways (base sB)) BROADCAST (sh_ident header) (length body) None body
    (λ j g', announced (sh_ident header) body (surrogates j) (world sB j) g')
    (filled kMaxMessageSize body) (world sB)) as (buf' & w' & Hrun & Hall & _); try done.
  { apply (inv_world _ _ HiB). }
  { apply length_filled. lia. }
  { lia. }
  { apply take_filled. }
  { intros j buf Hj Hlen Htake. destruct (Hob j Hj) as (g1 & Hg1).
    eapply broadcast_announced; [exact Hg1|done|lia|done]. }
  assert (w1 = w') as -> by (cbn in Hlocal; rewrite Hrun in Hlocal; congruence).
  eexists. split; [apply onDatagram_run; [|exact Hr]|].
  { rewrite (length_datagram (node_size:=node_size)) by done. done. }
  set (sB1 := upd_world _ _). assert (∀ b : bool, ∀ f,
    world (if b then upd_mSocket f sB1 else sB1) = w' ∧
    remoteNodeIdToPeerIdx (if b then upd_mSocket f sB1 else sB1) =
      learn_route BROADCAST (sh_ident header) k (remoteNodeIdToPeerIdx sB)) as Hfields by (by intros []).
  destruct (Hfields (UdpTunnel.is_running sB1) (set_receiving true)) as [-> ->]. split; [exact Hall|].
  unfold learn_route. simpl. destruct (remoteNodeIdToPeerIdx sB !! sh_ident header) eqn:Hroute; simpl; [done|].
  by rewrite lookup_insert_eq.
Qed.
End theorems.

Module SiteWitnesses.
Import Sample GatewayWitnesses.

Definition studio : UdpEndpoint := (20, Byte.x09).
Definition hello : list byte := control_datagram TUNNEL_HELLO.

(** A site with one configured peer and one gateway: the tunnel starts, the
    gateway listens, the peer says HELLO. *)
Definition s0 : Site := new_UdpTunnel
  (λ _, new_TunnelGateway sys (seconds 100) (10 : @Address asio)) [] [studio].
Definition s1 := (site_handle (SiteTunnel (EvRunNext 1)) s0).2.
Definition s2 := (site_handle (SiteTunnel (EvRunNext 2)) s1).2.
Definition s3 := (site_handle (SiteGateway 0 GListen 2) s2).2.
Definition s4 := (site_handle (SiteTunnel (EvDatagram studio hello 3)) s3).2.

Abbreviation reach := (site_reachable (node_size:=1)).

Lemma step_reach e s :
  reach s → site_event_ok (node_size:=1) e s → (site_handle e s).1 = Ret tt →
  reach (site_handle e s).2.
Proof. intros Hs Hok Hr. eapply site_step; [done..|]. by apply run_outcome. Qed.

Lemma s3_reach : reach s3.
Proof.
  apply step_reach; [apply step_reach; [apply step_reach; [apply site_new|..]|..]|..];
    try (evaluate); try (split; [exact Logic.I|]; exact Logic.I).
  split; [evaluate|exact Logic.I].
Qed.

Lemma site_hello_ok : site_event_ok (node_size:=1) (SiteTunnel (EvDatagram studio hello 3)) s3.
Proof.
  split; [exact Logic.I|]. split; [evaluate|]. split.
  - decide_now.
  - apply (datagram_size_in_buffer (node_size:=1)); [done|done|].
    decide_now.
Qed.

Lemma s4_reach : reach s4.
Proof. apply step_reach; [apply s3_reach|apply site_hello_ok|evaluate]. Qed.

Lemma site_safe_witness :
  ∃ s', site_handle (SiteTunnel (EvDatagram studio hello 3)) s3 = (Ret tt, s') ∧ reach s'.
Proof.
  destruct (site_safe s3 (SiteTunnel (EvDatagram studio hello 3)) s3_reach site_hello_ok)
    as (s' & Hr & Hreach & _).
  exists s'. split; [exact Hr|exact Hreach].
Defined.

(** The surrogate of node 7 that site B opens: sockets 10:100 and 10:101. *)
Definition s7 : RemoteNodeSurrogate := new_surrogate 0 (10, Byte.x64) (10, Byte.x65).

Lemma peer_state_crosses_witness :
  ∃ sA' sent_to d sB', gateway_event 0 (GMulticast local_peer alive) 4 s4 = (Ret tt, sA') ∧
    send_calls (mSocket sA') = send_calls (mSocket s4) ++ ((λ ep, (d, ep)) <$> sent_to) ∧
    onDatagram studio d 5 s4 = (Ret tt, sB') ∧
    sends (system (world sB' 0%nat)) =
      [(0%nat, body ++ [Byte.x6d; Byte.x65; Byte.x0a; Byte.x65], multicastEndpointV4)].
Proof.
  destruct (peer_state_crosses s4 s4 0 local_peer alive (Byte.x01, Byte.x05, Byte.x07)
    [Byte.xaa; Byte.x6d; Byte.x65; Byte.x0b; Byte.x30] (Byte.x07, (11, Byte.x30)) 4
    (shouldForward BROADCAST n7 body 4 (mDedupCache (base s4))).2 studio studio 0
    (mkPeer studio CONNECTED 3) (λ _, s7) 5 s4_reach s4_reach)
    as (sA' & sent_to & d & HrA & Hsent & _ & sB' & HrB & Hall & _).
  - unfold room. decide_now.
  - reflexivity.
  - left. reflexivity.
  - reflexivity.
  - evaluate.
  - evaluate.
  - apply run_outcome. evaluate.
  - exists (mkPeer studio CONNECTED 3). split; [|split; reflexivity].
    apply (list_elem_of_lookup_2 _ 0%nat). evaluate.
  - evaluate.
  - evaluate.
  - reflexivity.
  - assert (gateways (base s4) = [0%nat]) as -> by evaluate. apply NoDup_singleton.
  - intros j Hj. assert (j = 0%nat) as ->.
    { assert (gateways (base s4) = [0%nat]) as Hg by evaluate.
      rewrite Hg in Hj. by apply list_elem_of_singleton in Hj. }
    eexists. right. split; [evaluate|]. exists (10, Byte.x64), (10, Byte.x65).
    split; [evaluate|]. split; [evaluate|]. split; [evaluate|reflexivity].
  - exists sA', sent_to, d, sB'. split; [exact HrA|]. split; [exact Hsent|]. split; [exact HrB|].
    destruct (Hall 0%nat) as (_ & Hsends & _).
    + assert (gateways (base s4) = [0%nat]) as -> by evaluate. by left.
    + rewrite Hsends. evaluate.
Defined.
End SiteWitnesses.
