(* ===== verification/Network.v ===== *)
(** * A network of sites

    Sites exchange datagrams over UDP, which may lose, duplicate, delay and
    reorder them.  The state of the network is the sites and what their gateways
    have asked their tunnels to forward; a datagram is on its way if the tunnel
    of its sender has sent it, and stays there.  The theorems need no assumption
    on the datagrams: sites send only what sites can read, and what a site hands
    to its gateways is what a gateway of the sender has forwarded. *)

From stdpp Require Import functions.
From S2P Require Import Prelude LinkLib Sample DedupCache Tunnel UdpTunnel UdpTunnelSpec.
From S2P Require Import PeerTracker TunnelGateway TunnelGatewaySpec GatewayCalls Site.

(** ** What a tunnel sends of its own accord *)

Section control.
Context {AS : Asio} {LK : Link} {node_size : nat} {LW : LinkLaws node_size}.
Context {W : Type} {GW : GatewayOps W}.
Implicit Types (t : UdpTunnel W).

Definition control (ty : TunnelMessageType) : bool :=
  match ty with TUNNEL_HELLO | TUNNEL_BYE | TUNNEL_KEEPALIVE => true | _ => false end.

(** The log of datagrams grows by ones that satisfy [P]. *)
Definition sends_only (P : list byte → Prop) t t' : Prop :=
  ∃ ds, send_calls (mSocket t') = send_calls (mSocket t) ++ ds ∧ Forall (λ d, P d.1) ds.
#[local] Instance sends_only_preorder P : PreOrder (sends_only P).
Proof.
  split.
  - intros t. exists []. by rewrite app_nil_r.
  - intros t1 t2 t3 (d1 & H12 & HP1) (d2 & H23 & HP2). exists (d1 ++ d2).
    split; [by rewrite H23, H12, app_assoc|]. by apply Forall_app.
Qed.

Lemma sends_none P t t' : send_calls (mSocket t') = send_calls (mSocket t) → sends_only P t t'.
Proof. intros H. exists []. by rewrite app_nil_r. Qed.

Definition control_sent (d : list byte) : Prop := ∃ ty, control ty = true ∧ d = control_datagram ty.
Abbreviation only_control := (sends_only control_sent).

Ltac silent := try (intros; by apply sends_none).

Lemma control_sendControl ty to : control ty = true → respects only_control (sendControlMessage (W:=W) ty to).
Proof.
  intros Hty t. rewrite (sendControlMessage_run (node_size:=node_size)) by by destruct ty.
  exists [(control_datagram ty, to)]. split; [done|]. constructor; [by exists ty|constructor].
Qed.

Lemma control_hello to : respects only_control (sendHello (W:=W) to).
Proof. by apply control_sendControl. Qed.
Lemma control_keepalive to : respects only_control (sendKeepalive (W:=W) to).
Proof. by apply control_sendControl. Qed.
Lemma control_bye to : respects only_control (sendBye (W:=W) to).
Proof. by apply control_sendControl. Qed.

Ltac control_steps :=
  respects_steps; silent;
  try first [apply control_hello|apply control_keepalive|apply control_bye].

Lemma control_handleReceive from buf now : respects only_control (handleReceive (W:=W) from buf now).
Proof.
  unfold handleReceive, handleHello, handleKeepalive, handleBye, connected_index, peer_at,
    write_peer, erasePeerNodeIds, UdpTunnel.deliver, handleUnknownPeer, decide_peer, async.
  control_steps.
Qed.

Lemma control_runMaintenance now : respects only_control (runMaintenance (W:=W) now).
Proof. unfold runMaintenance, maintain_peer, peer_at, write_peer, erasePeerNodeIds. control_steps. Qed.

Lemma control_run_job j now : respects only_control (run_job (W:=W) j now).
Proof.
  destruct j; simpl; [|apply control_runMaintenance|..];
    unfold UdpTunnel.listen, addPeer_job, removePeer_job, accept_job, reject_job, push_peer, erasePeerNodeIds,
      rebuildEndpointIndex; control_steps.
Qed.

(** Whatever happens, except that a gateway forwards a message. *)
Lemma control_handle_event (e : Event W) :
  match e with EvForward _ _ _ _ _ => False | _ => True end → respects only_control (handle_event e).
Proof.
  intros He. destruct e; simpl; try done;
    unfold run_next, onDatagram, UdpTunnel.listen, onMaintenanceTimer, addPeer, removePeer, setUnknownPeerCallback,
      decide_peer, UdpTunnel.stop_listening, async; control_steps;
    try first [apply control_run_job|apply control_handleReceive|apply control_runMaintenance].
Qed.
End control.

(** ** What a site sends *)

Section sites.
Context {AS : Asio} {LK : Link} {PL : ParseLaws} {AL : AsioLaws}.
Context {node_size : nat} {LW : LinkLaws node_size}.
Implicit Types (s : Site).

Lemma datagram_target ty from to (message : list byte) :
  datagram ty from to message = datagram ty from (wire_target ty to) message.
Proof. unfold datagram. by rewrite header_target. Qed.

Definition carries (c : TunnelCall) (d : list byte) : Prop :=
  match c with
  | CallForward ty from message to => d = datagram ty from (wire_target ty to) message
  | CallAddGateway => False
  end.

Abbreviation call_fits := (call_fits (node_size:=node_size)).

Lemma call_made_sends i now c s :
  inv all_ok s → call_fits c →
  ∃ s', call_made i now c s = (Ret tt, s') ∧ inv all_ok s' ∧ world s' = world s ∧
    sends_only (carries c) s s'.
Proof.
  intros Hs Hc. destruct (returns_run _ _ _ (call_made_returns (TO:=udp_tunnel_ops) (J:=inv all_ok) i now c s Hs Hc))
    as ([] & s' & Hr & Hs' & _).
  exists s'. split; [done|]. split; [done|]. destruct c as [|ty from message to]; simpl in *.
  - erewrite zoom_run in Hr by apply addGateway_run. injection Hr as <-. split; [done|]. by apply sends_none.
  - destruct Hc as (_ & _ & Hfit).
    destruct (returns_run _ _ _ (shouldForward_wp ty from message now _ (inv_cache _ _ Hs)))
      as (fresh & c & Hsf & _).
    rewrite (forward_run ty from message to now s fresh c Hsf Hfit) in Hr. injection Hr as <-.
    destruct (fresh && _); [|by split; [|apply sends_none]]. split; [done|].
    eexists. split; [simpl; apply record_sends_calls|]. apply Forall_fmap, Forall_true.
    intros ep. apply datagram_target.
Qed.

Lemma calls_made_sends i now calls s :
  inv all_ok s → Forall call_fits calls →
  ∃ s', for_each calls (call_made i now) s = (Ret tt, s') ∧ world s' = world s ∧
    sends_only (λ d, ∃ c, c ∈ calls ∧ carries c d) s s'.
Proof.
  intros Hs Hcalls. revert s Hs. induction Hcalls as [|c calls Hc _ IH]; intros s Hs.
  { exists s. split; [done|]. split; [done|]. by apply sends_none. }
  destruct (call_made_sends i now c s Hs Hc) as (s1 & Hr1 & Hs1 & Hw1 & ds1 & H1 & HP1).
  destruct (IH s1 Hs1) as (s' & Hr & Hw & ds & H & HP). exists s'.
  cbn [for_each]. unfold mbind, M_bind. rewrite Hr1. split; [done|]. split; [congruence|].
  exists (ds1 ++ ds). split; [by rewrite H, H1, app_assoc|]. apply Forall_app. split.
  - eapply Forall_impl; [exact HP1|]. intros d Hd. exists c. split; [by left|done].
  - eapply Forall_impl; [exact HP|]. intros d (c' & Hin & Hd). exists c'. split; [by right|done].
Qed.

(** The calls a site's event makes: those added to the gateway's log. *)
Definition calls_of (e : SiteEvent) (before after : Site) : list TunnelCall :=
  match e with
  | SiteGateway i _ _ => drop (length (mTunnel (world before i))) (mTunnel (world after i))
  | SiteTunnel _ => []
  end.

Lemma site_handle_sends e s :
  inv all_ok s → site_event_ok (node_size:=node_size) e s →
  ∃ s', site_handle e s = (Ret tt, s') ∧ inv all_ok s' ∧ Forall call_fits (calls_of e s s') ∧
    sends_only (λ d, control_sent d ∨ ∃ c, c ∈ calls_of e s s' ∧ carries c d) s s'.
Proof.
  intros Hs Hok.
  destruct (returns_run _ _ _ (site_handle_inv e s Hs Hok)) as ([] & s' & Hr & Hs').
  exists s'. split; [done|]. split; [done|]. destruct e as [i e now|e]; simpl in *.
  - destruct Hok as [Hok Hroom].
    destruct (handle_calls e (world s i) (inv_world _ _ Hs i) Hok Hroom)
      as (g' & Hg & Hinv & calls & Hm & Hfit).
    rewrite (gateway_event_run (TO:=udp_tunnel_ops) (J:=inv all_ok) i e now s g' calls Hg Hm) in Hr.
    cbn [set_tunnel_world tunnel_world udp_tunnel_ops] in Hr. set (s1 := upd_world _ s) in *.
    assert (inv all_ok s1) as Hs1 by (apply inv_upd_world; [by apply all_ok_insert, Hs|done]).
    destruct (calls_made_sends i now calls s1 Hs1 Hfit) as (s2 & Hr2 & Hw & ds & Hds & HP).
    injection (eq_trans (eq_sym Hr2) Hr) as ->. rewrite Hw. simpl.
    rewrite fn_lookup_insert, Hm, drop_app_length. split; [done|].
    exists ds. split; [exact Hds|]. eapply Forall_impl; [exact HP|]. by right.
  - split; [constructor|]. destruct Hok as [Hout _].
    pose proof (control_handle_event (node_size:=node_size) e ltac:(by destruct e) s) as (ds & Hds & HP).
    rewrite Hr in Hds. exists ds. split; [exact Hds|]. eapply Forall_impl; [exact HP|]. by left.
Qed.
End sites.

(** ** The network *)

Section network.
Context {AS : Asio} {LK : Link} {PL : ParseLaws} {AL : AsioLaws}.

(** The sites by the endpoints of their tunnels, and the calls of [forward] that
    the gateways of each site have made. *)
Record Network := mkNetwork {
  sites : UdpEndpoint → Site;
  called : list (UdpEndpoint * TunnelCall);
}.
Definition set_site (a : UdpEndpoint) (s : Site) (n : Network) : Network :=
  mkNetwork (<[a := s]> (sites n)) (called n).

(** An event at one site. *)
Definition at_site (a : UdpEndpoint) (e : SiteEvent) : M Network unit :=
  before ← gets (λ n, sites n a);
  zoom (λ n, sites n a) (set_site a) (site_handle e);;
  after ← gets (λ n, sites n a);
  modify (λ n, mkNetwork (sites n) (called n ++ (pair a <$> calls_of e before after))).

(** A site does something, or a datagram from [a] arrives at [b]. *)
Inductive NetEvent :=
  | Local (a : UdpEndpoint) (e : SiteEvent)
  | Arrives (a b : UdpEndpoint) (d : list byte) (now : Z).

Definition net_handle (e : NetEvent) : M Network unit :=
  match e with
  | Local a e => at_site a e
  | Arrives a b d now => at_site b (SiteTunnel (EvDatagram a d now))
  end.

(** [a]'s tunnel has sent [d] to [b]. *)
Definition on_the_way (a b : UdpEndpoint) (d : list byte) (n : Network) : Prop :=
  (d, b) ∈ send_calls (mSocket (sites n a)).

Context {node_size : nat} {LW : LinkLaws node_size}.

Definition net_event_ok (e : NetEvent) (n : Network) : Prop :=
  match e with
  | Local a (SiteTunnel (EvDatagram _ _ _)) => False
  | Local a e => site_event_ok (node_size:=node_size) e (sites n a)
  | Arrives a b d _ => on_the_way a b d n ∧ receiving (mSocket (sites n b)) = true
  end.

Inductive net_reachable : Network → Prop :=
  | net_new sys now addr script peers :
      net_reachable (mkNetwork (λ a, new_UdpTunnel
        (λ i, new_TunnelGateway (sys a i) (now a i) (addr a i)) (script a) (peers a)) [])
  | net_step n e n' :
      net_reachable n → net_event_ok e n → net_handle e n = (Ret tt, n') → net_reachable n'.

(** Where a datagram of site [a] comes from. *)
Definition sent_by (n : Network) (a : UdpEndpoint) (d : list byte) : Prop :=
  control_sent d ∨ ∃ c, (a, c) ∈ called n ∧ call_fits (node_size:=node_size) c ∧ carries c d.

Record net_inv (n : Network) : Prop := {
  inv_sites a : site_reachable (node_size:=node_size) (sites n a);
  inv_sent a b d : on_the_way a b d n → sent_by n a d;
}.

(** A datagram that a site can read. *)
Definition wire_ok (d : list byte) : Prop := ∃ ty from to (message : list byte),
  d = datagram ty from to message ∧ named ty = true ∧ well_addressed (mkContext from ty to 0) ∧
  (header_size (node_size:=node_size) ty + length message ≤ kMaxMessageSize)%nat.

Lemma sent_by_wire n a d : sent_by n a d → wire_ok d.
Proof.
  intros [(ty & Hty & ->)|([|ty from message to] & _ & Hfit & Hd)]; [| done|].
  - exists ty, NodeId_zero, None, []. pose proof (header_size_bound (node_size:=node_size) ty).
    split; [done|]. split; [by destruct ty|]. split; [by destruct ty|]. cbn [length]. lia.
  - simpl in Hd, Hfit. destruct Hfit as (Hty & Hto & Hlen).
    exists ty, from, (wire_target ty to), message. split; [done|]. split; [by destruct ty|].
    split; [|done]. unfold well_addressed, wire_target. simpl.
    destruct (has_to_node ty); [by apply Hto|done].
Qed.

Lemma wire_ok_fits d : wire_ok d → (length d ≤ kMaxMessageSize)%nat ∧ size_in_buffer d.
Proof.
  intros (ty & from & to & message & -> & Hn & Hto & Hfit). split.
  - by rewrite (length_datagram (node_size:=node_size)).
  - by apply (datagram_size_in_buffer (node_size:=node_size)).
Qed.

Lemma sent_by_more n n' a d : (∀ x, x ∈ called n → x ∈ called n') → sent_by n a d → sent_by n' a d.
Proof. intros Hsub [H|(c & Hc & ?)]; [by left|right]. exists c. split; [by apply Hsub|done]. Qed.

(** Every event of the network is an event of a site that can happen there. *)
Lemma net_site_ok e n :
  net_inv n → net_event_ok e n →
  ∃ a se, net_handle e = at_site a se ∧ site_event_ok (node_size:=node_size) se (sites n a).
Proof.
  intros [_ Hsent] Hok. destruct e as [a e|a b d now]; simpl in Hok.
  - exists a, e. split; [done|]. destruct e as [|[]]; try done.
  - exists b, (SiteTunnel (EvDatagram a d now)). split; [done|]. split; [done|].
    destruct Hok as [Hway Hrec]. split; [done|]. by apply wire_ok_fits, (sent_by_wire n a), (Hsent a b).
Qed.

Lemma at_site_inv a e n :
  net_inv n → site_event_ok (node_size:=node_size) e (sites n a) →
  ∃ n', at_site a e n = (Ret tt, n') ∧ net_inv n'.
Proof.
  intros [Hsites Hsent] Hok.
  destruct (site_handle_sends e (sites n a) (site_reachable_inv _ (Hsites a)) Hok)
    as (s' & Hr & _ & Hfit & ds & Hds & HP).
  set (n' := mkNetwork (<[a := s']> (sites n)) (called n ++ (pair a <$> calls_of e (sites n a) s'))).
  exists n'. split.
  { unfold at_site, mbind, M_bind, gets, zoom, modify. rewrite Hr. unfold set_site, n'. simpl.
    by rewrite fn_lookup_insert. }
  split.
  - intros b. simpl. destruct (decide (b = a)) as [->|Hb].
    + rewrite fn_lookup_insert. by eapply site_step.
    + rewrite fn_lookup_insert_ne by done. apply Hsites.
  - intros b c d Hd. unfold on_the_way in Hd. simpl in Hd.
    assert (∀ x, x ∈ called n → x ∈ called n') as Hmore by (intros x Hx; apply elem_of_app; by left).
    destruct (decide (b = a)) as [->|Hb].
    2:{ rewrite fn_lookup_insert_ne in Hd by done. by apply (sent_by_more n), (Hsent b c). }
    rewrite fn_lookup_insert, Hds in Hd. apply elem_of_app in Hd as [Hd|Hd].
    { by apply (sent_by_more n), (Hsent a c). }
    rewrite Forall_forall in HP. destruct (HP _ Hd) as [Hctl|(call & Hin & Hc)]; [by left|right].
    exists call. split; [|split; [|done]].
    + apply elem_of_app. right. by apply list_elem_of_fmap_2.
    + rewrite Forall_forall in Hfit. by apply Hfit.
Qed.

Lemma net_reachable_inv n : net_reachable n → net_inv n.
Proof.
  induction 1 as [sys now addr script peers|n e n' _ IH Hok Hr].
  - split; [intros a; apply site_new|]. intros a b d Hd. by apply not_elem_of_nil in Hd.
  - destruct (net_site_ok e n IH Hok) as (a & se & He & Hse). rewrite He in Hr.
    destruct (at_site_inv a se n IH Hse) as (n1 & Hr1 & Hinv). rewrite Hr in Hr1.
    by injection Hr1 as <-.
Qed.

(** C4: everything that travels between sites is a well-formed message: each
    datagram that the tunnel of a reachable network has sent fits a datagram,
    and reading it gives a message of a named type, with a target exactly if the
    type has one, whose size field is the number of bytes that follow. *)
Theorem wire_well_typed n a b d :
  net_reachable n → on_the_way a b d n →
  (length d ≤ kMaxMessageSize)%nat ∧
  ∃ context (message : list byte),
    decapsulate (filled kMaxMessageSize d) = Ret (Some (context, filled kMaxMessageSize message)) ∧
    named (ctx_type context) = true ∧ well_addressed context ∧
    ctx_size context = Z.of_nat (length message) ∧
    length d = (header_size (node_size:=node_size) (ctx_type context) + length message)%nat.
Proof.
  intros Hn Hd. pose proof (sent_by_wire n a d (inv_sent n (net_reachable_inv n Hn) a b d Hd)) as Hwire.
  split; [by apply wire_ok_fits|]. destruct Hwire as (ty & from & to & message & -> & Hty & Hto & Hfit).
  exists (mkContext from ty to (Z.of_nat (length message))), message.
  split; [by apply (decapsulate_datagram (node_size:=node_size))|]. split; [done|]. split; [done|].
  split; [done|]. by apply length_datagram.
Qed.

(** C2: a network of sites is safe, whatever the network does with the
    datagrams: from every reachable state, every event at a site and every
    arrival of a datagram that some site has sent, late, repeated or out of
    order, is handled without an escaping exception or undefined behaviour, and
    every site keeps its invariants.  Nothing is assumed about the datagrams. *)
Theorem network_safe n e :
  net_reachable n → net_event_ok e n →
  ∃ n', net_handle e n = (Ret tt, n') ∧ net_reachable n' ∧
    ∀ a, index_ok (sites n' a) ∧ ∀ i, gw_inv (world (sites n' a) i).
Proof.
  intros Hn Hok. destruct (net_site_ok e n (net_reachable_inv n Hn) Hok) as (a & se & He & Hse).
  destruct (at_site_inv a se n (net_reachable_inv n Hn) Hse) as (n' & Hr & Hinv).
  rewrite <-He in Hr. exists n'. split; [done|]. split; [by eapply net_step|].
  intros b. by destruct (site_reachable_inv _ (inv_sites n' Hinv b)).
Qed.
(** A control datagram reaches no gateway. *)
Lemma control_keeps_world (s : Site) (from : UdpEndpoint) ty now s' :
  control ty = true →
  handleReceive from (filled kMaxMessageSize (control_datagram ty)) now s = (Ret tt, s') →
  world s' = world s.
Proof.
  intros Hty. unfold handleReceive. unfold mbind at 1, M_bind at 1, lift.
  pose proof (header_size_bound (node_size:=node_size) ty). unfold control_datagram.
  rewrite (decapsulate_datagram (node_size:=node_size)); [| |by destruct ty|cbn [length]; lia];
    [|by destruct ty].
  destruct ty; try done; cbn [ctx_type]; intros Hr.
  - pose proof (no_delivery_handleHello from now s) as Hn. rewrite Hr in Hn. apply Hn.
  - pose proof (no_delivery_handleBye from s) as Hn. rewrite Hr in Hn. apply Hn.
  - pose proof (no_delivery_handleKeepalive from now s) as Hn. rewrite Hr in Hn. apply Hn.
Qed.

(** C3: sites do not invent messages: when a datagram from site [a] arrives at
    site [b], either the gateways of [b] are left as they are, or [b] is
    connected to [a] and its gateways are handed, unchanged, a message that a
    gateway of [a] has asked its tunnel to forward: type, source node, bytes,
    and the target node where the type has one.  No other site changes. *)
Theorem network_integrity n a b d now n' :
  net_reachable n → net_event_ok (Arrives a b d now) n →
  net_handle (Arrives a b d now) n = (Ret tt, n') →
  (world (sites n' b) = world (sites n b) ∨
   ∃ ty from (message : list byte) to buf,
     (a, CallForward ty from message to) ∈ called n ∧ connected_from (sites n b) a ∧
     forward_locally (gateways (base (sites n b))) ty from (filled kMaxMessageSize message)
       (Z.of_nat (length message)) (wire_target ty to) (world (sites n b)) =
         (Ret buf, world (sites n' b))) ∧
  ∀ c, c ≠ b → sites n' c = sites n c.
Proof.
  intros Hn [Hway _] Hr. destruct (net_reachable_inv n Hn) as [Hsites Hsent].
  pose proof (Hsent a b d Hway) as Hd. pose proof (sent_by_wire n a d Hd) as Hwire.
  cbn [net_handle] in Hr. unfold at_site, mbind, M_bind, gets, zoom, modify in Hr. cbn [site_handle] in Hr.
  destruct (handle_event (EvDatagram a d now) (sites n b)) as [[[]|ex|u] s'] eqn:He; try done.
  injection Hr as <-. simpl. split; [|intros c Hc; by rewrite fn_lookup_insert_ne].
  rewrite fn_lookup_insert. cbn [handle_event] in He.
  destruct (decide (connected_from (sites n b) a)) as [Hconn|Hconn].
  2:{ left. pose proof (no_delivery_onDatagram (sites n b) a d now Hconn) as Hnd. rewrite He in Hnd. apply Hnd. }
  destruct (onDatagram_inv a d now _ _ (proj1 (wire_ok_fits d Hwire)) He) as (s2 & Hr2 & _ & ->).
  destruct Hd as [(ty & Hty & ->)|([|ty from message to] & Hin & Hfit & Hcar)]; [|done|].
  { left. by apply (control_keeps_world _ _ _ _ _ Hty Hr2). }
  right. destruct Hfit as (Hty & Hto & Hlen). simpl in Hcar. subst d.
  exists ty, from, message, to. pose proof Hconn as (i & p & Hi & Hp & Hst).
  destruct (handleReceive_message all_ok a ty from (wire_target ty to) message now i p
    (upd_mSocket (set_receiving false) (sites n b))) as (buf & w' & Hloc & _ & Hrun); try done.
  { apply inv_upd_mSocket, site_reachable_inv, Hsites. }
  { unfold well_addressed, wire_target. simpl. destruct (has_to_node ty); [by apply Hto|done]. }
  rewrite Hrun in Hr2. injection Hr2 as <-. exists buf. by split_and!.
Qed.
End network.

Module NetworkWitnesses.
Import Sample GatewayWitnesses.

Definition studio : UdpEndpoint := (20, Byte.x09).
Definition stage : UdpEndpoint := (30, Byte.x09).
Definition hello : list byte := control_datagram TUNNEL_HELLO.

(** Two sites that know each other start; the studio's first maintenance pass
    says HELLO. *)
Definition n0 : Network := mkNetwork (λ a, new_UdpTunnel
  (λ _, new_TunnelGateway sys (seconds 100) (10 : @Address asio)) []
  (if decide (a = studio) then [stage] else [studio])) [].
Definition n1 := (net_handle (Local stage (SiteTunnel (EvRunNext 1))) n0).2.
Definition n2 := (net_handle (Local studio (SiteTunnel (EvRunNext 1))) n1).2.
Definition n3 := (net_handle (Local studio (SiteTunnel (EvRunNext 2))) n2).2.

Abbreviation reach := (net_reachable (node_size:=1)).

Lemma net_step_reach e n :
  reach n → net_event_ok (node_size:=1) e n → (net_handle e n).1 = Ret tt → reach (net_handle e n).2.
Proof. intros Hn Hok Hr. eapply net_step; [done..|]. by apply run_outcome. Qed.

Lemma n3_reach : reach n3.
Proof.
  assert (reach n0) as H0 by apply (net_new (λ _ _, sys) (λ _ _, seconds 100) (λ _ _, 10)
    (λ _, []) (λ a, if decide (a = studio) then [stage] else [studio])).
  assert (reach n1) as H1 by (apply net_step_reach; [done|by split|evaluate]).
  assert (reach n2) as H2 by (apply net_step_reach; [done|by split|evaluate]).
  apply net_step_reach; [done|by split|evaluate].
Qed.

Lemma n3_hello : on_the_way studio stage hello n3.
Proof.
  unfold on_the_way. assert (send_calls (mSocket (sites n3 studio)) = [(hello, stage)]) as -> by evaluate.
  by left.
Qed.

Lemma n3_arrives : net_event_ok (node_size:=1) (Arrives studio stage hello 3) n3.
Proof. split; [apply n3_hello|evaluate]. Qed.

Lemma wire_well_typed_witness : (length hello ≤ kMaxMessageSize)%nat.
Proof.
  destruct (wire_well_typed (node_size:=1) n3 studio stage hello n3_reach n3_hello) as [H _].
  exact H.
Defined.

Lemma network_safe_witness :
  ∃ n', net_handle (Arrives studio stage hello 3) n3 = (Ret tt, n') ∧ reach n'.
Proof.
  destruct (network_safe n3 (Arrives studio stage hello 3) n3_reach n3_arrives) as (n' & Hr & Hn & _).
  exists n'. split; [exact Hr|exact Hn].
Defined.

(** The handshake is over, a gateway of each site listens, and that of the studio
    has heard a peer. *)
Definition n4 := (net_handle (Arrives studio stage hello 3) n3).2.
Definition n5 := (net_handle (Arrives stage studio hello 4) n4).2.
Definition n6 := (net_handle (Local stage (SiteGateway 0 GListen 5)) n5).2.
Definition n7 := (net_handle (Local studio (SiteGateway 0 GListen 5)) n6).2.
Definition n8 := (net_handle (Local studio (SiteGateway 0 (GMulticast local_peer alive) 6)) n7).2.
Definition heard : list byte := datagram BROADCAST GatewayWitnesses.n7 None body.
Definition n9 := (net_handle (Arrives studio stage heard 7) n8).2.

Lemma n8_reach : reach n8.
Proof.
  assert (reach n4) as H4 by (apply net_step_reach; [apply n3_reach|apply n3_arrives|evaluate]).
  assert (reach n5) as H5.
  { apply net_step_reach; [done| |evaluate]. split; [|evaluate]. unfold on_the_way.
    assert (send_calls (mSocket (sites n4 stage)) = [(hello, studio)]) as -> by evaluate. by left. }
  assert (reach n6) as H6 by (apply net_step_reach; [done|split; [evaluate|exact Logic.I]|evaluate]).
  assert (reach n7) as H7 by (apply net_step_reach; [done|split; [evaluate|exact Logic.I]|evaluate]).
  apply net_step_reach; [done| |evaluate]. split; [evaluate|]. simpl. unfold room. decide_now.
Qed.

Lemma n8_arrives : net_event_ok (node_size:=1) (Arrives studio stage heard 7) n8.
Proof.
  split; [|evaluate]. unfold on_the_way. apply (list_elem_of_lookup_2 _ 2%nat). evaluate.
Qed.

(** The gateway of the stage has sent something. *)
Lemma stage_told : world (sites n9 stage) ≠ world (sites n8 stage).
Proof.
  intros Hsame. set (count (w : nat → TunnelGateway.TunnelGateway) := length (sends (system (w 0%nat)))).
  assert (count (world (sites n9 stage)) = 1%nat) as H9 by evaluate.
  assert (count (world (sites n8 stage)) = 0%nat) as H8 by evaluate.
  generalize (eq_trans (eq_sym H9) (eq_trans (f_equal count Hsame) H8)). clear. discriminate.
Qed.

(** What the gateways of the stage get is what the studio's gateway has asked for. *)
Lemma network_integrity_witness :
  ∃ ty from (message : list byte) to buf,
    (studio, CallForward ty from message to) ∈ called n8 ∧
    forward_locally (gateways (base (sites n8 stage))) ty from (filled kMaxMessageSize message)
      (Z.of_nat (length message)) (wire_target ty to) (world (sites n8 stage)) =
        (Ret buf, world (sites n9 stage)).
Proof.
  destruct (network_integrity (node_size:=1) n8 studio stage heard 7 n9) as [[Hsame|H] _].
  - apply n8_reach.
  - apply n8_arrives.
  - unfold n9. apply run_outcome. evaluate.
  - destruct (stage_told Hsame).
  - destruct H as (ty & from & message & to & buf & Hin & _ & Hloc).
    exists ty, from, message, to, buf. split; [exact Hin|exact Hloc].
Defined.
End NetworkWitnesses.
