(* ===== verification/Machine.v ===== *)
(** * A machine: shared-memory clients and the gateways they serve

    The processes of one machine (for example one in each network namespace) map
    the same shared memory; each is a client, the tunnel of [ShmTunnel.v] over
    the gateways of [TunnelGateway.v], each calling the other as in
    [GatewayCalls.v].  The memory belongs to the machine: a step of a client
    starts from the memory as the last step of any client left it, and a listen
    call is a step per turn.  The theorems need no assumption on what the other
    clients do, but a constructor or destructor is one step. *)

From stdpp Require Import functions.
From S2P Require Import Prelude LinkLib Sample DedupCache Tunnel PeerTracker TunnelGateway.
From S2P Require Import TunnelGatewaySpec GatewayCalls SharedRing ShmTunnel ShmTunnelSpec.

(** ** The shared-memory tunnel as the gateways see it *)

Section interface.
Context {AS : Asio} {LK : Link} {node_size : nat} {LW : LinkLaws node_size}.
Context {W : Type} {GW : GatewayOps W} (I : W → Prop) {GL : GatewayLaws W I}.
Implicit Types (t : ShmTunnel W).

#[export] Instance shm_tunnel_ops : TunnelOps (ShmTunnel W) W := {|
  tunnel_base := base;
  set_tunnel_base b := upd_base (λ _, b);
  tunnel_world := world;
  set_tunnel_world w := upd_world (λ _, w);
  tunnel_forward := forward;
  tunnel_stop_listening := stop_listening;
|}.

(** The invariant with the number of clients, which only joining and leaving
    change. *)
Definition client_ok (n : nat) t : Prop := shm_good I t ∧ num_clients (mSharedMemory t) = n.

Lemma client_ok_memory n t mem :
  shared_ok mem → num_clients mem = n → client_ok (num_clients (mSharedMemory t)) t →
  client_ok n (upd_mSharedMemory (λ _, mem) t).
Proof. intros (?&?&?) Hn [[Hi Hl] _]. split; [|done]. split; [by apply inv_memory|done]. Qed.

Lemma client_handle e n t :
  client_ok n t → shm_event_ok (node_size:=node_size) I e t →
  match e with ShmOthers _ => False | _ => True end →
  ∃ t', shm_handle e t = (Ret tt, t') ∧ client_ok n t'.
Proof.
  intros [Hg Hn] Hok He.
  destruct (returns_run _ _ _ (shm_handle_good I e t Hg Hok)) as ([] & t' & Hr & Hg' & Hc).
  exists t'. split; [done|]. split; [done|]. rewrite <-Hn. by destruct e.
Qed.

#[export] Instance shm_tunnel_laws n :
  TunnelLaws (node_size:=node_size) (ShmTunnel W) W I (client_ok n).
Proof.
  split; simpl.
  - intros t [[Hi _] _]. apply (shm_world I t Hi).
  - intros w t [[Hi Hl] Hn] Hw. split; [|done]. split; [|done]. destruct Hi. by split.
  - done.
  - intros g t [[Hi Hl] Hn]. unfold wp. erewrite zoom_run by apply addGateway_run.
    case_decide; [by destruct t|]. split; [|done]. split; [|done]. split; [|done]. by apply inv_gateways.
  - intros ty from message to now t [[Hi Hl] Hn] (Hty & _ & Hfit).
    destruct (shm_forward_run I t ty from message to now Hi (carries_named ty Hty) Hfit)
      as (fresh & c & t' & _ & Hr & Hi' & _ & (Hw & _ & Hrun & _ & _ & Hp & Hcount & Hli) & _).
    eapply wp_run; [exact Hr|]. split; [|done]. split; [|congruence]. split; [done|].
    unfold listening. by rewrite Hrun, Hp, Hli.
Qed.
End interface.

(** ** The machine *)

Section definitions.
Context {AS : Asio} {LK : Link} {PL : ParseLaws} {AL : AsioLaws}.

Abbreviation Client := (ShmTunnel (nat → TunnelGateway.TunnelGateway)).

(** The shared memory object, [None] before it is created and after it is
    removed, and the clients by their processes.  A client's own copy of the
    memory is the one of its last step. *)
Record Machine := mkMachine {
  object : option SharedMemory;
  clients : gmap nat Client;
}.
Definition new_Machine : Machine := mkMachine None ∅.

(** A step of client [p] on the memory as it is now. *)
Definition at_client {A} (p : nat) (m : M Client A) : M Machine A := λ mc,
  match object mc, clients mc !! p with
  | Some mem, Some t =>
      let '(r, t') := m (upd_mSharedMemory (λ _, mem) t) in
      (r, mkMachine (Some (mSharedMemory t')) (<[p := t']> (clients mc)))
  | _, _ => (Undef NullPointer, mc)
  end.

(** A process makes its tunnel.  If the constructor throws there is no client,
    and the process ends with the exception ([Console.main_program] reports it),
    but the memory keeps what was done to it. *)
Definition join (p : nat) (w : nat → TunnelGateway.TunnelGateway) : M Machine unit := λ mc,
  match construct (before_constructor w (object mc)) with
  | (Ret _, t) => (Ret tt, mkMachine (Some (mSharedMemory t)) (<[p := t]> (clients mc)))
  | (Throw e, t) => (Throw e, mkMachine (Some (mSharedMemory t)) (clients mc))
  | (Undef u, t) => (Undef u, mc)
  end.

(** The destructor of a client's tunnel. *)
Definition leave (p : nat) : M Machine unit := λ mc,
  match object mc, clients mc !! p with
  | Some mem, Some t =>
      (Ret tt, mkMachine (destruct_object (upd_mSharedMemory (λ _, mem) t)) (delete p (clients mc)))
  | _, _ => (Undef NullPointer, mc)
  end.

Inductive MachineEvent :=
  | MJoin (p : nat) (sys : nat → System) (now : nat → Z) (addr : nat → Address)
  | MGateway (p i : nat) (e : GatewayEvent) (now : Z)
  | MListen (p : nat)
  | MTurn (p : nat)
  | MStop (p : nat)
  | MLeave (p : nat).

(** The tunnel's constructor is one step, and so is its destructor: the count of
    the clients, which nothing protects, is taken to be changed by one process
    at a time ([ShmFindings.numbers_shared] shows what happens otherwise).  A
    listen call begins, and runs turn by turn, with steps of other clients in
    between. *)
Definition machine_handle (e : MachineEvent) : M Machine unit :=
  match e with
  | MJoin p sys now addr => join p (λ i, new_TunnelGateway (sys i) (now i) (addr i))
  | MGateway p i e now => at_client p (gateway_event i e now)
  | MListen p => at_client p (shm_handle ShmListen)
  | MTurn p => at_client p (shm_handle ShmTurn)
  | MStop p => at_client p (shm_handle ShmStop)
  | MLeave p => leave p
  end.

Context {node_size : nat} {LW : LinkLaws node_size}.

(** What can happen.  The code does not check the number of clients before it
    counts a new one: a join with five counted already is left out. *)
Definition machine_event_ok (e : MachineEvent) (mc : Machine) : Prop :=
  match e with
  | MJoin p _ _ _ =>
      clients mc !! p = None ∧ (num_clients (map_shared (object mc)) < MAX_CLIENTS)%nat
  | MGateway p i e _ => ∃ t, clients mc !! p = Some t ∧ in_listen t = false ∧
      can_happen e (world t i) ∧ message_room node_size e
  | MListen p => ∃ t, clients mc !! p = Some t ∧ in_listen t = false ∧ (0 < posted_listens t)%nat
  | MTurn p => ∃ t, clients mc !! p = Some t ∧ in_listen t = true
  | MStop p => is_Some (clients mc !! p)
  | MLeave p => ∃ t, clients mc !! p = Some t ∧ is_running t = false ∧ in_listen t = false
  end.

(** How a step ends: only a constructor that finds four clients throws. *)
Definition machine_result (e : MachineEvent) (mc : Machine) : result unit :=
  match e with
  | MJoin _ _ _ _ =>
      if decide (4 ≤ num_clients (map_shared (object mc)))%nat then Throw RuntimeError else Ret tt
  | _ => Ret tt
  end.

Inductive machine_reachable : Machine → Prop :=
  | machine_new : machine_reachable new_Machine
  | machine_step mc e mc' :
      machine_reachable mc → machine_event_ok e mc →
      machine_handle e mc = (machine_result e mc, mc') → machine_reachable mc'.

(** ** The invariant *)

Record machine_inv (mc : Machine) : Prop := {
  machine_memory : shared_ok (map_shared (object mc));
  machine_count : (size (clients mc) ≤ num_clients (map_shared (object mc)))%nat;
  machine_clients : map_Forall (λ _ t,
    client_ok all_ok (num_clients (mSharedMemory t)) t) (clients mc);
}.
End definitions.

Section safety.
Context {AS : Asio} {LK : Link} {PL : ParseLaws} {AL : AsioLaws}.
Context {node_size : nat} {LW : LinkLaws node_size}.
Abbreviation Client := (ShmTunnel (nat → TunnelGateway.TunnelGateway)).
Implicit Types (t : Client) (mc : Machine).

Abbreviation client_ok := (client_ok all_ok).

Lemma client_ok_shared n t : client_ok n t → shared_ok (mSharedMemory t).
Proof.
  intros [[Hi _] _].
  split; [exact (shm_mem _ _ Hi)|split; [exact (shm_count _ _ Hi)|exact (shm_msgs _ _ Hi)]].
Qed.

(** While there is a client, there is a memory. *)
Lemma client_memory mc p t :
  machine_inv mc → clients mc !! p = Some t →
  ∃ mem, object mc = Some mem ∧ shared_ok mem ∧ (size (clients mc) ≤ num_clients mem)%nat ∧
    client_ok (num_clients mem) (upd_mSharedMemory (λ _, mem) t).
Proof.
  intros [Hmem Hcount Hclients] Hp. destruct (object mc) as [mem|]; simpl in *.
  - exists mem. split; [done|]. split; [done|]. split; [done|].
    apply client_ok_memory; [done|done|]. by apply (Hclients p).
  - assert (size (clients mc) = 0%nat) as Hz%map_size_empty_iff by lia. by rewrite Hz in Hp.
Qed.

Lemma at_client_inv {A} mc p t (m : M Client A) a :
  machine_inv mc → clients mc !! p = Some t →
  (∀ mem, object mc = Some mem → shared_ok mem →
     client_ok (num_clients mem) (upd_mSharedMemory (λ _, mem) t) →
     ∃ t', m (upd_mSharedMemory (λ _, mem) t) = (Ret a, t') ∧ client_ok (num_clients mem) t') →
  ∃ mc', at_client p m mc = (Ret a, mc') ∧ machine_inv mc'.
Proof.
  intros Hmc Hp Hm. destruct (client_memory mc p t Hmc Hp) as (mem & Hobj & Hok & Hcount & Ht).
  destruct (Hm mem Hobj Hok Ht) as (t' & Hr & Ht'). unfold at_client. rewrite Hobj, Hp, Hr.
  eexists. split; [done|]. pose proof (proj2 Ht') as Hn. split; simpl.
  - by apply (client_ok_shared (num_clients mem)).
  - rewrite map_size_insert_Some, Hn by done. done.
  - apply map_Forall_insert_2; [by rewrite Hn|apply (machine_clients mc Hmc)].
Qed.

Lemma leave_inv mc p :
  machine_inv mc → is_Some (clients mc !! p) →
  ∃ mc', leave p mc = (Ret tt, mc') ∧ machine_inv mc'.
Proof.
  intros Hmc [t Hp]. destruct (client_memory mc p t Hmc Hp) as (mem & Hobj & (Hm & Hc & Hq) & Hcount & Ht).
  unfold leave. rewrite Hobj, Hp. eexists. split; [done|].
  assert (size (delete p (clients mc)) = pred (size (clients mc)))%nat as Hsize
    by (rewrite map_size_delete_Some by (by eexists); done).
  split; simpl; [..|by apply map_Forall_delete, (machine_clients mc Hmc)]; rewrite ?Hsize;
    unfold destruct_object; simpl; case_decide; simpl; try lia.
  - split; [done|]. split; [simpl; lia|done].
  - apply zero_shared_ok.
Qed.

Lemma join_inv mc p w :
  machine_inv mc → all_ok w → clients mc !! p = None →
  (num_clients (map_shared (object mc)) < MAX_CLIENTS)%nat →
  ∃ mc', join p w mc =
      (if decide (4 ≤ num_clients (map_shared (object mc)))%nat then Throw RuntimeError else Ret tt, mc') ∧
    machine_inv mc' ∧ num_clients (map_shared (object mc')) = S (num_clients (map_shared (object mc))) ∧
    (dom (clients mc') = if decide (4 ≤ num_clients (map_shared (object mc)))%nat
                         then dom (clients mc) else {[p]} ∪ dom (clients mc)).
Proof.
  intros [Hmem Hcount Hclients] Hw Hp Hroom. unfold join.
  assert (∀ t n, construct (before_constructor w (object mc)) = (Ret tt, t) → shm_inv all_ok t →
    num_clients (map_shared (object mc)) = n → joined w n t →
    machine_inv (mkMachine (Some (mSharedMemory t)) (<[p := t]> (clients mc)))) as Hdone.
  { intros t n _ Hi Hn (_ & Hcl & _ & _ & _ & _ & _ & Hposted & Hin).
    assert (client_ok (num_clients (mSharedMemory t)) t) as Ht
      by (split; [split; [done|unfold listening; by rewrite Hposted, Hin]|done]).
    split; simpl; [by eapply client_ok_shared| |by apply map_Forall_insert_2].
    rewrite map_size_insert_None by done. lia. }
  destruct (num_clients (map_shared (object mc))) as [|n] eqn:Hn.
  - destruct (construct_first all_ok w _ Hn Hw) as (t & Hr & Hi & Hj & _).
    rewrite Hr. eexists. split; [done|]. split; [by apply (Hdone t 0%nat)|].
    split; [apply Hj|]. rewrite decide_False by lia. apply dom_insert_L.
  - destruct (decide (S n ≤ 3)%nat).
    + destruct (construct_next all_ok w _ _ Hn ltac:(lia) Hw Hmem) as (t & Hr & Hi & Hj & _).
      rewrite Hr, decide_False by lia. eexists. split; [done|]. split; [by apply (Hdone t (S n))|].
      split; [apply Hj|]. rewrite decide_False by lia. apply dom_insert_L.
    + destruct (construct_full w _ _ Hn ltac:(lia)) as (t & Hr & Hm & _).
      rewrite Hr, decide_True by lia. eexists. split; [done|].
      split; [|simpl; rewrite Hm; by rewrite decide_True by lia].
      split; simpl; [|rewrite Hm; simpl; lia|done]. rewrite Hm.
      destruct Hmem as (? & ? & ?). split; [done|]. split; [simpl; lia|done].
Qed.

Lemma machine_handle_inv e mc :
  machine_inv mc → machine_event_ok (node_size:=node_size) e mc →
  ∃ mc', machine_handle e mc = (machine_result e mc, mc') ∧ machine_inv mc'.
Proof.
  intros Hmc Hok. destruct e as [p sys now addr|p i e now|p|p|p|p]; simpl in *.
  - destruct Hok. destruct (join_inv mc p (λ i, new_TunnelGateway (sys i) (now i) (addr i)))
      as (mc' & Hr & Hinv & _); [done| |done..|by exists mc']. intros i. apply new_TunnelGateway_inv.
  - destruct Hok as (t & Hp & _ & Hcan & Hroom). apply (at_client_inv mc p t); [done..|].
    intros mem _ _ Ht. set (t1 := upd_mSharedMemory _ t) in *.
    destruct (gateway_event_returns (TO:=shm_tunnel_ops) (J:=client_ok (num_clients mem)) i e now t1
      Ht Hcan Hroom) as (g' & calls & _ & _ & _ & _ & _ & Hwp).
    destruct (returns_run _ _ _ Hwp) as ([] & t' & Hr & Ht' & _).
    by exists t'.
  - destruct Hok as (t & Hp & Hin & Hposted). apply (at_client_inv mc p t); [done..|].
    intros mem _ _ Ht. by apply (client_handle all_ok ShmListen).
  - destruct Hok as (t & Hp & Hin). apply (at_client_inv mc p t); [done..|].
    intros mem _ _ Ht. by apply (client_handle all_ok ShmTurn).
  - destruct Hok as [t Hp]. apply (at_client_inv mc p t); [done..|].
    intros mem _ _ Ht. by apply (client_handle all_ok ShmStop).
  - destruct Hok as (t & Hp & _). apply leave_inv; [done|by eexists].
Qed.

Lemma machine_reachable_inv mc : machine_reachable (node_size:=node_size) mc → machine_inv mc.
Proof.
  induction 1 as [|mc e mc' _ IH Hok Hr].
  - split; [apply zero_shared_ok|done|apply map_Forall_empty].
  - destruct (machine_handle_inv e mc IH Hok) as (mc1 & Hr1 & Hinv). rewrite Hr in Hr1.
    by injection Hr1 as <-.
Qed.
End safety.

(** ** Theorems *)

Section theorems.
Context {AS : Asio} {LK : Link} {PL : ParseLaws} {AL : AsioLaws}.
Context {node_size : nat} {LW : LinkLaws node_size}.
Abbreviation Client := (ShmTunnel (nat → TunnelGateway.TunnelGateway)).
Implicit Types (t : Client) (mc : Machine).

Abbreviation reachable := (machine_reachable (node_size:=node_size)).

(** C27: the processes of a machine are safe together: from every reachable
    state, whatever they hear on their networks, whichever of them run in which
    order, also between two turns of a listen call, join and leave, no step is
    undefined and only a constructor throws, exactly if it finds four clients
    counted: then no client comes into being, but the count is one higher.  This
    takes every constructor and destructor to be one step of the machine, since
    nothing in the code protects the count, and no process to join when five are
    counted.  Then the count is never below the number of clients, so the memory
    is not removed under one, every running client has exactly one listen call
    posted or running, and every gateway keeps its invariant.  Nothing is assumed
    about what the other clients leave in the memory. *)
Theorem machine_safe mc e :
  reachable mc → machine_event_ok (node_size:=node_size) e mc →
  ∃ mc', machine_handle e mc = (machine_result e mc, mc') ∧ reachable mc' ∧
    (size (clients mc') ≤ num_clients (map_shared (object mc')) ≤ MAX_CLIENTS)%nat ∧
    map_Forall (λ _ t, (is_running t = true → posted_listens t = if in_listen t then 0%nat else 1%nat) ∧
      ∀ i, gw_inv (world t i)) (clients mc') ∧
    ∀ p sys now addr, e = MJoin p sys now addr →
      num_clients (map_shared (object mc')) = S (num_clients (map_shared (object mc))) ∧
      (dom (clients mc') = if decide (4 ≤ num_clients (map_shared (object mc)))%nat
                           then dom (clients mc) else {[p]} ∪ dom (clients mc)).
Proof.
  intros Hmc Hok. pose proof (machine_reachable_inv mc Hmc) as Hinv0.
  destruct (machine_handle_inv e mc Hinv0 Hok) as (mc' & Hr & Hinv).
  exists mc'. split; [done|]. split; [by eapply machine_step|].
  destruct Hinv as [(_ & Hc & _) Hcount Hclients]. split; [done|]. split.
  - intros p t Hp. destruct (Hclients p t Hp) as [[Hi Hl] _]. split; [done|]. apply (shm_world _ t Hi).
  - intros p sys now addr ->. simpl in Hok. destruct Hok as [Hp Hroom].
    destruct (join_inv mc p (λ i, new_TunnelGateway (sys i) (now i) (addr i)) Hinv0)
      as (mc1 & Hr1 & _ & Hn & Hdom); [intros i; apply new_TunnelGateway_inv|done..|].
    simpl in Hr. rewrite Hr1 in Hr. by injection Hr as <-.
Qed.

(** The steps of a machine are steps of its clients. *)
Abbreviation client_reachable := (shm_reachable (node_size:=node_size) all_ok).

Lemma calls_reachable i now calls t t' :
  client_reachable t → in_listen t = false → Forall (call_fits (node_size:=node_size)) calls →
  for_each calls (call_made i now) t = (Ret tt, t') → client_reachable t'.
Proof.
  intros Ht Hin Hcalls. revert t Ht Hin. induction Hcalls as [|c calls Hc _ IH]; intros t Ht Hin Hr.
  { by injection Hr as <-. }
  cbn [for_each] in Hr. unfold mbind, M_bind in Hr.
  destruct (call_made i now c t) as [[[]|ex|u] t1] eqn:H1; try done.
  destruct c as [|ty from message to]; cbn [call_made] in H1.
  - cbn [tunnel_base set_tunnel_base shm_tunnel_ops] in H1. apply (IH t1); [| |done].
    + by eapply (shm_reachable_step all_ok t (ShmAddGateway i)).
    + erewrite zoom_run in H1 by apply addGateway_run. by injection H1 as <-.
  - cbn [tunnel_forward shm_tunnel_ops] in H1. destruct Hc as (Hty & _ & Hfit).
    destruct (shm_forward_run all_ok t ty from message to now) as (_ & _ & t2 & _ & Hr2 & _ & _ & Hsame & _);
      [by apply (shm_reachable_good all_ok t)|by apply carries_named|done|].
    rewrite H1 in Hr2. injection Hr2 as <-. apply (IH t1); [| |done].
    + eapply (shm_reachable_step all_ok t (ShmForward ty from message to now)); [done| |done].
      split; [done|]. split; [by apply carries_named|done].
    + destruct Hsame as (_&_&_&_&_&_&_&Hli). congruence.
Qed.

Lemma at_client_reachable mc mc' p (m : M Client unit) :
  machine_inv mc → map_Forall (λ _ t, client_reachable t) (clients mc) →
  at_client p m mc = (Ret tt, mc') →
  (∀ mem t t', clients mc !! p = Some t →
     client_ok all_ok (num_clients mem) (upd_mSharedMemory (λ _, mem) t) →
     client_reachable (upd_mSharedMemory (λ _, mem) t) →
     m (upd_mSharedMemory (λ _, mem) t) = (Ret tt, t') → client_reachable t') →
  map_Forall (λ _ t, client_reachable t) (clients mc').
Proof.
  intros Hinv Hall Hr Hstep. unfold at_client in Hr.
  destruct (clients mc !! p) as [t|] eqn:Hp; [|by destruct (object mc)].
  destruct (client_memory mc p t Hinv Hp) as (mem & Hobj & Hok & _ & Ht). rewrite Hobj in Hr.
  destruct (m _) as [r t'] eqn:Hm. injection Hr as -> <-. simpl. apply map_Forall_insert_2; [|done].
  eapply Hstep; try done.
  eapply (shm_reachable_step all_ok t (ShmOthers mem)); [by apply (Hall p)|done|done].
Qed.

Lemma gateway_event_reachable n i e now t t' :
  client_ok all_ok n t → in_listen t = false → can_happen e (world t i) → message_room node_size e →
  client_reachable t → gateway_event i e now t = (Ret tt, t') → client_reachable t'.
Proof.
  intros Ht Hin Hcan Hroom Hreach Hr.
  destruct (gateway_event_returns (TO:=shm_tunnel_ops) (J:=client_ok all_ok n) i e now t Ht Hcan Hroom)
    as (g' & calls & _ & Hg' & _ & Hfit & Hrun & _).
  apply (calls_reachable i now calls (upd_world (λ _, <[i := g']> (world t)) t)); [|done|done|].
  - eapply (shm_reachable_step all_ok t (ShmWorld (<[i := g']> (world t)))); [done| |done].
    split; [done|]. apply all_ok_insert; [done|]. apply (shm_world _ _ (proj1 (proj1 Ht))).
  - exact (eq_trans (eq_sym Hrun) Hr).
Qed.

(** C28: a client among others refines the client of [ShmTunnelSpec.v]: in every
    reachable state of a machine, every client is in a state that is reachable
    there, where the other clients may do anything to the memory within the
    protocol.  So what [shm_tunnel_safe] and its companions assume about the
    other clients is what the program's clients do. *)
Theorem machine_refines mc :
  reachable mc → map_Forall (λ _ t, client_reachable t) (clients mc).
Proof.
  induction 1 as [|mc e mc' Hmc IH Hok Hr]; [apply map_Forall_empty|].
  pose proof (machine_reachable_inv mc Hmc) as Hinv.
  destruct e as [p sys now addr|p i e now|p|p|p|p];
    cbn [machine_handle machine_event_ok machine_result] in *.
  - unfold join in Hr. destruct (construct _) as [[[]|ex|u] t] eqn:Hc.
    + injection Hr as _ <-. apply map_Forall_insert_2; [|done].
      eapply (shm_reachable_new all_ok _ (object mc)); [|apply Hinv|exact Hc].
      intros i. apply new_TunnelGateway_inv.
    + by injection Hr as _ <-.
    + by case_decide.
  - eapply at_client_reachable; [done..|]. intros mem t t' Hp Ht Hreach Hm.
    destruct Hok as (t1 & Hp1 & Hin & Hcan & Hroom). rewrite Hp in Hp1. injection Hp1 as <-.
    by eapply gateway_event_reachable.
  - eapply at_client_reachable; [done..|]. intros mem t t' Hp Ht Hreach Hm.
    destruct Hok as (t1 & Hp1 & Hposted). rewrite Hp in Hp1. injection Hp1 as <-.
    by eapply (shm_reachable_step all_ok _ ShmListen).
  - eapply at_client_reachable; [done..|]. intros mem t t' Hp Ht Hreach Hm.
    destruct Hok as (t1 & Hp1 & Hin). rewrite Hp in Hp1. injection Hp1 as <-.
    by eapply (shm_reachable_step all_ok _ ShmTurn).
  - eapply at_client_reachable; [done..|]. intros mem t t' Hp Ht Hreach Hm.
    by eapply (shm_reachable_step all_ok _ ShmStop).
  - unfold leave in Hr. destruct (object mc); [|done]. destruct (clients mc !! p); [|done].
    injection Hr as <-. by apply map_Forall_delete.
Qed.

(** The sending client: the message is in the queue of every other client. *)
Lemma shared_multicast n t i from (message : list byte) header payload st now c k :
  client_ok all_ok n t → can_happen (GMulticast from message) (world t i) → room node_size message →
  parseMessageHeader message = Ret (header, payload) →
  sh_messageType header = kAlive ∨ sh_messageType header = kResponse →
  fromPayload (sh_ident header) payload = Ret st →
  mRemoteNodeIdToRemoteNodeSurrogate (world t i) !! sh_ident header = None →
  foreign_subnet from (world t i) = false →
  let body := take (length message - entry_size (ps_endpoint st)) message in
  shouldForward BROADCAST (sh_ident header) body now (mDedupCache (base t)) = (Ret true, c) →
  k ≠ mClientId t → (k < MAX_CLIENTS)%nat → queues (mSharedMemory t) !! k = Some [] →
  ∃ t', gateway_event i (GMulticast from message) now t = (Ret tt, t') ∧ client_ok all_ok n t' ∧
    queues (mSharedMemory t') !! k =
      Some [mkMessage (mClientId t) (message_buffer BROADCAST (sh_ident header) None body)].
Proof.
  intros Ht Hcan Hroom Hp Hty Hst Hown Hsub body Hsf Hk Hmax Hq.
  destruct (multicast_call (world t i) from message header payload st) as (g' & Hg & Hm); try done.
  destruct (gateway_event_returns (TO:=shm_tunnel_ops) (J:=client_ok all_ok n) i (GMulticast from message)
    now t Ht Hcan Hroom) as (g1 & calls & Hg1 & Hinv & Hm1 & Hfit & Hrun & Hwp).
  cbn [tunnel_world shm_tunnel_ops] in Hg1, Hm1. rewrite Hg in Hg1. injection Hg1 as <-.
  rewrite Hm in Hm1. apply app_inv_head in Hm1 as <-.
  destruct (returns_run _ _ _ Hwp) as ([] & t' & Hr & Ht' & _). exists t'. split; [done|]. split; [done|].
  rewrite Hrun in Hr. cbn [set_tunnel_world tunnel_world shm_tunnel_ops] in Hr.
  set (t2 := upd_world _ t) in *.
  assert (shm_inv all_ok t2) as Hi2.
  { destruct Ht as [[[] _] _]. split; try done. by apply all_ok_insert. }
  apply Forall_cons in Hfit as [(_ & _ & Hfit) _].
  destruct (shm_forward_run all_ok t2 BROADCAST (sh_ident header) body None now Hi2 eq_refl Hfit)
    as (fresh & c' & t3 & Hsf' & Hr3 & _ & _ & _ & Hq3).
  cbn [for_each call_made tunnel_forward shm_tunnel_ops] in Hr. unfold mbind, M_bind in Hr.
  fold body in Hr. rewrite Hr3 in Hr. injection Hr as <-. rewrite Hq3.
  rewrite (Hsf : shouldForward _ _ _ _ (mDedupCache (base t2)) = _) in Hsf'. injection Hsf' as <- <-.
  cbn [andb negb has_to_node].
  apply (forward_queues_at t2 _ _ _ _ []); [done| |done|done|by intros [|]].
  unfold capacity, MAX_MESSAGES. simpl. lia.
Qed.

(** A turn that handles the only message, and one that finds none. *)
Lemma turn_handles n t m :
  client_ok all_ok n t → is_running t = true → in_listen t = true → waiting t = [m] →
  source m ≠ mClientId t →
  ∃ t', shm_handle ShmTurn t = (Ret tt, t') ∧ client_ok all_ok n t' ∧ is_running t' = true ∧
    in_listen t' = true ∧ waiting t' = [] ∧
    abs t' = view_step (gateways (base t)) (mClientId t) m (with_queue (mClientId t) [] (abs t)).
Proof.
  intros Ht Hrun Hin Hq Hsrc. destruct (listen_turn_handles all_ok t m [] (proj1 (proj1 Ht)) Hq Hrun)
    as (t' & Hr & _ & (_ & Hid & Hru & _ & _ & Hli) & Ha).
  destruct (client_handle all_ok ShmTurn n t Ht Hin Logic.I) as (t1 & Hr1 & Ht1).
  assert (shm_handle ShmTurn t = (Ret tt, t')) as Hturn
    by (cbn [shm_handle]; unfold mbind, M_bind; by rewrite Hr).
  rewrite Hturn in Hr1. injection Hr1 as <-. exists t'. split_and!; try done; try congruence.
  unfold waiting. change (queues (mSharedMemory t')) with (v_queues (abs t')).
  rewrite Hid, Ha, view_step_own by done. unfold with_queue. simpl.
  rewrite list_lookup_insert_eq; [done|]. eapply lookup_lt_Some. by apply (own_queue all_ok), Ht.
Qed.

Lemma turn_ends n t :
  client_ok all_ok n t → is_running t = true → in_listen t = true → waiting t = [] →
  ∃ t', shm_handle ShmTurn t = (Ret tt, t') ∧ in_listen t' = false ∧ world t' = world t ∧
    remoteNodeIdToTunnelClientIdx t' = remoteNodeIdToTunnelClientIdx t ∧
    posted_listens t' = S (posted_listens t).
Proof.
  intros Ht Hrun Hin Hq.
  destruct (listen_turn_ends all_ok t (proj1 (proj1 Ht)) (or_introl Hq))
    as (t1 & Hr & _ & (_ & _ & Hru & Hp & _) & Ha).
  exists (upd_posted_listens S (upd_in_listen (λ _, false) t1)). split.
  - cbn [shm_handle]. unfold mbind, M_bind. rewrite Hr. unfold modify. rewrite listen_end_run.
    change (is_running (upd_in_listen (λ _, false) t1)) with (is_running t1). by rewrite Hru, Hrun.
  - injection Ha as Hw Hroutes _ _. cbn. by rewrite Hp.
Qed.

(** The receiving client, with that message only: its listen call, with the turn
    that handles the message and the turn that ends the call. *)
Lemma shared_delivery n t src node (body : list byte) (surrogates : nat → RemoteNodeSurrogate) :
  client_ok all_ok n t → is_running t = true → in_listen t = false → src ≠ mClientId t →
  queues (mSharedMemory t) !! mClientId t =
    Some [mkMessage src (message_buffer BROADCAST node None body)] →
  (header_size (node_size:=node_size) BROADCAST + length body ≤ kMaxMessageSize)%nat →
  NoDup (gateways (base t)) →
  (∀ j, j ∈ gateways (base t) → ∃ g1, obtains node (surrogates j) (world t j) g1) →
  ∃ t1 t2 t', shm_handle ShmListen t = (Ret tt, t1) ∧ shm_handle ShmTurn t1 = (Ret tt, t2) ∧
    shm_handle ShmTurn t2 = (Ret tt, t') ∧ in_listen t' = false ∧ posted_listens t' = 1%nat ∧
    (∀ j, j ∈ gateways (base t) → announced node body (surrogates j) (world t j) (world t' j)) ∧
    remoteNodeIdToTunnelClientIdx t' = learn node src (remoteNodeIdToTunnelClientIdx t).
Proof.
  intros Ht Hrun Hin Hsrc Hq Hfit Hnd Hob. set (m := mkMessage src _) in *.
  set (t1 := upd_in_listen (λ _, true) (upd_posted_listens pred t)).
  pose proof (proj2 (proj1 Ht) Hrun) as Hposted. rewrite Hin in Hposted.
  assert (client_ok all_ok n t1) as Ht1.
  { destruct (client_handle all_ok ShmListen n t Ht) as (t1' & Hr1 & Ht1);
      [split; [done|lia]|done|by injection Hr1 as <-]. }
  destruct (turn_handles n t1 m Ht1 Hrun eq_refl) as (t2 & Hr2 & Ht2 & Hru2 & Hin2 & Hw2 & Ha2); [|done|].
  { unfold waiting. change (queues (mSharedMemory t1)) with (queues (mSharedMemory t)). simpl. by rewrite Hq. }
  destruct (turn_ends n t2 Ht2 Hru2 Hin2 Hw2) as (t' & Hr' & Hin' & Hworld & Hroutes & Hp').
  exists t1, t2, t'. split; [done|]. split; [done|]. split; [done|]. split; [done|].
  pose proof (proj2 (proj1 Ht2) Hru2) as Hp2. rewrite Hin2 in Hp2. rewrite Hp', Hp2.
  unfold m in Ha2. rewrite (view_step_message all_ok) in Ha2; [|by left|done|done].
  injection Ha2 as Hw Hro _ _. split; [done|]. split; [|by rewrite Hroutes, Hro].
  destruct (forward_locally_each (gateways (base t)) BROADCAST node (length body) None body
    (λ j g', announced node body (surrogates j) (world t j) g') (filled kMaxMessageSize body) (world t))
    as (buf' & w' & Hloc & Hall & _); try done.
  { apply (shm_world _ _ (proj1 (proj1 Ht))). }
  { apply length_filled. lia. }
  { lia. }
  { apply take_filled. }
  { intros j buf Hj Hlen Htake. destruct (Hob j Hj) as (g1 & Hg1).
    eapply broadcast_announced; [exact Hg1|done|lia|done]. }
  rewrite Hworld, Hw. cbn [v_world with_queue abs]. change (base t1) with (base t).
  change (world t1) with (world t). rewrite Hloc. exact Hall.
Qed.

(** A step of a client on the memory that its own last step left. *)
Lemma at_client_again {A} (m : M Client A) mc q t r t' :
  object mc = Some (mSharedMemory t) → clients mc !! q = Some t → m t = (r, t') →
  at_client q m mc = (r, mkMachine (Some (mSharedMemory t')) (<[q := t']> (clients mc))).
Proof.
  intros Hobj Hq Hr. unfold at_client. rewrite Hobj, Hq.
  replace (upd_mSharedMemory (λ _, mSharedMemory t) t) with t by by destruct t. by rewrite Hr.
Qed.

(** C26: sessions reach across the shared memory: a peer state that a gateway of
    one client hears on its network is pushed to every other client, and a
    running client that had no message waiting makes, with its next listen call
    - which takes a turn for the message and one that finds no other -
    every one of its gateways multicast the peer state from its own surrogate of
    the node, with that surrogate's measurement endpoint instead of the one that
    is out of reach (when the entry fits), and tell its observer.  It learns
    which client the node is reached through. *)
Theorem shared_peer_state_crosses mc p q tA tB mem i from (message : list byte) header payload st now c
    (surrogates : nat → RemoteNodeSurrogate) :
  reachable mc → object mc = Some mem → clients mc !! p = Some tA → clients mc !! q = Some tB →
  mClientId tA ≠ mClientId tB → in_listen tA = false → is_running tB = true → in_listen tB = false →
  queues mem !! mClientId tB = Some [] →
  can_happen (GMulticast from message) (world tA i) → room node_size message →
  parseMessageHeader message = Ret (header, payload) →
  sh_messageType header = kAlive ∨ sh_messageType header = kResponse →
  fromPayload (sh_ident header) payload = Ret st →
  mRemoteNodeIdToRemoteNodeSurrogate (world tA i) !! sh_ident header = None →
  foreign_subnet from (world tA i) = false →
  let body := take (length message - entry_size (ps_endpoint st)) message in
  shouldForward BROADCAST (sh_ident header) body now (mDedupCache (base tA)) = (Ret true, c) →
  NoDup (gateways (base tB)) →
  (∀ j, j ∈ gateways (base tB) → ∃ g1, obtains (sh_ident header) (surrogates j) (world tB j) g1) →
  ∃ mc1 mc2 mc3 mc4 tB',
    machine_handle (MGateway p i (GMulticast from message) now) mc = (Ret tt, mc1) ∧
    machine_handle (MListen q) mc1 = (Ret tt, mc2) ∧ machine_handle (MTurn q) mc2 = (Ret tt, mc3) ∧
    machine_handle (MTurn q) mc3 = (Ret tt, mc4) ∧ clients mc4 !! q = Some tB' ∧
    in_listen tB' = false ∧ posted_listens tB' = 1%nat ∧
    (∀ j, j ∈ gateways (base tB) →
       announced (sh_ident header) body (surrogates j) (world tB j) (world tB' j)) ∧
    remoteNodeIdToTunnelClientIdx tB' !! sh_ident header =
      Some (default (mClientId tA) (remoteNodeIdToTunnelClientIdx tB !! sh_ident header)).
Proof.
  intros Hmc Hobj HpA HqB Hid HinA Hrun HinB Hq Hcan Hroom Hp Hty Hst Hown Hsub body Hsf Hnd Hob.
  pose proof (machine_reachable_inv mc Hmc) as Hinv.
  destruct (client_memory mc p tA Hinv HpA) as (mem' & Hmem & _ & _ & HA).
  rewrite Hobj in Hmem. injection Hmem as <-.
  destruct (client_memory mc q tB Hinv HqB) as (mem' & Hmem & _ & _ & HB).
  rewrite Hobj in Hmem. injection Hmem as <-.
  pose proof (shm_id _ _ (proj1 (proj1 HB))) as Hmax.
  destruct (shared_multicast _ _ i from message header payload st now c (mClientId tB) HA Hcan Hroom Hp Hty Hst
    Hown Hsub Hsf) as (tA' & HrA & HA' & HqA); [done..|].
  set (tB1 := upd_mSharedMemory (λ _, mSharedMemory tA') tB).
  assert (client_ok all_ok (num_clients mem) tB1) as HB1.
  { destruct HB as [[Hi Hl] _]. split; [split; [|done]|apply HA'].
    destruct (client_ok_shared _ _ HA') as (?&?&?). exact (inv_memory _ _ (mSharedMemory tA') Hi H H0 H1). }
  assert (length body ≤ length message)%nat as Hbody by (unfold body; rewrite length_take; lia).
  destruct (shared_delivery _ tB1 (mClientId tA) (sh_ident header) body surrogates HB1)
    as (t1 & t2 & tB' & HrB1 & HrB2 & HrB3 & Hin' & Hpost' & Hall & Hroutes);
    [done..|by apply (room_fits BROADCAST message)|done|done|].
  assert (q ≠ p) as Hqp by (intros ->; congruence).
  eexists _, _, _, _, tB'. split; [|split; [|split; [|split; [|split; [|split; [done|split; [done|split]]]]]]].
  - cbn [machine_handle]. unfold at_client. rewrite Hobj, HpA, HrA. reflexivity.
  - cbn [machine_handle]. unfold at_client. cbn [object clients].
    rewrite lookup_insert_ne, HqB by done. fold tB1. rewrite HrB1. reflexivity.
  - by apply (at_client_again _ _ _ t1); [|cbn [clients]; apply lookup_insert_eq|].
  - by apply (at_client_again _ _ _ t2); [|cbn [clients]; apply lookup_insert_eq|].
  - cbn [clients]. apply lookup_insert_eq.
  - exact Hall.
  - rewrite Hroutes. unfold learn. change (remoteNodeIdToTunnelClientIdx tB1) with (remoteNodeIdToTunnelClientIdx tB).
    destruct (remoteNodeIdToTunnelClientIdx tB !! sh_ident header) eqn:Hroute; simpl; [done|].
    by rewrite lookup_insert_eq.
Qed.
End theorems.

Module MachineWitnesses.
Import Sample GatewayWitnesses.

(** Two processes join, each with a gateway that listens. *)
Definition addr (i : nat) : @Address asio := 10.
Definition joins (p : nat) : MachineEvent := MJoin p (λ _, sys) (λ _, seconds 100) addr.
Definition after (e : MachineEvent) (mc : Machine) : Machine := (machine_handle e mc).2.
Definition m1 : Machine := after (joins 0) new_Machine.
Definition m2 : Machine := after (MGateway 0 0 GListen 2) m1.
Definition m3 : Machine := after (joins 1) m2.
Definition m4 : Machine := after (MGateway 1 0 GListen 2) m3.

Definition client (mc : Machine) (p : nat) : ShmTunnel (nat → TunnelGateway.TunnelGateway) :=
  default (before_constructor (λ _, new_TunnelGateway sys 0 (10 : @Address asio)) None) (clients mc !! p).
Definition present (mc : Machine) (p : nat) : bool := if clients mc !! p is Some _ then true else false.
Lemma client_present mc p : present mc p = true → clients mc !! p = Some (client mc p).
Proof. unfold present, client. by destruct (clients mc !! p). Qed.

Abbreviation reach := (machine_reachable (node_size:=1)).

Lemma after_reach e mc :
  reach mc → machine_event_ok (node_size:=1) e mc → (machine_handle e mc).1 = machine_result e mc → reach (after e mc).
Proof. intros Hmc Hok Hr. eapply machine_step; [done..|]. by apply run_outcome. Qed.

Lemma m4_reach : reach m4.
Proof.
  apply after_reach; [apply after_reach; [apply after_reach; [apply after_reach; [apply machine_new|..]|..]|..]|..];
    try evaluate.
  - split; [done|]. simpl. unfold MAX_CLIENTS. lia.
  - exists (client m1 0). split; [apply client_present; evaluate|]. split; [evaluate|]. split; [evaluate|done].
  - split; [evaluate|]. decide_now.
  - exists (client m3 1). split; [apply client_present; evaluate|]. split; [evaluate|]. split; [evaluate|done].
Qed.

Lemma machine_safe_witness :
  ∃ mc', machine_handle (MListen 0) m4 = (Ret tt, mc') ∧ reach mc'.
Proof.
  destruct (machine_safe (node_size:=1) m4 (MListen 0) m4_reach) as (mc' & Hr & Hreach & _).
  - exists (client m4 0). split; [apply client_present; evaluate|]. split; [evaluate|decide_now].
  - exists mc'. split; [exact Hr|exact Hreach].
Defined.

Lemma machine_refines_witness :
  shm_reachable (node_size:=1) all_ok (client m4 1).
Proof.
  apply (machine_refines (node_size:=1) m4 m4_reach 1%nat). apply client_present. evaluate.
Defined.

(** The surrogate of node 7 that the second client opens. *)
Definition s7 : RemoteNodeSurrogate := new_surrogate 0 (10, Byte.x64) (10, Byte.x65).
Definition mem4 : SharedMemory := map_shared (object m4).

Lemma m4_gateways : gateways (base (client m4 1)) = [0%nat].
Proof. evaluate. Qed.

Lemma shared_peer_state_crosses_witness :
  ∃ mc1 mc2 mc3 mc4 tB', machine_handle (MGateway 0 0 (GMulticast local_peer alive) 4) m4 = (Ret tt, mc1) ∧
    machine_handle (MListen 1) mc1 = (Ret tt, mc2) ∧ machine_handle (MTurn 1) mc2 = (Ret tt, mc3) ∧
    machine_handle (MTurn 1) mc3 = (Ret tt, mc4) ∧ clients mc4 !! 1%nat = Some tB' ∧
    sends (system (world tB' 0%nat)) =
      [(0%nat, body ++ [Byte.x6d; Byte.x65; Byte.x0a; Byte.x65], multicastEndpointV4)].
Proof.
  destruct (shared_peer_state_crosses m4 0 1 (client m4 0) (client m4 1) mem4 0 local_peer alive
    (Byte.x01, Byte.x05, Byte.x07) [Byte.xaa; Byte.x6d; Byte.x65; Byte.x0b; Byte.x30]
    (Byte.x07, (11, Byte.x30)) 4
    (shouldForward BROADCAST n7 body 4 (mDedupCache (base (client m4 0)))).2 (λ _, s7) m4_reach)
    as (mc1 & mc2 & mc3 & mc4 & tB' & H1 & H2 & H3 & H4 & Hq & _ & _ & Hall & _).
  - evaluate.
  - apply client_present. evaluate.
  - apply client_present. evaluate.
  - decide_now.
  - evaluate.
  - evaluate.
  - evaluate.
  - evaluate.
  - evaluate.
  - unfold room. decide_now.
  - reflexivity.
  - left. reflexivity.
  - reflexivity.
  - evaluate.
  - evaluate.
  - apply run_outcome. evaluate.
  - rewrite m4_gateways. apply NoDup_singleton.
  - intros j Hj. rewrite m4_gateways in Hj. apply list_elem_of_singleton in Hj as ->.
    eexists. right. split; [evaluate|]. exists (10, Byte.x64), (10, Byte.x65).
    split; [evaluate|]. split; [evaluate|]. split; [evaluate|reflexivity].
  - exists mc1, mc2, mc3, mc4, tB'. split; [exact H1|]. split; [exact H2|]. split; [exact H3|].
    split; [exact H4|]. split; [exact Hq|].
    destruct (Hall 0%nat) as (_ & Hsends & _).
    + rewrite m4_gateways. by left.
    + rewrite Hsends. evaluate.
Defined.
End MachineWitnesses.
