(* ===== verification/Context.v ===== *)
(** * Context.hpp: the IO context and the sockets it opens

    The thread of the context runs the posted jobs one after the other; an
    exception of the handler's type is handled and the loop goes on, any other
    ends the process.  [service.run()] returns when nothing is queued, no
    asynchronous operation (a receive, a timer) is outstanding and the work guard
    is gone; an outstanding operation queues its handler when it completes, which
    may be at any time.  The options set on a new socket are recorded in order. *)

From S2P Require Import Prelude LinkLib Sample.

(** ** The thread *)

Section loop.
(** Jobs act on a state [S]; a job ends well or with an exception, and has posted
    jobs and started operations - their handlers - up to then.  [caught] is
    [ExceptionHandler::Exception], [handler] what its call posts. *)
Context {S J : Type} (exec : J → S → result unit * (list J * list J) * S) (caught : cpp_exn → bool)
  (handler : cpp_exn → list J).
Implicit Types (q ops : list J) (s : S).

(** [ran] are the jobs that have been run, in order, [caused] those that were
    posted or whose operation was started since. *)
Record Service := mkService {
  queue : list J;
  outstanding : list J;
  state : S;
  ran : list J;
  caused : list J;
}.
Implicit Types (sv : Service).

(** How the thread ends: [service.run()] returned, because no work was left or
    [stop] was called; or an exception left the thread function. *)
Inductive ThreadEnd :=
  | OutOfWork
  | Stopped
  | Terminated (e : cpp_exn)
  | Crashed (u : ub_kind).

(** The lambda of the constructor: [service.run()] runs the next job, and is
    restarted after a handled exception; an operation completes. *)
Inductive service_step : relation Service :=
  | run_job j q ops s r c posted started s' :
      exec j s = (Ret tt, (posted, started), s') →
      service_step (mkService (j :: q) ops s r c)
        (mkService (q ++ posted) (ops ++ started) s' (r ++ [j]) (c ++ posted ++ started))
  | handle_exception j q ops s r c e posted started s' :
      exec j s = (Throw e, (posted, started), s') → caught e = true →
      service_step (mkService (j :: q) ops s r c)
        (mkService (q ++ posted ++ handler e) (ops ++ started) s' (r ++ [j])
           (c ++ (posted ++ handler e) ++ started))
  | operation_completes j q ops1 ops2 s r c :
      service_step (mkService q (ops1 ++ j :: ops2) s r c) (mkService (q ++ [j]) (ops1 ++ ops2) s r c).

(** The end of the thread in this state, once the work guard is gone. *)
Definition thread_end sv : option ThreadEnd :=
  match queue sv with
  | [] => match outstanding sv with [] => Some OutOfWork | _ => None end
  | j :: _ =>
      match (exec j (state sv)).1.1 with
      | Ret _ => None
      | Throw e => if caught e then None else Some (Terminated e)
      | Undef u => Some (Crashed u)
      end
  end.

Record Context := mkContext {
  service : option Service;                (* mpService: None once moved from *)
  work : bool;                             (* mpWork *)
}.

Definition new_Context s : Context := mkContext (Some (mkService [] [] s [] [])) true.
Definition async (j : J) (c : Context) : Context :=
  mkContext ((λ sv, mkService (queue sv ++ [j]) (outstanding sv) (state sv) (ran sv) (caused sv))
             <$> service c) (work c).

(** [Context(Context&&)]: what is left of the source. *)
Definition move_from (c : Context) : Context * Context := (c, mkContext None false).

(** [~Context]: the guard is reset and the thread joined, if there is one; it
    returns only if the thread ends. *)
Inductive destroys (c : Context) : option (ThreadEnd * Service) → Prop :=
  | destroys_joined sv sv' e :
      service c = Some sv → work c = true → rtc service_step sv sv' → thread_end sv' = Some e →
      destroys c (Some (e, sv'))
  | destroys_nothing : service c = None ∨ work c = false → destroys c None.

(** [stop] lets the thread finish its job and abandons what is queued or
    outstanding. *)
Inductive stops (c : Context) : option (ThreadEnd * Service) → Prop :=
  | stops_joined sv sv' :
      service c = Some sv → work c = true → rtc service_step sv sv' →
      stops c (Some (Stopped, sv'))
  | stops_nothing : service c = None ∨ work c = false → stops c None.

(** *** Running every job *)

(** Jobs that fail only with the handled exception. *)
Definition survivable j : Prop :=
  ∀ s, match (exec j s).1.1 with Ret _ => True | Throw e => caught e = true | Undef _ => False end.

(** What a job causes, itself or through the handler. *)
Definition causes j s : list J :=
  let '(r, (posted, started), _) := exec j s in
  (posted ++ match r with Throw e => handler e | _ => [] end) ++ started.

(** From [q0], [ops0] and [s0] on. *)
Record history q0 ops0 s0 sv : Prop := {
  history_order : q0 `prefix_of` ran sv ++ queue sv;
  history_all : ran sv ++ queue sv ++ outstanding sv ≡ₚ q0 ++ ops0 ++ caused sv;
  history_state : state sv = foldl (λ s j, (exec j s).2) s0 (ran sv);
}.

Lemma history_step q0 ops0 s0 sv sv' :
  history q0 ops0 s0 sv → service_step sv sv' → history q0 ops0 s0 sv'.
Proof.
  intros [Hord Hall Hst] Hstep. destruct Hstep as [j q ops s r c posted started s' Hr
    |j q ops s r c e posted started s' Hr Hc|j q ops1 ops2 s r c]; simpl in *.
  - split; simpl; [| |rewrite foldl_app; simpl; by rewrite <-Hst, Hr].
    + rewrite <-app_assoc. simpl. rewrite (app_comm_cons q), app_assoc. by apply prefix_app_r.
    + trans ((r ++ (j :: q) ++ ops) ++ (posted ++ started)); [|by rewrite Hall, <-!app_assoc].
      rewrite <-!app_assoc. simpl. apply Permutation_app_head. constructor. apply Permutation_app_head.
      by rewrite !app_assoc, (Permutation_app_comm posted).
  - split; simpl; [| |rewrite foldl_app; simpl; by rewrite <-Hst, Hr].
    + rewrite <-app_assoc. simpl. rewrite (app_comm_cons q), app_assoc. by apply prefix_app_r.
    + generalize (posted ++ handler e). intros p.
      trans ((r ++ (j :: q) ++ ops) ++ (p ++ started)); [|by rewrite Hall, <-!app_assoc].
      rewrite <-!app_assoc. simpl. apply Permutation_app_head. constructor. apply Permutation_app_head.
      by rewrite !app_assoc, (Permutation_app_comm p).
  - split; simpl; [rewrite app_assoc; by apply prefix_app_r| |done].
    rewrite <-Hall. apply Permutation_app_head. rewrite <-app_assoc. apply Permutation_app_head. simpl.
    by rewrite Permutation_middle.
Qed.

Lemma history_run q0 ops0 s0 sv sv' :
  history q0 ops0 s0 sv → rtc service_step sv sv' → history q0 ops0 s0 sv'.
Proof. intros Hh Hrun. revert Hh. induction Hrun; [done|]. eauto using history_step. Qed.

(** Survivable jobs never end the thread: it ends when there is no work, and can
    go on otherwise. *)
Lemma thread_goes_on sv :
  (∀ j, survivable j) →
  (queue sv = [] ∧ outstanding sv = [] ∧ thread_end sv = Some OutOfWork) ∨
  (thread_end sv = None ∧ ∃ sv', service_step sv sv').
Proof.
  intros Hs. destruct sv as [[|j q] ops s r c]; unfold thread_end; simpl.
  - destruct ops as [|j ops]; [by left|]. right. split; [done|]. eexists. apply (operation_completes j [] []).
  - right. specialize (Hs j s). destruct (exec j s) as [[[[]|e|u] [posted started]] s'] eqn:Hr; simpl in Hs.
    + simpl. split; [done|]. eexists. by apply run_job.
    + simpl. rewrite Hs. split; [done|]. eexists. by eapply handle_exception.
    + done.
Qed.

(** *** Termination

    A job of rank [r] causes at most [B] others, of lower rank. *)
Context (rank : J → nat) (B : nat).

Definition job_weight j : nat := (2 * B + 2) ^ rank j.
(** The steps that a state can still take, at most. *)
Definition weight sv : nat :=
  sum_list_with job_weight (queue sv) + sum_list_with (λ j, Datatypes.S (job_weight j)) (outstanding sv).

Definition bounded_causes : Prop :=
  ∀ j s, (length (causes j s) ≤ B)%nat ∧ Forall (λ j', rank j' < rank j)%nat (causes j s).

Lemma job_weight_positive j : (0 < job_weight j)%nat.
Proof. unfold job_weight. apply Nat.neq_0_lt_0, Nat.pow_nonzero. lia. Qed.

Lemma causes_weight j s (l : list J) :
  bounded_causes → l = causes j s → (sum_list_with (λ j, Datatypes.S (job_weight j)) l < job_weight j)%nat.
Proof.
  intros Hb ->. destruct (Hb j s) as [Hlen Hrank].
  destruct (causes j s) as [|j0 l0] eqn:Hc; [apply job_weight_positive|]. rewrite <-Hc in *.
  assert (0 < rank j)%nat as Hpos by (rewrite Hc in Hrank; apply Forall_cons in Hrank as [? _]; lia).
  destruct (rank j) as [|n] eqn:Hj; [lia|].
  unfold job_weight at 2. rewrite Hj, Nat.pow_succ_r'.
  assert (∀ j', rank j' < Datatypes.S n → job_weight j' ≤ (2 * B + 2) ^ n)%nat as Hmax
    by (intros j' Hlt; unfold job_weight; apply Nat.pow_le_mono_r; lia).
  assert (0 < (2 * B + 2) ^ n)%nat as HP by (apply Nat.neq_0_lt_0, Nat.pow_nonzero; lia).
  revert Hmax HP. generalize ((2 * B + 2) ^ n)%nat. intros P Hmax HP.
  assert (sum_list_with (λ j, Datatypes.S (job_weight j)) (causes j s) ≤ length (causes j s) * (2 * P))%nat
    as Hsum.
  { clear Hlen Hc. induction Hrank as [|j' l Hlt _ IH]; [done|].
    specialize (Hmax j' Hlt). cbn [sum_list_with length]. lia. }
  nia.
Qed.

Lemma weight_queued (l : list J) :
  (sum_list_with job_weight l ≤ sum_list_with (λ j, Datatypes.S (job_weight j)) l)%nat.
Proof. induction l; simpl; lia. Qed.

Lemma weight_step sv sv' : bounded_causes → service_step sv sv' → (weight sv' < weight sv)%nat.
Proof.
  intros Hb Hstep. destruct Hstep as [j q ops s r c posted started s' Hr|j q ops s r c e posted started s' Hr Hc
    |j q ops1 ops2 s r c]; unfold weight; simpl; rewrite ?sum_list_with_app; simpl.
  - pose proof (causes_weight j s (posted ++ started) Hb) as Hw. unfold causes in Hw. rewrite Hr in Hw.
    rewrite app_nil_r in Hw. specialize (Hw eq_refl). rewrite sum_list_with_app in Hw.
    pose proof (weight_queued posted). lia.
  - pose proof (causes_weight j s ((posted ++ handler e) ++ started) Hb) as Hw. unfold causes in Hw.
    rewrite Hr in Hw. specialize (Hw eq_refl). rewrite !sum_list_with_app in Hw.
    pose proof (weight_queued posted). pose proof (weight_queued (handler e)). lia.
  - lia.
Qed.

Lemma weight_run n sv sv' :
  bounded_causes → nsteps service_step n sv sv' → (n + weight sv' ≤ weight sv)%nat.
Proof.
  intros Hb Hrun. induction Hrun as [|n sv sv1 sv' Hstep _ IH]; [lia|].
  pose proof (weight_step _ _ Hb Hstep). lia.
Qed.
End loop.
Arguments Service : clear implicits.
Arguments ThreadEnd : clear implicits.
Arguments Context : clear implicits.

(** ** The sockets *)

Section sockets.
Context {AS : Asio} {LK : Link}.

Inductive Protocol := UdpV4 | UdpV6.

(** The calls on [socket.mpImpl->mSocket]. *)
Inductive SocketCall :=
  | ReuseAddress (b : bool)
  | Broadcast (b : bool)
  | EnableLoopback (b : bool)
  | OutboundInterface (a : Address)
  | OutboundScope (scope : Z)
  | BindTo (ep : UdpEndpoint)
  | JoinGroup (group interface : Address)
  | JoinGroupScope (group : Address) (scope : Z).

Definition protocol_of (a : Address) : Protocol := if is_v4 a then UdpV4 else UdpV6.

Definition openUnicastSocket (addr : Address) : result (Protocol * list SocketCall) :=
  let loopback := [EnableLoopback (is_loopback addr)] in
  if is_v4 addr then
    mret (protocol_of addr, loopback ++ [OutboundInterface addr; BindTo (make_endpoint addr 0)])
  else if is_v6 addr then
    a ← to_v6 addr;
    mret (protocol_of addr, loopback ++ [OutboundScope (scope_id a); BindTo (make_endpoint a 0)])
  else Throw RuntimeError.

Definition openMulticastSocket (addr : Address) : result (Protocol * list SocketCall) :=
  let options := [ReuseAddress true; Broadcast (negb (is_loopback addr));
                  EnableLoopback (is_loopback addr)] in
  if is_v4 addr then
    mret (protocol_of addr, options ++
      [OutboundInterface addr; BindTo (make_endpoint any_v4 (port multicastEndpointV4));
       JoinGroup (address multicastEndpointV4) addr])
  else if is_v6 addr then
    a ← to_v6 addr;
    let group := multicastEndpointV6 (scope_id a) in
    mret (protocol_of addr, options ++
      [OutboundScope (scope_id a); BindTo (make_endpoint any_v6 (port group));
       JoinGroupScope (address group) (scope_id a)])
  else Throw RuntimeError.

(** Always an IPv4 socket. *)
Definition openBoundUdpSocket (p : Z) : Protocol * list SocketCall :=
  (UdpV4, [ReuseAddress true; BindTo (make_endpoint any_v4 p)]).

Context {AL : AsioLaws}.

(** Both functions succeed for every address: [Unknown Protocol] cannot happen,
    and only sockets of the loopback interface hear themselves. *)
Lemma sockets_open addr :
  (∃ calls, openUnicastSocket addr = Ret (protocol_of addr, EnableLoopback (is_loopback addr) :: calls)) ∧
  ∃ calls, openMulticastSocket addr = Ret (protocol_of addr, calls) ∧
    EnableLoopback (is_loopback addr) ∈ calls.
Proof.
  unfold openUnicastSocket, openMulticastSocket. rewrite !is_v6_not_v4, !to_v6_outcome.
  destruct (is_v4 addr); simpl; (split; [by eexists|]); eexists; (split; [done|]); set_solver.
Qed.
End sockets.

(** ** Theorem *)

(** C36: closing the context finishes the work and only then ends.  Suppose no
    other thread posts any more, jobs fail only with the exception the handler is
    for, and what a job causes - the jobs it posts, the handlers of the operations
    it starts, what the exception handler posts for it - is at most [B] of lower
    rank.  Then, in whatever order outstanding
    operations complete: the thread of [~Context] takes at most [weight] steps,
    and as long as it has not ended it can take another one; while an operation
    is outstanding it does not end, so [~Context] waits for a receive or a timer
    that is still pending; and when it ends, nothing terminated the process and
    every job - queued, or caused since, and the handler of every operation - has
    been run exactly once, those queued at the beginning first and in their order,
    whichever of them failed. *)
Theorem destroy_runs_all {S J : Type} (exec : J → S → result unit * (list J * list J) * S) caught handler
    (rank : J → nat) (B : nat) (q ops : list J) (s : S) :
  (∀ j, survivable exec caught j) → bounded_causes exec handler rank B →
  let start := mkService q ops s [] [] in
  let closing := mkContext (Some start) true in
  (∀ n sv, nsteps (service_step exec caught handler) n start sv → (n ≤ weight rank B start)%nat) ∧
  (∀ sv, rtc (service_step exec caught handler) start sv →
     destroys exec caught handler closing (Some (OutOfWork, sv)) ∨
     ∃ sv', service_step exec caught handler sv sv') ∧
  ∀ r, destroys exec caught handler closing r →
    ∃ sv, r = Some (OutOfWork, sv) ∧ queue sv = [] ∧ outstanding sv = [] ∧
      q `prefix_of` ran sv ∧ ran sv ≡ₚ q ++ ops ++ caused sv ∧
      state sv = foldl (λ s j, (exec j s).2) s (ran sv).
Proof.
  intros Hs Hb start closing. split; [|split].
  - intros n sv Hrun. pose proof (weight_run exec caught handler rank B n start sv Hb Hrun). lia.
  - intros sv Hrun. destruct (thread_goes_on exec caught handler sv Hs) as [(_ & _ & Hend)|[_ Hstep]];
      [left|by right]. by apply (destroys_joined exec caught handler closing start).
  - intros r [start' sv e Hsv _ Hrun Hend|[Hn|Hn]]; [|done..]. injection Hsv as <-.
    assert (history exec q ops s sv) as [Hord Hall Hst].
    { apply (history_run exec caught handler q ops s start); [|done]. split; simpl; [done| |done].
      by rewrite app_nil_r. }
    destruct (thread_goes_on exec caught handler sv Hs) as [(Hq & Ho & Hend')|[Hend' _]]; [|congruence].
    rewrite Hend in Hend'. injection Hend' as ->. exists sv. rewrite Hq, Ho, ?app_nil_r in *.
    by split_and!.
Qed.

Module ContextWitnesses.

(** Jobs that log their number; job 1 fails to send, the handler posts job 0, and
    job 3 starts an operation whose handler is job 2. *)
Definition exec (j : nat) (l : list nat) : result unit * (list nat * list nat) * list nat :=
  (if decide (j = 1)%nat then Throw UdpSendException else Ret tt,
   ([], if decide (j = 3)%nat then [2%nat] else []), l ++ [j]).
Definition send_failed (e : cpp_exn) : bool := bool_decide (e = UdpSendException).

Lemma destroy_runs_all_witness :
  let start := mkService [1; 3]%nat [2]%nat [] [] [] in
  ∃ sv, destroys exec send_failed (λ _, [0%nat]) (mkContext (Some start) true) (Some (OutOfWork, sv)) ∧
    ran sv ≡ₚ [1; 3; 2; 0; 2]%nat.
Proof.
  intros start. set (sv := mkService [] [] [1; 3; 0; 2; 2]%nat [1; 3; 0; 2; 2]%nat [0; 2]%nat).
  assert (destroys exec send_failed (λ _, [0%nat]) (mkContext (Some start) true) (Some (OutOfWork, sv)))
    as Hdone.
  { apply (destroys_joined _ _ _ _ start); [reflexivity|reflexivity| |reflexivity].
    apply (rtc_l _ _ (mkService [3; 0] [2] [1] [1] [0])%nat);
      [exact (handle_exception exec _ _ 1 [3] [2] [] [] [] UdpSendException [] [] [1] eq_refl eq_refl)%nat|].
    apply (rtc_l _ _ (mkService [0] [2; 2] [1; 3] [1; 3] [0; 2])%nat);
      [exact (run_job exec _ _ 3 [0] [2] [1] [1] [0] [] [2] [1; 3] eq_refl)%nat|].
    apply (rtc_l _ _ (mkService [0; 2] [2] [1; 3] [1; 3] [0; 2])%nat);
      [exact (operation_completes exec _ _ 2 [0] [] [2] _ _ _)%nat|].
    apply (rtc_l _ _ (mkService [2] [2] [1; 3; 0] [1; 3; 0] [0; 2])%nat);
      [exact (run_job exec _ _ 0 [2] [2] [1; 3] [1; 3] [0; 2] [] [] [1; 3; 0] eq_refl)%nat|].
    apply (rtc_l _ _ (mkService [] [2] [1; 3; 0; 2] [1; 3; 0; 2] [0; 2])%nat);
      [exact (run_job exec _ _ 2 [] [2] [1; 3; 0] [1; 3; 0] [0; 2] [] [] [1; 3; 0; 2] eq_refl)%nat|].
    apply (rtc_l _ _ (mkService [2] [] [1; 3; 0; 2] [1; 3; 0; 2] [0; 2])%nat);
      [exact (operation_completes exec _ _ 2 [] [] [] _ _ _)%nat|].
    apply (rtc_l _ _ sv);
      [exact (run_job exec _ _ 2 [] [] [1; 3; 0; 2] [1; 3; 0; 2] [0; 2] [] [] [1; 3; 0; 2; 2] eq_refl)%nat|].
    apply rtc_refl. }
  exists sv. split; [exact Hdone|].
  destruct (destroy_runs_all exec send_failed (λ _, [0%nat]) (λ j, j) 1 [1; 3]%nat [2]%nat [])
    as (_ & _ & Hend).
  - intros j s. unfold exec. by case_decide.
  - intros j s. unfold causes, exec. case_decide as Hj; case_decide as Hj3; simpl.
    + congruence.
    + rewrite Hj. split; [lia|repeat constructor].
    + rewrite Hj3. split; [lia|repeat constructor].
    + split; [lia|constructor].
  - destruct (Hend _ Hdone) as (sv' & Heq & _ & _ & _ & Hall & _). injection Heq as <-. exact Hall.
Defined.
End ContextWitnesses.
