(* ===== verification/Arguments.v ===== *)
(** * main.cpp: the command line

    [parseEndpoint] and [parseArgs] with the operations of [std::string] and
    [std::stoul] they use, and the exit code of [main] for every outcome of the
    rest of its [try] block. *)

From Stdlib Require Import Strings.String Strings.Ascii.
From stdpp Require Import pretty.
From S2P Require Import Prelude LinkLib Sample.

#[local] Open Scope string_scope.
#[local] Open Scope Z_scope.

(** ** [std::string] *)

(** [s.find(c)] and [s.rfind(c)] *)
Fixpoint find (c : ascii) (s : string) : option nat :=
  match s with
  | EmptyString => None
  | String a s => if decide (a = c) then Some 0%nat else S <$> find c s
  end.
Fixpoint rfind (c : ascii) (s : string) : option nat :=
  match s with
  | EmptyString => None
  | String a s =>
      match rfind c s with
      | Some i => Some (S i)
      | None => if decide (a = c) then Some 0%nat else None
      end
  end.

(** [s.substr(pos)] and [s.substr(pos, count)] throw beyond the end. *)
Fixpoint drop_string (n : nat) (s : string) : string :=
  match n, s with
  | O, _ => s
  | S n, String _ s => drop_string n s
  | S _, EmptyString => EmptyString
  end.
Fixpoint take_string (n : nat) (s : string) : string :=
  match n, s with
  | S n, String a s => String a (take_string n s)
  | _, _ => EmptyString
  end.
Definition substr (pos : nat) (count : option nat) (s : string) : result string :=
  if decide (pos ≤ String.length s)%nat
  then Ret (match count with
            | Some n => take_string n (drop_string pos s)
            | None => drop_string pos s
            end)
  else Throw OutOfRange.

(** ** [std::stoul] in base 10 *)

Definition digit (a : ascii) : option Z :=
  let n := Z.of_nat (nat_of_ascii a) in
  if decide (48 ≤ n ≤ 57) then Some (n - 48) else None.

(** [isspace] in the C locale *)
Definition is_space (a : ascii) : bool :=
  let n := nat_of_ascii a in bool_decide (n = 32 ∨ 9 ≤ n ≤ 13)%nat.

Fixpoint skip_spaces (s : string) : string :=
  match s with
  | String a s' => if is_space a then skip_spaces s' else s
  | EmptyString => s
  end.

(** The value of the leading digits, which continue [acc]. *)
Fixpoint digits (acc : Z) (s : string) : Z :=
  match s with
  | String a s => match digit a with Some d => digits (10 * acc + d) s | None => acc end
  | EmptyString => acc
  end.
Definition unsigned_digits (s : string) : option Z :=
  match s with
  | String a _ => match digit a with Some _ => Some (digits 0 s) | None => None end
  | EmptyString => None
  end.

(** A minus sign negates in [unsigned long]; what follows the digits is ignored. *)
Definition stoul (s : string) : result Z :=
  let s := skip_spaces s in
  let '(negative, s) :=
    match s with
    | String "-" s => (true, s)
    | String "+" s => (false, s)
    | _ => (false, s)
    end in
  match unsigned_digits s with
  | None => Throw InvalidArgument
  | Some n =>
      if decide (n < 2 ^ 64)
      then Ret (if negative : bool then to_uint64 (- n) else n)
      else Throw OutOfRange
  end.

(** ** The program *)

Section definitions.
Context {AS : Asio}.

(** Where host and port are in the argument. *)
Definition split_bracketed (s : string) : result (string * string) :=
  match find "]" s with
  | None => Throw InvalidArgument
  | Some close =>
      match String.get (close + 1) s with
      | Some ":"%char =>
          host ← substr 1 (Some (close - 1)%nat) s;
          portStr ← substr (close + 2) None s;
          mret (host, portStr)
      | _ => Throw InvalidArgument
      end
  end.

Definition split_plain (s : string) : result (string * string) :=
  match rfind ":" s with
  | None => Throw InvalidArgument
  | Some colon =>
      if decide (colon = 0 ∨ colon + 1 = String.length s)%nat then Throw InvalidArgument
      else
        host ← substr 0 (Some colon) s;
        portStr ← substr (colon + 1) None s;
        mret (host, portStr)
  end.

Definition parseEndpoint (s : string) : result UdpEndpoint :=
  '(host, portStr) ← (match String.get 0 s with
                      | Some "["%char => split_bracketed s
                      | _ => split_plain s
                      end : result (string * string));
  if decide (portStr = "") then Throw InvalidArgument else
  match make_address host with
  | Some addr => n ← stoul portStr; mret (make_endpoint addr (to_uint16 n))
  | None =>
      match resolve host portStr with
      | None | Some [] => Throw InvalidArgument
      | Some (ep :: _) => mret ep
      end
  end.

(** [Controller::Config] *)
Record Config := mkConfig {
  tunnel_port : Z;
  peers : list UdpEndpoint;
  use_shm : bool;
}.
Definition default_config : Config := mkConfig 20909 [] false.

Definition set_tunnel_port p (c : Config) : Config := mkConfig p (peers c) (use_shm c).
Definition push_peer ep (c : Config) : Config := mkConfig (tunnel_port c) (peers c ++ [ep]) (use_shm c).
Definition set_use_shm (c : Config) : Config := mkConfig (tunnel_port c) (peers c) true.

(** The loop over [argv[1..]]: [None] when [--help] ended the process. *)
Fixpoint parse_loop (args : list string) (config : Config) : result (option Config) :=
  match args with
  | [] => Ret (Some config)
  | arg :: args =>
      if decide (arg = "--help" ∨ arg = "-h") then Ret None
      else if decide (arg = "--port") then
        match args with
        | [] => Throw InvalidArgument
        | v :: args => n ← stoul v; parse_loop args (set_tunnel_port (to_uint16 n) config)
        end
      else if decide (arg = "--peer") then
        match args with
        | [] => Throw InvalidArgument
        | v :: args => ep ← parseEndpoint v; parse_loop args (push_peer ep config)
        end
      else if decide (arg = "--shm") then parse_loop args (set_use_shm config)
      else Throw InvalidArgument
  end.

Definition parseArgs (args : list string) : result (option Config) := parse_loop args default_config.

(** How the process ends: its exit code and what it reported on stderr. *)
Inductive Report := NoReport | UsageShown | ErrorWithUsage | ExceptionShown.

(** The handlers around the [try] block. *)
Definition handlers (r : result (Z * Report)) : result (Z * Report) :=
  match r with
  | Throw InvalidArgument => Ret (1, ErrorWithUsage)
  | Throw _ => Ret (1, ExceptionShown)
  | _ => r
  end.

(** [run] is the rest of the [try] block. *)
Definition main (args : list string) (run : Config → result unit) : result (Z * Report) :=
  handlers (parsed ← parseArgs args;
            match parsed with
            | None => mret (0, UsageShown)
            | Some config => run config ≫= λ _, mret (0, NoReport)
            end).
End definitions.

(** ** Strings *)

Section strings.
Implicit Types (s t : string) (c : ascii).

Lemma append_nil t : "" ++ t = t.
Proof. done. Qed.
Lemma append_cons a s t : String a s ++ t = String a (s ++ t).
Proof. done. Qed.

Lemma append_assoc s t u : s ++ t ++ u = (s ++ t) ++ u.
Proof. induction s as [|a s IH]; [done|]. rewrite !append_cons. by rewrite IH. Qed.

Lemma get_append s t : String.get (String.length s) (s ++ t) = String.get 0 t.
Proof. by induction s. Qed.

Lemma length_append s t : String.length (s ++ t) = (String.length s + String.length t)%nat.
Proof. induction s as [|a s IH]; [done|]. rewrite append_cons. simpl. by rewrite IH. Qed.

Lemma drop_append s t : drop_string (String.length s) (s ++ t) = t.
Proof. by induction s. Qed.
Lemma take_append s t : take_string (String.length s) (s ++ t) = s.
Proof. induction s as [|a s IH]; [done|]. rewrite append_cons. simpl. by rewrite IH. Qed.

Lemma substr_head s t : substr 0 (Some (String.length s)) (s ++ t) = Ret s.
Proof. unfold substr. rewrite decide_True by lia. simpl. by rewrite take_append. Qed.
Lemma substr_tail s t : substr (String.length s) None (s ++ t) = Ret t.
Proof. unfold substr. rewrite length_append, decide_True by lia. by rewrite drop_append. Qed.

Lemma find_append c s t :
  find c s = None → find c (s ++ t) = (λ i, String.length s + i)%nat <$> find c t.
Proof.
  induction s as [|a s IH]; [rewrite append_nil; by destruct (find c t)|].
  rewrite append_cons. simpl. case_decide; [done|].
  intros Hs%fmap_None. rewrite IH by done. by destruct (find c t).
Qed.

Lemma rfind_append c s t : rfind c t = None → rfind c (s ++ String c t) = Some (String.length s).
Proof.
  intros Ht. induction s as [|a s IH]; rewrite ?append_nil, ?append_cons; simpl.
  - by rewrite Ht, decide_True.
  - by rewrite IH.
Qed.

Lemma find_bound c s i : find c s = Some i → (i < String.length s)%nat.
Proof.
  revert i. induction s as [|a s IH]; simpl; [done|]. intros i. case_decide; [intros [= <-]; lia|].
  destruct (find c s) as [k|]; [|done]. intros [= <-]. specialize (IH k eq_refl). lia.
Qed.
Lemma rfind_bound c s i : rfind c s = Some i → (i < String.length s)%nat.
Proof.
  revert i. induction s as [|a s IH]; simpl; [done|]. intros i.
  destruct (rfind c s) as [k|]; [intros [= <-]; specialize (IH k eq_refl); lia|].
  case_decide; [intros [= <-]; lia|done].
Qed.
Lemma get_bound s i a : String.get i s = Some a → (i < String.length s)%nat.
Proof. revert i. induction s as [|b s IH]; intros [|i]; simpl; try done; [lia|]. intros Hi. specialize (IH i Hi). lia. Qed.

Lemma substr_ok pos count s : (pos ≤ String.length s)%nat → ∃ t, substr pos count s = Ret t.
Proof. intros Hp. unfold substr. rewrite decide_True by done. by eexists. Qed.
End strings.

(** ** Numbers *)

Section numbers.
Implicit Types (s : string).

Lemma digit_pretty (x : N) : (x < 10)%N → digit (pretty_N_char x) = Some (Z.of_N x).
Proof.
  intros Hx. assert (x = 0 ∨ x = 1 ∨ x = 2 ∨ x = 3 ∨ x = 4 ∨ x = 5 ∨ x = 6 ∨ x = 7 ∨ x = 8 ∨ x = 9)%N
    as Hcases by lia.
  by repeat destruct Hcases as [->|Hcases]; subst.
Qed.

Lemma digits_pretty_go (x : N) s :
  digits 0 (pretty_N_go x s) = digits (Z.of_N x) s.
Proof.
  revert s. induction (N.lt_wf_0 x) as [x _ IH]; intros s.
  destruct (decide (x = 0)%N) as [->|Hx]; [done|].
  rewrite pretty_N_go_step by lia. rewrite IH by (apply N.div_lt; lia). cbn [digits].
  rewrite digit_pretty by (by apply N.mod_lt). f_equal.
  rewrite N2Z.inj_div, N2Z.inj_mod. pose proof (Z.div_mod (Z.of_N x) 10). simpl. lia.
Qed.

(** The first character of a printed number is a digit. *)
Lemma pretty_go_head (x : N) s a :
  (∃ d, digit a = Some d) → ∃ b t d, pretty_N_go x (String a s) = String b t ∧ digit b = Some d.
Proof.
  revert a s. induction (N.lt_wf_0 x) as [x _ IH]; intros a s [d Hd].
  destruct (decide (x = 0)%N) as [->|Hx]; [by exists a, s, d|].
  rewrite pretty_N_go_step by lia. apply IH; [apply N.div_lt; lia|].
  eexists. apply digit_pretty. by apply N.mod_lt.
Qed.

Lemma pretty_N_head (x : N) : ∃ b t d, pretty x = String b t ∧ digit b = Some d.
Proof.
  unfold pretty, pretty_N. case_decide as Hx; [by exists "0"%char, ""%string, 0|].
  rewrite pretty_N_go_step by lia. apply pretty_go_head. eexists. apply digit_pretty. by apply N.mod_lt.
Qed.

Lemma pretty_N_digits (x : N) : unsigned_digits (pretty x) = Some (Z.of_N x).
Proof.
  destruct (pretty_N_head x) as (b & t & d & Hp & Hd). rewrite Hp. cbn [unsigned_digits].
  rewrite Hd, <-Hp. f_equal. unfold pretty, pretty_N. case_decide as Hx; [by rewrite Hx|].
  by rewrite digits_pretty_go.
Qed.

Lemma digit_not_special a d :
  digit a = Some d → is_space a = false ∧ a ≠ "-"%char ∧ a ≠ "+"%char ∧ a ≠ ":"%char.
Proof.
  unfold digit, is_space. case_decide as Hn; [|done]. intros _.
  split; [apply bool_decide_false; lia|]. split_and!; intros ->; vm_compute in Hn; intuition lia.
Qed.

Lemma pretty_Z_N (z : Z) : 0 ≤ z → pretty z = pretty (Z.to_N z).
Proof. intros Hz. destruct z as [|p|p]; [done|done|lia]. Qed.

Lemma stoul_pretty (z : Z) : 0 ≤ z < 2 ^ 64 → stoul (pretty z) = Ret z.
Proof.
  intros Hz. rewrite pretty_Z_N by lia.
  destruct (pretty_N_head (Z.to_N z)) as (b & t & d & Hp & Hd).
  pose proof (pretty_N_digits (Z.to_N z)) as Hv. rewrite Hp in *.
  destruct (digit_not_special b d Hd) as (Hs & Hm & Hpl & _).
  unfold stoul. cbn [skip_spaces]. rewrite Hs.
  assert ((match String b t with String "-" s => (true, s) | String "+" s => (false, s)
    | _ => (false, String b t) end) = (false, String b t)) as ->.
  { destruct b as [[] [] [] [] [] [] [] []]; done. }
  rewrite Hv, Z2N.id by lia. by rewrite decide_True by lia.
Qed.

Lemma pretty_go_no_colon (x : N) s : rfind ":" s = None → rfind ":" (pretty_N_go x s) = None.
Proof.
  revert s. induction (N.lt_wf_0 x) as [x _ IH]; intros s Hs.
  destruct (decide (x = 0)%N) as [->|Hx]; [done|].
  rewrite pretty_N_go_step by lia. apply IH; [apply N.div_lt; lia|]. cbn [rfind]. rewrite Hs.
  pose proof (digit_not_special _ _ (digit_pretty (x `mod` 10)%N ltac:(by apply N.mod_lt))).
  rewrite decide_False; [done|]. tauto.
Qed.

Lemma pretty_no_colon (z : Z) : 0 ≤ z → rfind ":" (pretty z) = None.
Proof.
  intros Hz. rewrite pretty_Z_N by done. unfold pretty, pretty_N. case_decide; [done|].
  by apply pretty_go_no_colon.
Qed.

Lemma pretty_nonempty (z : Z) : 0 ≤ z → pretty z ≠ ""%string ∧ String.length (pretty z) ≠ 0%nat.
Proof.
  intros Hz. rewrite pretty_Z_N by done.
  destruct (pretty_N_head (Z.to_N z)) as (b & t & d & -> & _). by split.
Qed.
End numbers.

(** ** Theorems *)

Section theorems.
Context {AS : Asio}.

(** A peer as it is written on the command line. *)
Record PeerArg := mkPeerArg { bracketed : bool; host : string; addr : Address; peer_port : Z }.

Definition written (p : PeerArg) : string :=
  if bracketed p then "[" ++ host p ++ "]:" ++ pretty (peer_port p)
  else host p ++ ":" ++ pretty (peer_port p).

(** A numeric address with a port; without brackets the host is not empty and
    does not start with one. *)
Definition writable (p : PeerArg) : Prop :=
  make_address (host p) = Some (addr p) ∧ 0 ≤ peer_port p < 2 ^ 16 ∧
  if bracketed p then find "]" (host p) = None
  else host p ≠ "" ∧ String.get 0 (host p) ≠ Some "["%char.

Definition endpoint_of (p : PeerArg) : UdpEndpoint := make_endpoint (addr p) (peer_port p).

(** The arguments for a configuration. *)
Definition command_line (port : Z) (ps : list PeerArg) (shm : bool) : list string :=
  ["--port"; pretty port]%list ++ concat ((λ p, ["--peer"; written p]%list) <$> ps) ++
  (if shm then ["--shm"]%list else []%list).

Lemma to_uint16_small z : 0 ≤ z < 2 ^ 16 → to_uint16 z = z.
Proof. intros Hz. by apply Z.mod_small. Qed.

Lemma split_plain_written (h p : string) :
  h ≠ "" → rfind ":" p = None → String.length p ≠ 0%nat → split_plain (h ++ ":" ++ p) = Ret (h, p).
Proof.
  intros Hh Hp Hlen. unfold split_plain. change (":" ++ p) with (String ":" p).
  rewrite (rfind_append _ h p Hp). rewrite decide_False.
  - rewrite substr_head. cbn [mbind result_bind].
    change (String ":" p) with (":" ++ p).
    replace (String.length h + 1)%nat with (String.length (h ++ ":")) by (rewrite length_append; simpl; lia).
    rewrite append_assoc. by rewrite substr_tail.
  - rewrite length_append. simpl. intros [Hz|Hz]; [|lia]. by destruct h.
Qed.

Lemma split_bracketed_written (h p : string) :
  find "]" h = None → split_bracketed ("[" ++ h ++ "]:" ++ p) = Ret (h, p).
Proof.
  intros Hh. unfold split_bracketed.
  assert (find "]" ("[" ++ h ++ "]:" ++ p) = Some (S (String.length h))) as ->.
  { change (find "]" (String "[" (h ++ "]:" ++ p)) = Some (S (String.length h))). cbn [find].
    rewrite decide_False, find_append by done. change (find "]" ("]:" ++ p)) with (Some 0%nat).
    cbn [fmap option_fmap option_map]. do 2 f_equal. lia. }
  assert ("[" ++ h ++ "]:" ++ p = ("[" ++ h ++ "]") ++ ":" ++ p) as Hs
    by (change ("]:" ++ p) with ("]" ++ ":" ++ p); by rewrite !append_assoc).
  assert (String.length ("[" ++ h ++ "]") = S (S (String.length h))) as Hl
    by (rewrite !length_append; simpl; lia).
  replace (S (String.length h) + 1)%nat with (String.length ("[" ++ h ++ "]"))
    by (rewrite Hl; lia).
  rewrite Hs at 1. rewrite get_append. change (String.get 0 (":" ++ p)) with (Some ":"%char). cbn match.
  assert (substr 1 (Some (S (String.length h) - 1)%nat) ("[" ++ h ++ "]:" ++ p) = Ret h) as ->.
  { unfold substr. rewrite decide_True by (rewrite !length_append; simpl; lia).
    replace (S (String.length h) - 1)%nat with (String.length h) by lia.
    change (drop_string 1 ("[" ++ h ++ "]:" ++ p)) with (h ++ "]:" ++ p). by rewrite take_append. }
  cbn [mbind result_bind].
  replace (S (String.length h) + 2)%nat with (String.length (("[" ++ h ++ "]") ++ ":"))
    by (rewrite length_append, Hl; simpl; lia).
  rewrite Hs, (append_assoc ("[" ++ h ++ "]") ":" p). by rewrite substr_tail.
Qed.

(** A written peer is read back. *)
Lemma parseEndpoint_written p : writable p → parseEndpoint (written p) = Ret (endpoint_of p).
Proof.
  intros (Ha & Hp & Hform). unfold parseEndpoint, written, endpoint_of.
  assert (∀ r, r = Ret (host p, pretty (peer_port p)) →
    ('(host, portStr) ← (r : result (string * string));
     if decide (portStr = "") then Throw InvalidArgument else
     match make_address host with
     | Some addr => n ← stoul portStr; mret (make_endpoint addr (to_uint16 n))
     | None => match resolve host portStr with
               | None | Some [] => Throw InvalidArgument
               | Some (ep :: _) => mret ep
               end
     end) = Ret (make_endpoint (addr p) (peer_port p))) as Hrest.
  { intros r ->. cbn [mbind result_bind]. rewrite decide_False by (apply pretty_nonempty; lia).
    rewrite Ha, stoul_pretty by lia. cbn [mbind result_bind]. by rewrite to_uint16_small. }
  destruct (bracketed p); apply Hrest.
  - change (String.get 0 ("[" ++ host p ++ "]:" ++ pretty (peer_port p))) with (Some "["%char).
    by apply split_bracketed_written.
  - destruct Hform as [Hne Hb].
    assert (split_plain (host p ++ ":" ++ pretty (peer_port p)) = Ret (host p, pretty (peer_port p))) as Hplain.
    { apply split_plain_written; [done|apply pretty_no_colon; lia|apply pretty_nonempty; lia]. }
    destruct (host p) as [|a h]; [done|].
    change (String.get 0 (String a h ++ ":" ++ pretty (peer_port p))) with (Some a).
    destruct (decide (a = "["%char)) as [->|Ha']; [done|].
    destruct a as [[] [] [] [] [] [] [] []]; try exact Hplain. by destruct Ha'.
Qed.

Lemma parse_peers ps config rest :
  Forall writable ps →
  parse_loop (concat ((λ p, ["--peer"; written p]%list) <$> ps) ++ rest) config =
    parse_loop rest (mkConfig (tunnel_port config) (peers config ++ (endpoint_of <$> ps))
                       (use_shm config)).
Proof.
  intros Hps. revert config. induction Hps as [|p ps Hp _ IH]; intros config; csimpl.
  { rewrite app_nil_r. by destruct config. }
  rewrite parseEndpoint_written by done. cbn [mbind result_bind].
  rewrite IH. unfold push_peer. simpl. by rewrite <-app_assoc.
Qed.

(** C33: the command line is read back: the arguments written for a port, a list
    of peers (IPv4 or IPv6, in brackets or not) and the shared-memory flag give
    exactly that configuration, with the peers in order. *)
Theorem args_roundtrip port ps shm :
  0 ≤ port < 2 ^ 16 → Forall writable ps →
  parseArgs (command_line port ps shm) = Ret (Some (mkConfig port (endpoint_of <$> ps) shm)).
Proof.
  intros Hport Hps. unfold parseArgs, command_line. csimpl. rewrite stoul_pretty by lia. cbn [mbind result_bind]. rewrite to_uint16_small by done.
  rewrite parse_peers by done. by destruct shm.
Qed.

(** Every endpoint argument is accepted or rejected by an exception that [main]
    reports. *)
Definition user_error {A} (r : result A) : Prop :=
  (∃ a, r = Ret a) ∨ r = Throw InvalidArgument ∨ r = Throw OutOfRange.

Lemma user_error_bind {A B} (r : result A) (f : A → result B) :
  user_error r → (∀ a, r = Ret a → user_error (f a)) → user_error (r ≫= f).
Proof. intros [[a ->]|[-> | ->]] Hf; [by apply Hf|by right; left|by right; right]. Qed.
Lemma user_error_ret {A} (a : A) : user_error (Ret a).
Proof. left. by eexists. Qed.
Lemma user_error_invalid {A} : user_error (Throw (A:=A) InvalidArgument).
Proof. by right; left. Qed.

Lemma stoul_user_error s : user_error (stoul s).
Proof.
  unfold stoul. destruct (match skip_spaces s with String "-" s => _ | _ => _ end) as [neg s'].
  destruct (unsigned_digits s'); [|apply user_error_invalid].
  case_decide; [apply user_error_ret|by right; right].
Qed.

Lemma parseEndpoint_user_error s : user_error (parseEndpoint s).
Proof.
  unfold parseEndpoint. apply user_error_bind.
  - assert (∀ n c t, user_error (substr n c t)) as Hsub.
    { intros n c t. unfold substr. case_decide; [apply user_error_ret|by right; right]. }
    assert (user_error (split_plain s)) as Hp.
    { unfold split_plain. destruct (rfind ":" s); [|apply user_error_invalid].
      case_decide; [apply user_error_invalid|].
      apply user_error_bind; [done|intros ? _]. apply user_error_bind; [done|intros ? _].
      apply user_error_ret. }
    assert (user_error (split_bracketed s)) as Hb.
    { unfold split_bracketed. destruct (find "]" s); [|apply user_error_invalid].
      destruct (String.get _ s) as [a|]; [|apply user_error_invalid].
      destruct a as [[] [] [] [] [] [] [] []]; try apply user_error_invalid.
      apply user_error_bind; [done|intros ? _]. apply user_error_bind; [done|intros ? _].
      apply user_error_ret. }
    destruct (String.get 0 s) as [[[] [] [] [] [] [] [] []]|]; done.
  - intros [h p] _. case_decide; [apply user_error_invalid|]. destruct (make_address h).
    + apply user_error_bind; [apply stoul_user_error|]. intros n _. apply user_error_ret.
    + destruct (resolve h p) as [[|e l]|]; [apply user_error_invalid|apply user_error_ret|
        apply user_error_invalid].
Qed.

Lemma parse_loop_user_error args config : user_error (parse_loop args config).
Proof.
  remember (length args) as n eqn:Hn. assert (length args ≤ n)%nat as Hle by lia. clear Hn.
  revert args config Hle. induction n as [|n IH]; intros [|arg args] config Hle; simpl in *; try lia;
    try apply user_error_ret.
  repeat case_decide; try apply user_error_ret; try apply user_error_invalid.
  - destruct args as [|v args]; [apply user_error_invalid|].
    apply user_error_bind; [apply stoul_user_error|]. intros p _. apply IH. simpl in Hle. lia.
  - destruct args as [|v args]; [apply user_error_invalid|].
    apply user_error_bind; [apply parseEndpoint_user_error|]. intros p _. apply IH. simpl in Hle. lia.
  - apply IH. lia.
Qed.

(** Every command line ends in a definite way: an unknown option, a missing
    value, a malformed endpoint or number ends with exit code 1, with the usage
    unless a number is too large for [unsigned long]; [--help] ends with 0; and
    otherwise the program runs with the configuration, and its exit code is 1
    exactly when an exception ends it. *)
Theorem main_outcomes (args : list string) (run : Config → result unit) :
  (∀ config u, run config ≠ Undef u) →
  (parseArgs args = Throw InvalidArgument ∧ main args run = Ret (1, ErrorWithUsage)) ∨
  (parseArgs args = Throw OutOfRange ∧ main args run = Ret (1, ExceptionShown)) ∨
  (parseArgs args = Ret None ∧ main args run = Ret (0, UsageShown)) ∨
  ∃ config, parseArgs args = Ret (Some config) ∧
    ((run config = Ret tt ∧ main args run = Ret (0, NoReport)) ∨
     ∃ e, run config = Throw e ∧
       main args run = Ret (1, if decide (e = InvalidArgument) then ErrorWithUsage else ExceptionShown)).
Proof.
  intros Hrun. unfold main.
  destruct (parse_loop_user_error args default_config) as [[[config|] Hp]|[Hp|Hp]];
    unfold parseArgs; rewrite Hp; cbn [mbind result_bind]; [| |by left|by right; left].
  - do 3 right. exists config. split; [done|]. destruct (run config) as [[]|e|u] eqn:Hr.
    + by left.
    + right. exists e. split; [done|]. by destruct e.
    + by destruct (Hrun config u).
  - right. right. by left.
Qed.
End theorems.

Module ArgumentsWitnesses.
Import Sample.

Definition ipv4 : PeerArg := mkPeerArg false "20" (20 : @Address asio) 80.
Definition ipv6 : PeerArg := mkPeerArg true "300" (300 : @Address asio) 80.

Lemma args_roundtrip_witness :
  parseArgs ["--port"; "4000"; "--peer"; "20:80"; "--peer"; "[300]:80"; "--shm"]%list =
    Ret (Some (mkConfig 4000 [(20, Byte.x50); (300, Byte.x50)] true)).
Proof.
  apply (args_roundtrip 4000 [ipv4; ipv6] true); [lia|].
  constructor; [|constructor; [|constructor]].
  - split; [reflexivity|]. split; [simpl; lia|]. split; discriminate.
  - split; [reflexivity|]. split; [simpl; lia|reflexivity].
Defined.

Lemma main_outcomes_witness :
  main ["--peer"; "20"]%list (λ _, Ret tt) = Ret (1, ErrorWithUsage).
Proof.
  destruct (main_outcomes ["--peer"; "20"]%list (λ _, Ret tt)) as [[_ H]|[[H _]|[[H _]|(c & H & _)]]];
    [discriminate|exact H|discriminate H|discriminate H|discriminate H].
Defined.

(** Ports are cut to 16 bits, a sign and trailing text are accepted. *)
Lemma port_truncated :
  parseArgs ["--port"; "70000"]%list = Ret (Some (mkConfig 4464 [] false)) ∧
  parseArgs ["--port"; "-1"]%list = Ret (Some (mkConfig 65535 [] false)) ∧
  parseArgs ["--port"; "80abc"]%list = Ret (Some (mkConfig 80 [] false)).
Proof. split; [|split]; evaluate. Qed.
End ArgumentsWitnesses.
