(* ===== verification/Approvals.v ===== *)
(** * main.cpp: the state of the program and the approval of unknown peers

    [State] with the callbacks its constructor registers, the timer thread of
    each question, the keys of [input] and the destructor.  A thread that takes
    a question from the queue does so in a critical section of
    [SharedPending::mutex] ([timer_lock], [resolve_lock]), calls [accept] or
    [reject] after it has left it, and takes the mutex again for the next prompt
    ([prompt_again]).  Between these steps the thread is kept in [threads] with
    what it is about to do, and other threads may take theirs: the events of a
    trace are single steps.  [timer_thread] and [resolvePendingApproval] are the
    whole functions; [undisturbed_timer] and [undisturbed_key] show that the
    steps of one thread, with nobody in between, are the function.  The
    destructor holds the mutex from its first statement to its last, so it is
    one step. *)

From Stdlib Require Import Strings.Ascii.
From S2P Require Import Prelude LinkLib Sample UdpTunnel.

(** ** Data *)

Section data.
Context {AS : Asio}.

(** The callbacks [accept] and [reject] of an entry are those of its endpoint. *)
Record PendingApproval := mkPending { id : Z; ep : UdpEndpoint }.

Record SharedPending := mkSharedPending {
  approvals : list PendingApproval;         (* std::queue, front first *)
  nextId : Z;
  alive : bool;
}.

#[export] Instance PendingApproval_eq_dec : EqDecision PendingApproval.
Proof. solve_decision. Defined.

(** Where a thread is that has taken an entry from the queue: about to call
    [accept] or [reject], and then to look for a next question ([again]) or not,
    or about to take the mutex for that.  [key] tells the input thread from the
    timer threads. *)
Inductive Thread :=
  | Deciding (p : PendingApproval) (d : PeerDecision) (key again : bool)
  | Prompting (key : bool).

(** [Bpm] is [double].  [decisions] are the calls of [accept] and [reject],
    [prompts] the printed questions, [sleepers] the ids of the sleeping timer
    threads, [threads] the threads that have taken an entry and are not done. *)
Context {Bpm : Type}.
Record State := mkState {
  running : bool;
  localPeers : nat;
  remotePeers : nat;
  tempo : Bpm;
  isPlaying : bool;
  pending : SharedPending;
  decisions : list (PendingApproval * PeerDecision);
  prompts : list UdpEndpoint;
  sleepers : list Z;
  threads : list Thread;
}.

Definition upd_running f (s : State) : State :=
  mkState (f (running s)) (localPeers s) (remotePeers s) (tempo s) (isPlaying s) (pending s)
    (decisions s) (prompts s) (sleepers s) (threads s).
Definition set_peers l r (s : State) : State :=
  mkState (running s) l r (tempo s) (isPlaying s) (pending s) (decisions s) (prompts s)
    (sleepers s) (threads s).
Definition set_tempo b (s : State) : State :=
  mkState (running s) (localPeers s) (remotePeers s) b (isPlaying s) (pending s)
    (decisions s) (prompts s) (sleepers s) (threads s).
Definition set_isPlaying b (s : State) : State :=
  mkState (running s) (localPeers s) (remotePeers s) (tempo s) b (pending s)
    (decisions s) (prompts s) (sleepers s) (threads s).
Definition upd_pending f (s : State) : State :=
  mkState (running s) (localPeers s) (remotePeers s) (tempo s) (isPlaying s) (f (pending s))
    (decisions s) (prompts s) (sleepers s) (threads s).
Definition upd_decisions f (s : State) : State :=
  mkState (running s) (localPeers s) (remotePeers s) (tempo s) (isPlaying s) (pending s)
    (f (decisions s)) (prompts s) (sleepers s) (threads s).
Definition upd_prompts f (s : State) : State :=
  mkState (running s) (localPeers s) (remotePeers s) (tempo s) (isPlaying s) (pending s)
    (decisions s) (f (prompts s)) (sleepers s) (threads s).
Definition upd_sleepers f (s : State) : State :=
  mkState (running s) (localPeers s) (remotePeers s) (tempo s) (isPlaying s) (pending s)
    (decisions s) (prompts s) (f (sleepers s)) (threads s).
Definition upd_threads f (s : State) : State :=
  mkState (running s) (localPeers s) (remotePeers s) (tempo s) (isPlaying s) (pending s)
    (decisions s) (prompts s) (sleepers s) (f (threads s)).

(** ** Operations *)

Definition new_State (zero : Bpm) : State :=
  mkState true 0 0 zero false (mkSharedPending [] 0 true) [] [] [] [].

(** The callbacks given to [linkExtender]. *)
Definition onNumPeers (local remote : nat) : M State unit := modify (set_peers local remote).
Definition onTempo (bpm : Bpm) : M State unit := modify (set_tempo bpm).
Definition onStartStop (playing : bool) : M State unit := modify (set_isPlaying playing).

(** [approvals.front()] and [approvals.pop()] *)
Definition front : M State PendingApproval :=
  sp ← gets pending;
  match approvals sp with p :: _ => mret p | [] => undefined EmptyBack end.
Definition pop_front : M State unit :=
  modify (upd_pending (λ sp, mkSharedPending (tail (approvals sp)) (nextId sp) (alive sp))).

Definition printNextPrompt : M State unit :=
  p ← front; modify (upd_prompts (λ l, l ++ [ep p])).

Definition decide_entry (d : PeerDecision) (p : PendingApproval) : M State unit :=
  modify (upd_decisions (λ l, l ++ [(p, d)])).

Definition onUnknownPeer (e : UdpEndpoint) : M State unit :=
  sp ← gets pending;
  let n := nextId sp in
  let wasEmpty := bool_decide (approvals sp = []) in
  modify (upd_pending (λ sp,
    mkSharedPending (approvals sp ++ [mkPending n e]) (to_uint64 (n + 1)) (alive sp)));;
  (if wasEmpty then printNextPrompt else skip);;
  modify (upd_sleepers (λ l, l ++ [n])).

(** The timer thread, once its 60 seconds are over: its first critical section. *)
Definition timer_lock (n : Z) : M State (option PendingApproval) :=
  modify (upd_sleepers (filter (.≠ n)));;
  sp ← gets pending;
  if negb (alive sp) then mret None else
  match approvals sp with
  | p :: _ => if decide (id p = n) then pop_front;; mret (Some p) else mret None
  | [] => mret None
  end.

(** The first critical section of [resolvePendingApproval]: the entry and [hasNext]. *)
Definition resolve_lock : M State (option (PendingApproval * bool)) :=
  sp ← gets pending;
  match approvals sp with
  | p :: rest => pop_front;; mret (Some (p, negb (bool_decide (rest = []))))
  | [] => mret None
  end.

(** The last critical section of both; only the timer thread asks for [alive]. *)
Definition prompt_again (key : bool) : M State unit :=
  sp ← gets pending;
  if decide (approvals sp ≠ [] ∧ (key = true ∨ alive sp = true)) then printNextPrompt else skip.

Definition timer_thread (n : Z) : M State unit :=
  entry ← timer_lock n;
  match entry with
  | None => skip
  | Some p => decide_entry Reject p;; prompt_again false
  end.

Definition key_decision (accept : bool) : PeerDecision := if accept then Accept else Reject.

Definition resolvePendingApproval (accept : bool) : M State unit :=
  entry ← resolve_lock;
  match entry with
  | None => skip
  | Some (p, hasNext) =>
      decide_entry (key_decision accept) p;;
      if hasNext : bool then prompt_again true else skip
  end.

(** One step of a thread that has taken an entry, and what is left of it. *)
Definition proceed (th : Thread) : M State (list Thread) :=
  match th with
  | Deciding p d key again =>
      decide_entry d p;; mret (if again : bool then [Prompting key] else [])
  | Prompting key => prompt_again key;; mret []
  end.

Definition begin (th : list Thread) : M State unit := modify (upd_threads (λ l, l ++ th)).

(** [input]: true when it returns; on the end of the keys it waits for more. *)
Fixpoint input (keys : list ascii) : M State bool :=
  match keys with
  | [] => mret false
  | k :: keys =>
      if decide (k = "q"%char) then modify (upd_running (λ _, false));; mret true
      else (if decide (k = "a"%char) then resolvePendingApproval true
            else if decide (k = "d"%char) then resolvePendingApproval false
            else skip);; input keys
  end.

(** [~State]: the loop rejects and pops until the queue is empty. *)
Fixpoint drain (fuel : nat) : M State bool :=
  match fuel with
  | O => mret false
  | S fuel =>
      sp ← gets pending;
      match approvals sp with
      | [] => mret true
      | p :: _ => decide_entry Reject p;; pop_front;; drain fuel
      end
  end.
Definition destroy : M State bool :=
  modify (upd_pending (λ sp, mkSharedPending (approvals sp) (nextId sp) false));;
  sp ← gets pending;
  drain (S (length (approvals sp))).
End data.
Arguments State {AS} Bpm.

(** ** Traces *)

Section traces.
Context {AS : Asio} {Bpm : Type}.
Implicit Types (s : State Bpm) (p : PendingApproval).

(** What happens to the approvals: a question of the IO thread, the first
    critical section of a timer thread or of a key, the next step of the thread
    at position [i] of [threads], the destructor. *)
Inductive ApprovalEvent :=
  | Asked (e : UdpEndpoint)
  | TimerOver (n : Z)
  | KeyPressed (accept : bool)
  | Proceeds (i : nat)
  | Destroyed.

Definition approval_handle (e : ApprovalEvent) : M (State Bpm) bool :=
  match e with
  | Asked e => onUnknownPeer e;; mret true
  | TimerOver n =>
      entry ← timer_lock n;
      begin (if entry is Some p then [Deciding p Reject false true] else []);; mret true
  | KeyPressed a =>
      entry ← resolve_lock;
      begin (if entry is Some (p, hasNext) then [Deciding p (key_decision a) true hasNext] else []);;
      mret true
  | Proceeds i =>
      ths ← gets threads;
      match ths !! i with
      | None => skip
      | Some th => rest ← proceed th; modify (upd_threads (λ _, take i ths ++ rest ++ drop (S i) ths))
      end;;
      mret true
  | Destroyed => destroy
  end.

Definition approval_step s (e : ApprovalEvent) : State Bpm := (approval_handle e s).2.
Definition after (es : list ApprovalEvent) s : State Bpm := foldl approval_step s es.

(** The questions of a trace, numbered as they come. *)
Definition asked (es : list ApprovalEvent) : list UdpEndpoint :=
  omap (λ e, match e with Asked e => Some e | _ => None end) es.
Definition questions (es : list ApprovalEvent) : list PendingApproval :=
  imap (λ n e, mkPending (Z.of_nat n) e) (asked es).

Definition waiting_list s : list PendingApproval := approvals (pending s).
Definition decided s : list PendingApproval := (decisions s).*1.

(** The entries in the hands of a thread: taken, and not decided yet. *)
Definition in_hand (th : Thread) : list PendingApproval :=
  match th with Deciding p _ _ _ => [p] | Prompting _ => [] end.
Definition held s : list PendingApproval := threads s ≫= in_hand.

(** The steps a thread has left, and all threads together. *)
Definition steps_left (th : Thread) : nat :=
  match th with Deciding _ _ _ again => if again then 2 else 1 | Prompting _ => 1 end.
Definition remaining s : nat := sum_list_with steps_left (threads s).

(** *** The operations as changes of the queue *)

(** What a critical section does: it takes [tk] off the front, and leaves the
    decisions, the prompts and the threads alone. *)
Definition lock_effect s s' (tk : list PendingApproval) : Prop :=
  waiting_list s = tk ++ waiting_list s' ∧ decisions s' = decisions s ∧ threads s' = threads s ∧
  prompts s' = prompts s ∧ nextId (pending s') = nextId (pending s) ∧
  alive (pending s') = alive (pending s).

(** Whom the timer [n] finds at the front. *)
Definition expires (n : Z) s : option PendingApproval :=
  match waiting_list s with
  | p :: _ => if decide (alive (pending s) = true ∧ id p = n) then Some p else None
  | [] => None
  end.

Lemma timer_lock_run n s :
  ∃ s', timer_lock n s = (Ret (expires n s), s') ∧ lock_effect s s' (option_list (expires n s)).
Proof.
  destruct s as [? ? ? ? ? [[|p q] k al] ? ? ? ths]; unfold expires, waiting_list;
    cbn [approvals pending alive]; unfold timer_lock, mbind, M_bind, gets, modify;
    cbn [upd_sleepers pending alive negb approvals].
  - by destruct al; eexists.
  - destruct al; cbn [negb].
    + destruct (decide (id p = n)) as [Hn|Hn];
        [rewrite decide_True by done|rewrite decide_False by naive_solver]; by eexists.
    + rewrite decide_False by naive_solver. by eexists.
Qed.

Lemma resolve_lock_run s :
  ∃ s', resolve_lock s =
      (Ret match waiting_list s with
           | p :: rest => Some (p, negb (bool_decide (rest = []))) | [] => None end, s') ∧
    lock_effect s s' (take 1 (waiting_list s)).
Proof.
  destruct s as [? ? ? ? ? [[|p q] k al] ? ? ? ths]; eexists; (split; [reflexivity|]); by split_and!.
Qed.

(** What the last critical section prints. *)
Definition next_prompt (key : bool) (sp : SharedPending) : list UdpEndpoint :=
  match approvals sp with
  | p :: _ => if key || alive sp then [ep p] else []
  | [] => []
  end.

Lemma prompt_again_run key s :
  prompt_again key s = (Ret tt, upd_prompts (λ l, l ++ next_prompt key (pending s)) s).
Proof.
  unfold prompt_again, printNextPrompt, front, next_prompt, mbind, M_bind, gets, modify.
  destruct s as [? ? ? ? ? [[|p q] n al] ? ? ? ?]; cbn [pending approvals alive].
  - rewrite decide_False by naive_solver. unfold upd_prompts. simpl. by rewrite app_nil_r.
  - destruct key, al; cbn [orb]; try by rewrite decide_True by auto.
    rewrite decide_False by naive_solver. unfold upd_prompts. simpl. by rewrite app_nil_r.
Qed.

Lemma ask_run e s :
  ∃ s', onUnknownPeer e s = (Ret tt, s') ∧
    waiting_list s' = waiting_list s ++ [mkPending (nextId (pending s)) e] ∧
    decisions s' = decisions s ∧ nextId (pending s') = to_uint64 (nextId (pending s) + 1) ∧
    alive (pending s') = alive (pending s) ∧ sleepers s' = sleepers s ++ [nextId (pending s)] ∧
    threads s' = threads s.
Proof.
  unfold onUnknownPeer, mbind, M_bind, modify, gets.
  destruct s as [? ? ? ? ? [[|p q] n al] ? ? ? ?]; cbn [pending nextId approvals].
  - rewrite bool_decide_true by done. eexists. split; [reflexivity|]. by split_and!.
  - rewrite bool_decide_false by done. eexists. split; [reflexivity|]. by split_and!.
Qed.

Lemma drain_run q fuel s :
  waiting_list s = q → (length q < fuel)%nat →
  ∃ s', drain fuel s = (Ret true, s') ∧ waiting_list s' = [] ∧
    decisions s' = decisions s ++ ((λ p, (p, Reject)) <$> q) ∧ threads s' = threads s ∧
    nextId (pending s') = nextId (pending s) ∧ alive (pending s') = alive (pending s).
Proof.
  revert fuel s. induction q as [|p q IH]; intros [|fuel] s Hw Hf; simpl in Hf; try lia;
    unfold waiting_list in Hw; simpl; unfold mbind, M_bind, gets; rewrite Hw.
  - exists s. split; [done|]. csimpl. rewrite app_nil_r. by split_and!.
  - unfold decide_entry, pop_front, modify.
    edestruct (IH fuel) as (s' & Hr & Hq & Hd & Ht & Hn & Ha); [|lia|].
    2:{ exists s'. split; [exact Hr|]. split; [done|]. split; [|by split_and!].
        csimpl. rewrite Hd. simpl. by rewrite <-app_assoc. }
    unfold waiting_list. simpl. by rewrite Hw.
Qed.

Lemma destroy_run s :
  ∃ s', destroy s = (Ret true, s') ∧ waiting_list s' = [] ∧ alive (pending s') = false ∧
    decisions s' = decisions s ++ ((λ p, (p, Reject)) <$> waiting_list s) ∧
    threads s' = threads s ∧ nextId (pending s') = nextId (pending s).
Proof.
  unfold destroy, mbind, M_bind, modify, gets. set (s1 := upd_pending _ s).
  destruct (drain_run (waiting_list s) (S (length (approvals (pending s1)))) s1)
    as (s' & Hr & Hq & Hd & Ht & Hn & Ha); [done|simpl; unfold waiting_list; lia|].
  exists s'. by split_and!.
Qed.

(** *** Taken, decided and waiting *)

Lemma rejected_fst (q : list PendingApproval) : ((λ p, (p, Reject)) <$> q).*1 = q.
Proof. rewrite <-list_fmap_compose. apply list_fmap_id. Qed.

(** What an event that is no question does: [tk] leaves the front of the queue,
    [ds] are decided, and who was taken is decided or in a thread's hands. *)
Definition queue_effect s s' (tk : list PendingApproval) (ds : list (PendingApproval * PeerDecision)) :
    Prop :=
  waiting_list s = tk ++ waiting_list s' ∧ decisions s' = decisions s ++ ds ∧
  held s ++ tk ≡ₚ ds.*1 ++ held s' ∧ nextId (pending s') = nextId (pending s).

Lemma held_begin ths s : held (upd_threads (λ l, l ++ ths) s) = held s ++ (ths ≫= in_hand).
Proof. unfold held. simpl. by rewrite bind_app. Qed.

(** A critical section after which a thread holds what it has taken. *)
Lemma lock_begin_effect s s1 tk ths :
  lock_effect s s1 tk → ths ≫= in_hand = tk →
  queue_effect s (upd_threads (λ l, l ++ ths) s1) tk [].
Proof.
  intros (Hw & Hd & Ht & _ & Hn & _) Hths. unfold queue_effect. rewrite held_begin, Hths.
  unfold held, waiting_list in *. simpl. rewrite Hd, Ht, app_nil_r. by split_and!.
Qed.

Lemma proceed_run th s :
  ∃ rest s', proceed th s = (Ret rest, s') ∧ pending s' = pending s ∧ threads s' = threads s ∧
    decisions s' = decisions s ++ (match th with Deciding p d _ _ => [(p, d)] | _ => [] end) ∧
    (rest ≫= in_hand = []) ∧ (sum_list_with steps_left rest < steps_left th)%nat.
Proof.
  destruct th as [p d key again|key]; cbn [proceed]; unfold mbind, M_bind.
  - eexists _, _. split; [reflexivity|]. split; [done|]. split; [done|]. split; [done|].
    destruct again; simpl; split; [done|lia|done|lia].
  - rewrite prompt_again_run. eexists _, _. split; [reflexivity|].
    simpl. rewrite app_nil_r. split_and!; try done. lia.
Qed.

(** A step of the thread [th], and the others. *)
Lemma proceeds_run i th s :
  threads s !! i = Some th →
  ∃ rest s', approval_handle (Proceeds i) s = (Ret true, s') ∧
    pending s' = pending s ∧ threads s' = take i (threads s) ++ rest ++ drop (S i) (threads s) ∧
    decisions s' = decisions s ++ (match th with Deciding p d _ _ => [(p, d)] | _ => [] end) ∧
    (rest ≫= in_hand = []) ∧ (sum_list_with steps_left rest < steps_left th)%nat.
Proof.
  intros Hi. destruct (proceed_run th s) as (rest & s' & Hr & Hp & Ht & Hd & Hh & Hs).
  exists rest, (upd_threads (λ _, take i (threads s) ++ rest ++ drop (S i) (threads s)) s').
  split; [|by split_and!]. cbn [approval_handle]. unfold mbind, M_bind, gets, modify.
  by rewrite Hi, Hr.
Qed.

Lemma handle_effect e s :
  (∀ ep, e ≠ Asked ep) →
  ∃ s' tk ds, approval_handle e s = (Ret true, s') ∧ queue_effect s s' tk ds.
Proof.
  intros He. destruct e as [ep|n|a|i|]; [by destruct (He ep)|..].
  - destruct (timer_lock_run n s) as (s1 & Hr & Hl). eexists _, _, []. split.
    { cbn [approval_handle]. unfold mbind, M_bind. rewrite Hr. reflexivity. }
    by apply (lock_begin_effect s s1 _ _ Hl); destruct (expires n s).
  - destruct (resolve_lock_run s) as (s1 & Hr & Hl). eexists _, _, []. split.
    { cbn [approval_handle]. unfold mbind, M_bind. rewrite Hr. reflexivity. }
    by apply (lock_begin_effect s s1 _ _ Hl); destruct (waiting_list s).
  - destruct (threads s !! i) as [th|] eqn:Hi.
    + destruct (proceeds_run i th s Hi) as (rest & s' & Hr & Hp & Ht & Hd & Hh & _).
      eexists s', [], _. split; [done|]. unfold queue_effect, waiting_list, held.
      rewrite Hp, Ht, !bind_app, Hh. split; [done|]. split; [exact Hd|]. split; [|done].
      rewrite <-(take_drop_middle _ _ _ Hi) at 1. rewrite bind_app, app_nil_r. csimpl.
      destruct th; csimpl; [|done]. by rewrite Permutation_middle.
    + exists s, [], []. split; [|by unfold queue_effect; rewrite !app_nil_r].
      cbn [approval_handle]. unfold mbind, M_bind, gets. by rewrite Hi.
  - destruct (destroy_run s) as (s' & Hr & Hw & _ & Hd & Ht & Hn). eexists s', _, _.
    split; [done|]. split; [by rewrite Hw, app_nil_r|]. split; [exact Hd|]. split; [|done].
    unfold held. by rewrite Ht, rejected_fst, Permutation_app_comm.
Qed.

(** The entries taken so far are those decided and those in a thread's hands. *)
Definition in_order (taken : list PendingApproval) s : Prop := taken ≡ₚ decided s ++ held s.

Lemma handle_order e taken s :
  (∀ ep, e ≠ Asked ep) → in_order taken s →
  ∃ s' tk, approval_handle e s = (Ret true, s') ∧ in_order (taken ++ tk) s' ∧
    waiting_list s = tk ++ waiting_list s' ∧ nextId (pending s') = nextId (pending s).
Proof.
  intros He Ho. destruct (handle_effect e s He) as (s' & tk & ds & Hr & Hw & Hd & Hh & Hn).
  exists s', tk. split; [done|]. split; [|done]. unfold in_order, decided in *.
  by rewrite Hd, fmap_app, Ho, <-!app_assoc, Hh.
Qed.

Lemma asked_app es es' : asked (es ++ es') = asked es ++ asked es'.
Proof. apply omap_app. Qed.

Lemma asked_snoc es e :
  asked (es ++ [e]) = asked es ++ match e with Asked ep => [ep] | _ => [] end.
Proof. rewrite asked_app. by destruct e. Qed.

Lemma questions_snoc es ep :
  questions (es ++ [Asked ep]) = questions es ++ [mkPending (Z.of_nat (length (asked es))) ep].
Proof.
  unfold questions. rewrite asked_snoc, imap_app. csimpl. by rewrite Nat.add_0_r.
Qed.

Lemma question_or_not (e : ApprovalEvent) : (∃ x, e = Asked x) ∨ (∀ x, e ≠ Asked x).
Proof. destruct e; naive_solver. Qed.

(** A trace keeps the order and the numbering. *)
Definition trace_ok (es : list ApprovalEvent) s : Prop :=
  (∃ taken, taken ++ waiting_list s = questions es ∧ in_order taken s) ∧
  nextId (pending s) = to_uint64 (Z.of_nat (length (asked es))).

Lemma trace_step es e s :
  Z.of_nat (length (asked (es ++ [e]))) < 2 ^ 64 → trace_ok es s →
  trace_ok (es ++ [e]) (approval_step s e).
Proof.
  intros Hlen [(taken & Hord & Hio) Hn]. rewrite asked_snoc, length_app in Hlen.
  destruct (question_or_not e) as [[x ->]|He].
  - destruct (ask_run x s) as (s' & Hr & Hw' & Hd' & Hn' & _ & _ & Ht).
    assert (approval_step s (Asked x) = s') as ->
      by (unfold approval_step; cbn [approval_handle]; unfold mbind, M_bind; by rewrite Hr).
    split.
    + exists taken. rewrite questions_snoc, Hw', Hn, app_assoc, Hord. simpl in Hlen.
      unfold wrap. rewrite Z.mod_small by lia. split; [done|].
      unfold in_order, decided, held in *. by rewrite Hd', Ht.
    + rewrite Hn', Hn, asked_snoc, length_app. simpl in *. unfold wrap.
      rewrite (Z.mod_small (Z.of_nat (length (asked es)))) by lia. f_equal. lia.
  - destruct (handle_order e taken s He Hio) as (s' & tk & Hr & Hio' & Hw & Hn').
    assert (asked (es ++ [e]) = asked es) as Has
      by (rewrite asked_snoc; destruct e; [by destruct (He e)|by rewrite app_nil_r..]).
    unfold approval_step, trace_ok, questions. rewrite Hr, Has. cbn [snd]. split; [|congruence].
    exists (taken ++ tk). split; [|done]. by rewrite <-app_assoc, <-Hw.
Qed.

Lemma trace_order es (zero : Bpm) :
  Z.of_nat (length (asked es)) < 2 ^ 64 → trace_ok es (after es (new_State zero)).
Proof.
  intros Hlen. induction es as [|e es IH] using rev_ind.
  { split; [|done]. exists []. split; [done|]. by unfold in_order. }
  unfold after. rewrite foldl_app. apply trace_step; [done|]. apply IH.
  rewrite asked_snoc, length_app in Hlen. lia.
Qed.

Lemma handle_returns e s : ∃ s', approval_handle e s = (Ret true, s').
Proof.
  destruct (question_or_not e) as [[x ->]|He].
  - destruct (ask_run x s) as (s' & Hr & _). exists s'. cbn [approval_handle].
    unfold mbind, M_bind. by rewrite Hr.
  - destruct (handle_effect e s He) as (s' & tk & ds & Hr & _). by exists s'.
Qed.

Lemma NoDup_questions es : NoDup (questions es).
Proof.
  apply NoDup_alt. intros i j x. unfold questions. rewrite !list_lookup_imap.
  intros (y & _ & ->)%fmap_Some (z & _ & Hz)%fmap_Some.
  apply (f_equal id) in Hz. simpl in Hz. lia.
Qed.

(** *** The threads finish *)

Lemma no_such_thread s i : (length (threads s) ≤ i)%nat → approval_step s (Proceeds i) = s.
Proof.
  intros Hi. unfold approval_step. cbn [approval_handle]. unfold mbind, M_bind, gets.
  by rewrite lookup_ge_None_2.
Qed.

Lemma remaining_step i th s :
  threads s !! i = Some th → (remaining (approval_step s (Proceeds i)) < remaining s)%nat.
Proof.
  intros Hi. destruct (proceeds_run i th s Hi) as (rest & s' & Hr & _ & Ht & _ & _ & Hlt).
  unfold approval_step, remaining. rewrite Hr. cbn [snd]. rewrite Ht.
  rewrite <-(take_drop_middle _ _ _ Hi) at 3. rewrite !sum_list_with_app. simpl. lia.
Qed.

Lemma steps_left_positive th : (0 < steps_left th)%nat.
Proof. destruct th as [? ? ? []|]; simpl; lia. Qed.

Lemma finish_threads n s :
  (remaining s ≤ n)%nat → threads (after (replicate n (Proceeds 0)) s) = [].
Proof.
  revert s. induction n as [|n IH]; intros s Hn.
  - unfold remaining in Hn. destruct (threads s) as [|th ths] eqn:Ht; [done|].
    pose proof (steps_left_positive th). simpl in Hn. lia.
  - change (after (replicate (S n) (Proceeds 0)) s) with
      (after (replicate n (Proceeds 0)) (approval_step s (Proceeds 0))). apply IH.
    destruct (threads s) as [|th ths] eqn:Ht.
    + rewrite no_such_thread by (rewrite Ht; simpl; lia). unfold remaining. rewrite Ht. simpl. lia.
    + pose proof (remaining_step 0 th s) as Hlt. rewrite Ht in Hlt. specialize (Hlt eq_refl). lia.
Qed.

(** *** A thread that nobody interrupts *)

Lemma proceed_last th ths s :
  threads s = ths ++ [th] →
  approval_step s (Proceeds (length ths)) =
    let '(r, s') := proceed th s in
    match r with Ret rest => upd_threads (λ _, ths ++ rest) s' | _ => s' end.
Proof.
  intros Ht. unfold approval_step. cbn [approval_handle].
  unfold mbind at 1, M_bind at 1. unfold mbind at 1, M_bind at 1, gets at 1.
  rewrite Ht, list_lookup_middle by done. unfold mbind, M_bind, modify.
  rewrite take_app_length, (drop_ge (ths ++ [th])) by (rewrite length_app; simpl; lia).
  destruct (proceed th s) as [[rest| |] s']; [|done..]. cbn [snd]. by rewrite app_nil_r.
Qed.

(** A thread that has an entry, from there to its end. *)
Definition finish (p : PendingApproval) (d : PeerDecision) (key again : bool) : M (State Bpm) unit :=
  decide_entry d p;; if again : bool then prompt_again key else skip.

Lemma finish_run p d key again s :
  let n := length (threads s) in
  after [Proceeds n; Proceeds n] (upd_threads (λ l, l ++ [Deciding p d key again]) s) =
    (finish p d key again s).2.
Proof.
  intros n. set (s1 := upd_threads _ s).
  pose proof (proceed_last (Deciding p d key again) (threads s) s1 eq_refl) as Hstep.
  unfold after. cbn [foldl]. fold n in Hstep. rewrite Hstep. subst n s1. cbn [proceed]. unfold decide_entry, finish, mbind, M_bind, modify, mret, M_ret.
  cbn beta iota zeta. destruct again; cbn beta iota.
  - rewrite (proceed_last (Prompting key) (threads s)) by done. cbn [proceed].
    unfold mbind, M_bind. rewrite !prompt_again_run. cbn [snd].
    unfold upd_threads, upd_prompts. simpl. rewrite app_nil_r. by rewrite prompt_again_run.
  - rewrite no_such_thread by (simpl; by rewrite app_nil_r).
    unfold skip, mret, M_ret, upd_threads, upd_decisions. simpl. by rewrite app_nil_r.
Qed.

Lemma begin_nothing s : upd_threads (λ l, l ++ []) s = s.
Proof. unfold upd_threads. rewrite app_nil_r. by destruct s. Qed.

Lemma undisturbed_timer n s :
  let k := length (threads s) in
  after [TimerOver n; Proceeds k; Proceeds k] s = (timer_thread n s).2.
Proof.
  intros k. destruct (timer_lock_run n s) as (s1 & Hr & _ & _ & Ht & _).
  change (after [TimerOver n; Proceeds k; Proceeds k] s) with
    (after [Proceeds k; Proceeds k] (approval_step s (TimerOver n))).
  unfold timer_thread. unfold mbind at 1, M_bind at 1. rewrite Hr. unfold approval_step.
  cbn [approval_handle]. unfold mbind at 1, M_bind at 1. rewrite Hr. subst k. rewrite <-Ht.
  destruct (expires n s) as [p|]; [apply (finish_run p Reject false true)|].
  unfold begin, mbind at 1, M_bind at 1, modify at 1. cbn [snd mret M_ret].
  rewrite begin_nothing. unfold after. cbn [foldl]. by rewrite !(no_such_thread s1) by done.
Qed.

Lemma undisturbed_key a s :
  let k := length (threads s) in
  after [KeyPressed a; Proceeds k; Proceeds k] s = (resolvePendingApproval a s).2.
Proof.
  intros k. destruct (resolve_lock_run s) as (s1 & Hr & _ & _ & Ht & _).
  change (after [KeyPressed a; Proceeds k; Proceeds k] s) with
    (after [Proceeds k; Proceeds k] (approval_step s (KeyPressed a))).
  unfold resolvePendingApproval. unfold mbind at 1, M_bind at 1. rewrite Hr. unfold approval_step.
  cbn [approval_handle]. unfold mbind at 1, M_bind at 1. rewrite Hr. subst k. rewrite <-Ht.
  destruct (waiting_list s) as [|p rest];
    [|apply (finish_run p (key_decision a) true)].
  unfold begin, mbind at 1, M_bind at 1, modify at 1. cbn [snd mret M_ret].
  rewrite begin_nothing. unfold after. cbn [foldl]. by rewrite !(no_such_thread s1) by done.
Qed.

Lemma finish_total p d key again s :
  ∃ l, finish p d key again s =
    (Ret tt, upd_prompts (λ ps, ps ++ l) (upd_decisions (λ ds, ds ++ [(p, d)]) s)).
Proof.
  unfold finish, decide_entry, mbind, M_bind, modify. destruct again.
  - rewrite prompt_again_run. by eexists.
  - exists []. unfold skip, mret, M_ret, upd_prompts. simpl. by rewrite app_nil_r.
Qed.

(** A whole timer thread. *)
Lemma timer_thread_run n s :
  ∃ s', timer_thread n s = (Ret tt, s') ∧
    waiting_list s = option_list (expires n s) ++ waiting_list s' ∧
    decisions s' = decisions s ++ ((λ p, (p, Reject)) <$> option_list (expires n s)) ∧
    alive (pending s') = alive (pending s).
Proof.
  destruct (timer_lock_run n s) as (s1 & Hr & Hw & Hd & _ & _ & _ & Ha).
  unfold timer_thread. unfold mbind at 1, M_bind at 1. rewrite Hr.
  destruct (expires n s) as [p|].
  - destruct (finish_total p Reject false true s1) as [l Hl]. eexists. split; [exact Hl|].
    split; [done|]. split; [|done]. simpl. by rewrite Hd.
  - exists s1. csimpl. rewrite app_nil_r. by split_and!.
Qed.

Lemma resolve_run a s :
  ∃ s', resolvePendingApproval a s = (Ret tt, s').
Proof.
  destruct (resolve_lock_run s) as (s1 & Hr & _). unfold resolvePendingApproval.
  unfold mbind at 1, M_bind at 1. rewrite Hr. destruct (waiting_list s) as [|p rest]; [by exists s1|].
  destruct (finish_total p (key_decision a) true (negb (bool_decide (rest = []))) s1) as [l Hl].
  eexists. exact Hl.
Qed.

(** Timers that expire in the order they were started, one after the other. *)
Lemma timers_in_order ns s :
  alive (pending s) = true → (id <$> waiting_list s) `sublist_of` ns →
  ∃ s', for_each ns timer_thread s = (Ret tt, s') ∧ waiting_list s' = [] ∧
    decisions s' = decisions s ++ ((λ p, (p, Reject)) <$> waiting_list s).
Proof.
  revert s. induction ns as [|n ns IH]; intros s Ha Hsub.
  { apply sublist_nil_r, fmap_nil_inv in Hsub. exists s. rewrite Hsub, app_nil_r. done. }
  destruct (timer_thread_run n s) as (s1 & Hr & Hw & Hd & Ha1).
  destruct (IH s1) as (s' & Hr' & Hw' & Hd'); [congruence| |].
  - unfold expires in Hw. destruct (waiting_list s) as [|p rest].
    { simpl in Hw. rewrite <-Hw. apply sublist_nil_l. }
    csimpl in Hsub. apply sublist_cons_r in Hsub. case_decide as Hn; simpl in Hw.
    + injection Hw as <-. destruct Hsub as [Hsub|(l & Heq & Hsub)]; [|by simplify_eq].
      etrans; [|exact Hsub]. by apply sublist_cons.
    + rewrite <-Hw. destruct Hsub as [Hsub|(l & Heq & Hsub)]; [done|].
      destruct Hn. split; [done|by simplify_eq].
  - exists s'. cbn [for_each]. unfold mbind, M_bind. rewrite Hr. split; [done|]. split; [done|].
    by rewrite Hd', Hd, Hw, fmap_app, app_assoc.
Qed.
End traces.

(** ** Theorems *)

Section theorems.
Context {AS : Asio} {Bpm : Type}.
Implicit Types (s : State Bpm).

(** Nothing waits after the destructor. *)
Lemma after_destroy es es' s :
  asked es' = [] → waiting_list (after (es ++ Destroyed :: es') s) = [].
Proof.
  unfold after. rewrite foldl_app. cbn [foldl].
  set (s1 := approval_step _ Destroyed). assert (waiting_list s1 = []) as Hs1.
  { destruct (destroy_run (foldl approval_step s es)) as (s' & Hr & Hw & _).
    change (waiting_list (destroy (foldl approval_step s es)).2 = []). by rewrite Hr. }
  clearbody s1. revert s1 Hs1. induction es' as [|e es' IH]; intros s1 Hs1 Has; [done|].
  cbn [foldl]. destruct (question_or_not e) as [[x ->]|He]; [done|].
  apply IH; [|by destruct e; [destruct (He e)|..]].
  destruct (handle_effect e s1 He) as (s' & tk & ds & Hr & Hw & _).
  unfold approval_step. rewrite Hr. cbn [snd]. rewrite Hs1 in Hw. symmetry in Hw.
  by apply app_eq_nil in Hw as [_ ?].
Qed.

(** C32: every unknown peer that asks is decided once.  After any interleaving of
    questions, timers, keys, the later steps of their threads and the
    destructor, the entries taken from the queue so far, followed by those still
    waiting, are exactly the peers that asked, in the order they asked; the
    entries taken are those whose [accept] or [reject] has been called and those
    a thread holds and is about to call it for, each once, so nobody is decided
    twice.  (The calls may come in another order than the entries were taken:
    [decided_out_of_order].)  No step throws or is undefined, and each step of a
    thread brings it nearer to its end.  Once the destructor has run and nobody
    asks any more, nobody waits, and when the threads that hold an entry are
    through - which they are after their remaining steps - every peer that asked
    has had exactly one decision. *)
Theorem approvals_in_order (zero : Bpm) (es : list ApprovalEvent) :
  Z.of_nat (length (asked es)) < 2 ^ 64 →
  let s := after es (new_State zero) in
  (∃ taken, taken ++ waiting_list s = questions es ∧ taken ≡ₚ decided s ++ held s) ∧
  NoDup (decided s) ∧
  (∀ e, ∃ s', approval_handle e s = (Ret true, s')) ∧
  (∀ i th, threads s !! i = Some th → (remaining (approval_step s (Proceeds i)) < remaining s)%nat) ∧
  (∀ es', asked es' = [] →
    let s' := after (es ++ Destroyed :: es') (new_State zero) in
    waiting_list s' = [] ∧ (threads s' = [] → decided s' ≡ₚ questions es)) ∧
  threads (after (es ++ Destroyed :: replicate (remaining s) (Proceeds 0)) (new_State zero)) = [].
Proof.
  intros Hlen s. destruct (trace_order es zero Hlen) as [(taken & Hord & Hio) _].
  split; [by exists taken|]. split.
  { pose proof (NoDup_questions es) as Hnd. rewrite <-Hord in Hnd.
    apply NoDup_app in Hnd as (Hnd & _). rewrite Hio in Hnd. by apply NoDup_app in Hnd as (? & _). }
  split; [intros e; apply handle_returns|]. split; [intros i th; apply remaining_step|]. split.
  - intros es' Has s'. split; [by apply after_destroy|]. intros Hth.
    assert (asked (es ++ Destroyed :: es') = asked es) as Heq
      by (rewrite asked_app; change (asked es ++ asked es' = asked es); by rewrite Has, app_nil_r).
    destruct (trace_order (es ++ Destroyed :: es') zero) as [(taken' & Hord' & Hio') _]; [by rewrite Heq|].
    fold s' in Hord', Hio'. assert (waiting_list s' = []) as Hw by by apply after_destroy.
    rewrite Hw, app_nil_r in Hord'. unfold questions in *. rewrite Heq in Hord'.
    unfold in_order, held in Hio'. rewrite Hth, app_nil_r in Hio'. by rewrite <-Hord', Hio'.
  - unfold after. rewrite foldl_app. cbn [foldl]. fold (after es (new_State zero)). fold s.
    apply finish_threads. unfold approval_step. cbn [approval_handle].
    destruct (destroy_run s) as (s' & -> & _ & _ & _ & Ht & _). unfold remaining. cbn [snd]. by rewrite Ht.
Qed.

(** Nobody waits for ever if the timers expire in the order they were
    started: when the timer threads of all waiting peers have run in that order,
    all of them have been rejected, in order. *)
Theorem unanswered_rejected s (ns : list Z) :
  alive (pending s) = true → (id <$> waiting_list s) `sublist_of` ns →
  ∃ s', for_each ns timer_thread s = (Ret tt, s') ∧ waiting_list s' = [] ∧
    decisions s' = decisions s ++ ((λ p, (p, Reject)) <$> waiting_list s).
Proof. apply timers_in_order. Qed.

Lemma input_quits keys s : (input keys s).1 = Ret (bool_decide ("q"%char ∈ keys)).
Proof.
  revert s. induction keys as [|k keys IH]; intros s; [done|]. cbn [input].
  destruct (decide (k = "q"%char)) as [->|Hk]; [by rewrite bool_decide_true by (by left)|].
  assert (bool_decide ("q"%char ∈ k :: keys) = bool_decide ("q"%char ∈ keys)) as ->.
  { apply bool_decide_ext. rewrite elem_of_cons. naive_solver. }
  unfold mbind, M_bind. destruct (decide (k = "a"%char)); [|destruct (decide (k = "d"%char))].
  - destruct (resolve_run true s) as [s' ->]. apply IH.
  - destruct (resolve_run false s) as [s' ->]. apply IH.
  - apply IH.
Qed.
End theorems.

Module ApprovalsWitnesses.
Import Sample.

Definition peer1 : UdpEndpoint := (20, Byte.x09).
Definition peer2 : UdpEndpoint := (30, Byte.x09).
Definition two_asked : State unit := after [Asked peer1; Asked peer2] (new_State tt).

(** The key is still about to accept the first peer. *)
Lemma approvals_in_order_witness :
  ∃ taken, taken ++ [mkPending 1 peer2] = [mkPending 0 peer1; mkPending 1 peer2] ∧
    taken ≡ₚ [mkPending 0 peer1].
Proof.
  destruct (approvals_in_order tt [Asked peer1; Asked peer2; KeyPressed true])
    as [(taken & H1 & H2) _].
  - simpl. lia.
  - exists taken. split; [exact H1|exact H2].
Defined.

Lemma unanswered_rejected_witness :
  ∃ s', for_each [0; 1] timer_thread two_asked = (Ret tt, s') ∧
    decisions s' = [(mkPending 0 peer1, Reject); (mkPending 1 peer2, Reject)].
Proof.
  destruct (unanswered_rejected two_asked [0; 1]) as (s' & H1 & _ & H2).
  - reflexivity.
  - apply sublist_skip, sublist_skip, sublist_nil.
  - exists s'. split; [exact H1|exact H2].
Defined.

(** Two threads that wake up at almost the same time may lock in the other
    order: then the second peer waits, and no timer is left for it. *)
Lemma timers_out_of_order :
  waiting_list (for_each [1; 0] timer_thread two_asked).2 = [mkPending 1 peer2] ∧
  sleepers (for_each [1; 0] timer_thread two_asked).2 = [].
Proof. split; evaluate. Qed.

(** The key takes the first peer, the timer the second, and the timer is the
    first to make its call. *)
Lemma decided_out_of_order :
  decisions (after [KeyPressed true; TimerOver 1; Proceeds 1; Proceeds 0] two_asked) =
    [(mkPending 1 peer2, Reject); (mkPending 0 peer1, Accept)].
Proof. evaluate. Qed.

(** A timer thread that has taken an entry before the destructor makes its call
    after it, when the tunnel may be gone. *)
Lemma decided_after_destructor :
  let s := after [TimerOver 0; Destroyed] two_asked in
  decided s = [mkPending 1 peer2] ∧ held s = [mkPending 0 peer1] ∧
  decided (after [Proceeds 0] s) = [mkPending 1 peer2; mkPending 0 peer1].
Proof. split; [|split]; evaluate. Qed.

(** Who asks after the destructor has emptied the queue is never decided: his
    timer finds [alive] false. *)
Lemma asked_after_destructor :
  let s := after [Destroyed; Asked peer1; TimerOver 0; Proceeds 0] (new_State tt) in
  decided s = [] ∧ waiting_list s = [mkPending 0 peer1] ∧ sleepers s = [].
Proof. split; [|split]; evaluate. Qed.
End ApprovalsWitnesses.
