(* ===== verification/Controller.v ===== *)
(** * Controller.hpp: putting the parts together

    The controller owns the IO context, the tunnel, and the tables of local and
    remote peers of the Link library; it passes on peer counts, tempo and
    start/stop state to the callbacks of the application, hands runtime changes
    to the tunnel, creates gateways, and shuts down in a fixed order while the
    IO thread is still running: a step relation of two threads, for either tunnel. *)

From stdpp Require Import relations.
From S2P Require Import Prelude LinkLib Sample DedupCache Tunnel UdpTunnel TunnelGateway SharedRing.
From S2P Require Import ShmTunnel Arguments.

(** ** Peer counts and session state *)

Section counting.

(** The Link library's tables of peers, sessions and time lines. *)
Class SessionLib := {
  Peers : Type;
  SessionId : Type;
  Tempo : Type;
  Bpm : Type;                             (* [double] *)
  bpm : Tempo → Bpm;
  uniqueSessionPeerCount : Peers → SessionId → nat;
}.

Context {SL : SessionLib} {U : Type}.

(** The callbacks act on the application's state [U]. *)
Record Controller := mkController {
  user : U;
  mPeerCountCallback : nat → nat → U → U;
  mTempoCallback : Tempo → U → U;
  mStartStopCallback : bool → U → U;
  mLocalSessionId : SessionId;
  mRemoteSessionId : SessionId;
  mLocalPeers : Peers;
  mRemotePeers : Peers;
  mSessionPeerCounter : nat;              (* mSessionPeerCount of each counter *)
  mRemoteSessionPeerCounter : nat;
}.

Definition upd_user f (c : Controller) : Controller :=
  mkController (f (user c)) (mPeerCountCallback c) (mTempoCallback c) (mStartStopCallback c)
    (mLocalSessionId c) (mRemoteSessionId c) (mLocalPeers c) (mRemotePeers c)
    (mSessionPeerCounter c) (mRemoteSessionPeerCounter c).
Definition set_local_session i (c : Controller) : Controller :=
  mkController (user c) (mPeerCountCallback c) (mTempoCallback c) (mStartStopCallback c)
    i (mRemoteSessionId c) (mLocalPeers c) (mRemotePeers c)
    (mSessionPeerCounter c) (mRemoteSessionPeerCounter c).
Definition set_remote_session i (c : Controller) : Controller :=
  mkController (user c) (mPeerCountCallback c) (mTempoCallback c) (mStartStopCallback c)
    (mLocalSessionId c) i (mLocalPeers c) (mRemotePeers c)
    (mSessionPeerCounter c) (mRemoteSessionPeerCounter c).
Definition set_local_peers p (c : Controller) : Controller :=
  mkController (user c) (mPeerCountCallback c) (mTempoCallback c) (mStartStopCallback c)
    (mLocalSessionId c) (mRemoteSessionId c) p (mRemotePeers c)
    (mSessionPeerCounter c) (mRemoteSessionPeerCounter c).
Definition set_remote_peers p (c : Controller) : Controller :=
  mkController (user c) (mPeerCountCallback c) (mTempoCallback c) (mStartStopCallback c)
    (mLocalSessionId c) (mRemoteSessionId c) (mLocalPeers c) p
    (mSessionPeerCounter c) (mRemoteSessionPeerCounter c).
Definition set_counter n (c : Controller) : Controller :=
  mkController (user c) (mPeerCountCallback c) (mTempoCallback c) (mStartStopCallback c)
    (mLocalSessionId c) (mRemoteSessionId c) (mLocalPeers c) (mRemotePeers c)
    n (mRemoteSessionPeerCounter c).
Definition set_remote_counter n (c : Controller) : Controller :=
  mkController (user c) (mPeerCountCallback c) (mTempoCallback c) (mStartStopCallback c)
    (mLocalSessionId c) (mRemoteSessionId c) (mLocalPeers c) (mRemotePeers c)
    (mSessionPeerCounter c) n.

(** The callbacks until the application sets them do nothing. *)
Definition new_Controller (u : U) (id : SessionId) (none : Peers) : Controller :=
  mkController u (λ _ _ u, u) (λ _ u, u) (λ _ u, u) id id none none 0 0.

Definition setNumPeersCallback cb (c : Controller) : Controller :=
  mkController (user c) cb (mTempoCallback c) (mStartStopCallback c)
    (mLocalSessionId c) (mRemoteSessionId c) (mLocalPeers c) (mRemotePeers c)
    (mSessionPeerCounter c) (mRemoteSessionPeerCounter c).
(** The application's callback takes beats per minute. *)
Definition setTempoCallback (cb : Bpm → U → U) (c : Controller) : Controller :=
  mkController (user c) (mPeerCountCallback c) (λ t, cb (bpm t)) (mStartStopCallback c)
    (mLocalSessionId c) (mRemoteSessionId c) (mLocalPeers c) (mRemotePeers c)
    (mSessionPeerCounter c) (mRemoteSessionPeerCounter c).
Definition setStartStopCallback cb (c : Controller) : Controller :=
  mkController (user c) (mPeerCountCallback c) (mTempoCallback c) cb
    (mLocalSessionId c) (mRemoteSessionId c) (mLocalPeers c) (mRemotePeers c)
    (mSessionPeerCounter c) (mRemoteSessionPeerCounter c).

Definition local_count (c : Controller) : nat :=
  uniqueSessionPeerCount (mLocalPeers c) (mLocalSessionId c).
Definition remote_count (c : Controller) : nat :=
  uniqueSessionPeerCount (mRemotePeers c) (mRemoteSessionId c).

Definition notifyPeerCount : M Controller unit :=
  local ← gets local_count;
  remote ← gets remote_count;
  cb ← gets mPeerCountCallback;
  modify (upd_user (cb local remote)).

(** [SessionPeerCounter::operator()]: [exchange], then compare. *)
Definition session_peer_counter (count_fn : Controller → nat) (counter : Controller → nat)
    (exchange : nat → Controller → Controller) : M Controller unit :=
  count ← gets count_fn;
  oldCount ← gets counter;
  modify (exchange count);;
  if decide (oldCount ≠ count) then notifyPeerCount else skip.
Definition count_local := session_peer_counter local_count mSessionPeerCounter set_counter.
Definition count_remote :=
  session_peer_counter remote_count mRemoteSessionPeerCounter set_remote_counter.

(** [SessionTimelineCallback]: only the local one updates the tempo. *)
Definition session_timeline (set_session : SessionId → Controller → Controller) (mUpdateTempo : bool)
    (id : SessionId) (tempo : Tempo) : M Controller unit :=
  modify (set_session id);;
  if mUpdateTempo then cb ← gets mTempoCallback; modify (upd_user (cb tempo)) else skip.
Definition session_start_stop (isPlaying : bool) : M Controller unit :=
  cb ← gets mStartStopCallback; modify (upd_user (cb isPlaying)).

(** What the Link library does with the controller: peers come and go and
    sessions change, and afterwards the counter of that side is called. *)
Inductive SessionEvent :=
  | LocalPeers (p : Peers)
  | RemotePeers (p : Peers)
  | LocalSession (id : SessionId) (tempo : Tempo)
  | RemoteSession (id : SessionId) (tempo : Tempo)
  | StartStop (isPlaying : bool).

Definition session_event (e : SessionEvent) : M Controller unit :=
  match e with
  | LocalPeers p => modify (set_local_peers p);; count_local
  | RemotePeers p => modify (set_remote_peers p);; count_remote
  | LocalSession id tempo => session_timeline set_local_session true id tempo;; count_local
  | RemoteSession id tempo => session_timeline set_remote_session false id tempo;; count_remote
  | StartStop b => session_start_stop b
  end.

Definition session_events (es : list SessionEvent) (c : Controller) : Controller :=
  foldl (λ c e, (session_event e c).2) c es.

(** What the application has been told: [shown] reads it from its state. *)
Context (shown : U → nat * nat).

(** The peer count callback shows its arguments, the others do not touch them. *)
Record callbacks_show (c : Controller) : Prop := {
  count_shows local remote u : shown (mPeerCountCallback c local remote u) = (local, remote);
  tempo_keeps t u : shown (mTempoCallback c t u) = shown u;
  start_stop_keeps b u : shown (mStartStopCallback c b u) = shown u;
}.

Record counts_ok (c : Controller) : Prop := {
  ok_callbacks : callbacks_show c;
  ok_local : mSessionPeerCounter c = local_count c;
  ok_remote : mRemoteSessionPeerCounter c = remote_count c;
  ok_shown : shown (user c) = (local_count c, remote_count c);
}.

(** Counting one side, when the other side is counted and shown. *)
Lemma count_local_ok c old :
  callbacks_show c → mRemoteSessionPeerCounter c = remote_count c →
  mSessionPeerCounter c = old → shown (user c) = (old, remote_count c) →
  counts_ok (count_local c).2.
Proof.
  intros Hcb Hr Hl Hs. unfold count_local, session_peer_counter, mbind, M_bind, gets, modify.
  rewrite Hl.
  case_decide as Hd.
  - unfold notifyPeerCount, mbind, M_bind, gets, modify. split; try done; simpl; [by destruct Hcb|].
    by rewrite (count_shows _ Hcb).
  - subst old. split; try done; [by destruct Hcb|].
    change (shown (user c) = (local_count c, remote_count c)). by rewrite Hs, Hd.
Qed.

Lemma count_remote_ok c old :
  callbacks_show c → mSessionPeerCounter c = local_count c →
  mRemoteSessionPeerCounter c = old → shown (user c) = (local_count c, old) →
  counts_ok (count_remote c).2.
Proof.
  intros Hcb Hl Hr Hs. unfold count_remote, session_peer_counter, mbind, M_bind, gets, modify.
  rewrite Hr. case_decide as Hd.
  - unfold notifyPeerCount, mbind, M_bind, gets, modify. split; try done; simpl; [by destruct Hcb|].
    by rewrite (count_shows _ Hcb).
  - subst old. split; try done; [by destruct Hcb|].
    change (shown (user c) = (local_count c, remote_count c)). by rewrite Hs, Hd.
Qed.

Lemma session_event_ok e c : counts_ok c → counts_ok (session_event e c).2.
Proof.
  intros [Hcb Hl Hr Hs]. destruct e as [p|p|i t|i t|b]; cbn [session_event].
  - apply (count_local_ok (set_local_peers p c) (local_count c)); [by destruct Hcb|done..].
  - apply (count_remote_ok (set_remote_peers p c) (remote_count c)); [by destruct Hcb|done..].
  - apply (count_local_ok (upd_user (mTempoCallback c t) (set_local_session i c)) (local_count c));
      [by destruct Hcb|done|done|]. simpl. by rewrite (tempo_keeps _ Hcb).
  - apply (count_remote_ok (set_remote_session i c) (remote_count c)); [by destruct Hcb|done..].
  - split; try done; [by destruct Hcb|]. simpl. by rewrite (start_stop_keeps _ Hcb).
Qed.

(** The application always shows the current numbers of peers: when nothing
    was there at the start and the callback has been set, then after every
    change of peers or sessions on either side the counts given to the callback
    last are the counts of both sides now, although the callback is called only
    when a count changes. *)
Theorem peer_counts_current (c : Controller) (es : list SessionEvent) :
  counts_ok c → let c' := session_events es c in
  shown (user c') = (local_count c', remote_count c') ∧
  mSessionPeerCounter c' = local_count c' ∧ mRemoteSessionPeerCounter c' = remote_count c'.
Proof.
  intros Hc. assert (counts_ok (session_events es c)) as []; [|done].
  revert c Hc. induction es as [|e es IH]; intros c Hc; [done|]. apply IH. by apply session_event_ok.
Qed.
End counting.
Arguments Controller {SL} U.

Module ControllerWitnesses.
(** Peers are a list of session numbers; the application shows two numbers. *)
#[export] Instance lib : SessionLib := {|
  Peers := list nat;
  SessionId := nat;
  Tempo := Z;
  Bpm := Z;
  bpm t := t;
  uniqueSessionPeerCount ps i := length (filter (λ j, j = i) ps);
|}.
Definition started : Controller (nat * nat) :=
  setNumPeersCallback (λ l r _, (l, r)) (new_Controller (0, 0)%nat (0%nat : SessionId) []).

Definition here : @Peers lib := [0; 0]%nat.
Definition there : @Peers lib := [1; 0]%nat.
Definition session1 : @SessionId lib := 1%nat.
Definition fast : @Tempo lib := 140.

Lemma peer_counts_current_witness :
  user (session_events [LocalPeers here; RemotePeers there; RemoteSession session1 fast] started) =
    (2, 1)%nat.
Proof.
  destruct (peer_counts_current (λ u, u) started
    [LocalPeers here; RemotePeers there; RemoteSession session1 fast]) as [H _].
  - split; [split|..]; reflexivity.
  - rewrite H. reflexivity.
Defined.
End ControllerWitnesses.

(** ** The tunnel and the gateways *)

Section tunnels.
Context {AS : Asio} {LK : Link} {W : Type} {GW : GatewayOps W}.

Inductive AnyTunnel :=
  | AUdpTunnel (t : UdpTunnel.UdpTunnel W)
  | AShmTunnel (t : ShmTunnel.ShmTunnel W).

(** [script] is what the UDP socket will answer, [object] the shared memory
    object found. *)
Definition createTunnel (mConfig : Config) (w : W) (script : list (option cpp_exn))
    (object : option SharedMemory) : result AnyTunnel :=
  if use_shm mConfig then
    match construct (before_constructor w object) with
    | (Ret _, t) => Ret (AShmTunnel t)
    | (Throw e, _) => Throw e
    | (Undef u, _) => Undef u
    end
  else Ret (AUdpTunnel (new_UdpTunnel w script (peers mConfig))).

(** [if (auto* t = dynamic_cast<UdpT*>(mTunnel.get()))] *)
Definition on_udp_tunnel (m : M (UdpTunnel.UdpTunnel W) unit) : M AnyTunnel unit := λ t,
  match t with
  | AUdpTunnel u => let '(r, u) := m u in (r, AUdpTunnel u)
  | AShmTunnel _ => (Ret tt, t)
  end.
Definition addPeer (ep : UdpEndpoint) : M AnyTunnel unit := on_udp_tunnel (UdpTunnel.addPeer ep).
Definition removePeer (ep : UdpEndpoint) : M AnyTunnel unit :=
  on_udp_tunnel (UdpTunnel.removePeer ep).
Definition setUnknownPeerCallback (cb : UdpEndpoint → list PeerDecision) : M AnyTunnel unit :=
  on_udp_tunnel (UdpTunnel.setUnknownPeerCallback cb).

(** [GatewayFactory::operator()] *)
Definition gateway_factory (sys : System) (now : Z) (addr : Address) :
    result unit * TunnelGateway.TunnelGateway :=
  TunnelGateway.listen (new_TunnelGateway sys now addr).

(** [UdpSendExceptionHandler]: the interface whose gateway is to be repaired is
    posted to the IO thread. *)
Definition send_exception_handler (interfaceAddr : Address) (jobs : list Address) : list Address :=
  jobs ++ [interfaceAddr].

(** The choice of the tunnel does not look at the peers. *)
Lemma createTunnel_choice mConfig w script object t :
  createTunnel mConfig w script object = Ret t →
  (use_shm mConfig = true ∧ ∃ s, t = AShmTunnel s) ∨
  (use_shm mConfig = false ∧ t = AUdpTunnel (new_UdpTunnel w script (peers mConfig))).
Proof.
  unfold createTunnel. destruct (use_shm mConfig); [|intros [= <-]; by right].
  destruct (construct _) as [[[]|e|u] s]; try done. intros [= <-]. left. eauto.
Qed.
End tunnels.
Arguments AnyTunnel {AS LK} W.

(** ** Shutting down

    [~Controller] runs on the application's thread while the IO thread still
    takes jobs.  With a shared-memory tunnel the IO thread's job is
    [ShmTunnel::listen], which reads [is_running] at its end and then posts
    itself: two steps, between which the other thread can run.  (Its loop ends
    soon once [is_running] is false: at its next pop.)  With a UDP tunnel
    ([udp]) the IO thread runs the receive handler when a datagram comes, which
    starts the next receive operation if [is_running] still holds; a pending
    operation dies with the tunnel's socket.  The tunnel is gone once the
    controller's reference is reset; [gatewayDiscovery] has dropped the gateways
    with theirs before. *)

Inductive IoJob := ListenJob | DisableJob.
Inductive IoStep := IoIdle | Listening | Reposting | Receiving.
Inductive MainStep :=
  | BeforeStop        (* at mTunnel->stop_listening() *)
  | BeforePost        (* at mIo->async(...) *)
  | AwaitingStopped       (* in condition.wait(...) *)
  | BeforeReset       (* at mTunnel.reset() *)
  | BeforeIoStop      (* at mIo->stop() *)
  | ShutDown.

Record Shutdown := mkShutdown {
  main_step : MainStep;
  io_step : IoStep;
  io_queue : list IoJob;
  tunnel_running : bool;               (* is_running of the tunnel *)
  tunnel_alive : bool;
  stopped : bool;
  armed : bool;                        (* a receive operation of the UDP tunnel is pending *)
}.

Inductive shutdown_step (udp : bool) : relation Shutdown :=
  | main_stop io q r a st ar :
      shutdown_step udp (mkShutdown BeforeStop io q r a st ar) (mkShutdown BeforePost io q false a st ar)
  | main_post io q r a st ar :
      shutdown_step udp (mkShutdown BeforePost io q r a st ar)
        (mkShutdown AwaitingStopped io (q ++ [DisableJob]) r a st ar)
  | main_wake io q r a ar :
      shutdown_step udp (mkShutdown AwaitingStopped io q r a true ar)
        (mkShutdown BeforeReset io q r a true ar)
  | main_reset io q r a st ar :
      shutdown_step udp (mkShutdown BeforeReset io q r a st ar)
        (mkShutdown BeforeIoStop io q r false st false)
  | main_io_stop io q r a st ar :
      shutdown_step udp (mkShutdown BeforeIoStop io q r a st ar) (mkShutdown ShutDown io q r a st ar)
  | io_listen m q r a st ar :
      m ≠ ShutDown →
      shutdown_step udp (mkShutdown m IoIdle (ListenJob :: q) r a st ar)
        (mkShutdown m Listening q r a st ar)
  | io_check m q (r a st ar : bool) :
      shutdown_step udp (mkShutdown m Listening q r a st ar)
        (mkShutdown m (if r then Reposting else IoIdle) q r a st ar)
  | io_repost m q r a st ar :
      shutdown_step udp (mkShutdown m Reposting q r a st ar)
        (mkShutdown m IoIdle (q ++ [ListenJob]) r a st ar)
  | io_disable m q r a st ar :
      m ≠ ShutDown →
      shutdown_step udp (mkShutdown m IoIdle (DisableJob :: q) r a st ar)
        (mkShutdown m IoIdle q r a true ar)
  | io_datagram m q r a st :
      udp = true → m ≠ ShutDown →
      shutdown_step udp (mkShutdown m IoIdle q r a st true) (mkShutdown m Receiving q r a st false)
  | io_received m q r a st ar :
      udp = true →
      shutdown_step udp (mkShutdown m Receiving q r a st ar) (mkShutdown m IoIdle q r a st r).

(** The IO thread runs code of a tunnel that is gone. *)
Definition uses_dead_tunnel (s : Shutdown) : Prop :=
  (io_step s = Listening ∨ io_step s = Receiving) ∧ tunnel_alive s = false.

(** When the destructor is entered: with a shared-memory tunnel, one listen call
    is posted or running; with a UDP tunnel, a receive operation is pending. *)
Definition entered (io : IoStep) : Shutdown :=
  mkShutdown BeforeStop io (match io with IoIdle => [ListenJob] | _ => [] end) true true false false.
Definition entered_udp : Shutdown := mkShutdown BeforeStop IoIdle [] true true false true.

(** The order of the queue protects the tunnel: no listen call is queued behind
    the disabling job, and none at all once that has run. *)
Definition shutdown_inv (s : Shutdown) : Prop :=
  tunnel_running s = false ∧ io_step s ≠ Reposting ∧ io_step s ≠ Receiving ∧
  match main_step s with
  | BeforeStop => False
  | BeforePost => (DisableJob ∉ io_queue s) ∧ tunnel_alive s = true ∧ stopped s = false
  | AwaitingStopped =>
      tunnel_alive s = true ∧
      (if stopped s then io_queue s = [] ∧ io_step s = IoIdle
       else ∃ q, io_queue s = q ++ [DisableJob] ∧ DisableJob ∉ q)
  | _ => io_queue s = [] ∧ io_step s = IoIdle
  end.

Lemma shutdown_inv_step s s' : shutdown_inv s → shutdown_step false s s' → shutdown_inv s'.
Proof.
  intros (Hr & Hio & Hrec & Hm) Hstep.
  destruct Hstep as [io q r a st ar|io q r a st ar|io q r a ar|io q r a st ar|io q r a st ar
    |m q r a st ar Hne|m q r a st ar|m q r a st ar|m q r a st ar Hne|m q r a st Hu|m q r a st ar Hu];
    simpl in *; try done.
  - destruct Hm as (Hq & Ha & ->). do 3 (split; [done|]). split; [done|]. by exists q.
  - do 3 (split; [done|]). apply Hm.
  - do 3 (split; [done|]). simpl. destruct m; simpl in *; try done; try by destruct Hm.
    + destruct Hm as (Hm & ? & ?). split; [|done]. intros Hin. apply Hm. by right.
    + destruct Hm as [? Hm]. split; [done|]. destruct st; [by destruct Hm|].
      destruct Hm as ([|j q'] & Heq & Hnin); [done|]. simplify_eq/=. exists q'. split; [done|].
      intros Hin. apply Hnin. by right.
  - subst r. do 3 (split; [done|]). simpl. destruct m; simpl in *; try done; try by destruct Hm.
    destruct Hm as [? Hm]. split; [done|]. destruct st; [by destruct Hm|done].
  - do 3 (split; [done|]). simpl. destruct m; simpl in *; try done; try by destruct Hm.
    + destruct Hm as [Hm _]. destruct Hm. by left.
    + destruct Hm as [? Hm]. split; [done|]. destruct st; [by destruct Hm|].
      destruct Hm as ([|j q'] & Heq & Hnin); [by simplify_eq/=|].
      simplify_eq/=. destruct Hnin. by left.
Qed.

(** Before the tunnel is stopped the IO thread listens again and again. *)
Definition before_stop_inv (s : Shutdown) : Prop :=
  io_step s ≠ Receiving ∧
  (main_step s = BeforeStop → (DisableJob ∉ io_queue s) ∧ tunnel_alive s = true ∧ stopped s = false).

Lemma before_stop_inv_step s s' : before_stop_inv s → shutdown_step false s s' → before_stop_inv s'.
Proof.
  intros [Hrec Hs] Hstep. unfold before_stop_inv. destruct Hstep; simpl in *; try done;
    (split; [by try destruct r|]); try done.
  - intros ->. destruct (Hs eq_refl) as (Hq & ? & ?). split; [|done]. intros Hin. apply Hq. by right.
  - intros ->. destruct (Hs eq_refl) as (Hq & ? & ?). split; [|done].
    rewrite elem_of_app, list_elem_of_singleton. by intros [?|?].
  - intros ->. destruct (Hs eq_refl) as (Hq & _). destruct Hq. by left.
Qed.

Lemma before_stop_reachable io s :
  io ≠ Receiving → rtc (shutdown_step false) (entered io) s → before_stop_inv s.
Proof.
  intros Hio. assert (before_stop_inv (entered io)) as Hinv.
  { split; [done|]. intros _. simpl. split; [|done]. destruct io; [|by intros ?%not_elem_of_nil..].
    by intros ?%list_elem_of_singleton. }
  revert Hinv. generalize (entered io) as s0. intros s0 Hinv Hrun. revert Hinv.
  induction Hrun as [|? ? ? Hstep _ IH]; [done|]. intros Hinv. apply IH. by eapply before_stop_inv_step.
Qed.

(** The step that stops the tunnel. *)
Lemma stop_inv s s' :
  before_stop_inv s → main_step s = BeforeStop → io_step s ≠ Reposting →
  shutdown_step false s s' → main_step s' = BeforePost → shutdown_inv s'.
Proof.
  intros [Hrec Hs] Hm Hio Hstep Hm'. specialize (Hs Hm).
  destruct Hstep; simpl in *; try congruence. by destruct Hs as (? & ? & ?).
Qed.

Lemma shutdown_inv_safe s : shutdown_inv s → ¬ uses_dead_tunnel s.
Proof.
  intros (_ & _ & Hrec & Hm) [[Hl|Hl] Ha]; [|done]. destruct (main_step s); try done;
    destruct Hm as [H1 H2]; try congruence; by destruct H2; congruence.
Qed.

(** The steps still to come, at most. *)
Definition steps_left (s : Shutdown) : nat :=
  3 * match main_step s with
      | BeforeStop => 5 | BeforePost => 4 | AwaitingStopped => 3 | BeforeReset => 2
      | BeforeIoStop => 1 | ShutDown => 0
      end + 2 * length (io_queue s) + match io_step s with Listening => 1 | _ => 0 end.

Lemma shutdown_decreases s s' :
  shutdown_inv s → shutdown_step false s s' → (steps_left s' < steps_left s)%nat.
Proof.
  intros (Hr & Hio & _ & _) Hstep. destruct Hstep; unfold steps_left; simpl in *; try done;
    rewrite ?length_app; simpl; try lia. subst. lia.
Qed.

Lemma shutdown_progress s :
  shutdown_inv s → main_step s = ShutDown ∨ ∃ s', shutdown_step false s s'.
Proof.
  destruct s as [m io q r a st ar]. intros (Hr & Hio & Hrec & Hm). simpl in *.
  destruct m; [done| | | | |by left]; right; try by eexists; constructor.
  destruct Hm as [_ Hm]. destruct st; [eexists; constructor|].
  destruct io; [|eexists; constructor|done|done].
  destruct Hm as (q' & -> & _). destruct q' as [|[] q']; eexists; simpl; by constructor.
Qed.

Lemma shutdown_inv_run n s s' :
  shutdown_inv s → nsteps (shutdown_step false) n s s' → shutdown_inv s' ∧ (n + steps_left s' ≤ steps_left s)%nat.
Proof.
  intros Hs Hrun. induction Hrun as [s|n s s1 s' Hstep Hrun IH]; [by split; [|lia]|].
  pose proof (shutdown_decreases _ _ Hs Hstep).
  destruct IH as [Hs' Hl]; [by eapply shutdown_inv_step|]. split; [done|lia].
Qed.

(** C30: shutting down a controller with a shared-memory tunnel: if the IO thread
    is not just about to post the next listen call when the tunnel is stopped,
    then whatever the interleaving before and after, the IO thread never runs code
    of a tunnel that is gone, the destructor is never stuck before its end, and
    both threads together take at most [steps_left] steps more.  If the thread is
    at that point, there is an interleaving in which it runs [ShmTunnel::listen]
    of the destroyed tunnel.  With a UDP tunnel there is always one in which the
    IO thread is in the receive handler while the tunnel is destroyed. *)
Theorem shutdown_safe_unless_reposting :
  (∀ io s0 s1 n s, io ≠ Receiving → rtc (shutdown_step false) (entered io) s0 →
     main_step s0 = BeforeStop → io_step s0 ≠ Reposting →
     shutdown_step false s0 s1 → main_step s1 = BeforePost →
     nsteps (shutdown_step false) n s1 s →
     ¬ uses_dead_tunnel s ∧ (main_step s = ShutDown ∨ ∃ s', shutdown_step false s s') ∧
     (n ≤ steps_left s1)%nat) ∧
  (∃ s, rtc (shutdown_step false) (entered Reposting) s ∧ uses_dead_tunnel s) ∧
  ∃ s, rtc (shutdown_step true) entered_udp s ∧ uses_dead_tunnel s.
Proof.
  split; [|split].
  - intros io s0 s1 n s Hrec Hbefore Hm Hio Hstop Hm1 Hsteps.
    assert (shutdown_inv s1) as Hs1
      by (eapply stop_inv; [by eapply before_stop_reachable|done..]).
    destruct (shutdown_inv_run n s1 s Hs1 Hsteps) as [Hs Hl].
    split; [by apply shutdown_inv_safe|]. split; [by apply shutdown_progress|lia].
  - eexists. split.
    + eapply rtc_l; [apply main_stop|]. eapply rtc_l; [apply main_post|].
      eapply rtc_l; [apply io_repost|]. eapply rtc_l; [by apply io_disable|].
      eapply rtc_l; [apply main_wake|]. eapply rtc_l; [apply main_reset|].
      eapply rtc_l; [by apply io_listen|]. apply rtc_refl.
    + split; [by left|done].
  - eexists. split.
    + eapply rtc_l; [apply main_stop|]. eapply rtc_l; [apply main_post|].
      eapply rtc_l; [by apply io_disable|]. eapply rtc_l; [by apply io_datagram|].
      eapply rtc_l; [apply main_wake|]. eapply rtc_l; [apply main_reset|]. apply rtc_refl.
    + split; [by right|done].
Qed.

(** A shutdown while the IO thread is idle, from the first step to the last. *)
Lemma shutdown_safe_unless_reposting_witness :
  ∃ s, nsteps (shutdown_step false) 7 (mkShutdown BeforePost IoIdle [ListenJob] false true false false) s ∧
    main_step s = ShutDown ∧ ¬ uses_dead_tunnel s.
Proof.
  assert (nsteps (shutdown_step false) 7 (mkShutdown BeforePost IoIdle [ListenJob] false true false false)
    (mkShutdown ShutDown IoIdle [] false false true false)) as Hrun.
  { eapply nsteps_l; [apply main_post|]. eapply nsteps_l; [by apply io_listen|].
    eapply nsteps_l; [apply io_check|]. eapply nsteps_l; [by apply io_disable|].
    eapply nsteps_l; [apply main_wake|]. eapply nsteps_l; [apply main_reset|].
    eapply nsteps_l; [apply main_io_stop|]. apply nsteps_O. }
  eexists. split; [exact Hrun|]. split; [reflexivity|].
  destruct shutdown_safe_unless_reposting as [Hsafe _].
  destruct (Hsafe IoIdle (entered IoIdle) _ 7%nat _ ltac:(discriminate) (rtc_refl _ _) eq_refl
    ltac:(discriminate) (main_stop false _ _ _ _ _ _) eq_refl Hrun) as [H _].
  exact H.
Defined.
