(* ===== verification/Program.v ===== *)
(** * The running program: the tunnel and its user

    [main.cpp] registers [Approvals.onUnknownPeer] as the tunnel's callback; the
    tunnel asks it about unknown peers, and its decisions, from keys, timers or
    the destructor, are posted back to the tunnel.  This file composes
    [UdpTunnel.v] with [Approvals.v] and shows that no peer is forgotten between
    them. *)

From S2P Require Import Prelude LinkLib Sample DedupCache Tunnel UdpTunnel UdpTunnelSpec Approvals.

(** ** The program *)

Section definitions.
Context {AS : Asio} {LK : Link} {W : Type} {GW : GatewayOps W} {Bpm : Type}.

Record Program := mkProgram {
  tunnel : UdpTunnel W;
  app : State Bpm;
  registered : bool;           (* the constructor of State has set the callback *)
}.
Definition set_tunnel t (p : Program) : Program := mkProgram t (app p) (registered p).
Definition set_app s (p : Program) : Program := mkProgram (tunnel p) s (registered p).

Definition new_Program (w : W) (script : list (option cpp_exn)) (peers : list UdpEndpoint)
    (zero : Bpm) : Program :=
  mkProgram (new_UdpTunnel w script peers) (new_State zero) false.

(** [linkExtender.setUnknownPeerCallback(...)]: the callback decides later. *)
Definition register : M Program unit :=
  zoom tunnel set_tunnel (setUnknownPeerCallback (λ _, []));;
  modify (λ p, mkProgram (tunnel p) (app p) true).

(** A handler of the tunnel with the calls of the callback it makes. *)
Definition tunnel_event (e : Event W) : M Program unit :=
  before ← gets tunnel;
  zoom tunnel set_tunnel (handle_event e);;
  after ← gets tunnel;
  reg ← gets registered;
  if reg : bool then
    zoom app set_app
      (for_each (drop (length (callback_calls before)) (callback_calls after)) onUnknownPeer)
  else skip.

(** A handler of the application with the decisions it calls. *)
Definition app_event (e : ApprovalEvent) : M Program unit :=
  before ← gets app;
  zoom app set_app (approval_handle e);;
  after ← gets app;
  zoom tunnel set_tunnel
    (for_each (drop (length (decisions before)) (decisions after)) (λ pd, decide_peer pd.2 (ep pd.1))).

Inductive ProgramEvent :=
  | PRegister
  | PTunnel (e : Event W)
  | PApp (e : ApprovalEvent).

Definition program_handle (e : ProgramEvent) : M Program unit :=
  match e with
  | PRegister => register
  | PTunnel e => tunnel_event e
  | PApp e => app_event e
  end.

(** The endpoints that wait for the user, and those that a thread has taken from
    the queue and is about to decide. *)
Definition waits (p : Program) : list UdpEndpoint := ep <$> waiting_list (app p).
Definition in_hands (p : Program) : list UdpEndpoint := ep <$> held (app p).

(** A peer is asked about by the tunnel, and decided by the application, only. *)
Definition program_event_ok {node_size} {LW : LinkLaws node_size} (I : W → Prop)
    (e : ProgramEvent) (p : Program) : Prop :=
  match e with
  | PRegister => registered p = false
  | PTunnel (EvSetCallback _) | PTunnel (EvDecide _ _) => False
  | PTunnel e => event_ok (node_size:=node_size) I e (tunnel p)
  | PApp (Asked _) => False
  | PApp _ => True
  end.

Inductive program_reachable {node_size} {LW : LinkLaws node_size} (I : W → Prop) : Program → Prop :=
  | program_new w script peers zero :
      I w → program_reachable I (new_Program w script peers zero)
  | program_step p e p' :
      program_reachable I p → program_event_ok (node_size:=node_size) I e p →
      program_handle e p = (Ret tt, p') → program_reachable I p'.
End definitions.
Arguments Program {AS LK} W Bpm.
Arguments ProgramEvent {AS LK} W.

(** ** What the tunnel asks *)

Section asking.
Context {AS : Asio} {LK : Link} {W : Type} {GW : GatewayOps W}.
Implicit Types (t : UdpTunnel W).

(** Pending, and no decision is on its way. *)
Definition undecided t (ep : UdpEndpoint) : Prop :=
  ep ∈ mPendingPeers t ∧ (JobAccept ep ∉ posted t) ∧ JobReject ep ∉ posted t.

(** Who becomes undecided has been asked about, by a callback that does not
    decide at once. *)
Definition pending_asked t t' : Prop :=
  mUnknownPeerCallback t' = mUnknownPeerCallback t ∧
  ∃ asked, callback_calls t' = callback_calls t ++ asked ∧
    ∀ ep, undecided t' ep → undecided t ep ∨ (ep ∈ asked ∧ mUnknownPeerCallback t ep = []).

Lemma pending_asked_same t t' :
  mUnknownPeerCallback t' = mUnknownPeerCallback t → callback_calls t' = callback_calls t →
  (∀ ep, undecided t' ep → undecided t ep) → pending_asked t t'.
Proof. intros ?? Hu. split; [done|]. exists []. rewrite app_nil_r. split; [done|]. eauto. Qed.

#[local] Instance pending_asked_preorder : PreOrder pending_asked.
Proof.
  split; [intros t; by apply pending_asked_same|].
  intros t1 t2 t3 [Hc12 (a1 & H12 & Hu12)] [Hc23 (a2 & H23 & Hu23)].
  split; [congruence|]. exists (a1 ++ a2). split; [by rewrite H23, H12, app_assoc|].
  intros ep [[?|[??]]%Hu12|[? Hcb]]%Hu23; [by left|right..]; rewrite elem_of_app.
  - split; [by left|done].
  - split; [by right|]. by rewrite <-Hc12.
Qed.

Lemma async_undecided j t : pending_asked t (upd_posted (λ q, q ++ [j]) t).
Proof.
  apply pending_asked_same; [done..|]. intros ep (Hp & Ha & Hr). simpl in *.
  rewrite elem_of_app in Ha, Hr. unfold undecided. tauto.
Qed.

(** Writes that do not concern the questions. *)
Ltac unconcerned := try (intros; by apply pending_asked_same).

Definition job_of (from : UdpEndpoint) (d : PeerDecision) : Job :=
  match d with Accept => JobAccept from | Reject => JobReject from end.

Lemma decide_all_run ds from t :
  for_each ds (λ d, decide_peer d from) t = (Ret tt, upd_posted (λ q, q ++ (job_of from <$> ds)) t).
Proof.
  revert t. induction ds as [|d ds IH]; intros t; csimpl.
  - unfold skip, mret, M_ret. destruct t. unfold upd_posted. simpl. by rewrite app_nil_r.
  - unfold mbind, M_bind. unfold decide_peer at 1, async, modify. rewrite IH.
    unfold upd_posted. simpl. by rewrite <-app_assoc.
Qed.

Lemma asked_handleUnknownPeer from : respects pending_asked (handleUnknownPeer (W:=W) from).
Proof.
  intros t. unfold handleUnknownPeer. unfold mbind at 1, M_bind at 1, gets at 1.
  unfold mbind at 1, M_bind at 1, gets at 1. case_decide; [reflexivity|]. case_decide; [reflexivity|].
  unfold mbind, M_bind, modify, gets. rewrite decide_all_run.
  split; [done|]. exists [from]. split; [done|]. intros ep (Hp & Ha & Hr). simpl in *.
  rewrite elem_of_app in Ha, Hr. apply elem_of_union in Hp as [->%elem_of_singleton|Hp].
  - right. split; [by left|]. destruct (mUnknownPeerCallback t from) as [|[] l]; [done|..].
    + destruct Ha. right. by left.
    + destruct Hr. right. by left.
  - left. unfold undecided. tauto.
Qed.

Lemma asked_sendControl ty to : respects pending_asked (sendControlMessage (W:=W) ty to).
Proof. unfold sendControlMessage, sendRaw. respects_steps; unconcerned. Qed.

Lemma asked_deliver context payload : respects pending_asked (deliver (W:=W) context payload).
Proof. unfold deliver. respects_steps; unconcerned. Qed.

Lemma asked_handleReceive from buf now : respects pending_asked (handleReceive (W:=W) from buf now).
Proof.
  unfold handleReceive, handleHello, handleKeepalive, handleBye, connected_index, peer_at,
    write_peer, erasePeerNodeIds.
  respects_steps; unconcerned; try apply asked_deliver; try apply asked_sendControl;
    apply asked_handleUnknownPeer.
Qed.

Lemma asked_runMaintenance now : respects pending_asked (runMaintenance (W:=W) now).
Proof.
  unfold runMaintenance, maintain_peer, peer_at, write_peer, erasePeerNodeIds.
  respects_steps; unconcerned; apply asked_sendControl.
Qed.

Lemma asked_add_and_hello (ep : UdpEndpoint) : respects pending_asked (addPeer_job (W:=W) ep).
Proof. unfold addPeer_job, push_peer. respects_steps; unconcerned. apply asked_sendControl. Qed.

(** Taking a decision from the queue together with the pending endpoint, or any
    other job. *)
Lemma asked_pop_decision t j q from :
  posted t = j :: q → j = JobAccept from ∨ j = JobReject from →
  pending_asked t (upd_mPendingPeers (λ s, s ∖ {[from]}) (upd_posted (λ _, q) t)).
Proof.
  intros Hq Hj. apply pending_asked_same; [done..|]. intros ep (Hp & Ha & Hr). simpl in *.
  apply elem_of_difference in Hp as [Hp Hne]. rewrite elem_of_singleton in Hne.
  split; [done|]. rewrite Hq, !elem_of_cons. naive_solver.
Qed.

Lemma asked_pop_other t j q :
  posted t = j :: q → (∀ ep, j ≠ JobAccept ep ∧ j ≠ JobReject ep) →
  pending_asked t (upd_posted (λ _, q) t).
Proof.
  intros Hq Hj. apply pending_asked_same; [done..|]. intros ep (Hp & Ha & Hr). simpl in *.
  split; [done|]. rewrite Hq, !elem_of_cons. destruct (Hj ep). naive_solver.
Qed.

Lemma asked_run_next now : respects pending_asked (run_next (W:=W) now).
Proof.
  intros t. unfold run_next. unfold mbind at 1, M_bind at 1, gets at 1.
  destruct (posted t) as [|j q] eqn:Hq; [reflexivity|].
  unfold mbind at 1, M_bind at 1, modify at 1.
  destruct j as [| |ep|ep|ep|ep]; cbn [run_job].
  - etrans; [by eapply asked_pop_other|]. by apply pending_asked_same.
  - etrans; [by eapply asked_pop_other|]. apply asked_runMaintenance.
  - etrans; [by eapply asked_pop_other|]. apply asked_add_and_hello.
  - etrans; [by eapply asked_pop_other|].
    assert (respects pending_asked (removePeer_job (W:=W) ep)) as Hjob; [|apply Hjob].
    unfold removePeer_job, erasePeerNodeIds, rebuildEndpointIndex.
    respects_steps; unconcerned; apply asked_sendControl.
  - etrans; [by apply (asked_pop_decision t (JobAccept ep) q ep Hq); left|].
    exact (asked_add_and_hello ep _).
  - etrans; [by apply (asked_pop_decision t (JobReject ep) q ep Hq); right|].
    by apply pending_asked_same.
Qed.

Lemma asked_handle_event (e : Event W) :
  (∀ cb, e ≠ EvSetCallback cb) → respects pending_asked (handle_event e).
Proof.
  intros Hne. destruct e; simpl.
  - apply asked_run_next.
  - unfold onDatagram, listen. respects_steps; unconcerned. apply asked_handleReceive.
  - unfold onMaintenanceTimer. respects_steps; unconcerned. apply asked_runMaintenance.
  - unfold forward, sendToPeerOf, sendRaw. respects_steps; unconcerned.
  - intros t. apply async_undecided.
  - intros t. apply async_undecided.
  - by destruct (Hne cb).
  - intros t. apply async_undecided.
  - respects_steps. unconcerned.
  - respects_steps. unconcerned.
  - unfold stop_listening. respects_steps; unconcerned; try apply asked_sendControl.
    intros t. apply pending_asked_same; [done..|]. intros ep (Hp & _). simpl in Hp. set_solver.
Qed.
End asking.

(** ** Nobody is forgotten *)

Section invariant.
Context {AS : Asio} {LK : Link} {node_size : nat} {LW : LinkLaws node_size}.
Context {W : Type} {GW : GatewayOps W} (I : W → Prop) {GL : GatewayLaws W I} {Bpm : Type}.
Implicit Types (p : Program W Bpm) (t : UdpTunnel W) (s : State Bpm).

Abbreviation reachable := (reachable (node_size:=node_size) I).
Abbreviation event_ok := (event_ok (node_size:=node_size) I).

Record program_inv p : Prop := {
  inv_tunnel : reachable (tunnel p);
  inv_callback : mUnknownPeerCallback (tunnel p) = if registered p then λ _, [] else λ _, [Reject];
  inv_waits : ∀ ep, ep ∈ in_hands p ++ waits p → ep ∈ callback_calls (tunnel p);
  inv_undecided : ∀ ep, undecided (tunnel p) ep → ep ∈ in_hands p ++ waits p;
}.

(** Every call of the callback puts its endpoint at the end of the queue. *)
Lemma ask_all_run eps s :
  ∃ s', for_each eps onUnknownPeer s = (Ret tt, s') ∧
    (ep <$> waiting_list s' = (ep <$> waiting_list s) ++ eps) ∧ held s' = held s.
Proof.
  revert s. induction eps as [|e eps IH]; intros s; csimpl; [exists s; by rewrite app_nil_r|].
  destruct (ask_run e s) as (s1 & Hr & Hw & _ & _ & _ & _ & Ht). destruct (IH s1) as (s' & Hr' & Hw' & Hh).
  exists s'. unfold mbind, M_bind. rewrite Hr. split; [done|].
  split; [by rewrite Hw', Hw, fmap_app, <-app_assoc|]. unfold held in *. by rewrite Hh, Ht.
Qed.

(** Decisions about endpoints that were asked about are events of the tunnel. *)
Lemma decide_calls_run (ds : list (PendingApproval * PeerDecision)) t :
  reachable t → Forall (λ pd, ep pd.1 ∈ callback_calls t) ds →
  ∃ t', for_each ds (λ pd, decide_peer pd.2 (ep pd.1)) t = (Ret tt, t') ∧ reachable t' ∧
    callback_calls t' = callback_calls t ∧ mUnknownPeerCallback t' = mUnknownPeerCallback t ∧
    mPendingPeers t' = mPendingPeers t ∧
    posted t' = posted t ++ ((λ pd, job_of (ep pd.1) pd.2) <$> ds).
Proof.
  intros Ht Hds. revert t Ht Hds. induction ds as [|[q d] ds IH]; intros t Ht Hds.
  { exists t. csimpl. rewrite app_nil_r. by split_and!. }
  apply Forall_cons in Hds as [Hq Hds]. simpl in Hq.
  set (t1 := upd_posted (λ js, js ++ [job_of (ep q) d]) t).
  assert (decide_peer d (ep q) t = (Ret tt, t1)) as Hr by done.
  destruct (IH t1) as (t' & Hr' & Hreach & Hc & Hcb & Hp & Hj).
  - by apply (reachable_step I t (EvDecide d (ep q))).
  - exact Hds.
  - exists t'. cbn [for_each]. unfold mbind, M_bind. cbn [fst snd]. rewrite Hr. split; [exact Hr'|].
    split; [done|]. split_and!; try done. rewrite Hj. simpl. by rewrite <-app_assoc.
Qed.

Lemma job_decided (ds : list (PendingApproval * PeerDecision)) q :
  q ∈ ep <$> ds.*1 → let js := (λ pd, job_of (ep pd.1) pd.2) <$> ds in
  JobAccept q ∈ js ∨ JobReject q ∈ js.
Proof.
  intros (x & -> & Hx)%list_elem_of_fmap. apply list_elem_of_fmap in Hx as ([y []] & -> & Hy).
  - left. apply (list_elem_of_fmap_2 (λ pd, job_of (ep pd.1) pd.2) _ _ Hy).
  - right. apply (list_elem_of_fmap_2 (λ pd, job_of (ep pd.1) pd.2) _ _ Hy).
Qed.

(** The two kinds of events, in steps. *)
Lemma tunnel_event_run e p t' asked :
  handle_event e (tunnel p) = (Ret tt, t') → callback_calls t' = callback_calls (tunnel p) ++ asked →
  tunnel_event e p = if registered p
    then (let '(r, s') := for_each asked onUnknownPeer (app p) in (r, mkProgram t' s' (registered p)))
    else (Ret tt, mkProgram t' (app p) (registered p)).
Proof.
  intros Hr Hc. unfold tunnel_event, mbind, M_bind, gets, zoom. rewrite Hr.
  cbn [registered set_tunnel tunnel app]. rewrite Hc, drop_app_length.
  destruct p as [t s []]; simpl; [|done]. by destruct (for_each asked onUnknownPeer s).
Qed.

Lemma app_event_run e p s' ds :
  approval_handle e (app p) = (Ret true, s') → decisions s' = decisions (app p) ++ ds →
  app_event e p = (let '(r, t') := for_each ds (λ pd, decide_peer pd.2 (ep pd.1)) (tunnel p) in
                   (r, mkProgram t' s' (registered p))).
Proof.
  intros Hr Hd. unfold app_event, mbind, M_bind, gets, zoom. rewrite Hr.
  cbn [set_app tunnel app]. by rewrite Hd, drop_app_length.
Qed.

Lemma tunnel_event_inv e p :
  program_inv p → program_event_ok (node_size:=node_size) I (PTunnel e) p →
  ∃ p', tunnel_event e p = (Ret tt, p') ∧ program_inv p'.
Proof.
  intros [Ht Hcb Hw Hu] Hok.
  assert (event_ok e (tunnel p) ∧ ∀ cb, e ≠ EvSetCallback cb) as [Hev Hne] by (by destruct e).
  destruct (returns_run _ _ _ (handle_event_inv I e (tunnel p) (reachable_inv I _ Ht) Hev))
    as ([] & t' & Hr & _).
  pose proof (asked_handle_event e Hne (tunnel p)) as [Hcb' (asked & Hcalls & Hu')].
  rewrite Hr in Hcb', Hcalls, Hu'. cbn [snd] in Hcb', Hcalls, Hu'.
  assert (reachable t') as Ht' by (by eapply reachable_step).
  rewrite (tunnel_event_run e p t' asked Hr Hcalls). destruct (registered p) eqn:Hreg.
  - destruct (ask_all_run asked (app p)) as (s' & -> & Hs' & Hh). eexists. split; [done|].
    split; simpl; [done|by rewrite Hcb', Hcb| |]; unfold waits, in_hands in *; simpl; rewrite Hs', Hh, app_assoc.
    + intros q. rewrite Hcalls, !(elem_of_app _ asked). intros [Hq|?]; [left; by apply Hw|by right].
    + intros q Hq. rewrite elem_of_app. destruct (Hu' q Hq) as [Hq'|[Hq' _]]; [left; by apply Hu|by right].
  - eexists. split; [done|]. split; simpl; [done|by rewrite Hcb', Hcb| |]; unfold waits, in_hands in *; simpl.
    + intros q Hq. rewrite Hcalls, elem_of_app. left. by apply Hw.
    + intros q Hq. destruct (Hu' q Hq) as [Hq'|[_ Hq']]; [by apply Hu|]. by rewrite Hcb in Hq'.
Qed.

Lemma app_event_inv e p :
  program_inv p → (∀ ep, e ≠ Asked ep) →
  ∃ p', app_event e p = (Ret tt, p') ∧ program_inv p'.
Proof.
  intros [Ht Hcb Hw Hu] He.
  destruct (handle_effect e (app p) He) as (s' & tk & ds & Hr & Heff & Hd & Hh & _).
  assert (in_hands p ++ waits p ≡ₚ (ep <$> ds.*1) ++ (ep <$> held s') ++ (ep <$> waiting_list s')) as Hq.
  { unfold in_hands, waits. rewrite Heff, fmap_app, app_assoc, <-fmap_app, Hh.
    by rewrite fmap_app, <-app_assoc. }
  assert (Forall (λ pd, ep pd.1 ∈ callback_calls (tunnel p)) ds) as Hds.
  { apply Forall_forall. intros [q d] Hin. apply Hw. rewrite Hq, elem_of_app. left.
    apply list_elem_of_fmap_2. apply (list_elem_of_fmap_2 fst _ _ Hin). }
  destruct (decide_calls_run ds (tunnel p) Ht Hds) as (t' & Hr' & Ht' & Hc & Hcb' & Hp & Hj).
  rewrite (app_event_run e p s' ds Hr Hd), Hr'. eexists. split; [done|].
  split; simpl; [done|by rewrite Hcb'| |].
  - intros q Hin. rewrite Hc. apply Hw. rewrite Hq, elem_of_app. by right.
  - intros q (Hin & Ha & Hrj). rewrite Hp in Hin. rewrite Hj, elem_of_app in Ha, Hrj.
    assert (q ∈ in_hands p ++ waits p) as Hwait by (apply Hu; unfold undecided; tauto).
    rewrite Hq, elem_of_app in Hwait. destruct Hwait as [[Hjs|Hjs]%job_decided|]; [|by destruct Hrj; right|done].
    destruct Ha. by right.
Qed.

Lemma program_event_inv e p :
  program_inv p → program_event_ok (node_size:=node_size) I e p →
  ∃ p', program_handle e p = (Ret tt, p') ∧ program_inv p'.
Proof.
  intros Hp Hok. destruct e as [|e|e]; cbn [program_handle].
  - eexists. split; [reflexivity|]. destruct Hp as [Ht Hcb Hw Hu]. split; simpl; try done.
    by apply (reachable_step I (tunnel p) (EvSetCallback (λ _, []))).
  - by apply tunnel_event_inv.
  - apply app_event_inv; [done|]. by intros ep ->.
Qed.

Lemma program_reachable_inv p : program_reachable (node_size:=node_size) I p → program_inv p.
Proof.
  induction 1 as [w script peers zero Hw|p e p' _ IH Hok Hr].
  - split; [by apply reachable_new|done| |]; simpl; [intros ep Hep; by apply elem_of_nil in Hep|].
    intros ep (Hp & _). simpl in Hp. set_solver.
  - destruct (program_event_inv e p IH Hok) as (p1 & Hr1 & Hinv).
    rewrite Hr in Hr1. by injection Hr1 as <-.
Qed.

(** C15: no unknown peer is forgotten between the tunnel and the user: in every
    reachable state of the program each event is handled without an exception
    or undefined behaviour, the tunnel's state is one that [UdpTunnelSpec]
    speaks of, and a peer that the tunnel holds as pending is waiting in the
    queue of questions, or a thread has taken it from there and has its call of
    [accept] or [reject] ahead, or its acceptance or rejection is already posted
    to the IO thread. *)
Theorem pending_peers_answered p (e : ProgramEvent W) :
  program_reachable (node_size:=node_size) I p → program_event_ok (node_size:=node_size) I e p →
  (∃ p', program_handle e p = (Ret tt, p') ∧ program_reachable (node_size:=node_size) I p') ∧
  reachable (tunnel p) ∧
  ∀ ep, ep ∈ mPendingPeers (tunnel p) →
    ep ∈ waits p ∨ (∃ q d key again, Deciding q d key again ∈ threads (app p) ∧ Approvals.ep q = ep) ∨
    JobAccept ep ∈ posted (tunnel p) ∨ JobReject ep ∈ posted (tunnel p).
Proof.
  intros Hp Hok. pose proof (program_reachable_inv p Hp) as Hinv. split; [|split].
  - destruct (program_event_inv e p Hinv Hok) as (p' & Hr & _). exists p'. split; [done|].
    by eapply program_step.
  - apply Hinv.
  - intros ep Hep. destruct (decide (JobAccept ep ∈ posted (tunnel p))); [by right; right; left|].
    destruct (decide (JobReject ep ∈ posted (tunnel p))); [by right; right; right|].
    assert (ep ∈ in_hands p ++ waits p) as [Hin|Hin]%elem_of_app by by apply (inv_undecided p Hinv).
    + right. left. apply list_elem_of_fmap in Hin as (q & -> & Hin).
      apply list_elem_of_bind in Hin as (th & Hin & Hth).
      destruct th as [q' d key again|key]; [|by apply elem_of_nil in Hin].
      apply list_elem_of_singleton in Hin as ->. by exists q', d, key, again.
    + by left.
Qed.
End invariant.

(** ** A stranger and the user's answer *)

Section stranger.
Context {AS : Asio} {LK : Link} {node_size : nat} {LW : LinkLaws node_size}.
Context {W : Type} {GW : GatewayOps W} (I : W → Prop) {GL : GatewayLaws W I} {Bpm : Type}.
Implicit Types (p : Program W Bpm) (t : UdpTunnel W) (s : State Bpm).

Abbreviation hello := (control_datagram TUNNEL_HELLO).

Definition stranger t (from : UdpEndpoint) : Prop :=
  mEndpointToPeerIdx t !! from = None ∧ (from ∉ mRejectedPeers t) ∧ from ∉ mPendingPeers t.

(** What HELLO of a stranger leaves: the question. *)
Definition asking (from : UdpEndpoint) t : UdpTunnel W :=
  upd_callback_calls (λ l, l ++ [from]) (upd_mPendingPeers (λ eps, {[from]} ∪ eps)
    (upd_mSocket (set_receiving (is_running t)) t)).

Lemma stranger_hello_run from now t :
  stranger t from → mUnknownPeerCallback t from = [] →
  onDatagram from hello now t = (Ret tt, asking from t).
Proof.
  intros (Hi & Hr & Hp) Hcb. rewrite (onDatagram_run _ _ _ _
    (upd_callback_calls (λ l, l ++ [from]) (upd_mPendingPeers (λ eps, {[from]} ∪ eps)
      (upd_mSocket (set_receiving false) t)))); [|by apply (length_control (node_size:=node_size))|].
  - unfold asking. destruct t as [? ? ? ? []]; done.
  - rewrite (handleReceive_hello (node_size:=node_size)).
    unfold handleHello, mbind at 1, M_bind at 1, gets.
    cbn [mEndpointToPeerIdx upd_mSocket]. rewrite Hi.
    unfold handleUnknownPeer, mbind, M_bind, gets, modify.
    cbn [mRejectedPeers mPendingPeers upd_mSocket]. rewrite !decide_False by done.
    change (mUnknownPeerCallback _) with (mUnknownPeerCallback t). by rewrite Hcb.
Qed.

(** HELLO of a rejected endpoint changes nothing. *)
Lemma rejected_hello_run from now t :
  mEndpointToPeerIdx t !! from = None → from ∈ mRejectedPeers t →
  onDatagram from hello now t = (Ret tt, upd_mSocket (set_receiving (is_running t)) t).
Proof.
  intros Hi Hr. rewrite (onDatagram_run _ _ _ _ (upd_mSocket (set_receiving false) t));
    [|by apply (length_control (node_size:=node_size))|].
  - destruct t as [? ? ? ? []]; done.
  - rewrite (handleReceive_hello (node_size:=node_size)).
    unfold handleHello, mbind at 1, M_bind at 1, gets.
    cbn [mEndpointToPeerIdx upd_mSocket]. rewrite Hi. unfold handleUnknownPeer, mbind, M_bind, gets.
    cbn [mRejectedPeers mPendingPeers upd_mSocket]. by rewrite decide_True.
Qed.

Lemma ask_first_run e s :
  waiting_list s = [] →
  ∃ s' n, onUnknownPeer e s = (Ret tt, s') ∧ waiting_list s' = [mkPending n e] ∧
    prompts s' = prompts s ++ [e] ∧ threads s' = threads s.
Proof.
  destruct s as [? ? ? ? ? [q n al] ds ? ? ?]. unfold waiting_list. simpl. intros ->.
  unfold onUnknownPeer, mbind, M_bind, modify, gets. cbn [pending approvals nextId].
  rewrite bool_decide_true by done. eexists _, n. split; [reflexivity|]. by split_and!.
Qed.

(** The key takes the only question, and the next step of its thread decides it. *)
Lemma key_run (accept : bool) q s :
  waiting_list s = [q] →
  ∃ s', approval_handle (KeyPressed accept) s = (Ret true, s') ∧ prompts s' = prompts s ∧
    decisions s' = decisions s ∧ threads s' = threads s ++ [Deciding q (key_decision accept) true false].
Proof.
  destruct s as [? ? ? ? ? [ws n al] ds ? ? ?]. unfold waiting_list. simpl. intros ->.
  eexists. split; [reflexivity|]. by split_and!.
Qed.

Lemma decides_run q d ths s :
  threads s = ths ++ [Deciding q d true false] →
  ∃ s', approval_handle (Proceeds (length ths)) s = (Ret true, s') ∧ prompts s' = prompts s ∧
    decisions s' = decisions s ++ [(q, d)].
Proof.
  intros Ht. cbn [approval_handle]. unfold mbind, M_bind, gets. rewrite Ht, list_lookup_middle by done.
  eexists. split; [reflexivity|]. by split.
Qed.

(** The accepted peer, in the table and greeted. *)
Definition accepted (from : UdpEndpoint) t : UdpTunnel W :=
  upd_mSocket (record_send hello from)
    (upd_mEndpointToPeerIdx <[from := length (mPeers t)]>
      (upd_mPeers (λ ps, ps ++ [mkPeer from DISCONNECTED 0])
        (upd_mPendingPeers (λ eps, eps ∖ {[from]}) t))).

Lemma accept_job_run from t :
  mEndpointToPeerIdx t !! from = None → accept_job from t = (Ret tt, accepted from t).
Proof.
  intros Hi. unfold accept_job, push_peer. unfold mbind at 1, M_bind at 1, modify at 1.
  unfold mbind at 1, M_bind at 1, gets at 1. rewrite decide_True by done.
  unfold mbind, M_bind, modify, gets. unfold sendHello.
  rewrite (sendControlMessage_run (node_size:=node_size)) by done. unfold accepted. do 4 f_equal.
  simpl. rewrite length_app. simpl. by rewrite Nat.add_sub.
Qed.
(** The question, the key and the job that follows from it. *)
Lemma question_run from now p :
  stranger (tunnel p) from → mUnknownPeerCallback (tunnel p) from = [] → registered p = true →
  waiting_list (app p) = [] →
  ∃ s' n, program_handle (PTunnel (EvDatagram from hello now)) p =
      (Ret tt, mkProgram (asking from (tunnel p)) s' true) ∧
    waiting_list s' = [mkPending n from] ∧ prompts s' = prompts (app p) ++ [from] ∧
    threads s' = threads (app p).
Proof.
  intros Hs Hcb Hreg Hw. destruct (ask_first_run from (app p) Hw) as (s' & n & Hr & Hw' & Hp & Ht).
  exists s', n. cbn [program_handle].
  rewrite (tunnel_event_run (EvDatagram from hello now) p _ [from] (stranger_hello_run from now _ Hs Hcb) eq_refl), Hreg.
  cbn [for_each]. unfold mbind, M_bind. by rewrite Hr.
Qed.

Lemma answer_run (accept : bool) from n now p :
  waiting_list (app p) = [mkPending n from] → posted (tunnel p) = [] →
  mEndpointToPeerIdx (tunnel p) !! from = None →
  ∃ p1 p2 p3, program_handle (PApp (KeyPressed accept)) p = (Ret tt, p1) ∧
    program_handle (PApp (Proceeds (length (threads (app p))))) p1 = (Ret tt, p2) ∧
    program_handle (PTunnel (EvRunNext now)) p2 = (Ret tt, p3) ∧
    tunnel p3 = (if accept then accepted from
                 else λ t, upd_mRejectedPeers (λ eps, {[from]} ∪ eps)
                             (upd_mPendingPeers (λ eps, eps ∖ {[from]}) t)) (tunnel p).
Proof.
  intros Hw Hj Hi. destruct (key_run accept _ _ Hw) as (s1 & Hr1 & _ & Hd1 & Ht1).
  destruct (decides_run _ _ _ _ Ht1) as (s2 & Hr2 & _ & Hd2).
  set (d := key_decision accept) in *. set (p1 := mkProgram (tunnel p) s1 (registered p)).
  set (p2 := mkProgram (upd_posted (λ js, js ++ [job_of from d]) (tunnel p)) s2 (registered p)).
  assert (program_handle (PApp (KeyPressed accept)) p = (Ret tt, p1)) as Hkey.
  { cbn [program_handle]. by erewrite (app_event_run _ _ s1 []) by (rewrite ?app_nil_r; done). }
  assert (program_handle (PApp (Proceeds (length (threads (app p))))) p1 = (Ret tt, p2)) as Hstep.
  { cbn [program_handle]. by erewrite (app_event_run _ p1 s2 _ Hr2 Hd2). }
  set (t3 := (if accept then accepted from else _) (tunnel p)).
  assert (run_next now (tunnel p2) = (Ret tt, t3)) as Hjob.
  { unfold run_next, mbind, M_bind, gets, modify. simpl. rewrite Hj. unfold t3, d.
    destruct (tunnel p). simpl in Hj, Hi. subst. destruct accept; simpl; [|done].
    by rewrite accept_job_run. }
  exists p1, p2, (mkProgram t3 s2 (registered p)). split; [exact Hkey|]. split; [exact Hstep|].
  split; [|done]. cbn [program_handle]. rewrite (tunnel_event_run (EvRunNext now) p2 t3 [] Hjob).
  - by destruct (registered p2) eqn:Hreg; simpl in *; rewrite ?Hreg.
  - rewrite app_nil_r. unfold t3. by destruct accept.
Qed.

Lemma inv_asking from t : inv I t → inv I (asking from t).
Proof. by intros []; split. Qed.

Lemma inv_accepted from t : inv I t → mEndpointToPeerIdx t !! from = None → inv I (accepted from t).
Proof.
  intros Ht Hi. pose proof (preserves_accept_job (node_size:=node_size) I from t Ht) as Hwp.
  unfold wp in Hwp. by rewrite accept_job_run in Hwp.
Qed.

(** The greeted peer answers and is connected. *)
Lemma accepted_hello_run from now t :
  inv I t → mEndpointToPeerIdx t !! from = None →
  ∃ t', onDatagram from hello now (accepted from t) = (Ret tt, t') ∧ connected_from t' from ∧
    send_calls (mSocket t') = send_calls (mSocket t) ++ [(hello, from); (hello, from)].
Proof.
  intros Ht Hi.
  assert (mEndpointToPeerIdx (accepted from t) !! from = Some (length (mPeers t))) as Hidx
    by (simpl; by rewrite lookup_insert_eq).
  destruct (hello_run (node_size:=node_size) I from now (accepted from t)) as (t' & Hr & _ & Hc & _ & Hs).
  - by apply inv_accepted.
  - by eexists.
  - exists t'. split; [done|]. split; [done|]. rewrite Hs, decide_False; [simpl; by rewrite <-app_assoc|].
    intros (i & q & Hi' & Hq & Hst). rewrite Hidx in Hi'. simplify_eq.
    simpl in Hq. rewrite lookup_app_r, Nat.sub_diag in Hq by done. by simplify_eq/=.
Qed.

(** C14: a stranger and the user's answer.  When an unknown peer says HELLO and
    nothing else is in the queues, the user is asked; the key takes the question
    from the queue and its thread's next step posts the decision.  After a
    yes the IO thread's next job greets the peer, and the peer's own HELLO then
    connects it.  After a no the peer is recorded as rejected: it is sent
    nothing, its next HELLO is ignored and the user is not asked again. *)
Theorem stranger_answered p (from : UdpEndpoint) (accept : bool) now1 now2 now3 :
  program_reachable (node_size:=node_size) I p → registered p = true →
  waits p = [] → from ∉ in_hands p → posted (tunnel p) = [] →
  mEndpointToPeerIdx (tunnel p) !! from = None → from ∉ mRejectedPeers (tunnel p) →
  ∃ p1 p1' p2 p3 t4,
    program_handle (PTunnel (EvDatagram from hello now1)) p = (Ret tt, p1) ∧
    prompts (app p1) = prompts (app p) ++ [from] ∧
    program_handle (PApp (KeyPressed accept)) p1 = (Ret tt, p1') ∧
    program_handle (PApp (Proceeds (length (threads (app p))))) p1' = (Ret tt, p2) ∧
    program_handle (PTunnel (EvRunNext now2)) p2 = (Ret tt, p3) ∧
    onDatagram from hello now3 (tunnel p3) = (Ret tt, t4) ∧
    if accept
    then connected_from t4 from ∧
      send_calls (mSocket t4) = send_calls (mSocket (tunnel p)) ++ [(hello, from); (hello, from)]
    else from ∈ mRejectedPeers t4 ∧ (¬ connected_from t4 from) ∧
      send_calls (mSocket t4) = send_calls (mSocket (tunnel p)) ∧
      callback_calls t4 = callback_calls (tunnel p1).
Proof.
  intros Hp Hreg Hw Hnh Hj Hi Hrej. destruct (program_reachable_inv I p Hp) as [Ht Hcb _ Hu].
  apply (reachable_inv I) in Ht. rewrite Hreg in Hcb.
  assert (stranger (tunnel p) from) as Hs.
  { split; [done|]. split; [done|]. intros Hin.
    assert (from ∈ in_hands p ++ waits p) as Hin'; [|by rewrite Hw, app_nil_r in Hin'].
    apply Hu. unfold undecided. rewrite Hj. split; [done|]. by split; intros ?%elem_of_nil. }
  destruct (question_run from now1 p Hs) as (s' & n & Hr1 & Hq & Hprompt & Hth);
    [by rewrite Hcb|done|by apply fmap_nil_inv in Hw|].
  set (p1 := mkProgram (asking from (tunnel p)) s' true) in *.
  destruct (answer_run accept from n now2 p1 Hq Hj Hi) as (p1' & p2 & p3 & Hr2 & Hr2' & Hr3 & Ht3).
  simpl in Hr2'. rewrite Hth in Hr2'.
  destruct accept.
  - destruct (accepted_hello_run from now3 (asking from (tunnel p))) as (t4 & Hr4 & Hc & Hsend);
      [by apply inv_asking|done|].
    exists p1, p1', p2, p3, t4. rewrite Ht3. by split_and!.
  - exists p1, p1', p2, p3, (upd_mSocket (set_receiving (is_running (tunnel p3))) (tunnel p3)).
    assert (from ∈ mRejectedPeers (tunnel p3)) as Hrejected by (rewrite Ht3; simpl; set_solver).
    assert (mEndpointToPeerIdx (tunnel p3) !! from = None) as Hi3 by by rewrite Ht3.
    split_and!; try done.
    + by apply rejected_hello_run.
    + intros (i & q & Hi' & _). simpl in Hi'. congruence.
    + simpl. by rewrite Ht3.
    + simpl. by rewrite Ht3.
Qed.
End stranger.

Module ProgramWitnesses.
Import Sample Recorder UdpWitnesses.

(** The program with one configured peer, after its first jobs. *)
Definition p0 : Program recorded unit := new_Program [] [] [studio] tt.
Definition p1 := (program_handle PRegister p0).2.
Definition p2 := (program_handle (PTunnel (EvRunNext 1)) p1).2.
Definition p3 := (program_handle (PTunnel (EvRunNext 2)) p2).2.

Lemma p3_reachable : program_reachable (node_size:=1) (λ _, True) p3.
Proof.
  apply (program_step _ p2 (PTunnel (EvRunNext 2))); [|done|unfold p3; apply run_outcome; evaluate].
  apply (program_step _ p1 (PTunnel (EvRunNext 1))); [|done|unfold p2; apply run_outcome; evaluate].
  apply (program_step _ p0 PRegister); [|done|unfold p1; apply run_outcome; evaluate].
  by apply program_new.
Qed.

Lemma pending_peers_answered_witness :
  ∃ p', program_handle (PApp (KeyPressed true)) p3 = (Ret tt, p').
Proof.
  destruct (pending_peers_answered (node_size:=1) (λ _, True) p3 (PApp (KeyPressed true)))
    as [(p' & Hr & _) _].
  - apply p3_reachable.
  - exact Logic.I.
  - exists p'. exact Hr.
Defined.

Lemma stranger_answered_witness :
  ∃ p' (t' : UdpTunnel recorded), program_handle (PTunnel (EvDatagram stranger hello 3)) p3 = (Ret tt, p') ∧
    connected_from t' stranger.
Proof.
  destruct (stranger_answered (node_size:=1) (λ _, True) p3 stranger true 3 4 5)
    as (p4 & _ & p5 & p6 & t & H1 & _ & _ & _ & _ & _ & H2 & _).
  - apply p3_reachable.
  - evaluate.
  - evaluate.
  - decide_now.
  - evaluate.
  - evaluate.
  - decide_now.
  - exists p4, t. split; [exact H1|exact H2].
Defined.
End ProgramWitnesses.
