(* ===== verification/LinkExtender.v ===== *)
(** * LinkExtender.hpp, and what main.cpp sets up with it

    [LinkExtender] passes every call on to its [Controller].  The constructor of
    [State] in [main.cpp] registers the callbacks that keep the numbers which the
    program displays, while the IO thread already runs. *)

From S2P Require Import Prelude LinkLib Sample DedupCache Tunnel UdpTunnel TunnelGateway SharedRing.
From S2P Require Import ShmTunnel Arguments Approvals Controller.

Section definitions.
Context {AS : Asio} {LK : Link} {SL : SessionLib} {W : Type} {GW : GatewayOps W} {U : Type}.

(** [mController], in the two parts that [Controller.v] models: the callbacks
    and peer tables, and the tunnel. *)
Record LinkExtender := mkLinkExtender {
  mController : Controller U;
  mTunnel : AnyTunnel W;
}.
Definition set_mController c (l : LinkExtender) : LinkExtender := mkLinkExtender c (mTunnel l).
Definition set_mTunnel t (l : LinkExtender) : LinkExtender := mkLinkExtender (mController l) t.

Definition new_LinkExtender (config : Config) (u : U) (id : SessionId) (none : Peers) (w : W)
    (script : list (option cpp_exn)) (object : option SharedMemory) : result LinkExtender :=
  t ← createTunnel config w script object;
  mret (mkLinkExtender (new_Controller u id none) t).

Definition addPeer (ep : UdpEndpoint) : M LinkExtender unit :=
  zoom mTunnel set_mTunnel (Controller.addPeer ep).
Definition removePeer (ep : UdpEndpoint) : M LinkExtender unit :=
  zoom mTunnel set_mTunnel (Controller.removePeer ep).
Definition setNumPeersCallback (callback : nat → nat → U → U) : M LinkExtender unit :=
  modify (λ l, set_mController (Controller.setNumPeersCallback callback (mController l)) l).
Definition setTempoCallback (callback : Bpm → U → U) : M LinkExtender unit :=
  modify (λ l, set_mController (Controller.setTempoCallback callback (mController l)) l).
Definition setStartStopCallback (callback : bool → U → U) : M LinkExtender unit :=
  modify (λ l, set_mController (Controller.setStartStopCallback callback (mController l)) l).
Definition setUnknownPeerCallback (callback : UdpEndpoint → list PeerDecision) :
    M LinkExtender unit :=
  zoom mTunnel set_mTunnel (Controller.setUnknownPeerCallback callback).

(** What the Link library does reaches the controller. *)
Definition session_changes (es : list SessionEvent) (l : LinkExtender) : LinkExtender :=
  set_mController (session_events es (mController l)) l.
End definitions.
Arguments LinkExtender {AS LK SL} W U.

(** ** The callbacks of the program *)

Section program.
Context {AS : Asio} {LK : Link} {SL : SessionLib} {W : Type} {GW : GatewayOps W}.
Implicit Types (l : LinkExtender W (State Bpm)) (c : Controller (State Bpm)).

(** What the IO thread does between two statements of the constructor. *)
Abbreviation io_thread_runs es := (modify (session_changes es)).

(** The body of the constructor of [State].  The IO thread has been running since
    the controller was constructed.  The callback for unknown peers queues its
    question ([Approvals.onUnknownPeer]) and decides nothing itself. *)
Definition register_callbacks (es1 es2 es3 : list SessionEvent) : M (LinkExtender W (State Bpm)) unit :=
  setNumPeersCallback (λ local remote s, (onNumPeers local remote s).2);;
  io_thread_runs es1;;
  setTempoCallback (λ b s, (onTempo b s).2);;
  io_thread_runs es2;;
  setStartStopCallback (λ playing s, (onStartStop playing s).2);;
  io_thread_runs es3;;
  setUnknownPeerCallback (λ _, []).

(** The constructor: its members first. *)
Definition start (config : Config) (zero : Bpm) (id : SessionId) (none : Peers) (w : W)
    (script : list (option cpp_exn)) (object : option SharedMemory)
    (es0 es1 es2 es3 : list SessionEvent) : result (LinkExtender W (State Bpm)) :=
  l ← new_LinkExtender config (new_State zero) id none w script object;
  match (io_thread_runs es0;; register_callbacks es1 es2 es3) l with
  | (Ret _, l) => Ret l
  | (Throw e, _) => Throw e
  | (Undef u, _) => Undef u
  end.

(** The two counts that the program displays, and the two it should. *)
Definition displayed (s : State Bpm) : nat * nat := (localPeers s, remotePeers s).
Definition counts c : nat * nat := (local_count c, remote_count c).

(** What the events tell the program. *)
Definition last_tempo (zero : Bpm) (es : list SessionEvent) : Bpm :=
  foldl (λ b e, match e with LocalSession _ t => bpm t | _ => b end) zero es.
Definition last_playing (b : bool) (es : list SessionEvent) : bool :=
  foldl (λ b e, match e with StartStop b' => b' | _ => b end) b es.

(** *** The counts *)

(** What the counts are made of. *)
Definition tables c := (mLocalSessionId c, mRemoteSessionId c, mLocalPeers c, mRemotePeers c).

Lemma counter_tables count_fn counter exchange c :
  (∀ n d, tables (exchange n d) = tables d) →
  tables (session_peer_counter count_fn counter exchange c).2 = tables c.
Proof.
  intros Hx. unfold session_peer_counter, mbind, M_bind, gets, modify.
  case_decide; [|apply Hx]. unfold notifyPeerCount, mbind, M_bind, gets, modify. simpl.
  trans (tables (exchange (count_fn c) c)); [done|apply Hx].
Qed.

(** The tables after an event, whatever the callbacks. *)
Lemma tables_event e c d :
  tables c = tables d → tables (session_event e c).2 = tables (session_event e d).2.
Proof.
  intros [= H1 H2 H3 H4]. destruct e as [p|p|i t|i t|b]; cbn [session_event];
    try (unfold session_timeline, session_start_stop, mbind, M_bind, modify, gets, skip, mret, M_ret;
         unfold count_local, count_remote; rewrite !counter_tables by done);
    unfold tables; simpl; congruence.
Qed.

Lemma tables_counts c d : tables c = tables d → counts c = counts d.
Proof. intros [= H1 H2 H3 H4]. unfold counts, local_count, remote_count. congruence. Qed.

Record counted c : Prop := {
  counted_callbacks : callbacks_show displayed c;
  counted_local : mSessionPeerCounter c = local_count c;
  counted_remote : mRemoteSessionPeerCounter c = remote_count c;
}.

(** Counting one side: the display is right, or it is as before and so are the
    counts. *)
Lemma count_local_shows c n :
  callbacks_show displayed c → mRemoteSessionPeerCounter c = remote_count c →
  mSessionPeerCounter c = n →
  counted (count_local c).2 ∧
  (displayed (user (count_local c).2) = counts (count_local c).2 ∨
   displayed (user (count_local c).2) = displayed (user c) ∧ local_count c = n).
Proof.
  intros Hcb Hr Hl. unfold count_local, session_peer_counter, mbind, M_bind, gets, modify. rewrite Hl.
  case_decide as Hd.
  - unfold notifyPeerCount, mbind, M_bind, gets, modify. split; [split; try done; by destruct Hcb|].
    left. simpl. by rewrite (count_shows _ _ Hcb).
  - split; [split; try done; by destruct Hcb|]. right. by split.
Qed.

Lemma count_remote_shows c n :
  callbacks_show displayed c → mSessionPeerCounter c = local_count c →
  mRemoteSessionPeerCounter c = n →
  counted (count_remote c).2 ∧
  (displayed (user (count_remote c).2) = counts (count_remote c).2 ∨
   displayed (user (count_remote c).2) = displayed (user c) ∧ remote_count c = n).
Proof.
  intros Hcb Hl Hr. unfold count_remote, session_peer_counter, mbind, M_bind, gets, modify. rewrite Hr.
  case_decide as Hd.
  - unfold notifyPeerCount, mbind, M_bind, gets, modify. split; [split; try done; by destruct Hcb|].
    left. simpl. by rewrite (count_shows _ _ Hcb).
  - split; [split; try done; by destruct Hcb|]. right. by split.
Qed.

Lemma session_event_shows e c :
  counted c →
  counted (session_event e c).2 ∧
  (displayed (user (session_event e c).2) = counts (session_event e c).2 ∨
   displayed (user (session_event e c).2) = displayed (user c) ∧
   counts (session_event e c).2 = counts c).
Proof.
  intros [Hcb Hl Hr].
  assert (∀ d n, callbacks_show displayed d → mRemoteSessionPeerCounter d = remote_count d →
    mSessionPeerCounter d = n → displayed (user d) = displayed (user c) → (n, remote_count d) = counts c →
    counted (count_local d).2 ∧ (displayed (user (count_local d).2) = counts (count_local d).2 ∨
      displayed (user (count_local d).2) = displayed (user c) ∧ counts (count_local d).2 = counts c))
    as Hlocal.
  { intros d n Hd Hrd Hld <- <-. destruct (count_local_shows d n Hd Hrd Hld) as [? [?|[? <-]]];
      (split; [done|]); [by left|right]. split; [done|].
    apply (tables_counts (count_local d).2 d). by apply counter_tables. }
  assert (∀ d n, callbacks_show displayed d → mSessionPeerCounter d = local_count d →
    mRemoteSessionPeerCounter d = n → displayed (user d) = displayed (user c) → (local_count d, n) = counts c →
    counted (count_remote d).2 ∧ (displayed (user (count_remote d).2) = counts (count_remote d).2 ∨
      displayed (user (count_remote d).2) = displayed (user c) ∧ counts (count_remote d).2 = counts c))
    as Hremote.
  { intros d n Hd Hld Hrd <- <-. destruct (count_remote_shows d n Hd Hld Hrd) as [? [?|[? <-]]];
      (split; [done|]); [by left|right]. split; [done|].
    apply (tables_counts (count_remote d).2 d). by apply counter_tables. }
  destruct e as [p|p|i t|i t|b]; cbn [session_event].
  - apply (Hlocal (set_local_peers p c) (local_count c)); [by destruct Hcb|done..].
  - apply (Hremote (set_remote_peers p c) (remote_count c)); [by destruct Hcb|done..].
  - apply (Hlocal (upd_user (mTempoCallback c t) (set_local_session i c)) (local_count c));
      [by destruct Hcb|done|done| |done]. simpl. by rewrite (tempo_keeps _ _ Hcb).
  - apply (Hremote (set_remote_session i c) (remote_count c)); [by destruct Hcb|done..].
  - split; [split; try done; by destruct Hcb|]. right. split; [|done].
    simpl. by rewrite (start_stop_keeps _ _ Hcb).
Qed.

(** Since [c1], through the events [evs]: the display is right, or nothing has
    been displayed and no count has changed. *)
Definition shown_since c1 (evs : list SessionEvent) c : Prop :=
  counted c ∧ tables c = tables (session_events evs c1) ∧
  (displayed (user c) = counts c ∨
   displayed (user c) = (0, 0)%nat ∧ ∀ n, counts (session_events (take n evs) c1) = counts c1).

Lemma session_events_snoc evs e c :
  session_events (evs ++ [e]) c = (session_event e (session_events evs c)).2.
Proof. unfold session_events. by rewrite foldl_app. Qed.

Lemma shown_event c1 evs e c :
  shown_since c1 evs c → shown_since c1 (evs ++ [e]) (session_event e c).2.
Proof.
  intros (Hc & Ht & Hd). destruct (session_event_shows e c Hc) as [Hc' Hd'].
  assert (tables (session_event e c).2 = tables (session_events (evs ++ [e]) c1)) as Ht'
    by (rewrite session_events_snoc; by apply tables_event).
  split; [done|]. split; [done|]. destruct Hd' as [|[Hdd Hcc]]; [by left|].
  destruct Hd as [Hd|[Hd Hall]]; [left; congruence|right]. split; [congruence|]. intros n.
  destruct (decide (n ≤ length evs)%nat).
  - rewrite take_app_le by done. apply Hall.
  - rewrite take_ge by (rewrite length_app; simpl; lia).
    rewrite <-(tables_counts _ _ Ht'), Hcc, (tables_counts _ _ Ht), <-(Hall (length evs)).
    by rewrite take_ge.
Qed.

Lemma shown_events c1 evs es c :
  shown_since c1 evs c → shown_since c1 (evs ++ es) (session_events es c).
Proof.
  revert evs c. induction es as [|e es IH]; intros evs c Hc; [by rewrite app_nil_r|].
  rewrite (cons_middle e), app_assoc. apply (IH (evs ++ [e]) (session_event e c).2).
  by apply shown_event.
Qed.

(** Registering the other callbacks does not matter. *)
Lemma shown_tempo c1 evs c :
  shown_since c1 evs c → shown_since c1 evs (Controller.setTempoCallback (λ b s, (onTempo b s).2) c).
Proof. intros ([[] ? ?] & ? & ?). split; [by split|done]. Qed.
Lemma shown_start_stop c1 evs c :
  shown_since c1 evs c →
  shown_since c1 evs (Controller.setStartStopCallback (λ b s, (onStartStop b s).2) c).
Proof. intros ([[] ? ?] & ? & ?). split; [by split|done]. Qed.

(** *** Before any callback is registered *)

Record unregistered (u : State Bpm) c : Prop := {
  no_callbacks : mPeerCountCallback c = (λ _ _ u, u) ∧ mTempoCallback c = (λ _ u, u) ∧
    mStartStopCallback c = (λ _ u, u);
  same_user : user c = u;
  same_counters : mSessionPeerCounter c = local_count c ∧ mRemoteSessionPeerCounter c = remote_count c;
}.

Lemma unregistered_local u c :
  mPeerCountCallback c = (λ _ _ u, u) ∧ mTempoCallback c = (λ _ u, u) ∧
    mStartStopCallback c = (λ _ u, u) →
  user c = u → mRemoteSessionPeerCounter c = remote_count c → unregistered u (count_local c).2.
Proof.
  intros (Hn & Ht & Hs) Hu Hr. unfold count_local, session_peer_counter, mbind, M_bind, gets, modify.
  case_decide as Hd; [unfold notifyPeerCount, mbind, M_bind, gets, modify|]; split; simpl; rewrite ?Hn; done.
Qed.

Lemma unregistered_remote u c :
  mPeerCountCallback c = (λ _ _ u, u) ∧ mTempoCallback c = (λ _ u, u) ∧
    mStartStopCallback c = (λ _ u, u) →
  user c = u → mSessionPeerCounter c = local_count c → unregistered u (count_remote c).2.
Proof.
  intros (Hn & Ht & Hs) Hu Hr. unfold count_remote, session_peer_counter, mbind, M_bind, gets, modify.
  case_decide as Hd; [unfold notifyPeerCount, mbind, M_bind, gets, modify|]; split; simpl; rewrite ?Hn; done.
Qed.

Lemma unregistered_events u es c : unregistered u c → unregistered u (session_events es c).
Proof.
  revert c. induction es as [|e es IH]; intros c Hc; [done|]. apply (IH (session_event e c).2).
  destruct Hc as [(Hn & Ht & Hs) Hu [Hl Hr]]. destruct e as [p|p|i t|i t|b]; cbn [session_event].
  - by apply (unregistered_local u (set_local_peers p c)).
  - by apply (unregistered_remote u (set_remote_peers p c)).
  - apply (unregistered_local u (upd_user (mTempoCallback c t) (set_local_session i c))); [done| |done].
    simpl. by rewrite Ht.
  - by apply (unregistered_remote u (set_remote_session i c)).
  - split; simpl; rewrite ?Hs; done.
Qed.

(** *** Tempo and transport *)

(** The peer count callback is registered, and the other two if [tc] and [sc]:
    the tempo is [b], the transport state [playing], and the rest is as in [s]. *)
Record told (tc sc : bool) c (b : Bpm) (playing : bool) (s : State Bpm) : Prop := {
  told_callbacks : mPeerCountCallback c = (λ local remote s, (onNumPeers local remote s).2) ∧
    mTempoCallback c = (if tc then λ t s, (onTempo (bpm t) s).2 else λ _ s, s) ∧
    mStartStopCallback c = (if sc then λ playing s, (onStartStop playing s).2 else λ _ s, s);
  told_tempo : tempo (user c) = b;
  told_playing : isPlaying (user c) = playing;
  told_rest : running (user c) = running s ∧ pending (user c) = pending s ∧
    decisions (user c) = decisions s;
}.

(** Counting one side tells nothing else. *)
Lemma told_counted tc sc count_fn counter exchange c b playing s :
  told tc sc c b playing s → (∀ n, told tc sc (exchange n c) b playing s) →
  told tc sc (session_peer_counter count_fn counter exchange c).2 b playing s.
Proof.
  intros Hc Hx. unfold session_peer_counter, mbind, M_bind, gets, modify.
  case_decide; [|apply Hx]. unfold notifyPeerCount, mbind, M_bind, gets, modify. simpl.
  destruct (Hx (count_fn c)) as [(Hn & Ht & Hs) ? ? (? & ? & ?)].
  rewrite Hn. by split; simpl; rewrite ?Hn.
Qed.

Lemma told_event tc sc e c b playing s :
  told tc sc c b playing s →
  told tc sc (session_event e c).2 (if tc then last_tempo b [e] else b)
    (if sc then last_playing playing [e] else playing) s.
Proof.
  intros [(Hn & Ht & Hs) Hb Hp (Hr & Hq & Hd)]. destruct e as [p|p|i t|i t|b']; cbn [session_event].
  - apply (told_counted _ _ _ _ _ (set_local_peers p c)); destruct tc, sc; by split.
  - apply (told_counted _ _ _ _ _ (set_remote_peers p c)); destruct tc, sc; by split.
  - apply (told_counted _ _ _ _ _ (upd_user (mTempoCallback c t) (set_local_session i c)));
      destruct tc, sc; split; simpl; rewrite ?Ht; by split_and?.
  - apply (told_counted _ _ _ _ _ (set_remote_session i c)); destruct tc, sc; by split.
  - unfold session_start_stop, mbind, M_bind, gets, modify.
    destruct tc, sc; split; simpl; rewrite ?Hs; by split_and?.
Qed.

Lemma told_events tc sc es c b playing s :
  told tc sc c b playing s →
  told tc sc (session_events es c) (if tc then last_tempo b es else b)
    (if sc then last_playing playing es else playing) s.
Proof.
  revert c b playing. induction es as [|e es IH]; intros c b playing Hc; [by destruct tc, sc|].
  apply (told_event tc sc e) in Hc. apply (IH (session_event e c).2) in Hc.
  destruct tc, sc; exact Hc.
Qed.

(** *** The whole constructor *)

Definition with_callbacks (es1 es2 es3 : list SessionEvent) c : Controller (State Bpm) :=
  session_events es3 (Controller.setStartStopCallback (λ playing s, (onStartStop playing s).2)
    (session_events es2 (Controller.setTempoCallback (λ b s, (onTempo b s).2)
      (session_events es1
        (Controller.setNumPeersCallback (λ local remote s, (onNumPeers local remote s).2) c))))).

(** Registering cannot fail: the result, for both tunnels. *)
Lemma register_callbacks_run es1 es2 es3 l :
  register_callbacks es1 es2 es3 l =
    (Ret tt, mkLinkExtender (with_callbacks es1 es2 es3 (mController l))
      match mTunnel l with
      | AUdpTunnel t => AUdpTunnel (upd_mUnknownPeerCallback (λ _ _, []) t)
      | AShmTunnel t => AShmTunnel t
      end).
Proof. by destruct l as [c []]. Qed.

(** The program starts unless the tunnel cannot be created. *)
Lemma start_run config zero id none w script object es0 es1 es2 es3 :
  start config zero id none w script object es0 es1 es2 es3 =
    (t ← createTunnel config w script object;
     mret (mkLinkExtender (with_callbacks es1 es2 es3
         (session_events es0 (new_Controller (new_State zero) id none)))
       match t with
       | AUdpTunnel t => AUdpTunnel (upd_mUnknownPeerCallback (λ _ _, []) t)
       | AShmTunnel t => AShmTunnel t
       end)).
Proof.
  unfold start, new_LinkExtender. destruct (createTunnel config w script object) as [t|e|u]; [|done..].
  cbn [mbind result_bind mret result_ret]. unfold mbind at 1, M_bind at 1, modify.
  by rewrite register_callbacks_run.
Qed.

(** C31: what the program displays.  The IO thread runs from the construction of
    the controller on ([es0]), also between the registrations of the callbacks
    ([es1], [es2], [es3]).  Afterwards, whatever has changed by then ([es]), the
    two numbers displayed are the current numbers of peers in the local and the
    remote session, unless neither number has ever changed since the peer count
    callback was registered: then zeros are displayed, which is right if nobody
    was there at that moment.  The tempo and the transport state displayed are
    the last that were heard since their callbacks were registered.  Nothing
    else of the program's state is touched. *)
Theorem status_current config zero id none w script object l (es0 es1 es2 es3 es : list SessionEvent) :
  (∀ i, uniqueSessionPeerCount none i = 0%nat) →
  start config zero id none w script object es0 es1 es2 es3 = Ret l →
  let registered := session_events es0 (new_Controller (new_State zero) id none) in
  let since := (es1 ++ es2 ++ es3 ++ es)%list in
  let c := mController (session_changes es l) in
  (counts registered = (0, 0)%nat ∨
   (∃ n, counts (session_events (take n since) registered) ≠ counts registered) →
   displayed (user c) = counts c) ∧
  (displayed (user c) = counts c ∨ displayed (user c) = (0, 0)%nat) ∧
  counts c = counts (session_events since registered) ∧
  tempo (user c) = last_tempo zero (es2 ++ es3 ++ es) ∧
  isPlaying (user c) = last_playing false (es3 ++ es) ∧
  running (user c) = true ∧ pending (user c) = pending (new_State zero) ∧
  mTunnel (session_changes es l) = mTunnel l.
Proof.
  intros Hnone Hstart c1 since c. rewrite start_run in Hstart.
  destruct (createTunnel config w script object) as [t|e|u]; [|done..]. injection Hstart as <-.
  assert (unregistered (new_State zero) c1) as [(Hn & Ht & Hs) Hu [Hl Hr]].
  { apply unregistered_events. split; [done|done|]. unfold local_count, remote_count. simpl. by rewrite !Hnone. }
  fold c1 in c. change c with (session_events es (with_callbacks es1 es2 es3 c1)).
  assert (shown_since c1 since (session_events es (with_callbacks es1 es2 es3 c1))) as (_ & Htab & Hshown).
  { unfold since. rewrite !app_assoc. apply shown_events, shown_events, shown_start_stop, shown_events,
      shown_tempo, (shown_events c1 [] es1). split; [split; [split|done|done]|split; [done|]].
    - done.
    - intros x u. simpl. by rewrite Ht.
    - intros x u. simpl. by rewrite Hs.
    - right. simpl. rewrite Hu. split; [done|]. intros n. by rewrite take_nil. }
  assert (told true true (session_events es (with_callbacks es1 es2 es3 c1))
    (last_tempo (last_tempo (last_tempo zero es2) es3) es) (last_playing (last_playing false es3) es)
    (new_State zero)) as [_ Htempo Hplay (Hrun & Hpend & _)].
  { apply (told_events true true es), (told_events true true es3).
    assert (told true false (session_events es2 (Controller.setTempoCallback (λ b s, (onTempo b s).2)
      (session_events es1 (Controller.setNumPeersCallback (λ local remote s, (onNumPeers local remote s).2)
        c1)))) (last_tempo zero es2) false (new_State zero)) as [(? & ? & ?) ? ? ?]; [|by split].
    apply (told_events true false es2).
    assert (told false false (session_events es1 (Controller.setNumPeersCallback
      (λ local remote s, (onNumPeers local remote s).2) c1)) zero false (new_State zero))
      as [(? & ? & ?) ? ? ?]; [|by split].
    apply (told_events false false es1). by split; simpl; rewrite ?Hu. }
  apply tables_counts in Htab. split_and!; try done.
  - destruct Hshown as [|[Hz Hall]]; [done|]. intros [H0|[n Hne]]; [|by destruct Hne].
    rewrite Hz, Htab, <-H0, <-(Hall (length since)). by rewrite take_ge.
  - destruct Hshown as [|[? _]]; [by left|by right].
  - rewrite Htempo. unfold last_tempo. by rewrite !foldl_app.
  - rewrite Hplay. unfold last_playing. by rewrite foldl_app.
Qed.
End program.

Module LinkExtenderWitnesses.
Import Sample Recorder ControllerWitnesses.

Definition empty : @Peers lib := [].
Definition zero : @Bpm lib := 0.
Definition id0 : @SessionId lib := 0%nat.
Definition slow : @Tempo lib := 60.
Definition events : list SessionEvent :=
  [LocalPeers here; RemotePeers there; LocalSession session1 fast; StartStop true].

(** A session is joined before the tempo callback is registered, and local peers
    come in right after the peer count callback. *)
Definition started_program : result (LinkExtender recorded (State (@Bpm lib))) :=
  start default_config zero id0 empty [] [] None [LocalSession id0 slow] [LocalPeers here] [] [].

Lemma status_current_witness :
  ∃ l, started_program = Ret l ∧
    displayed (user (mController (session_changes events l))) = (0, 1)%nat ∧
    tempo (user (mController (session_changes events l))) = fast.
Proof.
  destruct started_program as [l|e|u] eqn:Hs; [|discriminate Hs|discriminate Hs].
  exists l. split; [reflexivity|].
  destruct (status_current default_config zero id0 empty [] [] None l [LocalSession id0 slow]
    [LocalPeers here] [] [] events) as (Hd & _ & Hc & Ht & _).
  - intros i. reflexivity.
  - exact Hs.
  - split; [|exact Ht].
    exact (eq_trans (Hd (or_introl eq_refl)) (eq_trans Hc eq_refl)).
Defined.

(** Peers counted before the callbacks are registered are not displayed until
    their number changes again. *)
Lemma early_peers_not_displayed :
  match start (W:=recorded) default_config zero id0 empty [] [] None [LocalPeers here] [] [] [] with
  | Ret l =>
      let c := mController (session_changes [LocalPeers here] l) in
      displayed (user c) = (0, 0)%nat ∧ counts c = (2, 0)%nat
  | _ => False
  end.
Proof. vm_compute. by split. Qed.
End LinkExtenderWitnesses.
