(* ===== verification/Console.v ===== *)
(** * main.cpp: the terminal

    What the program prints, the mode of the terminal, and [main] as a whole:
    the arguments, the construction of [State], the display loop and the
    handlers.  The text written to [std::cout] and [std::cerr] is recorded in
    order, in the pieces it is written in.  Once [State] exists, other threads
    write to [std::cout] too, between any two pieces of the main thread: the
    prompts and notices of [Approvals.v], what [input] answers to the keys, and the
    [clearLine] with which it ends.  What they write is an argument of the model
    ([others]), and it stays in the recorded text. *)

From Stdlib Require Import Strings.String Strings.Ascii.
From stdpp Require Import pretty.
From S2P Require Import Prelude LinkLib Sample Arguments Approvals.

#[local] Open Scope string_scope.
#[local] Open Scope Z_scope.

(** ** Numbers as [std::ostream] prints them *)

(** A finite [double]: [mantissa * 2 ^ exponent]. *)
Record double := mkDouble { mantissa : Z; exponent : Z }.

(** [n / d] rounded to the nearest integer, ties to even, for [0 ≤ n], [0 < d]. *)
Definition round_even (n d : Z) : Z :=
  let q := n / d in
  let r := 2 * (n mod d) in
  if decide (r < d) then q
  else if decide (d < r) then q + 1
  else if Z.even q then q else q + 1.

(** The absolute value in hundredths. *)
Definition hundredths (x : double) : Z :=
  if decide (0 ≤ exponent x) then Z.abs (mantissa x) * 100 * 2 ^ exponent x
  else round_even (Z.abs (mantissa x) * 100) (2 ^ (- exponent x)).

(** [std::fixed << std::setprecision(2) << x] *)
Definition fixed2 (x : double) : string :=
  let h := hundredths x in
  (if decide (mantissa x < 0) then "-" else "") ++
  pretty (h / 100) ++ "." ++ pretty (h mod 100 / 10) ++ pretty (h mod 10).

Fixpoint spaces (n : nat) : string :=
  match n with O => "" | S n => String " " (spaces n) end.

(** [std::left << std::setw(n) << s] *)
Definition setw (n : nat) (s : string) : string := s ++ spaces (n - String.length s).

(** ** The terminal *)

(** [others]: what the other threads will have written by the main thread's next
    piece, by the one after it, and so on. *)
Record Terminal := mkTerminal {
  cout : list string;
  cerr : list string;
  icanon : bool;                 (* ICANON in c_lflag *)
  others : list (list string);
}.
(** Before [State] exists there is no other thread. *)
Definition print_alone (s : string) : M Terminal unit :=
  modify (λ t, mkTerminal (cout t ++ [s]) (cerr t) (icanon t) (others t)).
Definition print_error (s : string) : M Terminal unit :=
  modify (λ t, mkTerminal (cout t) (cerr t ++ [s]) (icanon t) (others t)).

(** The other threads write for a while. *)
Definition others_write : M Terminal unit :=
  modify (λ t, mkTerminal (cout t ++ default [] (head (others t))) (cerr t) (icanon t) (tail (others t))).
Definition print (s : string) : M Terminal unit := others_write;; print_alone s.

(** [thread.join()]: the input thread writes what it has left. *)
Definition join_input : M Terminal unit := others_write.

Definition disableBufferedInput : M Terminal unit :=
  modify (λ t, mkTerminal (cout t) (cerr t) false (others t)).
Definition enableBufferedInput : M Terminal unit :=
  modify (λ t, mkTerminal (cout t) (cerr t) true (others t)).

Definition newline : string := String "010" "".
Definition carriage_return : string := String "013" "".

Definition clearLine : M Terminal unit := print ("   " ++ carriage_return).

Definition header_line : string := "local peers | remote peers | tempo   | playing".
Definition printStateHeader : M Terminal unit := print (header_line ++ newline).

Section display.
Context {AS : Asio}.

Definition state_pieces (s : State double) : list string :=
  [setw 11 (pretty (localPeers s)); " | "; setw 12 (pretty (remotePeers s)); " | ";
   setw 7 (fixed2 (tempo s)); " | "; if isPlaying s then "[playing]" else "[stopped]"].
Definition printState (s : State double) : M Terminal unit :=
  for_each (state_pieces s) print;; clearLine.

(** The line, if no other thread writes into it. *)
Definition state_line (s : State double) : string := foldr String.append "" (state_pieces s).

Definition usage (prog : string) : string :=
  "Usage: " ++ prog ++ " [--port N] [--peer host:port] ..." ++ newline ++ newline ++
  "  --port N           Local UDP port to listen on (default: 20909)" ++ newline ++
  "  --peer host:port   Remote ALE instance to connect to (repeatable)" ++ newline ++
  "                     host may be a hostname, IPv4, or [IPv6] address" ++ newline ++
  "  --shm              Use shared-memory tunnel instead of UDP" ++ newline ++
  "                     (useful for testing with network namespaces on the same host)" ++ newline ++
  newline ++ "  Keys while running:" ++ newline ++ "    q   quit" ++ newline ++
  "    a   accept pending unknown peer" ++ newline ++ "    d   deny pending unknown peer" ++ newline.
Definition printUsage (prog : string) : M Terminal unit := print_error (usage prog).

(** An exception with the exceptions nested in it: none, another one, or an
    object that is no [std::exception]. *)
Inductive exception :=
  | Plain (what : string)
  | Nesting (what : string) (nested : exception)
  | NestingOther (what : string).
Definition what (e : exception) : string :=
  match e with Plain w | Nesting w _ | NestingOther w => w end.

Fixpoint print_exception (e : exception) (level : nat) : M Terminal unit :=
  print_error (spaces level ++ "exception: " ++ what e ++ newline);;
  match e with
  | Nesting _ nested => print_exception nested (S level)
  | Plain _ | NestingOther _ => skip
  end.

(** ** [main] *)

(** The lines about the configuration; [print_endpoint] is asio's [operator<<]. *)
Context (print_endpoint : UdpEndpoint → string).
Definition announce (config : Config) : M Terminal unit :=
  if use_shm config then print_alone ("Using shared-memory tunnel." ++ newline)
  else
    print_alone ("UDP tunnel on port " ++ pretty (tunnel_port config));;
    if decide (peers config = []) then
      print_alone (" (no configured peers — awaiting incoming connections)" ++ newline)
    else
      print_alone (" with " ++ pretty (length (peers config)) ++ " peer(s):" ++ newline);;
      for_each (peers config) (λ ep, print_alone ("  " ++ print_endpoint ep ++ newline)).

(** [while (state.running)], for the states it sees one after the other; [false]
    when it is still running after them. *)
Fixpoint display_loop (seen : list (State double)) : M Terminal bool :=
  match seen with
  | [] => mret false
  | s :: seen => if running s then printState s;; display_loop seen else mret true
  end.

(** The [try] block; [construct] is the constructor of [State], [exception_of]
    the exceptions' texts.  [None]: [std::exit(0)] was called. *)
Definition try_block (prog : string) (args : list string) (construct : Config → result unit)
    (seen : list (State double)) : M Terminal (option bool) :=
  parsed ← lift (parseArgs args);
  match parsed with
  | None => printUsage prog;; mret None
  | Some config =>
      announce config;;
      lift (construct config);;
      disableBufferedInput;;
      printStateHeader;;
      ended ← display_loop seen;
      (if ended : bool
       then print ("Stopped running..." ++ newline);; enableBufferedInput;; join_input else skip);;
      mret (Some ended)
  end.

(** How the process is left: with an exit code, or still running. *)
Inductive Outcome := Exit (code : Z) | StillRunning.

Context (exception_of : cpp_exn → exception).
Definition catch_clauses (prog : string) (e : cpp_exn) : M Terminal Outcome :=
  (match e with
   | InvalidArgument => print_error ("Error: " ++ what (exception_of e) ++ newline ++ newline);; printUsage prog
   | _ => print_exception (exception_of e) 0
   end);; mret (Exit 1).

Definition main_program (prog : string) (args : list string) (construct : Config → result unit)
    (seen : list (State double)) : M Terminal Outcome :=
  try_catch (λ _, true)
    (r ← try_block prog args construct seen;
     match r with
     | None => mret (Exit 0)
     | Some true => print ("Done" ++ newline);; mret (Exit 0)
     | Some false => mret StillRunning
     end)
    (catch_clauses prog).
End display.

(** ** Numbers and columns *)

Section numbers.
Implicit Types (n : N) (s : string).











End numbers.

(** ** What the operations print *)

Section runs.
Context {AS : Asio} (print_endpoint : UdpEndpoint → string) (exception_of : cpp_exn → exception).
Implicit Types (t : Terminal) (s : State double).

Definition printed (l : list string) t : Terminal :=
  mkTerminal (cout t ++ l) (cerr t) (icanon t) (others t).
Definition reported (l : list string) t : Terminal :=
  mkTerminal (cout t) (cerr t ++ l) (icanon t) (others t).

Lemma printed_app l l' t : printed l' (printed l t) = printed (l ++ l') t.
Proof. unfold printed. simpl. by rewrite app_assoc. Qed.
Lemma reported_app l l' t : reported l' (reported l t) = reported (l ++ l') t.
Proof. unfold reported. simpl. by rewrite app_assoc. Qed.

Lemma print_alone_run x t : print_alone x t = (Ret tt, printed [x] t).
Proof. done. Qed.

Lemma for_each_print_alone {A} (xs : list A) (f : A → string) t :
  for_each xs (λ x, print_alone (f x)) t = (Ret tt, printed (f <$> xs) t).
Proof.
  revert t. induction xs as [|x xs IH]; intros t; csimpl.
  - destruct t. unfold printed. simpl. by rewrite app_nil_r.
  - unfold mbind, M_bind. rewrite print_alone_run, IH, printed_app. done.
Qed.

(** The main thread writes [xs], in order, and the other threads something in
    between: as much of [others] as there are pieces, and [n] more. *)
Definition among_others (n : nat) (xs : list string) t t' : Prop :=
  ∃ l, cout t' = (cout t ++ l)%list ∧ interleaved xs (concat (take (length xs + n) (others t))) l ∧
    others t' = drop (length xs + n) (others t) ∧ cerr t' = cerr t ∧ icanon t' = icanon t.

Lemma among_others_app n m xs ys t1 t2 t3 :
  among_others n xs t1 t2 → among_others m ys t2 t3 → among_others (n + m) (xs ++ ys) t1 t3.
Proof.
  intros (l1 & Hc1 & Hi1 & Ho1 & He1 & Hm1) (l2 & Hc2 & Hi2 & Ho2 & He2 & Hm2).
  exists (l1 ++ l2)%list. rewrite Hc2, Hc1, Ho2, Ho1, He2, Hm2, <-app_assoc, drop_drop.
  rewrite Ho1 in Hi2. rewrite length_app.
  replace (length xs + length ys + (n + m))%nat with ((length xs + n) + (length ys + m))%nat by lia.
  split; [done|]. split; [|by split_and!].
  rewrite <-(take_drop (length xs + n) (take (length xs + n + (length ys + m)) (others t1))).
  rewrite take_take, Nat.min_l, skipn_firstn_comm, concat_app by lia.
  replace (length xs + n + (length ys + m) - (length xs + n))%nat with (length ys + m)%nat by lia.
  by apply interleaved_app.
Qed.

Lemma others_write_run t : ∃ t', others_write t = (Ret tt, t') ∧ among_others 1 [] t t'.
Proof.
  eexists. split; [reflexivity|]. eexists. split; [reflexivity|]. simpl.
  destruct (others t) as [|o os]; simpl; [by split_and!; first [constructor|done]|].
  split; [|done]. rewrite app_nil_r. apply interleaved_right.
Qed.

Lemma among_alone x t t' : among_others 1 [] t t' → among_others 0 [x] t (printed [x] t').
Proof.
  intros (l & Hc & Hi & Ho & He & Hm). exists (l ++ [x])%list. simpl. rewrite Hc, app_assoc.
  split; [done|]. split; [|done]. rewrite <-(app_nil_r (concat _)).
  apply (interleaved_app [] _ _ [x] []); [exact Hi|]. apply interleaved_left.
Qed.

Lemma print_run x t : ∃ t', print x t = (Ret tt, t') ∧ among_others 0 [x] t t'.
Proof.
  destruct (others_write_run t) as (t' & Hr & Ht). exists (printed [x] t'). split.
  - unfold print. unfold mbind, M_bind. by rewrite Hr.
  - by apply among_alone.
Qed.

Definition set_icanon b t : Terminal := mkTerminal (cout t) (cerr t) b (others t).

Lemma among_icanon b n xs t t' :
  among_others n xs t t' → among_others n xs (set_icanon b t) (set_icanon b t').
Proof. intros (l & ? & ? & ? & ? & ?). by exists l. Qed.

Lemma among_nothing t : among_others 0 [] t t.
Proof. exists []. rewrite app_nil_r. split; [done|]. split; [constructor|done]. Qed.

Lemma for_each_print_run xs t : ∃ t', for_each xs print t = (Ret tt, t') ∧ among_others 0 xs t t'.
Proof.
  revert t. induction xs as [|x xs IH]; intros t; [exists t; split; [done|apply among_nothing]|].
  destruct (print_run x t) as (t1 & Hr & Ht). destruct (IH t1) as (t' & Hr' & Ht').
  exists t'. cbn [for_each]. unfold mbind, M_bind. rewrite Hr. split; [done|].
  by apply (among_others_app 0 0 [x] xs t t1).
Qed.

(** The lines of [announce]. *)
Definition announcement (config : Config) : list string :=
  if use_shm config then [("Using shared-memory tunnel." ++ newline)%string]
  else ("UDP tunnel on port " ++ pretty (tunnel_port config))%string ::
    if decide (peers config = []) then
      [(" (no configured peers — awaiting incoming connections)" ++ newline)%string]
    else (" with " ++ pretty (length (peers config)) ++ " peer(s):" ++ newline)%string ::
      ((λ ep, "  " ++ print_endpoint ep ++ newline)%string <$> peers config).

Lemma announce_run config t : announce print_endpoint config t = (Ret tt, printed (announcement config) t).
Proof.
  unfold announce, announcement. destruct (use_shm config); [done|].
  unfold mbind, M_bind. rewrite print_alone_run. case_decide; rewrite print_alone_run; [by rewrite printed_app|].
  by rewrite for_each_print_alone, !printed_app.
Qed.

(** An exception and those nested in it, outermost first. *)
Fixpoint nested_texts (e : exception) : list string :=
  match e with Plain w | NestingOther w => [w] | Nesting w e => w :: nested_texts e end.

Lemma print_exception_run e level t :
  print_exception e level t =
    (Ret tt, reported (imap (λ k w, spaces (level + k) ++ "exception: " ++ w ++ newline)%string
                         (nested_texts e)) t).
Proof.
  revert level t. induction e as [w|w e IH|w]; intros level t; csimpl; unfold mbind, M_bind;
    change (print_error ?x t) with (Ret (A:=unit) tt, reported [x] t); cbn [what]; rewrite Nat.add_0_r;
    [done| |done].
  rewrite IH, reported_app. do 2 f_equal. csimpl. f_equal. apply imap_ext. intros k x _. simpl.
  by rewrite Nat.add_succ_r.
Qed.

(** What a handler reports. *)
Definition report (prog : string) (e : cpp_exn) : list string :=
  if decide (e = InvalidArgument)
  then [("Error: " ++ what (exception_of e) ++ newline ++ newline)%string; usage prog]
  else imap (λ k w, spaces k ++ "exception: " ++ w ++ newline)%string (nested_texts (exception_of e)).

Lemma catch_clauses_run prog e t :
  catch_clauses exception_of prog e t = (Ret (Exit 1), reported (report prog e) t).
Proof.
  unfold catch_clauses, report, mbind, M_bind.
  assert (e ≠ InvalidArgument → print_exception (exception_of e) 0 t = (Ret tt, reported
    (imap (λ k w, spaces k ++ "exception: " ++ w ++ newline)%string (nested_texts (exception_of e))) t))
    as Hother by (intros _; apply print_exception_run).
  destruct e; try (rewrite Hother by done; done).
  unfold printUsage. change (print_error ?x ?t) with (Ret (A:=unit) tt, reported [x] t). simpl.
  change (print_error ?x ?t) with (Ret (A:=unit) tt, reported [x] t). by rewrite reported_app.
Qed.

(** The display, up to the first state that is not running. *)
Definition display (seen : list (State double)) : list string :=
  concat ((λ s, state_pieces s ++ [("   " ++ carriage_return)%string])%list <$> seen).

Lemma printState_run s t :
  ∃ t', printState s t = (Ret tt, t') ∧
    among_others 0 (state_pieces s ++ [("   " ++ carriage_return)%string]) t t'.
Proof.
  destruct (for_each_print_run (state_pieces s) t) as (t1 & Hr & Ht).
  destruct (print_run ("   " ++ carriage_return) t1) as (t' & Hr' & Ht'). exists t'. split.
  - unfold printState, clearLine. unfold mbind, M_bind. by rewrite Hr.
  - by apply (among_others_app 0 0 _ _ t t1).
Qed.

Lemma display_loop_run live stop rest t :
  Forall (λ s, running s = true) live → running stop = false →
  ∃ t', display_loop (live ++ stop :: rest) t = (Ret true, t') ∧ among_others 0 (display live) t t'.
Proof.
  intros Hlive Hstop. revert t. induction Hlive as [|s live Hs _ IH]; intros t; cbn [display_loop app].
  - rewrite Hstop. exists t. split; [done|]. apply among_nothing.
  - rewrite Hs. destruct (printState_run s t) as (t1 & Hr & Ht). destruct (IH t1) as (t' & Hr' & Ht').
    exists t'. unfold mbind, M_bind. rewrite Hr. split; [done|].
    by apply (among_others_app 0 0 _ (display live) t t1).
Qed.
End runs.

(** ** Theorems *)

Section theorems.
Context {AS : Asio} (print_endpoint : UdpEndpoint → string) (exception_of : cpp_exn → exception).
Implicit Types (t : Terminal) (s : State double).









(** What the main thread writes once [State] exists. *)
Definition session_text (live : list (State double)) : list string :=
  ((header_line ++ newline)%string :: display live ++
   [("Stopped running..." ++ newline)%string; ("Done" ++ newline)%string])%list.

(** C34: a run of the program from its arguments to its exit, in a terminal that
    is in canonical mode when it starts.  With arguments that parse it announces
    its configuration; then, if the tunnel and the controller can be constructed,
    it displays the states it sees until the user quits and ends with 0; what the
    other threads write meanwhile - prompts, answers, the end of [input] - stands
    between its pieces, in their order and its own.  If they cannot be
    constructed, it reports the exception, with everything nested in it, and ends
    with 1.  Arguments that do not parse are reported with the usage or the
    exception, code 1; [--help] shows the usage, code 0.  Whatever happens, the
    terminal is left in canonical mode. *)
Theorem main_session prog args (construct : Config → result unit) live stop rest t :
  icanon t = true → (∀ config u, construct config ≠ Undef u) →
  Forall (λ s, running s = true) live → running stop = false →
  ∃ code t', main_program print_endpoint exception_of prog args construct (live ++ stop :: rest) t =
      (Ret (Exit code), t') ∧ icanon t' = true ∧
    match parseArgs args with
    | Ret (Some config) =>
        match construct config with
        | Ret _ => code = 0 ∧ cerr t' = cerr t ∧
            ∃ l, cout t' = (cout t ++ announcement print_endpoint config ++ l)%list ∧
              interleaved (session_text live)
                (concat (take (S (length (session_text live))) (others t))) l
        | Throw e => code = 1 ∧ cout t' = (cout t ++ announcement print_endpoint config)%list ∧
            cerr t' = (cerr t ++ report exception_of prog e)%list
        | Undef _ => False
        end
    | Ret None => code = 0 ∧ cout t' = cout t ∧ cerr t' = (cerr t ++ [usage prog])%list
    | Throw e => code = 1 ∧ cout t' = cout t ∧ cerr t' = (cerr t ++ report exception_of prog e)%list
    | Undef _ => False
    end.
Proof.
  intros Hic Hc Hlive Hstop. unfold main_program, try_catch, try_block.
  unfold mbind at 1, M_bind at 1. unfold mbind at 1, M_bind at 1, lift at 1.
  assert (∀ u, parseArgs args ≠ Undef u) as Hundef.
  { intros u Hu. unfold parseArgs in Hu.
    destruct (parse_loop_user_error args default_config) as [[a Ha]|[Ha|Ha]]; congruence. }
  destruct (parseArgs args) as [[config|]|e|u]; [| | |by destruct (Hundef u)].
  2:{ eexists _, _. split; [reflexivity|]. by split_and!. }
  2:{ rewrite catch_clauses_run. eexists _, _. split; [reflexivity|]. by split_and!. }
  unfold mbind at 1, M_bind at 1. rewrite announce_run. unfold mbind at 1, M_bind at 1, lift at 1.
  specialize (Hc config). destruct (construct config) as [[]|e|u]; [| |by destruct (Hc u)].
  2:{ rewrite catch_clauses_run. eexists _, _. split; [reflexivity|]. by split_and!. }
  unfold mbind at 1, M_bind at 1, disableBufferedInput, modify at 1.
  set (t1 := mkTerminal _ _ false _).
  destruct (print_run (header_line ++ newline) t1) as (t2 & Hr2 & Ht2).
  destruct (display_loop_run live stop rest t2 Hlive Hstop) as (t3 & Hr3 & Ht3).
  destruct (print_run ("Stopped running..." ++ newline) t3) as (t4 & Hr4 & Ht4).
  destruct (others_write_run (set_icanon true t4)) as (t5 & Hr5 & Ht5).
  destruct (print_run ("Done" ++ newline) t5) as (t6 & Hr6 & Ht6).
  exists 0, t6. split.
  - unfold mbind at 1, M_bind at 1, printStateHeader. rewrite Hr2.
    unfold mbind at 1, M_bind at 1. rewrite Hr3. cbn [mbind M_bind]. unfold mbind, M_bind.
    rewrite Hr4. unfold enableBufferedInput, modify, join_input. fold (set_icanon true t4).
    rewrite Hr5. unfold mret, M_ret. by rewrite Hr6.
  - assert (among_others 1 (session_text live) (set_icanon true t1) t6) as (l & Hcout & Hl & _ & Hcerr & Hi).
    { pose proof (among_others_app _ _ _ _ _ _ _ Ht3 Ht4) as H34.
      pose proof (among_icanon true _ _ _ _ (among_others_app _ _ _ _ _ _ _ Ht2 H34)) as H24.
      pose proof (among_others_app _ _ _ _ _ _ _ H24 (among_others_app _ _ _ _ _ _ _ Ht5 Ht6)) as H26.
      unfold session_text. cbn [app] in H26. by rewrite <-app_assoc in H26. }
    split; [exact Hi|]. split; [done|]. split; [exact Hcerr|]. exists l. split.
    + rewrite Hcout. simpl. by rewrite <-app_assoc.
    + by rewrite Nat.add_1_r in Hl.
Qed.
End theorems.

Module ConsoleWitnesses.
Import Sample.

(** 120.125 beats per minute, a tie. *)
Definition shown : State double := mkState true 2 1 (mkDouble 961 (-3)) true
  (mkSharedPending [] 0 true) [] [] [] [].
Definition stopped : State double := upd_running (λ _, false) shown.

Lemma shown_line : state_line shown = "2           | 1            | 120.12  | [playing]".
Proof. vm_compute. reflexivity. Qed.


Definition text (e : cpp_exn) : exception :=
  match e with RuntimeError => Nesting "cannot open" (Plain "in use") | _ => Plain "bad" end.

(** The user quits: [input] clears the line after the main thread has written
    that it stops, and before it is joined. *)
Definition terminal : Terminal := mkTerminal [] [] true (replicate 10 [] ++ [[("   " ++ carriage_return)%string]])%list.

Lemma main_session_witness :
  ∃ code t', main_program (λ _, "") text "ale" ["--shm"]%list (λ _, Ret tt) [shown; stopped]
      terminal = (Ret (Exit code), t') ∧ icanon t' = true ∧ cerr t' = [] ∧
    ∃ l, cout t' = ("Using shared-memory tunnel." ++ newline)%string :: l ∧
      interleaved (session_text [shown]) [("   " ++ carriage_return)%string] l.
Proof.
  destruct (main_session (λ _, "") text "ale" ["--shm"]%list (λ _, Ret tt) [shown] stopped []
    terminal) as (code & t' & Hr & Hi & _ & He & l & Hc & Hl).
  - reflexivity.
  - intros config u. discriminate.
  - repeat constructor.
  - reflexivity.
  - exists code, t'. split; [exact Hr|]. split; [exact Hi|]. split; [exact He|].
    exists l. split; [exact Hc|exact Hl].
Defined.
End ConsoleWitnesses.
